(* ===== verification/_CoqProject ===== *)
-Q . S2P
Prelude.v
BufferApi.v
Libevent.v
Chunked.v
Buffer.v
Ownership.v
BufferRefs.v
Text.v
BufferPointers.v
Channel.v
Future.v
Task.v
Join.v
VoidResults.v
Coroutines.v
CoroutineSafety.v
Exploration.v
ControlFlowTests.v
AllSleeps.v
NetworkTest.v
ControlFlowMain.v
EventBase.v
EchoServer.v
UdpEchoServer.v
StringReader.v
ProtocolBuffer.v
MySQLTypes.v
Binlog.v
BinlogBounds.v
BinlogStats.v
MySQLClient.v
MySQLSession.v
BinlogReader.v
BinlogSession.v
Memcache.v
MemcacheStore.v
MemcacheFunctionalTest.v
Websocket.v
Request.v
Dns.v
RangeDns.v
Settings.v
HttpServer.v
WebsocketExample.v
HttpClient.v
HttpExamples.v
RequestDispatch.v
CommandLines.v
