(* ===== verification/Prelude.v ===== *)
(** * A verification of libevent-async

    libevent-async gives C++20 coroutines an interface to libevent: awaitable
    reads and writes, tasks, futures and channels, and on top of them clients of
    MySQL and memcache, a parser of MySQL binlogs and an HTTP and websocket server
    and client. This development translates the code under src/src into
    executable definitions and proves what makes it correct; where the code does
    something else than it means to, a theorem says what it does.

    ** The parts of the program

    - Buffer (Buffer.hh, Buffer.cc): an evbuffer as a queue of bytes, with
      awaiters that fill it from and empty it to a descriptor;
    - the event base (Base.cc, Event.cc): awaiters that call the kernel directly;
    - coroutines (Task.hh, Task.cc, Future.hh, Channel.hh): tasks and the
      combinators all, any, multi and all_limit, futures, channels;
    - MySQL (Protocols/MySQL): wire primitives, types, the client, the binlog
      parser; the client and the parser use the primitives, the primitives Buffer;
    - memcache (Protocols/Memcache) and HTTP (Protocols/HTTP), over Buffer;
    - name resolution (DNSBase.cc) and the settings of libevent's objects;
    - the example programs (Examples), which put these parts together.

    ** How code is translated

    A function of the program becomes a definition of the same name; where it has
    effects it is a computation [ST S A] (this file) over the state [S] it
    touches, which ends with a value, with a C++ exception that keeps the state
    reached, undefined ([Undef]: what C++ or the manual of a library leaves open),
    or out of fuel. A local variable is a component in front of the state
    ([with_local]). Bytes are [list byte], fixed-width integers are [Z] with their
    wrap-around written out ([u8] .. [u64], [s8] .. [s64]), strings are bytes,
    [unordered_map] is [gmap]. Uninitialized members are options, and pointers are
    keys of a map where aliasing or lifetime matters.

    ** Files

    - Prelude.v: outcomes, the monad, loops, [refines] and [delivers] (a
      computation does what an abstract one does, unless a library reports a
      failure), the database [refine] with [refine_auto], lemmas on lists and
      integers.
    - BufferApi.v: what Buffer promises: the operations ([BufferOps],
      [SocketOps]), their abstract meaning ([spec_buffer], [spec_socket]: queues
      of bytes), the laws as classes; the typed accessors of Buffer.hh.
    - Libevent.v, Chunked.v: libevent's functions as parameters with what the
      manual says of them, and a concrete instance.
    - Buffer.v: Buffer.cc over libevent; it is an instance of the laws.
    - Ownership.v: C++ objects that own a library's resource: construct, move,
      assign, destroy; the accounting its clients share.
    - BufferRefs.v: who frees evbuffers, strings and cleanup functions, and the
      functions given to Base::once.
    - Text.v: the conversions of printf and scanf the code uses.
    - BufferPointers.v: the methods of Buffer that hand out or take addresses,
      positions and sizes: pointers, iovecs, searches, copyout_from.
    - Channel.v, Future.v, Task.v, Join.v: Channel.hh; Future.hh; Task.hh and
      Task.cc, with AnyAwaiter and all_limit in Task.v and all, multi, any and
      detached tasks in Join.v. A coroutine is the sequence of its awaits; other
      coroutines act between any two steps.
    - VoidResults.v: the specialisations for void, which are the templates at unit.
    - Coroutines.v, CoroutineSafety.v: the same pieces composed: programs whose
      operations are awaits, calls, sets and writes, run by a machine of promises,
      futures, channels, timers and a stack of resumptions, as Task.hh, Future.hh,
      Channel.hh and Event.cc resume one another; its invariant.
    - Exploration.v: the choices that machine leaves open, the order of a set and
      which due timer fires first, and all the ends a program can have under them.
    - ControlFlowTests.v, AllSleeps.v, NetworkTest.v, ControlFlowMain.v:
      Examples/ControlFlowTests.cc as programs of that machine; its test of all, for
      all durations; its test over a socket pair, the callbacks of two tasks
      interleaved with the kernel; main, which runs all the tests.
    - EventBase.v: Base.cc and Event.cc over a sequence of answers of the kernel,
      and the loops of servers that wait again and again.
    - EchoServer.v, UdpEchoServer.v: the two echo servers.
    - StringReader.v: phosg's StringReader as an interface: the contract for reads
      within the string, and what two theorems ask for at its end.
    - ProtocolBuffer.v, MySQLTypes.v, Binlog.v, BinlogBounds.v: the files of
      Protocols/MySQL of these names (Binlog is BinlogProcessor).
    - MySQLClient.v, MySQLSession.v: Client.cc of MySQL; its properties.
    - BinlogStats.v, BinlogReader.v: what Examples/MySQLBinlogStats.cc and
      MySQLBinlogReader.cc do with the events of a stream.
    - BinlogSession.v: both programs whole, against a server: the MySQL client over
      any lawful buffer and connection, the parser, and the two files above.
    - Memcache.v, MemcacheStore.v: Protocols/Memcache; its client against a server
      as an abstract key-value store.
    - MemcacheFunctionalTest.v: Examples/MemcacheFunctionalTest.cc against it.
    - Websocket.v, Request.v, HttpServer.v, HttpClient.v: Protocols/HTTP: the
      websocket side of Server.cc; the parameters of Request.cc; responses,
      sockets and the life of websocket clients (Server.cc); requests under way
      and connections (Connection.cc, Request.cc).
    - WebsocketExample.v, HttpExamples.v: Examples/HTTPWebsocketServer.cc,
      HTTPServer.cc and HTTPClient.cc.
    - RequestDispatch.v: how evhttp's callback hands a request to a handler
      (Server.cc), and the handlers of both example servers.
    - Dns.v, RangeDns.v: the lookup awaiters of DNSBase.cc; their client
      Examples/RangeReverseDNS.cc.
    - Settings.v: the methods that are one call of libevent (Config.cc, Base.cc,
      Event.cc, DNSBase.cc, Connection.cc, Request.cc), and the TLS contexts.
    - CommandLines.v: the options of the example programs.

    The protocol files are parametric in [BufferOps] and [SocketOps]. Their
    definitions are proved to refine the same code over the abstract machine, and
    the properties are proved there; so they hold over every lawful buffer, of
    which Buffer.v is one.

    ** What the theorems show

    - Tasks: all_limit never runs more than its limit, ends in at most 4n + 1
      steps and returns with every task done; all waits for every task, any
      answers one that is done. Channels deliver in order of writes to readers in
      order of reads, and are defined exactly when no reader waits alone after an
      earlier one waited. Every awaiter of a future is resumed once, with the one
      outcome, under every interleaving.
    - Coroutines: whatever coroutines a program runs, each is resumed only where it
      is suspended and by what it awaits; co_await all of sleeping tasks ends when
      the longest sleep does; all the control flow tests pass, under every choice.
    - Ownership: a resource is held by one object and freed once, or lost where an
      assignment overwrites it, which is counted.
    - Buffer: the methods implement a queue of bytes, and throw a failure of
      libevent exactly when it reports one; read takes exactly the bytes asked for
      and write sends all, however the kernel cuts them; copies from a position are
      right for every size that fits the counts of the interface; everything left
      with libevent is deleted once.
    - The event base: what read and write answer for every sequence of answers of
      the kernel; read spins at the end of a stream; recvfrom loses an empty
      datagram. The echo server echoes; the UDP one does until the first empty
      datagram. The network test ends, under every interleaving of its callbacks.
    - MySQL: round trips of integers, commands, dates and times; a query answers
      the result sets the server sends; the handshake sends what the server needs
      to check the password; every value of a rows event is in the range of its
      column's type, its loop ends if every table has a column and never ends
      otherwise; a column's metadata is what its type calls for, or short where an
      event was cut short, and a cell with short metadata is never answered; a
      failed parse changes nothing.
    - The binlog programs: from the handshake to the end of the stream, the reader
      prints the report on the events, and statsd receives the lines of their
      metrics; the transactions reported are those of the stream.
    - Memcache: every method of the client is the operation on a key-value store
      that it names, with its errors, among them the two where it throws instead of
      answering false; the functional test passes against every server that keeps
      the protocol.
    - HTTP: frames are read as the frame-level specification says and what is
      written is read back; the handshake follows the key; percent-encoded
      parameters are parsed back; each response is sent once; requests in any
      interleaving go through their own life; connections of websocket clients are
      freed at most once. The websocket example answers every request once, opens
      no file outside its directory and serves its stream, whatever frames a client
      sends and wherever it stops. A handler is defined
      exactly as long as it does not use its request after a suspension, which the
      examples never do.
    - DNS: for every answer, whether the coroutine of a lookup is resumed and what
      it gets; a block of addresses is looked up once each.
    - Options are parsed as they are written; the requests and TLS contexts that
      the clients lose are counted.

    ** Fuel and bounds

    Loops run with fuel as a binary number, through [loop]. The loops that read
    packets, frames or rows of a session have 2^64, more than the bytes a
    connection can carry within the sizes the theorems assume; the callbacks of an
    awaiter have one more than the bytes asked for, as each moves a byte; the rows
    of an event have one more than its bytes. The theorems conclude with the
    result, for the fuel a definition fixes or for any fuel above an explicit
    bound; where a loop does not end, every amount of fuel runs out. The machine of
    Coroutines.v takes a number of steps; the theorems about it hold of every
    state reached, or give the number of steps after which nothing is left.

    ** Parameters and hypotheses

    libevent (the class [LibeventSpec] states its manual, [LibeventSettings] lists
    its setters), the kernel's answers and how it delivers bytes, evhttp, evdns
    and OpenSSL (whether calls succeed), a memcached server (its moves on a
    key-value store; it has memory to spare, and time passes for its entries by
    the microsecond), phosg's StringReader (two theorems on the binlog also hold
    at the end of a string, where they take a reader that answers what is left),
    split, starts_with, ends_with, rot13, load_file, format_time, print_data,
    value_for_hex_char, escape_quotes, base64 and usecs_to_timeval, SHA-1 and
    SHA-256, getenv and inet_addr, the parsers of floating-point numbers and the
    random numbers. Each property with such a hypothesis has a witness with a
    concrete instance.

    ** Not modelled

    [FutureBase::exception], which does not compile when it is used; constructors
    and assignments that are declared and never defined, or deleted; the destruction
    of suspended frames in the machine of Coroutines.v; the nameserver configuration
    that is compiled on Windows only; what the programs write to their standard
    error. Class declarations are the records and definitions of what they declare. *)
From stdpp Require Import tactics base list numbers strings countable gmap.
From Stdlib Require Import Strings.Byte Lia.

#[global] Open Scope Z_scope.

(** ** Bytes *)

Abbreviation byte := Init.Byte.byte.
Abbreviation bytes := (list Init.Byte.byte).

#[export] Instance byte_eq_dec : EqDecision byte := Byte.byte_eq_dec.

#[export] Program Instance byte_countable : Countable byte :=
  inj_countable Byte.to_N Byte.of_N _.
Next Obligation. intros b. apply Byte.of_to_N. Qed.

(** [static_cast<uint8_t>] of a byte, and the byte of an integer (modulo 256). *)
Definition byte_val (b : byte) : Z := Z.of_N (Byte.to_N b).

Definition byte_of (z : Z) : byte :=
  match Byte.of_N (Z.to_N (z mod 256)) with
  | Some b => b
  | None => Byte.x00
  end.

(** The bytes of a C string literal. *)
Definition str (s : string) : bytes := String.list_byte_of_string s.

(** [std::string::size()] and the byte count of any buffer. *)
Definition zlen {A} (l : list A) : Z := Z.of_nat (length l).

(** [std::string::substr]-style prefixes and suffixes at a [size_t] offset; the
    offset is clamped first so that a huge offset never becomes a huge [nat]. *)
Definition ztake {A} (n : Z) (l : list A) : list A := take (Z.to_nat (Z.min n (zlen l))) l.
Definition zdrop {A} (n : Z) (l : list A) : list A := drop (Z.to_nat (Z.min n (zlen l))) l.

(** The bytes before the first NUL and the bytes after it. *)
Fixpoint split_nul (l : bytes) : option (bytes * bytes) :=
  match l with
  | [] => None
  | b :: l =>
      if decide (b = Byte.x00) then Some ([], l)
      else match split_nul l with Some (h, t) => Some (b :: h, t) | None => None end
  end.

(** ** Machine integers: conversions wrap around *)

Definition u8 (z : Z) : Z := z mod 2 ^ 8.
Definition u16 (z : Z) : Z := z mod 2 ^ 16.
Definition u32 (z : Z) : Z := z mod 2 ^ 32.
Definition u64 (z : Z) : Z := z mod 2 ^ 64.
(** Two's complement reinterpretation at [w] bits ([char], [int], [ssize_t]). *)
Definition sgn (w : Z) (z : Z) : Z := (z + 2 ^ (w - 1)) mod 2 ^ w - 2 ^ (w - 1).
Definition s8 := sgn 8.
Definition s16 := sgn 16.
Definition s32 := sgn 32.
Definition s64 := sgn 64.

(** ** Little- and big-endian integers in memory *)

Fixpoint le_encode (n : nat) (z : Z) : bytes :=
  match n with
  | O => []
  | S n => byte_of z :: le_encode n (z / 256)
  end.

Fixpoint le_decode (l : bytes) : Z :=
  match l with
  | [] => 0
  | b :: l => byte_val b + 256 * le_decode l
  end.

Definition be_encode (n : nat) (z : Z) : bytes := rev (le_encode n z).
Definition be_decode (l : bytes) : Z := le_decode (rev l).

(** ** Exceptions, outcomes and the state monad *)

(** The standard exception classes the code throws, with their [what()] text. *)
Inductive exn : Type :=
| runtime_error (what : bytes)
| logic_error (what : bytes)
| out_of_range (what : bytes)
| length_error (what : bytes)
| invalid_argument (what : bytes)
| bad_alloc
| bad_variant_access.

#[export] Instance exn_eq_dec : EqDecision exn.
Proof. solve_decision. Defined.

(** How a computation ends: with a value, with an exception in flight, in a
    state the C++ standard or a library's documentation does not determine, or
    out of the fuel that bounds a loop of the model. *)
Inductive out (A : Type) : Type :=
| Val (a : A)
| Exn (e : exn)
| Undef
| NoFuel.
Arguments Val {A} a.
Arguments Exn {A} e.
Arguments Undef {A}.
Arguments NoFuel {A}.

(** Computations over a mutable state [S]: an exception keeps the state that the
    code had reached when it threw. *)
Definition ST (S A : Type) : Type := S -> out A * S.

Definition ret {S A} (a : A) : ST S A := fun s => (Val a, s).
Definition throw {S A} (e : exn) : ST S A := fun s => (Exn e, s).
Definition undef {S A} : ST S A := fun s => (Undef, s).
Definition nofuel {S A} : ST S A := fun s => (NoFuel, s).
Definition bind {S A B} (m : ST S A) (k : A -> ST S B) : ST S B := fun s =>
  match m s with
  | (Val a, s') => k a s'
  | (Exn e, s') => (Exn e, s')
  | (Undef, s') => (Undef, s')
  | (NoFuel, s') => (NoFuel, s')
  end.
Definition get {S} : ST S S := fun s => (Val s, s).
Definition put {S} (s : S) : ST S unit := fun _ => (Val tt, s).
Definition gets {S A} (f : S -> A) : ST S A := fun s => (Val (f s), s).
Definition modify {S} (f : S -> S) : ST S unit := fun s => (Val tt, f s).
(** Lift an outcome that touches no state. *)
Definition of_out {S A} (o : out A) : ST S A := fun s => (o, s).

Declare Scope st_scope.
Delimit Scope st_scope with st.
Bind Scope st_scope with ST.
Notation "'let!' x ':=' m 'in' k" := (bind m (fun x => k))
  (at level 10, x pattern, m at level 200, k at level 200) : st_scope.
Notation "m ';;;' k" := (bind m (fun _ => k))
  (at level 199, k at level 200, right associativity) : st_scope.
#[global] Open Scope st_scope.

(** [focus get put m] runs [m] on the part of the state that [get] reads. *)
Definition focus {S T A} (g : S -> T) (p : T -> S -> S) (m : ST T A) : ST S A := fun s =>
  let '(o, t) := m (g s) in (o, p t s).
(** A local variable [x] of the function body [m]; it dies when [m] ends. *)
Definition with_local {S T A} (x : T) (m : ST (T * S) A) : ST S A := fun s =>
  let '(o, (_, s')) := m (x, s) in (o, s').
Definition on_fst {S T A} (m : ST S A) : ST (S * T) A := focus fst (fun a st => (a, snd st)) m.
Definition on_snd {S T A} (m : ST T A) : ST (S * T) A := focus snd (fun b st => (fst st, b)) m.
(** With a local variable in front of the state: the local and the first, or the
    second, component of the rest. *)
Definition on_12 {S T U A} (m : ST (S * T) A) : ST (S * (T * U)) A :=
  focus (fun s => (fst s, fst (snd s))) (fun t s => (fst t, (snd t, snd (snd s)))) m.
Definition on_13 {S T U A} (m : ST (S * U) A) : ST (S * (T * U)) A :=
  focus (fun s => (fst s, snd (snd s))) (fun t s => (fst t, (fst (snd s), snd t))) m.

(** [if (f(...)) throw runtime_error("f");] for a C function that answers zero
    for success. *)
Definition checked {S} (name : string) (f : S -> Z * S) : ST S unit := fun s =>
  let '(rc, s') := f s in
  if decide (rc <> 0) then (Exn (runtime_error (str name)), s') else (Val tt, s').

(** ** Loops bounded by a binary fuel

    [iter_pos p body a] runs [body] at most [p] times, until it answers [inr].
    The fuel is a [positive], so that a bound such as 2^63 costs nothing to
    write down and the loop stops as soon as [body] is done. *)
Section Iter.
Context {S A B : Type} (body : A -> ST S (A + B)).

Fixpoint iter_pos (p : positive) (a : A) : ST S (A + B) :=
  match p with
  | xH => body a
  | xO q =>
      let! r := iter_pos q a in
      match r with inl a' => iter_pos q a' | inr b => ret (inr b) end
  | xI q =>
      let! r := body a in
      match r with
      | inl a' =>
          let! r' := iter_pos q a' in
          match r' with inl a'' => iter_pos q a'' | inr b => ret (inr b) end
      | inr b => ret (inr b)
      end
  end.

Definition loop (p : positive) (a : A) : ST S B :=
  let! r := iter_pos p a in
  match r with inr b => ret b | inl _ => nofuel end.

(** The same loop with a unary fuel, for induction. *)
Fixpoint iter_nat (n : nat) (a : A) : ST S (A + B) :=
  match n with
  | O => ret (inl a)
  | Datatypes.S n =>
      let! r := body a in
      match r with inl a' => iter_nat n a' | inr b => ret (inr b) end
  end.
End Iter.

(** ** Lemmas on bytes and encodings *)

Lemma byte_val_range b : 0 <= byte_val b < 256.
Proof.
  unfold byte_val. pose proof (Byte.to_N_bounded b). lia.
Qed.

Lemma byte_val_of z : byte_val (byte_of z) = z mod 256.
Proof.
  unfold byte_val, byte_of.
  pose proof (Z.mod_pos_bound z 256 ltac:(lia)).
  destruct (Byte.of_N (Z.to_N (z mod 256))) eqn:E.
  - apply Byte.to_of_N in E. rewrite E. lia.
  - apply Byte.of_N_None_iff in E. lia.
Qed.

Lemma byte_val_inj b1 b2 : byte_val b1 = byte_val b2 -> b1 = b2.
Proof.
  unfold byte_val. intros H. apply N2Z.inj in H.
  pose proof (Byte.of_to_N b1). pose proof (Byte.of_to_N b2). congruence.
Qed.

Lemma byte_of_val b : byte_of (byte_val b) = b.
Proof.
  apply byte_val_inj. rewrite byte_val_of. apply Z.mod_small, byte_val_range.
Qed.

Lemma byte_of_mod z k : byte_of (z + 256 * k) = byte_of z.
Proof.
  apply byte_val_inj. rewrite !byte_val_of.
  rewrite (Z.mul_comm 256), Z.mod_add by lia. done.
Qed.

Lemma length_le_encode n z : length (le_encode n z) = n.
Proof. revert z; induction n; intros; simpl; [done | by rewrite IHn]. Qed.

Lemma length_be_encode n z : length (be_encode n z) = n.
Proof. unfold be_encode. by rewrite length_rev, length_le_encode. Qed.

Lemma zlen_le_encode n z : zlen (le_encode n z) = Z.of_nat n.
Proof. unfold zlen. by rewrite length_le_encode. Qed.

Lemma zlen_be_encode n z : zlen (be_encode n z) = Z.of_nat n.
Proof. unfold zlen. by rewrite length_be_encode. Qed.

Lemma pow256_S n : 2 ^ (8 * Z.of_nat (S n)) = 256 * 2 ^ (8 * Z.of_nat n).
Proof.
  replace (8 * Z.of_nat (S n)) with (8 + 8 * Z.of_nat n) by lia.
  rewrite Z.pow_add_r by lia. done.
Qed.

Lemma le_decode_range l : 0 <= le_decode l < 2 ^ (8 * zlen l).
Proof.
  unfold zlen. induction l as [|b l IH]; [simpl; lia|].
  cbn [length le_decode]. rewrite pow256_S. pose proof (byte_val_range b). lia.
Qed.

Lemma le_decode_encode n z : le_decode (le_encode n z) = z mod 2 ^ (8 * Z.of_nat n).
Proof.
  revert z. induction n as [|n IH]; intros z.
  - simpl. by rewrite Z.mod_1_r.
  - cbn [le_encode le_decode]. rewrite IH, byte_val_of, pow256_S.
    assert (0 < 2 ^ (8 * Z.of_nat n)) by (apply Z.pow_pos_nonneg; lia).
    rewrite Z.rem_mul_r by lia. done.
Qed.

Lemma le_encode_decode l : le_encode (length l) (le_decode l) = l.
Proof.
  induction l as [|b l IH]; [done|].
  cbn [length le_encode le_decode].
  pose proof (byte_val_range b).
  rewrite byte_of_mod, byte_of_val. f_equal.
  rewrite Z.mul_comm, Z.div_add, Z.div_small by lia. done.
Qed.

Lemma be_decode_encode n z : be_decode (be_encode n z) = z mod 2 ^ (8 * Z.of_nat n).
Proof. unfold be_decode, be_encode. by rewrite rev_involutive, le_decode_encode. Qed.

Lemma be_decode_range l : 0 <= be_decode l < 2 ^ (8 * zlen l).
Proof.
  unfold be_decode. pose proof (le_decode_range (rev l)) as H.
  unfold zlen in *. by rewrite length_rev in H.
Qed.

Lemma le_decode_encode_small n z :
  0 <= z < 2 ^ (8 * Z.of_nat n) -> le_decode (le_encode n z) = z.
Proof. intros. rewrite le_decode_encode. by apply Z.mod_small. Qed.

Lemma be_decode_encode_small n z :
  0 <= z < 2 ^ (8 * Z.of_nat n) -> be_decode (be_encode n z) = z.
Proof. intros. rewrite be_decode_encode. by apply Z.mod_small. Qed.

Lemma le_encode_0 n : le_encode n 0 = repeat Byte.x00 n.
Proof.
  induction n as [|n IH]; [done|].
  cbn [le_encode repeat]. rewrite Z.div_0_l by lia. by rewrite IH.
Qed.

Lemma sgn_small w z : 0 < w -> - 2 ^ (w - 1) <= z < 2 ^ (w - 1) -> sgn w z = z.
Proof.
  intros Hw Hz. unfold sgn.
  assert (2 ^ w = 2 * 2 ^ (w - 1)).
  { rewrite <- Z.pow_succ_r by lia. f_equal; lia. }
  rewrite Z.mod_small; lia.
Qed.

Lemma sgn_mod w z : 0 < w -> sgn w (z mod 2 ^ w) = sgn w z.
Proof.
  intros Hw. unfold sgn. by rewrite Zplus_mod_idemp_l.
Qed.

(** ** Lemmas on bits *)

Lemma testbit_above z n i : 0 <= z < 2 ^ n -> n <= i -> Z.testbit z i = false.
Proof.
  intros Hz Hi. destruct (Z.eq_dec z 0) as [->|]; [apply Z.bits_0|].
  apply Z.bits_above_log2; [lia|]. apply Z.log2_lt_pow2; [lia|].
  assert (2 ^ n <= 2 ^ i) by (apply Z.pow_le_mono_r; lia). lia.
Qed.

Lemma land_shiftl_small a b k : 0 <= k -> 0 <= b < 2 ^ k -> Z.land (Z.shiftl a k) b = 0.
Proof.
  intros Hk Hb. apply Z.bits_inj'. intros i Hi. rewrite Z.land_spec, Z.bits_0.
  destruct (Z.lt_ge_cases i k).
  - by rewrite Z.shiftl_spec_low.
  - rewrite (testbit_above b k) by lia. by rewrite andb_false_r.
Qed.

Lemma lor_shiftl_add a b k :
  0 <= k -> 0 <= b < 2 ^ k -> Z.lor (Z.shiftl a k) b = a * 2 ^ k + b.
Proof.
  intros Hk Hb. rewrite <- Z.lxor_lor, <- Z.add_nocarry_lxor by (by apply land_shiftl_small).
  by rewrite Z.shiftl_mul_pow2.
Qed.

Lemma land_pow2_eqb z n :
  0 <= n -> (Z.land z (2 ^ n) =? 0) = negb (Z.testbit z n).
Proof.
  intros Hn. assert (Z.land z (2 ^ n) = if Z.testbit z n then 2 ^ n else 0) as ->.
  { apply Z.bits_inj'. intros i Hi. rewrite Z.land_spec, Z.pow2_bits_eqb by done.
    destruct (Z.eqb_spec n i) as [->|].
    - rewrite andb_true_r. destruct (Z.testbit z i) eqn:E; [|by rewrite Z.bits_0].
      by rewrite Z.pow2_bits_true.
    - rewrite andb_false_r. destruct (Z.testbit z n); [|by rewrite Z.bits_0].
      rewrite Z.pow2_bits_eqb by done. by destruct (Z.eqb_spec n i). }
  pose proof (Z.pow_pos_nonneg 2 n). destruct (Z.testbit z n); cbn [negb]; lia.
Qed.

(** The complement at [n] bits. *)
Lemma lxor_ones z n : 0 <= n -> 0 <= z < 2 ^ n -> Z.lxor z (Z.ones n) = Z.ones n - z.
Proof.
  intros Hn Hz.
  assert (z + Z.lxor z (Z.ones n) = Z.ones n); [|lia].
  rewrite Z.add_nocarry_lxor.
  - by rewrite <- Z.lxor_assoc, Z.lxor_nilpotent, Z.lxor_0_l.
  - apply Z.bits_inj'. intros i Hi. rewrite Z.land_spec, Z.lxor_spec, Z.bits_0.
    destruct (Z.lt_ge_cases i n).
    + rewrite Z.ones_spec_low by lia. by destruct (Z.testbit z i).
    + by rewrite (testbit_above z n) by lia.
Qed.

(** ** Lemmas on lengths, prefixes and suffixes *)

Lemma zlen_app {A} (l1 l2 : list A) : zlen (l1 ++ l2) = zlen l1 + zlen l2.
Proof. unfold zlen. rewrite length_app. lia. Qed.

Lemma zlen_cons {A} (x : A) l : zlen (x :: l) = 1 + zlen l.
Proof. unfold zlen. simpl. lia. Qed.

Lemma zlen_nil {A} : zlen (@nil A) = 0.
Proof. done. Qed.

Lemma zlen_nonneg {A} (l : list A) : 0 <= zlen l.
Proof. unfold zlen. lia. Qed.

Lemma zlen_0 {A} (l : list A) : zlen l = 0 -> l = [].
Proof. unfold zlen. destruct l; simpl; [done | lia]. Qed.

Lemma ztake_zdrop {A} n (l : list A) : ztake n l ++ zdrop n l = l.
Proof. unfold ztake, zdrop. apply take_drop. Qed.

Lemma zlen_ztake {A} n (l : list A) : 0 <= n -> zlen (ztake n l) = Z.min n (zlen l).
Proof. intros. unfold ztake, zlen. rewrite length_take. lia. Qed.

Lemma zlen_zdrop {A} n (l : list A) : 0 <= n -> zlen (zdrop n l) = zlen l - Z.min n (zlen l).
Proof. intros. unfold zdrop, zlen. rewrite length_drop. lia. Qed.

Lemma ztake_all {A} n (l : list A) : zlen l <= n -> ztake n l = l.
Proof.
  intros. unfold ztake. apply take_ge. unfold zlen in *. lia.
Qed.

Lemma zdrop_all {A} n (l : list A) : zlen l <= n -> zdrop n l = [].
Proof.
  intros. unfold zdrop. apply drop_ge. unfold zlen in *. lia.
Qed.

Lemma ztake_app {A} n (l1 l2 : list A) : zlen l1 = n -> ztake n (l1 ++ l2) = l1.
Proof.
  intros <-. unfold ztake. rewrite zlen_app.
  replace (Z.to_nat _) with (length l1) by (unfold zlen; lia). apply take_app_length.
Qed.

Lemma zdrop_app {A} n (l1 l2 : list A) : zlen l1 = n -> zdrop n (l1 ++ l2) = l2.
Proof.
  intros <-. unfold zdrop. rewrite zlen_app.
  replace (Z.to_nat _) with (length l1) by (unfold zlen; lia). apply drop_app_length.
Qed.

Lemma ztake_0 {A} (l : list A) : ztake 0 l = [].
Proof. unfold ztake. rewrite Z.min_l by apply zlen_nonneg. done. Qed.

Lemma zdrop_0 {A} (l : list A) : zdrop 0 l = l.
Proof. unfold zdrop. rewrite Z.min_l by apply zlen_nonneg. done. Qed.

Lemma zdrop_zdrop {A} n m (l : list A) :
  0 <= n -> 0 <= m -> zdrop m (zdrop n l) = zdrop (n + m) l.
Proof.
  intros Hn Hm. pose proof (zlen_zdrop n l Hn) as Hl. unfold zdrop in *.
  rewrite drop_drop. rewrite Hl. f_equal. unfold zlen in *. lia.
Qed.

Lemma ztake_ztake_add {A} n m (l : list A) :
  0 <= n -> 0 <= m -> ztake n l ++ ztake m (zdrop n l) = ztake (n + m) l.
Proof.
  intros Hn Hm. pose proof (zlen_zdrop n l Hn) as Hl.
  unfold ztake, zdrop in *. rewrite Hl.
  rewrite take_take_drop. f_equal. unfold zlen in *. lia.
Qed.

Lemma split_nul_app l r : Byte.x00 ∉ l -> split_nul (l ++ Byte.x00 :: r) = Some (l, r).
Proof.
  induction l as [|b l IH]; intros Hn.
  - done.
  - apply not_elem_of_cons in Hn as [Hb Hl]. simpl.
    rewrite decide_False by congruence. by rewrite IH.
Qed.

Lemma split_nul_None l : Byte.x00 ∉ l -> split_nul l = None.
Proof.
  induction l as [|b l IH]; intros Hn; [done|].
  apply not_elem_of_cons in Hn as [Hb Hl]. simpl.
  rewrite decide_False by congruence. by rewrite IH.
Qed.

Lemma bind_Val {S A B} (m : ST S A) (k : A -> ST S B) s a s' :
  m s = (Val a, s') -> bind m k s = k a s'.
Proof. intros H. unfold bind. by rewrite H. Qed.

Lemma bind_inv {S A B} (m : ST S A) (k : A -> ST S B) s b s' :
  bind m k s = (Val b, s') -> exists a s1, m s = (Val a, s1) /\ k a s1 = (Val b, s').
Proof. unfold bind. destruct (m s) as [[a|e| |] s1]; intros H; try done. by exists a, s1. Qed.

Lemma bind_Exn {S A B} (m : ST S A) (k : A -> ST S B) s e s' :
  m s = (Exn e, s') -> bind m k s = (Exn e, s').
Proof. intros H. unfold bind. by rewrite H. Qed.

Lemma on_fst_eq {S T A} (m : ST S A) s (t : T) o s' :
  m s = (o, s') -> on_fst m (s, t) = (o, (s', t)).
Proof. intros H. unfold on_fst, focus. simpl. by rewrite H. Qed.

Lemma on_snd_eq {S T A} (m : ST T A) (s : S) t o t' :
  m t = (o, t') -> on_snd m (s, t) = (o, (s, t')).
Proof. intros H. unfold on_snd, focus. simpl. by rewrite H. Qed.

Lemma on_12_eq {S T U A} (m : ST (S * T) A) s t (u : U) o s' t' :
  m (s, t) = (o, (s', t')) -> on_12 m (s, (t, u)) = (o, (s', (t', u))).
Proof. intros H. unfold on_12, focus. simpl. by rewrite H. Qed.

Lemma on_13_eq {S T U A} (m : ST (S * U) A) s (t : T) u o s' u' :
  m (s, u) = (o, (s', u')) -> on_13 m (s, (t, u)) = (o, (s', (t, u'))).
Proof. intros H. unfold on_13, focus. simpl. by rewrite H. Qed.

(** ** Lemmas on loops *)

Section IterLemmas.
Context {S A B : Type} (body : A -> ST S (A + B)).

Lemma iter_nat_add n m a s :
  iter_nat body (n + m) a s =
  bind (iter_nat body n a)
       (fun r => match r with inl a' => iter_nat body m a' | inr b => ret (inr b) end) s.
Proof.
  revert a s. induction n as [|n IH]; intros a s; [done|].
  simpl. unfold bind in *. destruct (body a s) as [[[a'|b]| | |] s']; done.
Qed.

Lemma iter_nat_1 a s : iter_nat body 1 a s = body a s.
Proof.
  simpl. unfold bind, ret. by destruct (body a s) as [[[a'|b]| | |] s'].
Qed.

Lemma iter_pos_nat p a s : iter_pos body p a s = iter_nat body (Pos.to_nat p) a s.
Proof.
  revert a s. induction p as [p IH|p IH|]; intros a s.
  - rewrite Pos2Nat.inj_xI.
    replace (Datatypes.S (2 * Pos.to_nat p))%nat with (1 + (Pos.to_nat p + Pos.to_nat p))%nat by lia.
    rewrite iter_nat_add. simpl iter_pos. unfold bind.
    rewrite iter_nat_1. destruct (body a s) as [[[a'|b]| | |] s']; try done.
    rewrite iter_nat_add. unfold bind. rewrite IH.
    destruct (iter_nat body (Pos.to_nat p) a' s') as [[[a''|b]| | |] s'']; done.
  - rewrite Pos2Nat.inj_xO.
    replace (2 * Pos.to_nat p)%nat with (Pos.to_nat p + Pos.to_nat p)%nat by lia.
    rewrite iter_nat_add. simpl iter_pos. unfold bind. rewrite IH.
    destruct (iter_nat body (Pos.to_nat p) a s) as [[[a'|b]| | |] s']; done.
  - by rewrite iter_nat_1.
Qed.

(** Total correctness of [loop]: an invariant, a measure that every repetition
    decreases, and a postcondition for each way of leaving the loop. *)
Lemma loop_rule (Inv : A -> S -> Prop) (meas : A -> S -> nat) (Post : out B -> S -> Prop) :
  (forall a s, Inv a s ->
     match body a s with
     | (Val (inl a'), s') => Inv a' s' /\ (meas a' s' < meas a s)%nat
     | (Val (inr b), s') => Post (Val b) s'
     | (Exn e, s') => Post (Exn e) s'
     | (Undef, s') => Post Undef s'
     | (NoFuel, s') => Post NoFuel s'
     end) ->
  forall p a s, Inv a s -> (meas a s < Pos.to_nat p)%nat ->
  Post (fst (loop body p a s)) (snd (loop body p a s)).
Proof.
  intros Hbody p a s Hinv Hm. unfold loop, bind. rewrite iter_pos_nat.
  revert a s Hinv Hm. generalize (Pos.to_nat p) as n. clear p.
  induction n as [|n IH]; intros a s Hinv Hm; [lia|].
  simpl. unfold bind. pose proof (Hbody a s Hinv) as Hb.
  destruct (body a s) as [[[a'|b]| | |] s']; try done.
  destruct Hb as [Hinv' Hm']. apply IH; [done|lia].
Qed.

(** A loop whose first round throws. *)
Lemma loop_first_throws p a s e s' : body a s = (Exn e, s') -> loop body p a s = (Exn e, s').
Proof.
  intros H. unfold loop, bind. rewrite iter_pos_nat. destruct (Pos2Nat.is_succ p) as [n ->].
  simpl. unfold bind. by rewrite H.
Qed.

(** A loop whose second round throws. *)
Lemma loop_second_throws p a s a1 s1 e s' :
  (1 < p)%positive -> body a s = (Val (inl a1), s1) -> body a1 s1 = (Exn e, s') ->
  loop body p a s = (Exn e, s').
Proof.
  intros Hp H1 H2. unfold loop, bind. rewrite iter_pos_nat.
  destruct (Pos.to_nat p) as [|[|n]] eqn:Hn; [lia|lia|].
  simpl. unfold bind. by rewrite H1, H2.
Qed.

(** A loop that goes through a list: [P] holds of the accumulator, the items to
    come and the state; the last round ends the loop with [b]. *)
Lemma loop_items {X} (P : A -> list X -> S -> Prop) (Q : B -> S -> Prop) :
  (forall a x xs s, P a (x :: xs) s -> exists a' s', body a s = (Val (inl a'), s') /\ P a' xs s') ->
  (forall a s, P a [] s -> exists b s', body a s = (Val (inr b), s') /\ Q b s') ->
  forall xs p a s, P a xs s -> (length xs < Pos.to_nat p)%nat ->
  exists b s', loop body p a s = (Val b, s') /\ Q b s'.
Proof.
  intros Hitem Hend xs p a s HP Hp. unfold loop, bind. rewrite iter_pos_nat.
  revert xs a s HP Hp. generalize (Pos.to_nat p) as n. clear p.
  induction n as [|n IH]; intros xs a s HP Hp; [lia|]. simpl. unfold bind.
  destruct xs as [|x xs].
  - destruct (Hend a s HP) as (b & s' & -> & HQ). by exists b, s'.
  - destruct (Hitem a x xs s HP) as (a' & s' & -> & HP'). apply (IH xs); [done|simpl in Hp; lia].
Qed.
End IterLemmas.

(** ** Refinement of stateful computations

    [refines F R m m'] says that the detailed computation [m] implements the
    abstract one [m'] : from states related by [R], either [m'] is undetermined
    (then nothing is promised), or [m] fails with one of the exceptions of [F]
    (the failures that only the detailed level knows), or both end the same way
    in states related by [R]. *)
Section Refines.
Context (F : exn -> Prop).

Definition refines {S S' A} (R : S -> S' -> Prop) (m : ST S A) (m' : ST S' A) : Prop :=
  forall s s', R s s' ->
    fst (m' s') = Undef \/
    (exists e, fst (m s) = Exn e /\ F e) \/
    (fst (m s) = fst (m' s') /\ R (snd (m s)) (snd (m' s'))).

Definition Rprod {S S' T T'} (R : S -> S' -> Prop) (Q : T -> T' -> Prop)
    (p : S * T) (q : S' * T') : Prop := R (fst p) (fst q) /\ Q (snd p) (snd q).

Context {S S' : Type} {R : S -> S' -> Prop}.

Lemma refines_ret {A} (a : A) : refines R (ret a) (ret a).
Proof. intros s s' H. right; right. done. Qed.

Lemma refines_throw {A} e : refines R (@throw _ A e) (throw e).
Proof. intros s s' H. right; right. done. Qed.

Lemma refines_undef {A} (m : ST S A) : refines R m undef.
Proof. intros s s' H. left. done. Qed.

Lemma refines_nofuel {A} : refines R (@nofuel _ A) nofuel.
Proof. intros s s' H. right; right. done. Qed.

Lemma refines_of_out {A} (o : out A) : refines R (of_out o) (of_out o).
Proof. intros s s' H. right; right. done. Qed.

Lemma refines_bind {A B} (m : ST S A) m' (k : A -> ST S B) k' :
  refines R m m' -> (forall a, refines R (k a) (k' a)) ->
  refines R (bind m k) (bind m' k').
Proof.
  intros Hm Hk s s' H. unfold bind.
  destruct (Hm s s' H) as [Hu|[[e [He HF]]|[He HR]]].
  - left. destruct (m' s') as [[]]; simpl in *; congruence.
  - right; left. exists e. destruct (m s) as [[]]; simpl in *; try congruence. naive_solver.
  - destruct (m s) as [o t], (m' s') as [o' t']. simpl in *. subst o'.
    destruct o as [a|e| |]; try (right; right; done).
    + apply Hk, HR.
Qed.

Lemma refines_gets {A} (f : S -> A) f' :
  (forall s s', R s s' -> f s = f' s') -> refines R (gets f) (gets f').
Proof. intros Hf s s' H. right; right. simpl. rewrite (Hf s s' H). done. Qed.

Lemma refines_modify (f : S -> S) f' :
  (forall s s', R s s' -> R (f s) (f' s')) -> refines R (modify f) (modify f').
Proof. intros Hf s s' H. right; right. simpl. auto. Qed.

Lemma refines_focus {T T' A} (Q : T -> T' -> Prop) g p g' p' (m : ST T A) m' :
  (forall s s', R s s' -> Q (g s) (g' s')) ->
  (forall s s' t t', R s s' -> Q t t' -> R (p t s) (p' t' s')) ->
  refines Q m m' -> refines R (focus g p m) (focus g' p' m').
Proof.
  intros Hg Hp Hm s s' H. unfold focus.
  specialize (Hm _ _ (Hg _ _ H)).
  destruct (m (g s)) as [o t], (m' (g' s')) as [o' t']. simpl in *.
  destruct Hm as [Hu|[He|[He HR]]]; [by left| by right; left|].
  right; right. split; [done|]. by apply Hp.
Qed.

Lemma refines_with_local {T A} (x : T) (m : ST (T * S) A) m' :
  refines (Rprod eq R) m m' -> refines R (with_local x m) (with_local x m').
Proof.
  intros Hm s s' H. unfold with_local.
  specialize (Hm (x, s) (x, s') (conj eq_refl H)).
  destruct (m (x, s)) as [o [y t]], (m' (x, s')) as [o' [y' t']]. simpl in *.
  destruct Hm as [Hu|[He|[He [_ HR]]]]; [by left| by right; left|].
  right; right. done.
Qed.

(** The local may itself be represented at the two levels. *)
Lemma refines_with_local_rel {T T' A} (Q : T -> T' -> Prop) x x' (m : ST (T * S) A) m' :
  Q x x' -> refines (Rprod Q R) m m' -> refines R (with_local x m) (with_local x' m').
Proof.
  intros Hx Hm s s' H. unfold with_local.
  specialize (Hm (x, s) (x', s') (conj Hx H)).
  destruct (m (x, s)) as [o [y t]], (m' (x', s')) as [o' [y' t']]. simpl in *.
  destruct Hm as [Hu|[He|[He [_ HR]]]]; [by left| by right; left|].
  right; right. done.
Qed.

Lemma refines_iter_pos {A B} (body : A -> ST S (A + B)) body' p a :
  (forall a, refines R (body a) (body' a)) ->
  refines R (iter_pos body p a) (iter_pos body' p a).
Proof.
  intros Hb. revert a. induction p as [p IH|p IH|]; intros a; simpl; [| |apply Hb].
  - apply refines_bind; [apply Hb|]. intros [a'|b]; [|apply refines_ret].
    apply refines_bind; [apply IH|]. intros [a''|b]; [apply IH|apply refines_ret].
  - apply refines_bind; [apply IH|]. intros [a'|b]; [apply IH|apply refines_ret].
Qed.

Lemma refines_loop {A B} (body : A -> ST S (A + B)) body' p a :
  (forall a, refines R (body a) (body' a)) ->
  refines R (loop body p a) (loop body' p a).
Proof.
  intros Hb. unfold loop. apply refines_bind; [by apply refines_iter_pos|].
  intros [a'|b]; [apply refines_nofuel|apply refines_ret].
Qed.
End Refines.

(** A first step whose answer is known at both levels, and keeps the state. *)
Lemma refines_known {S S' A B} F (R : S -> S' -> Prop) (m : ST S A) m' a (k : A -> ST S B) k' :
  (forall s, m s = (Val a, s)) -> (forall s, m' s = (Val a, s)) ->
  refines F R (k a) (k' a) -> refines F R (bind m k) (bind m' k').
Proof. intros Hm Hm' Hk s s' Hs. rewrite (bind_Val _ _ _ _ _ (Hm s)), (bind_Val _ _ _ _ _ (Hm' s')). by apply Hk. Qed.

Section RefinesProd.
Context {F : exn -> Prop} {S S' T T' A : Type} {R : S -> S' -> Prop} {Q : T -> T' -> Prop}.

Lemma refines_on_fst (m : ST S A) m' :
  refines F R m m' -> refines F (Rprod R Q) (on_fst m) (on_fst m').
Proof.
  apply refines_focus.
  - by intros ?? [? _].
  - intros ???? [_ ?] ?. by split.
Qed.

Lemma refines_on_snd (m : ST T A) m' :
  refines F Q m m' -> refines F (Rprod R Q) (on_snd m) (on_snd m').
Proof.
  apply refines_focus.
  - by intros ?? [_ ?].
  - intros ???? [? _] ?. by split.
Qed.

Lemma refines_on_12 {U U'} {P : U -> U' -> Prop} (m : ST (S * T) A) m' :
  refines F (Rprod R Q) m m' -> refines F (Rprod R (Rprod Q P)) (on_12 m) (on_12 m').
Proof.
  apply refines_focus.
  - by intros ?? (? & ? & ?).
  - intros ???? (? & ? & ?) [? ?]. by repeat split.
Qed.

Lemma refines_on_13 {U U'} {P : U -> U' -> Prop} (m : ST (S * U) A) m' :
  refines F (Rprod R P) m m' -> refines F (Rprod R (Rprod Q P)) (on_13 m) (on_13 m').
Proof.
  apply refines_focus.
  - by intros ?? (? & ? & ?).
  - intros ???? (? & ? & ?) [? ?]. by repeat split.
Qed.
End RefinesProd.

Lemma refines_refl {F : exn -> Prop} {S A} (m : ST S A) : refines F eq m m.
Proof. intros ? ? ->. by right; right. Qed.

Lemma refines_gets_eq {F : exn -> Prop} {S A} (f : S -> A) : refines F eq (gets f) (gets f).
Proof. apply refines_gets. by intros ? ? ->. Qed.

Lemma refines_modify_eq {F : exn -> Prop} {S} (f : S -> S) : refines F eq (modify f) (modify f).
Proof. apply refines_modify. by intros ? ? ->. Qed.

(** Equality of pairs is the product of equalities. *)
Lemma refines_eq_prod {F : exn -> Prop} {S T A} (m m' : ST (S * T) A) :
  refines F eq m m' <-> refines F (Rprod eq eq) m m'.
Proof.
  unfold refines, Rprod. split; intros H [s t] [s' t'].
  - intros [H1 H2]. simpl in *. subst. destruct (H (s', t') _ eq_refl) as [?|[?|[? ->]]]; auto.
  - intros [= -> ->]. destruct (H (s', t') (s', t') (conj eq_refl eq_refl)) as [?|[?|[? [? ?]]]]; auto.
    right; right. split; [done|]. by apply injective_projections.
Qed.

(** Lemmas that relate the two levels of a library operation go into this
    database; [refine_step] walks through a computation and uses them. *)
Create HintDb refine discriminated.
#[export] Hint Resolve refines_ret refines_throw refines_undef refines_nofuel refines_of_out
  refines_gets_eq refines_modify_eq : refine.

Ltac refine_step :=
  lazymatch goal with
  | |- refines _ _ (bind _ _) (bind _ _) => apply refines_bind; [|intros ?]
  | |- refines _ _ (on_fst _) (on_fst _) => apply refines_on_fst
  | |- refines _ _ (on_snd _) (on_snd _) => apply refines_on_snd
  | |- refines _ _ (on_12 _) (on_12 _) => apply refines_on_12
  | |- refines _ _ (on_13 _) (on_13 _) => apply refines_on_13
  | |- refines _ _ (with_local _ _) (with_local _ _) => apply refines_with_local
  | |- refines _ _ (loop _ _ _) (loop _ _ _) => apply refines_loop; intros ?
  | |- refines _ _ (match ?x with _ => _ end) _ => destruct x
  | |- refines _ _ _ _ => solve [eauto with refine]
  end.
Ltac refine_auto := repeat refine_step.

(** [delivers F R m s o t] : run from [s], the computation [m] ends with the
    outcome [o] in a state that represents [t] -- unless it fails with one of the
    exceptions of [F]. *)
Definition delivers {S S' A} (F : exn -> Prop) (R : S -> S' -> Prop)
    (m : ST S A) (s : S) (o : out A) (t : S') : Prop :=
  (fst (m s) = o /\ R (snd (m s)) t) \/ (exists e, fst (m s) = Exn e /\ F e).

Lemma refines_delivers {S S' A} F (R : S -> S' -> Prop) (m : ST S A) m' s s' o t :
  refines F R m m' -> R s s' -> m' s' = (o, t) -> o <> Undef -> delivers F R m s o t.
Proof.
  intros Hm HR He Ho. specialize (Hm s s' HR). rewrite He in Hm. simpl in Hm.
  destruct Hm as [?|[?|[? ?]]]; [done | by right | by left].
Qed.

(** ** [unordered_map::emplace]: a key keeps the value it has *)

Definition emplace {A} (m : gmap bytes A) (k : bytes) (v : A) : gmap bytes A :=
  match m !! k with Some _ => m | None => <[k := v]> m end.

Lemma emplace_union {A} (acc m : gmap bytes A) k v :
  emplace acc k v ∪ m = acc ∪ <[k := v]> m.
Proof.
  unfold emplace. destruct (acc !! k) as [u|] eqn:Hk; [|by rewrite <- insert_union_l, insert_union_r].
  apply map_eq. intros i. rewrite !lookup_union. destruct (decide (i = k)) as [->|].
  - by rewrite Hk, !union_Some_l.
  - by rewrite lookup_insert_ne.
Qed.

Lemma foldl_emplace {A} (l : list (bytes * A)) : forall m,
  foldl (fun acc '(k, v) => emplace acc k v) m l = m ∪ list_to_map l.
Proof.
  induction l as [|[k v] l IH]; intros m; cbn [foldl]; [simpl; by rewrite map_union_empty|].
  by rewrite IH, emplace_union.
Qed.

(** ** Exclusive or of bytes *)

Definition byte_xor (a b : byte) : byte := byte_of (Z.lxor (byte_val a) (byte_val b)).

Lemma byte_xor_involutive a b : byte_xor (byte_xor a b) b = a.
Proof.
  unfold byte_xor. rewrite byte_val_of. rewrite <- (byte_of_val a) at 2. f_equal.
  pose proof (byte_val_range a). pose proof (byte_val_range b).
  change 256 with (2 ^ 8). apply Z.bits_inj'. intros i Hi. rewrite Z.lxor_spec.
  destruct (Z.lt_ge_cases i 8).
  - rewrite Z.mod_pow2_bits_low, Z.lxor_spec by lia. by destruct (Z.testbit _ _), (Z.testbit _ _).
  - rewrite Z.mod_pow2_bits_high, !(testbit_above _ 8) by lia. done.
Qed.
