(* ===== verification/BufferApi.v ===== *)
(** * What a [Buffer] promises to the protocol code

    [BufferOps] and [SocketOps] list the methods of [Buffer] (src/src/Buffer.hh)
    that the protocol clients call; [BufferLaws] and [SocketLaws] say what each of
    them does to the bytes in the buffer and on the connection. [spec_buffer] and
    [spec_socket] are the abstract machine the laws compare with; Buffer.v proves
    the laws for the code of Buffer.cc over libevent. The typed accessors
    [add_u16b], [remove_u64l], ... are the inline methods of Buffer.hh. *)
From stdpp Require Import tactics base list numbers strings.
From S2P Require Import Prelude.

(** ** The abstract state *)

(** The connection a file descriptor names: the bytes the peer still delivers
    before it closes, and the bytes the peer has been sent. *)
Record net := Net { rx : bytes; tx : bytes }.

(** The exceptions by which [Buffer] and its awaiters report that libevent (or
    the allocator) failed; they can occur at any operation. *)
Definition buffer_failures : list exn :=
  bad_alloc ::
  map (fun s => runtime_error (str s))
    ["evbuffer_add"; "evbuffer_add_reference"; "evbuffer_add_buffer";
     "evbuffer_add_vprintf"; "evbuffer_remove"; "evbuffer_copyout"; "evbuffer_drain";
     "event_add failed"; "failed to read from fd"; "failed to write to fd"]%string.
Definition lib_failure (e : exn) : Prop := e ∈ buffer_failures.

Definition not_enough_data : exn := runtime_error (str "not enough data in buffer").
Definition end_of_stream : exn := runtime_error (str "end of stream").

(** [std::string::max_size()] on a 64-bit platform; a longer [string(size, c)]
    throws [std::length_error]. *)
Definition string_max_size : Z := 2 ^ 63 - 1.
Definition string_too_long : exn := length_error (str "basic_string::_M_create").

(** ** The interface *)

Class BufferOps := {
  buf_new : out bytes;                             (* Buffer(Base&) *)
  buf_get_length : ST bytes Z;                     (* get_length() *)
  buf_add : bytes -> ST bytes unit;                (* add(data, size) *)
  buf_add_reference : bytes -> ST bytes unit;      (* add_reference(data, size) *)
  buf_add_printf : bytes -> ST bytes Z;            (* add_printf(...), by the text *)
  buf_add_buffer : ST (bytes * bytes) unit;        (* this.add_buffer(src) *)
  buf_remove : Z -> ST bytes bytes;                (* remove(data, size) *)
  buf_copyout : Z -> ST bytes bytes;               (* copyout(data, size) *)
  buf_drain : Z -> ST bytes unit;                  (* drain(size) *)
  buf_readln_nul : ST bytes bytes                  (* readln(EVBUFFER_EOL_NUL) *)
}.

Class SocketOps (W : Type) := {
  buf_read : Z -> ST (bytes * W) unit;             (* co_await read(fd, size) *)
  buf_read_to : Z -> ST (bytes * W) unit;          (* co_await read_to(fd, size) *)
  buf_write : ST (bytes * W) unit                  (* co_await write(fd) *)
}.

(** ** The abstract machine *)

Definition spec_add (d : bytes) : ST bytes unit := modify (fun b => b ++ d).
(** The number of bytes is an [int]. *)
Definition spec_add_printf (d : bytes) : ST bytes Z := fun b =>
  if 2 ^ 31 <=? zlen d then (Undef, b) else (Val (zlen d), b ++ d).
Definition spec_add_buffer : ST (bytes * bytes) unit :=
  modify (fun p => (fst p ++ snd p, [])).
(** Sizes are [size_t], so never negative; nothing is promised when the byte count does not fit the [int] that
    [evbuffer_remove] and [copyout] count with. *)
Definition spec_remove (n : Z) : ST bytes bytes := fun b =>
  if (n <? 0) || (2 ^ 31 <=? Z.min n (zlen b)) then (Undef, b)
  else if zlen b <? n then (Exn not_enough_data, [])
  else (Val (ztake n b), zdrop n b).
Definition spec_copyout (n : Z) : ST bytes bytes := fun b =>
  if (n <? 0) || (2 ^ 31 <=? Z.min n (zlen b)) then (Undef, b)
  else if zlen b <? n then (Exn not_enough_data, b) else (Val (ztake n b), b).
Definition spec_drain (n : Z) : ST bytes unit :=
  if n <? 0 then undef else modify (zdrop n).

Definition spec_readln_nul : ST bytes bytes := fun b =>
  match split_nul b with
  | Some (h, t) => (Val h, t)
  | None => (Exn end_of_stream, b)
  end.

Definition spec_buffer : BufferOps := {|
  buf_new := Val [];
  buf_get_length := gets zlen;
  buf_add := spec_add;
  buf_add_reference := spec_add;
  buf_add_printf := spec_add_printf;
  buf_add_buffer := spec_add_buffer;
  buf_remove := spec_remove;
  buf_copyout := spec_copyout;
  buf_drain := spec_drain;
  buf_readln_nul := spec_readln_nul
|}.

(** Waiting for [k] more bytes: nothing is promised from 2^31 on, where the
    [int] argument of [evbuffer_read] cannot hold the count. *)
Definition spec_read (k : Z) : ST (bytes * net) unit := fun '(b, w) =>
  if k <? 0 then (Undef, (b, w))
  else if k =? 0 then (Val tt, (b, w))
  else if 2 ^ 31 <=? k then (Undef, (b, w))
  else if k <=? zlen (rx w)
  then (Val tt, (b ++ ztake k (rx w), Net (zdrop k (rx w)) (tx w)))
  else (Exn end_of_stream, (b ++ rx w, Net [] (tx w))).
Definition spec_read_to (n : Z) : ST (bytes * net) unit := fun '(b, w) =>
  if n <? 0 then (Undef, (b, w)) else spec_read (Z.max 0 (n - zlen b)) (b, w).
(** [write(fd)] sends the whole buffer; nothing is promised for an empty one, or
    for one whose length does not fit an [ssize_t]. *)
Definition spec_write : ST (bytes * net) unit := fun '(b, w) =>
  if (zlen b =? 0) || (2 ^ 63 <=? zlen b) then (Undef, (b, w))
  else (Val tt, ([], Net (rx w) (tx w ++ b))).

Definition spec_socket : SocketOps net := {|
  buf_read := spec_read;
  buf_read_to := spec_read_to;
  buf_write := spec_write
|}.

(** ** The laws *)

Class BufferLaws (O : BufferOps) : Prop := {
  law_new : @buf_new O = Val [] \/ @buf_new O = Exn bad_alloc;
  law_get_length : refines lib_failure eq (@buf_get_length O) (gets zlen);
  law_add d : refines lib_failure eq (@buf_add O d) (spec_add d);
  law_add_reference d : refines lib_failure eq (@buf_add_reference O d) (spec_add d);
  law_add_printf d : refines lib_failure eq (@buf_add_printf O d) (spec_add_printf d);
  law_add_buffer : refines lib_failure eq (@buf_add_buffer O) spec_add_buffer;
  law_remove n : refines lib_failure eq (@buf_remove O n) (spec_remove n);
  law_copyout n : refines lib_failure eq (@buf_copyout O n) (spec_copyout n);
  law_drain n : refines lib_failure eq (@buf_drain O n) (spec_drain n);
  law_readln_nul : refines lib_failure eq (@buf_readln_nul O) spec_readln_nul
}.

Class SocketLaws {W : Type} (O : SocketOps W) (R : W -> net -> Prop) : Prop := {
  law_read n : refines lib_failure (Rprod eq R) (@buf_read W O n) (spec_read n);
  law_read_to n : refines lib_failure (Rprod eq R) (@buf_read_to W O n) (spec_read_to n);
  law_write : refines lib_failure (Rprod eq R) (@buf_write W O) spec_write
}.

(** ** The methods built on the interface *)

Section Accessors.
Context {O : BufferOps}.

(** [std::string Buffer::remove(size_t)] : the string is allocated first. *)
Definition remove_string (size : Z) : ST bytes bytes :=
  if string_max_size <? size then throw string_too_long else buf_remove size.

(** [std::string Buffer::copyout(size_t)]. *)
Definition copyout_string (size : Z) : ST bytes bytes :=
  if string_max_size <? size then throw string_too_long else buf_copyout size.

(** [drain_all()]. *)
Definition drain_all : ST bytes unit :=
  let! n := buf_get_length in buf_drain n.

(** [template add<T>(const T&)]: the object representation of the value. *)
Definition add_T (repr : bytes) : ST bytes unit := buf_add repr.
(** [template T remove<T>()] : [sizeof(T)] bytes. *)
Definition remove_T (size : Z) : ST bytes bytes := buf_remove size.
(** [template T copyout<T>()]. *)
Definition copyout_T (size : Z) : ST bytes bytes := buf_copyout size.

Definition add_u8 (v : Z) : ST bytes unit := add_T (le_encode 1 v).
Definition add_s8 (v : Z) : ST bytes unit := add_T (le_encode 1 v).
Definition add_u16b (v : Z) : ST bytes unit := add_T (be_encode 2 v).
Definition add_s16b (v : Z) : ST bytes unit := add_T (be_encode 2 v).
Definition add_u16l (v : Z) : ST bytes unit := add_T (le_encode 2 v).
Definition add_s16l (v : Z) : ST bytes unit := add_T (le_encode 2 v).
Definition add_u32b (v : Z) : ST bytes unit := add_T (be_encode 4 v).
Definition add_s32b (v : Z) : ST bytes unit := add_T (be_encode 4 v).
Definition add_u32l (v : Z) : ST bytes unit := add_T (le_encode 4 v).
Definition add_s32l (v : Z) : ST bytes unit := add_T (le_encode 4 v).
Definition add_u64b (v : Z) : ST bytes unit := add_T (be_encode 8 v).
Definition add_s64b (v : Z) : ST bytes unit := add_T (be_encode 8 v).
Definition add_u64l (v : Z) : ST bytes unit := add_T (le_encode 8 v).
Definition add_s64l (v : Z) : ST bytes unit := add_T (le_encode 8 v).
Definition remove_u8 : ST bytes Z := let! d := remove_T 1 in ret (le_decode d).
Definition remove_s8 : ST bytes Z := let! d := remove_T 1 in ret (s8 (le_decode d)).
Definition remove_u16b : ST bytes Z := let! d := remove_T 2 in ret (be_decode d).
Definition remove_s16b : ST bytes Z := let! d := remove_T 2 in ret (s16 (be_decode d)).
Definition remove_u16l : ST bytes Z := let! d := remove_T 2 in ret (le_decode d).
Definition remove_s16l : ST bytes Z := let! d := remove_T 2 in ret (s16 (le_decode d)).
Definition remove_u32b : ST bytes Z := let! d := remove_T 4 in ret (be_decode d).
Definition remove_s32b : ST bytes Z := let! d := remove_T 4 in ret (s32 (be_decode d)).
Definition remove_u32l : ST bytes Z := let! d := remove_T 4 in ret (le_decode d).
Definition remove_s32l : ST bytes Z := let! d := remove_T 4 in ret (s32 (le_decode d)).
Definition remove_u64b : ST bytes Z := let! d := remove_T 8 in ret (be_decode d).
Definition remove_s64b : ST bytes Z := let! d := remove_T 8 in ret (s64 (be_decode d)).
Definition remove_u64l : ST bytes Z := let! d := remove_T 8 in ret (le_decode d).
Definition remove_s64l : ST bytes Z := let! d := remove_T 8 in ret (s64 (le_decode d)).
Definition copyout_u8 : ST bytes Z := let! d := copyout_T 1 in ret (le_decode d).
Definition copyout_s8 : ST bytes Z := let! d := copyout_T 1 in ret (s8 (le_decode d)).
Definition copyout_u16b : ST bytes Z := let! d := copyout_T 2 in ret (be_decode d).
Definition copyout_s16b : ST bytes Z := let! d := copyout_T 2 in ret (s16 (be_decode d)).
Definition copyout_u16l : ST bytes Z := let! d := copyout_T 2 in ret (le_decode d).
Definition copyout_s16l : ST bytes Z := let! d := copyout_T 2 in ret (s16 (le_decode d)).
Definition copyout_u32b : ST bytes Z := let! d := copyout_T 4 in ret (be_decode d).
Definition copyout_s32b : ST bytes Z := let! d := copyout_T 4 in ret (s32 (be_decode d)).
Definition copyout_u32l : ST bytes Z := let! d := copyout_T 4 in ret (le_decode d).
Definition copyout_s32l : ST bytes Z := let! d := copyout_T 4 in ret (s32 (le_decode d)).
Definition copyout_u64b : ST bytes Z := let! d := copyout_T 8 in ret (be_decode d).
Definition copyout_s64b : ST bytes Z := let! d := copyout_T 8 in ret (s64 (be_decode d)).
Definition copyout_u64l : ST bytes Z := let! d := copyout_T 8 in ret (le_decode d).
Definition copyout_s64l : ST bytes Z := let! d := copyout_T 8 in ret (s64 (le_decode d)).
End Accessors.

(** ** Lemmas on the abstract machine *)

Ltac zcases :=
  repeat match goal with
  | |- context [?a <? ?b] => destruct (Z.ltb_spec a b); simpl; try lia
  | |- context [?a <=? ?b] => destruct (Z.leb_spec a b); simpl; try lia
  | |- context [?a =? ?b] => destruct (Z.eqb_spec a b); simpl; try lia
  end.

Lemma spec_remove_app d n r :
  zlen d = n -> n < 2 ^ 31 -> spec_remove n (d ++ r) = (Val d, r).
Proof.
  intros Hn H31. unfold spec_remove. rewrite zlen_app.
  pose proof (zlen_nonneg r). pose proof (zlen_nonneg d).
  zcases. by rewrite ztake_app, zdrop_app.
Qed.

Lemma spec_remove_all d n :
  zlen d = n -> n < 2 ^ 31 -> spec_remove n d = (Val d, []).
Proof. intros. rewrite <- (app_nil_r d) at 1. by apply spec_remove_app. Qed.

Lemma spec_remove_le n v r :
  (Z.of_nat n < 2 ^ 31) -> spec_remove (Z.of_nat n) (le_encode n v ++ r) = (Val (le_encode n v), r).
Proof. intros. apply spec_remove_app; [apply zlen_le_encode|done]. Qed.

Lemma remove_u32b_app d r :
  zlen d = 4 -> @remove_u32b spec_buffer (d ++ r) = (Val (be_decode d), r).
Proof. intros. unfold remove_u32b, remove_T. erewrite bind_Val by (by apply spec_remove_app). done. Qed.

Lemma remove_u64b_app d r :
  zlen d = 8 -> @remove_u64b spec_buffer (d ++ r) = (Val (be_decode d), r).
Proof. intros. unfold remove_u64b, remove_T. erewrite bind_Val by (by apply spec_remove_app). done. Qed.

Lemma spec_copyout_app d n r :
  zlen d = n -> n < 2 ^ 31 -> spec_copyout n (d ++ r) = (Val d, d ++ r).
Proof.
  intros Hn H31. unfold spec_copyout. rewrite zlen_app.
  pose proof (zlen_nonneg r). pose proof (zlen_nonneg d).
  zcases. by rewrite ztake_app.
Qed.

Lemma spec_remove_short n b :
  zlen b < n -> zlen b < 2 ^ 31 -> spec_remove n b = (Exn not_enough_data, []).
Proof. intros. pose proof (zlen_nonneg b). unfold spec_remove. by zcases. Qed.

Lemma remove_string_app d n r :
  zlen d = n -> n < 2 ^ 31 -> @remove_string spec_buffer n (d ++ r) = (Val d, r).
Proof.
  intros Hn H31. unfold remove_string, string_max_size.
  destruct (Z.ltb_spec (2 ^ 63 - 1) n); [lia|]. by apply spec_remove_app.
Qed.

Lemma remove_string_all d n :
  zlen d = n -> n < 2 ^ 31 -> @remove_string spec_buffer n d = (Val d, []).
Proof. intros. rewrite <- (app_nil_r d) at 1. by apply remove_string_app. Qed.

Lemma spec_drain_all d n : zlen d = n -> spec_drain n d = (Val tt, []).
Proof.
  intros <-. unfold spec_drain. destruct (Z.ltb_spec (zlen d) 0); [pose proof (zlen_nonneg d); lia|].
  unfold modify. by rewrite zdrop_all.
Qed.

Lemma spec_read_enough k b w :
  0 < k -> k < 2 ^ 31 -> k <= zlen (rx w) ->
  spec_read k (b, w) = (Val tt, (b ++ ztake k (rx w), Net (zdrop k (rx w)) (tx w))).
Proof. intros. unfold spec_read. by zcases. Qed.

Lemma spec_read_to_app n b d r t :
  n = zlen b + zlen d -> n < 2 ^ 31 ->
  spec_read_to n (b, Net (d ++ r) t) = (Val tt, (b ++ d, Net r t)).
Proof.
  intros Hn H31. unfold spec_read_to, spec_read. simpl.
  pose proof (zlen_nonneg d). pose proof (zlen_nonneg r). pose proof (zlen_nonneg b).
  rewrite zlen_app. zcases.
  - rewrite (zlen_0 d) by lia. by rewrite app_nil_r.
  - rewrite ztake_app, zdrop_app by lia. done.
Qed.

Lemma spec_write_nonempty b w :
  0 < zlen b < 2 ^ 63 -> spec_write (b, w) = (Val tt, ([], Net (rx w) (tx w ++ b))).
Proof.
  intros. unfold spec_write. destruct (Z.eqb_spec (zlen b) 0); [lia|].
  by destruct (Z.leb_spec (2 ^ 63) (zlen b)); [lia|].
Qed.

Lemma buf_add_printf_spec text b :
  zlen text < 2 ^ 31 -> @buf_add_printf spec_buffer text b = (Val (zlen text), b ++ text).
Proof.
  intros. simpl. unfold spec_add_printf. by rewrite (proj2 (Z.leb_gt (2 ^ 31) (zlen text))) by lia.
Qed.

(** ** Any lawful implementation refines the abstract machine *)

#[export] Hint Resolve law_get_length law_add law_add_reference law_add_printf law_add_buffer
  law_remove law_copyout law_drain law_readln_nul law_read law_read_to law_write : refine.

Section AccessorsRefine.
Context {O : BufferOps} {L : BufferLaws O}.

Lemma remove_string_refines n :
  refines lib_failure eq (@remove_string O n) (@remove_string spec_buffer n).
Proof. unfold remove_string. refine_auto. Qed.

Lemma drain_all_refines : refines lib_failure eq (@drain_all O) (@drain_all spec_buffer).
Proof. unfold drain_all. refine_auto. Qed.
Lemma buf_new_refines {S S' : Type} {R : S -> S' -> Prop} :
  refines lib_failure R (of_out (@buf_new O)) (of_out (@buf_new spec_buffer)).
Proof.
  intros s s' HR. destruct law_new as [H|H]; unfold of_out; rewrite H.
  - right; right. done.
  - right; left. eexists; split; [done|]. apply list_elem_of_In. vm_compute. tauto.
Qed.

End AccessorsRefine.
#[export] Hint Resolve buf_new_refines remove_string_refines drain_all_refines : refine.

(** The remaining accessors unfold to the interface's operations. *)
Ltac accessor := unfold add_T, remove_T, copyout_T; refine_auto.

Section TypedRefine.
Context {O : BufferOps} {L : BufferLaws O}.

Lemma add_u8_refines v : refines lib_failure eq (@add_u8 O v) (@add_u8 spec_buffer v).
Proof. unfold add_u8. accessor. Qed.

Lemma add_u16b_refines v : refines lib_failure eq (@add_u16b O v) (@add_u16b spec_buffer v).
Proof. unfold add_u16b. accessor. Qed.

Lemma add_u16l_refines v : refines lib_failure eq (@add_u16l O v) (@add_u16l spec_buffer v).
Proof. unfold add_u16l. accessor. Qed.

Lemma add_u32b_refines v : refines lib_failure eq (@add_u32b O v) (@add_u32b spec_buffer v).
Proof. unfold add_u32b. accessor. Qed.

Lemma add_u32l_refines v : refines lib_failure eq (@add_u32l O v) (@add_u32l spec_buffer v).
Proof. unfold add_u32l. accessor. Qed.

Lemma add_u64b_refines v : refines lib_failure eq (@add_u64b O v) (@add_u64b spec_buffer v).
Proof. unfold add_u64b. accessor. Qed.

Lemma add_u64l_refines v : refines lib_failure eq (@add_u64l O v) (@add_u64l spec_buffer v).
Proof. unfold add_u64l. accessor. Qed.

Lemma remove_u8_refines : refines lib_failure eq (@remove_u8 O) (@remove_u8 spec_buffer).
Proof. unfold remove_u8. accessor. Qed.

Lemma remove_u16b_refines : refines lib_failure eq (@remove_u16b O) (@remove_u16b spec_buffer).
Proof. unfold remove_u16b. accessor. Qed.

Lemma remove_u16l_refines : refines lib_failure eq (@remove_u16l O) (@remove_u16l spec_buffer).
Proof. unfold remove_u16l. accessor. Qed.

Lemma remove_u32b_refines : refines lib_failure eq (@remove_u32b O) (@remove_u32b spec_buffer).
Proof. unfold remove_u32b. accessor. Qed.

Lemma remove_u32l_refines : refines lib_failure eq (@remove_u32l O) (@remove_u32l spec_buffer).
Proof. unfold remove_u32l. accessor. Qed.

Lemma remove_u64b_refines : refines lib_failure eq (@remove_u64b O) (@remove_u64b spec_buffer).
Proof. unfold remove_u64b. accessor. Qed.

Lemma remove_u64l_refines : refines lib_failure eq (@remove_u64l O) (@remove_u64l spec_buffer).
Proof. unfold remove_u64l. accessor. Qed.

Lemma copyout_u8_refines : refines lib_failure eq (@copyout_u8 O) (@copyout_u8 spec_buffer).
Proof. unfold copyout_u8. accessor. Qed.

End TypedRefine.
#[export] Hint Resolve add_u8_refines add_u16b_refines add_u16l_refines add_u32b_refines add_u32l_refines add_u64b_refines add_u64l_refines remove_u8_refines remove_u16b_refines remove_u16l_refines remove_u32b_refines remove_u32l_refines remove_u64b_refines remove_u64l_refines copyout_u8_refines : refine.
