(* ===== verification/Libevent.v ===== *)
(** * The functions of libevent that Buffer.cc calls

    libevent is not part of the repository: its functions are parameters, the
    fields of the class [Libevent], and [LibeventSpec] states what its manual
    says of them. An evbuffer is the queue of bytes it holds; [sock] is whatever
    the kernel knows of the file descriptor the awaiters wait on. *)
From stdpp Require Import tactics base list numbers strings.
From S2P Require Import Prelude BufferApi.

Class Libevent := {
  evbuffer_new : option bytes;                                  (* nullptr on failure *)
  evbuffer_get_length : bytes -> Z;
  evbuffer_add : bytes -> bytes -> Z * bytes;
  evbuffer_add_reference : bytes -> bytes -> Z * bytes;
  evbuffer_prepend : bytes -> bytes -> Z * bytes;
  evbuffer_add_vprintf : bytes -> bytes -> Z * bytes;           (* the text; a count *)
  evbuffer_add_buffer : bytes -> bytes -> Z * (bytes * bytes);     (* out, in *)
  evbuffer_prepend_buffer : bytes -> bytes -> Z * (bytes * bytes); (* dst, src *)
  evbuffer_remove_buffer : bytes -> bytes -> Z -> Z * (bytes * bytes); (* src, dst, n *)
  evbuffer_drain : bytes -> Z -> Z * bytes;
  evbuffer_remove : bytes -> Z -> Z * bytes * bytes;            (* count, data, rest *)
  evbuffer_copyout : bytes -> Z -> Z * bytes;                   (* count, data *)
  eol_style : Type;
  EVBUFFER_EOL_NUL : eol_style;
  evbuffer_readln : bytes -> eol_style -> option bytes * bytes;
  sock : Type;
  evbuffer_read : sock -> bytes -> Z -> Z * bytes * sock;
  evbuffer_write_atmost : sock -> bytes -> Z -> Z * bytes * sock;
  event_add : sock -> Z * sock
}.

(** What the manual promises. Every function may fail, which its result says;
    [view] reads the connection out of the kernel's state. The [int] counts are
    exact as long as they fit. *)
Class LibeventSpec (L : Libevent) (view : sock -> net) : Prop := {
  evbuffer_new_spec b : evbuffer_new = Some b -> b = [];
  evbuffer_get_length_spec b : evbuffer_get_length b = zlen b;
  evbuffer_add_spec b d :
    fst (evbuffer_add b d) <> 0 \/ evbuffer_add b d = (0, b ++ d);
  evbuffer_add_reference_spec b d :
    fst (evbuffer_add_reference b d) <> 0 \/ evbuffer_add_reference b d = (0, b ++ d);
  evbuffer_add_vprintf_spec b d :
    zlen d < 2 ^ 31 ->
    fst (evbuffer_add_vprintf b d) < 0 \/ evbuffer_add_vprintf b d = (zlen d, b ++ d);
  evbuffer_prepend_spec b d :
    fst (evbuffer_prepend b d) <> 0 \/ evbuffer_prepend b d = (0, d ++ b);
  evbuffer_add_buffer_spec dst src :
    fst (evbuffer_add_buffer dst src) <> 0 \/
    evbuffer_add_buffer dst src = (0, (dst ++ src, []));
  evbuffer_prepend_buffer_spec dst src :
    fst (evbuffer_prepend_buffer dst src) <> 0 \/
    evbuffer_prepend_buffer dst src = (0, (src ++ dst, []));
  evbuffer_remove_buffer_spec src dst n :
    0 <= n -> Z.min n (zlen src) < 2 ^ 31 ->
    fst (evbuffer_remove_buffer src dst n) < 0 \/
    evbuffer_remove_buffer src dst n =
      (Z.min n (zlen src), (zdrop n src, dst ++ ztake n src));
  evbuffer_drain_spec b n :
    0 <= n -> fst (evbuffer_drain b n) <> 0 \/ evbuffer_drain b n = (0, zdrop n b);
  evbuffer_remove_spec b n :
    0 <= n -> Z.min n (zlen b) < 2 ^ 31 ->
    fst (fst (evbuffer_remove b n)) < 0 \/
    evbuffer_remove b n = (Z.min n (zlen b), ztake n b, zdrop n b);
  evbuffer_copyout_spec b n :
    0 <= n ->
    (- 2 ^ 31 <= fst (evbuffer_copyout b n) < 0) \/
    evbuffer_copyout b n = (Z.min n (zlen b), ztake n b);
  evbuffer_readln_spec b :
    evbuffer_readln b EVBUFFER_EOL_NUL =
      match split_nul b with Some (h, t) => (Some h, t) | None => (None, b) end;
  evbuffer_read_spec w b n :
    0 < n < 2 ^ 31 ->
    let '(rc, b', w') := evbuffer_read w b n in
    rc < 0 \/
    (rc = 0 /\ rx (view w) = [] /\ b' = b /\ view w' = view w) \/
    (0 < rc <= n /\ rc <= zlen (rx (view w)) /\ b' = b ++ ztake rc (rx (view w)) /\
     view w' = Net (zdrop rc (rx (view w))) (tx (view w)));
  evbuffer_write_atmost_spec w b n :
    b <> [] -> 0 < n ->
    let '(rc, b', w') := evbuffer_write_atmost w b n in
    rc < 0 \/
    (0 < rc <= Z.min n (zlen b) /\ b' = zdrop rc b /\
     view w' = Net (rx (view w)) (tx (view w) ++ ztake rc b));
  event_add_spec w : fst (event_add w) <> 0 \/ (fst (event_add w) = 0 /\ view (snd (event_add w)) = view w)
}.
