(* ===== verification/Chunked.v ===== *)
(** * A concrete libevent

    [chunked c] is an instance of the parameters of Libevent.v in which the kernel
    moves at most [c] bytes per system call and nothing ever fails. It satisfies
    [LibeventSpec], so the hypotheses of the theorems can hold; the witnesses
    evaluate the code over it. *)
From stdpp Require Import tactics base list numbers strings.
From S2P Require Import Prelude BufferApi Libevent.

Definition chunked (c : Z) : Libevent := {|
  evbuffer_new := Some [];
  evbuffer_get_length := zlen;
  evbuffer_add b d := (0, b ++ d);
  evbuffer_add_reference b d := (0, b ++ d);
  evbuffer_add_vprintf b d := (zlen d, b ++ d);
  evbuffer_prepend b d := (0, d ++ b);
  evbuffer_add_buffer dst src := (0, (dst ++ src, []));
  evbuffer_prepend_buffer dst src := (0, (src ++ dst, []));
  evbuffer_remove_buffer src dst n := (Z.min n (zlen src), (zdrop n src, dst ++ ztake n src));
  evbuffer_drain b n := (0, zdrop n b);
  evbuffer_remove b n := (Z.min n (zlen b), ztake n b, zdrop n b);
  evbuffer_copyout b n := (Z.min n (zlen b), ztake n b);
  eol_style := unit;
  EVBUFFER_EOL_NUL := tt;
  evbuffer_readln b _ :=
    match split_nul b with Some (h, t) => (Some h, t) | None => (None, b) end;
  sock := net;
  evbuffer_read w b n :=
    let k := Z.min (Z.min n (Z.max 1 c)) (zlen (rx w)) in
    (k, b ++ ztake k (rx w), Net (zdrop k (rx w)) (tx w));
  evbuffer_write_atmost w b n :=
    if decide (b = []) then (-1, b, w)
    else
      let k := Z.min (Z.min n (Z.max 1 c)) (zlen b) in
      (k, zdrop k b, Net (rx w) (tx w ++ ztake k b));
  event_add w := (0, w)
|}.

#[export] Instance chunked_spec c : LibeventSpec (chunked c) (fun w => w).
Proof.
  split; simpl; try (intros; by right); try done; try congruence.
  - intros w b n Hn. pose proof (zlen_nonneg (rx w)).
    set (k := Z.min (Z.min n (Z.max 1 c)) (zlen (rx w))).
    destruct (Z.eqb_spec (zlen (rx w)) 0) as [Hz|Hz].
    + right; left. assert (k = 0) as -> by lia. apply zlen_0 in Hz.
      rewrite ztake_0, zdrop_0, app_nil_r. repeat split; auto. by destruct w.
    + right; right. repeat split; auto; lia.
  - intros w b n Hb Hn. pose proof (zlen_nonneg b). rewrite decide_False by done.
    assert (zlen b <> 0). { intros Hz. by apply zlen_0 in Hz. }
    right. repeat split; auto; lia.
Qed.
