(* ===== verification/Buffer.v ===== *)
(** * Buffer (src/src/Buffer.cc) over libevent

    The methods that wrap the evbuffer functions, the three awaiters as records
    with their [await_ready], [await_resume] and event callbacks, and [co_await]
    as the event loop drives it. [libevent_buffer] and [libevent_socket] are the
    instances of the interface of BufferApi.v; their laws are proved from the
    contract of libevent. *)
From stdpp Require Import tactics base list numbers strings.
From S2P Require Import Prelude BufferApi Libevent Chunked.

Section Buffer.
Context {L : Libevent}.

(** ** Methods on the buffer *)

Definition fail {S A} (s : string) : ST S A := throw (runtime_error (str s)).

Definition Buffer_new : out bytes :=
  match evbuffer_new with
  | None => Exn bad_alloc
  | Some b => Val b
  end.

Definition Buffer_get_length : ST bytes Z := gets evbuffer_get_length.

Definition Buffer_add (data : bytes) : ST bytes unit := fun b =>
  let '(rc, b') := evbuffer_add b data in
  if decide (rc <> 0) then fail "evbuffer_add" b' else (Val tt, b').

Definition Buffer_add_reference (data : bytes) : ST bytes unit := fun b =>
  let '(rc, b') := evbuffer_add_reference b data in
  if decide (rc <> 0) then fail "evbuffer_add_reference" b' else (Val tt, b').

(** [add_vprintf], and [add_printf] likewise, by the text that is formatted; the
    [int] count becomes a [size_t]. *)
Definition Buffer_add_vprintf (text : bytes) : ST bytes Z := fun b =>
  let '(ret, b') := evbuffer_add_vprintf b text in
  if ret <? 0 then fail "evbuffer_add_vprintf" b' else (Val (u64 ret), b').
Definition Buffer_add_printf (text : bytes) : ST bytes Z := Buffer_add_vprintf text.

Definition Buffer_prepend (data : bytes) : ST bytes unit := fun b =>
  let '(rc, b') := evbuffer_prepend b data in
  if decide (rc <> 0) then fail "evbuffer_prepend" b' else (Val tt, b').

(** State: this buffer, then [src]. *)
Definition Buffer_add_buffer : ST (bytes * bytes) unit := fun '(b, src) =>
  let '(rc, p) := evbuffer_add_buffer b src in
  if decide (rc <> 0) then fail "evbuffer_add_buffer" p else (Val tt, p).

Definition Buffer_prepend_buffer : ST (bytes * bytes) unit := fun '(b, src) =>
  let '(rc, p) := evbuffer_prepend_buffer b src in
  if decide (rc <> 0) then fail "evbuffer_prepend_buffer" p else (Val tt, p).

(** State: this buffer, then the argument that the code calls [src]. *)
Definition Buffer_remove_buffer (size : Z) : ST (bytes * bytes) Z := fun '(b, src) =>
  let '(ret, p) := evbuffer_remove_buffer b src size in
  if ret <? 0 then fail "evbuffer_remove_buffer" p else (Val (u64 ret), p).

Definition Buffer_drain (size : Z) : ST bytes unit := fun b =>
  let '(rc, b') := evbuffer_drain b size in
  if decide (rc <> 0) then fail "evbuffer_drain" b' else (Val tt, b').

Definition Buffer_drain_all : ST bytes unit :=
  let! n := Buffer_get_length in Buffer_drain n.

(** [remove_atmost(data, size)] followed by [data.resize(ret)]. *)
Definition Buffer_remove_atmost (size : Z) : ST bytes bytes := fun b =>
  if string_max_size <? size then (Exn string_too_long, b)
  else
    let '(ret, data, b') := evbuffer_remove b size in
    if ret <? 0 then fail "evbuffer_remove" b' else (Val data, b').

(** [remove(data, size)]. *)
Definition Buffer_remove (size : Z) : ST bytes bytes := fun b =>
  let '(ret, data, b') := evbuffer_remove b size in
  if ret <? 0 then fail "evbuffer_remove" b'
  else if u64 ret <? size then (Exn not_enough_data, b')
  else (Val data, b').

Definition Buffer_copyout_atmost (size : Z) : ST bytes bytes := fun b =>
  if string_max_size <? size then (Exn string_too_long, b)
  else
    let '(ret, data) := evbuffer_copyout b size in
    if ret <? 0 then fail "evbuffer_copyout" b else (Val data, b).

(** [copyout(data, size)]: the [ev_ssize_t] count is stored in an [int]. *)
Definition Buffer_copyout (size : Z) : ST bytes bytes := fun b =>
  let '(rc, data) := evbuffer_copyout b size in
  let ret := s32 rc in
  if ret <? 0 then fail "evbuffer_copyout" b
  else if u64 ret <? size then (Exn not_enough_data, b)
  else (Val data, b).

Definition Buffer_readln (eol : eol_style) : ST bytes bytes := fun b =>
  let '(ret, b') := evbuffer_readln b eol in
  match ret with
  | Some s => (Val s, b')
  | None => (Exn end_of_stream, b')
  end.

(** ** Awaiters

    The state of a suspended coroutine is the awaiter; the callback answers
    whether it re-armed the event or resumed the coroutine. *)

Inductive callback : Type := Rearmed | Resumed.

(** [Event::add()]. *)
Definition Event_add : ST (bytes * sock) unit := fun '(b, w) =>
  let '(rc, w') := event_add w in
  if decide (rc <> 0) then fail "event_add failed" (b, w') else (Val tt, (b, w')).

(** The fields of [Buffer::ReadAwaiter] and [ReadExactlyAwaiter::eof]. *)
Record ReadAwaiter := mkReadAwaiter {
  ra_limit : Z;
  ra_bytes_read : Z;
  ra_err : bool;
  ra_eof : bool
}.

(** [ReadAwaiter(buf, fd, limit, cb)]: the [ssize_t] limit becomes a [size_t]. *)
Definition ReadAwaiter_ctor (limit : Z) : ReadAwaiter := mkReadAwaiter (u64 limit) 0 false false.

Definition ReadAwaiter_await_ready (aw : ReadAwaiter) : bool := ra_limit aw <=? ra_bytes_read aw.

Definition ReadAtMostAwaiter_await_resume (aw : ReadAwaiter) : ST (bytes * sock) Z :=
  if ra_err aw then fail "failed to read from fd" else ret (ra_bytes_read aw).

(** The third argument of [evbuffer_read] is an [int]. *)
Definition ReadAtMostAwaiter_on_read_ready (aw : ReadAwaiter)
    : ST (bytes * sock) (ReadAwaiter * callback) := fun '(b, w) =>
  let '(n, b', w') := evbuffer_read w b (s32 (ra_limit aw)) in
  (Val (mkReadAwaiter (ra_limit aw) (u64 n) (n <? 0) (ra_eof aw), Resumed), (b', w')).

Definition ReadExactlyAwaiter_await_resume (aw : ReadAwaiter) : ST (bytes * sock) unit :=
  if ra_err aw then fail "failed to read from fd"
  else if ra_eof aw then throw end_of_stream
  else ret tt.

Definition ReadExactlyAwaiter_on_read_ready (aw : ReadAwaiter)
    : ST (bytes * sock) (ReadAwaiter * callback) := fun '(b, w) =>
  let '(n, b', w') := evbuffer_read w b (s32 (u64 (ra_limit aw - ra_bytes_read aw))) in
  if n <? 0 then
    (Val (mkReadAwaiter (ra_limit aw) (ra_bytes_read aw) true (ra_eof aw), Resumed), (b', w'))
  else
    let read := u64 (ra_bytes_read aw + n) in
    if n =? 0 then
      (Val (mkReadAwaiter (ra_limit aw) read (ra_err aw) true, Resumed), (b', w'))
    else if negb (read =? ra_limit aw) then
      (Event_add ;;;
       ret (mkReadAwaiter (ra_limit aw) read (ra_err aw) (ra_eof aw), Rearmed)) (b', w')
    else
      (Val (mkReadAwaiter (ra_limit aw) read (ra_err aw) (ra_eof aw), Resumed), (b', w')).

(** The fields of [Buffer::WriteAwaiter]; [limit] is an [ssize_t]. *)
Record WriteAwaiter := mkWriteAwaiter {
  wa_limit : Z;
  wa_bytes_written : Z;
  wa_err : bool
}.

Definition WriteAwaiter_ctor (limit : Z) : WriteAwaiter := mkWriteAwaiter limit 0 false.

Definition WriteAwaiter_await_resume (aw : WriteAwaiter) : ST (bytes * sock) unit :=
  if wa_err aw then fail "failed to write to fd" else ret tt.

Definition WriteAwaiter_on_write_ready (aw : WriteAwaiter)
    : ST (bytes * sock) (WriteAwaiter * callback) := fun '(b, w) =>
  let limit := if wa_limit aw <? 0 then s64 (evbuffer_get_length b) else wa_limit aw in
  let '(n, b', w') := evbuffer_write_atmost w b limit in
  if n <? 0 then
    (Val (mkWriteAwaiter limit (wa_bytes_written aw) true, Resumed), (b', w'))
  else
    let written := u64 (wa_bytes_written aw + n) in
    if negb (s64 written =? limit) then
      (Event_add ;;; ret (mkWriteAwaiter limit written (wa_err aw), Rearmed)) (b', w')
    else (Val (mkWriteAwaiter limit written (wa_err aw), Resumed), (b', w')).

(** ** co_await

    [await_ready], else [await_suspend] (which adds the event) and then one
    callback per readiness of the descriptor until one of them resumes the
    coroutine, which runs [await_resume]. The number of callbacks is bounded by
    [fuel]; each one moves at least a byte, so [limit + 1] is enough. *)
Definition drive {Aw} (cb : Aw -> ST (bytes * sock) (Aw * callback)) (fuel : positive) (aw : Aw)
    : ST (bytes * sock) Aw :=
  Event_add ;;;
  loop (fun aw =>
          let! r := cb aw in
          match r with
          | (aw', Rearmed) => ret (inl aw')
          | (aw', Resumed) => ret (inr aw')
          end) fuel aw.

Definition fuel_for (limit : Z) : positive := Z.to_pos (Z.max 0 limit + 1).

Definition co_await_ReadAtMost (aw : ReadAwaiter) : ST (bytes * sock) Z :=
  if ReadAwaiter_await_ready aw then ReadAtMostAwaiter_await_resume aw
  else
    let! aw' := drive ReadAtMostAwaiter_on_read_ready 1 aw in
    ReadAtMostAwaiter_await_resume aw'.

Definition co_await_ReadExactly (aw : ReadAwaiter) : ST (bytes * sock) unit :=
  if ReadAwaiter_await_ready aw then ReadExactlyAwaiter_await_resume aw
  else
    let! aw' := drive ReadExactlyAwaiter_on_read_ready (fuel_for (ra_limit aw)) aw in
    ReadExactlyAwaiter_await_resume aw'.

(** [WriteAwaiter::await_ready] is false. *)
Definition co_await_Write (fuel : positive) (aw : WriteAwaiter) : ST (bytes * sock) unit :=
  let! aw' := drive WriteAwaiter_on_write_ready fuel aw in
  WriteAwaiter_await_resume aw'.

Definition Buffer_read_atmost (size : Z) : ST (bytes * sock) Z :=
  co_await_ReadAtMost (ReadAwaiter_ctor size).

Definition Buffer_read (size : Z) : ST (bytes * sock) unit :=
  co_await_ReadExactly (ReadAwaiter_ctor (s64 size)).

Definition Buffer_read_to (size : Z) : ST (bytes * sock) unit := fun st =>
  let len := evbuffer_get_length (fst st) in
  if size <=? len then co_await_ReadExactly (ReadAwaiter_ctor 0) st
  else co_await_ReadExactly (ReadAwaiter_ctor (u64 (size - len))) st.

Definition Buffer_write (size : Z) : ST (bytes * sock) unit := fun st =>
  let limit := if size <? 0 then evbuffer_get_length (fst st) else size in
  co_await_Write (fuel_for limit) (WriteAwaiter_ctor size) st.

(** ** The interface implemented *)

Definition libevent_buffer : BufferOps := {|
  buf_new := Buffer_new;
  buf_get_length := Buffer_get_length;
  buf_add := Buffer_add;
  buf_add_reference := Buffer_add_reference;
  buf_add_printf := Buffer_add_printf;
  buf_add_buffer := Buffer_add_buffer;
  buf_remove := Buffer_remove;
  buf_copyout := Buffer_copyout;
  buf_drain := Buffer_drain;
  buf_readln_nul := Buffer_readln EVBUFFER_EOL_NUL
|}.

Definition libevent_socket : SocketOps sock := {|
  buf_read := Buffer_read;
  buf_read_to := Buffer_read_to;
  buf_write := Buffer_write (-1)
|}.
End Buffer.

(** ** The implementation satisfies the interface *)

Lemma lib_failure_elem s :
  runtime_error (str s) ∈ buffer_failures -> lib_failure (runtime_error (str s)).
Proof. done. Qed.

Ltac lib_fail := unfold lib_failure; apply list_elem_of_In; vm_compute; tauto.

Section Laws.
Context {L : Libevent} {view : sock -> net} {LS : LibeventSpec L view}.

(** A method does exactly what its abstract counterpart does, unless the libevent
    call it makes reports a failure, and then it throws that failure. Where the
    counterpart is undefined nothing is said. *)
Definition exactly {S A} (failed : S -> bool) (e : exn) (m m' : ST S A) : Prop :=
  forall s, fst (m' s) = Undef \/ if failed s then fst (m s) = Exn e else m s = m' s.

Lemma exactly_refines {S A} failed e (m m' : ST S A) :
  exactly failed e m m' -> lib_failure e -> refines lib_failure eq m m'.
Proof.
  intros H He s s' <-. destruct (H s) as [|Hs]; [by left|right].
  destruct (failed s); [left; by exists e|right]. by rewrite Hs.
Qed.

(** The [int] and [ssize_t] results: nonzero, or negative, on failure. *)
Definition nonzero (rc : Z) : bool := negb (rc =? 0).
Definition negative (rc : Z) : bool := rc <? 0.

(** When each method throws a failure of libevent, and which one. *)
Record reports_failures : Prop := {
  exact_new : Buffer_new = match evbuffer_new with Some _ => Val [] | None => Exn bad_alloc end;
  exact_get_length b : Buffer_get_length b = (Val (zlen b), b);
  exact_add d :
    exactly (fun b => nonzero (fst (evbuffer_add b d))) (runtime_error (str "evbuffer_add"))
      (Buffer_add d) (spec_add d);
  exact_add_reference d :
    exactly (fun b => nonzero (fst (evbuffer_add_reference b d))) (runtime_error (str "evbuffer_add_reference"))
      (Buffer_add_reference d) (spec_add d);
  exact_add_printf d :
    exactly (fun b => negative (fst (evbuffer_add_vprintf b d))) (runtime_error (str "evbuffer_add_vprintf"))
      (Buffer_add_printf d) (spec_add_printf d);
  exact_add_buffer :
    exactly (fun p => nonzero (fst (evbuffer_add_buffer (fst p) (snd p)))) (runtime_error (str "evbuffer_add_buffer"))
      Buffer_add_buffer spec_add_buffer;
  exact_remove n :
    exactly (fun b => negative (fst (fst (evbuffer_remove b n)))) (runtime_error (str "evbuffer_remove"))
      (Buffer_remove n) (spec_remove n);
  exact_copyout n :
    exactly (fun b => negative (fst (evbuffer_copyout b n))) (runtime_error (str "evbuffer_copyout"))
      (Buffer_copyout n) (spec_copyout n);
  exact_drain n :
    exactly (fun b => nonzero (fst (evbuffer_drain b n))) (runtime_error (str "evbuffer_drain"))
      (Buffer_drain n) (spec_drain n);
  exact_readln_nul b :
    Buffer_readln EVBUFFER_EOL_NUL b = spec_readln_nul b
}.

Lemma Buffer_remove_exact n :
  exactly (fun b => negative (fst (fst (evbuffer_remove b n)))) (runtime_error (str "evbuffer_remove"))
    (Buffer_remove n) (spec_remove n).
Proof.
  intros b. unfold Buffer_remove, spec_remove, negative.
  destruct (Z.ltb_spec n 0) as [Hn|Hn]; [by left|]. cbn [orb].
  destruct (Z.leb_spec (2 ^ 31) (Z.min n (zlen b))) as [H31|H31]; [by left|right].
  pose proof (zlen_nonneg b).
  destruct (evbuffer_remove_spec b n Hn H31) as [Hf| ->].
  - destruct (evbuffer_remove b n) as [[rc d] b']. simpl in *. by destruct (Z.ltb_spec rc 0); [|lia].
  - cbn [fst]. destruct (Z.ltb_spec (Z.min n (zlen b)) 0); [lia|].
    unfold u64. rewrite (Z.mod_small (Z.min _ _)) by lia.
    destruct (Z.ltb_spec (zlen b) n).
    + destruct (Z.ltb_spec (Z.min n (zlen b)) n); [|lia]. by rewrite zdrop_all by lia.
    + by destruct (Z.ltb_spec (Z.min n (zlen b)) n); [lia|].
Qed.

Lemma Buffer_copyout_exact n :
  exactly (fun b => negative (fst (evbuffer_copyout b n))) (runtime_error (str "evbuffer_copyout"))
    (Buffer_copyout n) (spec_copyout n).
Proof.
  intros b. unfold Buffer_copyout, spec_copyout, negative.
  destruct (Z.ltb_spec n 0) as [Hn|Hn]; [by left|]. cbn [orb].
  destruct (Z.leb_spec (2 ^ 31) (Z.min n (zlen b))) as [H31|H31]; [by left|right].
  pose proof (zlen_nonneg b).
  destruct (evbuffer_copyout_spec b n Hn) as [Hf| ->].
  - destruct (evbuffer_copyout b n) as [rc d]. simpl in *.
    unfold s32. rewrite sgn_small by lia. by destruct (Z.ltb_spec rc 0); [|lia].
  - cbn [fst]. unfold s32. rewrite sgn_small by lia.
    destruct (Z.ltb_spec (Z.min n (zlen b)) 0); [lia|].
    unfold u64. rewrite (Z.mod_small (Z.min _ _)) by lia.
    destruct (Z.ltb_spec (zlen b) n).
    + by destruct (Z.ltb_spec (Z.min n (zlen b)) n); [|lia].
    + by destruct (Z.ltb_spec (Z.min n (zlen b)) n); [lia|].
Qed.

(** A function whose result code is nonzero on failure. *)
Ltac rc_law H :=
  unfold nonzero; right; destruct H as [Hf|Heq];
  [ match goal with |- context [let '(_, _) := ?f in _] => destruct f end;
    cbn [fst snd] in *; rewrite decide_True by done; by rewrite (proj2 (Z.eqb_neq _ _) Hf)
  | rewrite Heq; by rewrite decide_False by lia ].

Lemma libevent_buffer_reports : reports_failures.
Proof.
  split.
  - unfold Buffer_new. pose proof evbuffer_new_spec as H.
    destruct evbuffer_new as [b|]; [|done]. by rewrite (H b).
  - intros b. unfold Buffer_get_length, gets. by rewrite evbuffer_get_length_spec.
  - intros d b. unfold Buffer_add. rc_law (evbuffer_add_spec b d).
  - intros d b. unfold Buffer_add_reference. rc_law (evbuffer_add_reference_spec b d).
  - intros d b. unfold Buffer_add_printf, Buffer_add_vprintf, spec_add_printf, negative.
    pose proof (zlen_nonneg d). destruct (Z.leb_spec (2 ^ 31) (zlen d)) as [|Hd]; [by left|right].
    destruct (evbuffer_add_vprintf_spec b d Hd) as [Hf| ->].
    + destruct (evbuffer_add_vprintf b d) as [rc b']. simpl in *. by destruct (Z.ltb_spec rc 0); [|lia].
    + cbn [fst]. destruct (Z.ltb_spec (zlen d) 0); [lia|]. unfold u64. by rewrite Z.mod_small by lia.
  - intros [b src]. unfold Buffer_add_buffer. cbn [fst snd]. rc_law (evbuffer_add_buffer_spec b src).
  - apply Buffer_remove_exact.
  - apply Buffer_copyout_exact.
  - intros n b. unfold Buffer_drain, spec_drain.
    destruct (Z.ltb_spec n 0) as [Hn|Hn]; [by left|]. rc_law (evbuffer_drain_spec b n Hn).
  - intros b. unfold Buffer_readln, spec_readln_nul. rewrite evbuffer_readln_spec.
    by destruct (split_nul b) as [[]|].
Qed.

#[export] Instance libevent_buffer_laws : BufferLaws libevent_buffer.
Proof.
  pose proof libevent_buffer_reports as [Hnew Hlen ? ? ? ? ? ? ? Hln].
  split; simpl; try (intros; eapply exactly_refines; [done|lib_fail]).
  - rewrite Hnew. destruct evbuffer_new; auto.
  - intros b ? <-. right; right. by rewrite Hlen.
  - intros b ? <-. right; right. by rewrite Hln.
Qed.
Lemma Event_add_law b w :
  (exists e, fst (Event_add (b, w)) = Exn e /\ lib_failure e) \/
  (exists w', Event_add (b, w) = (Val tt, (b, w')) /\ view w' = view w).
Proof.
  unfold Event_add. destruct (event_add_spec w) as [H|[H Hv]];
    destruct (event_add w) as [rc w']; simpl in *.
  - left. rewrite decide_True by done. eexists; split; [done|lib_fail].
  - right. rewrite decide_False by lia. eauto.
Qed.

(** Where a wait may end: in a failure of libevent, or in a state satisfying [Q]. *)
Definition ends {A} (Q : out A -> bytes -> net -> Prop) (o : out A) (st : bytes * sock) : Prop :=
  (exists e, o = Exn e /\ lib_failure e) \/ Q o (fst st) (view (snd st)).

(** The loop of callbacks: the invariant of the awaiter's state, a measure that
    every re-armed callback decreases, and what holds of every other outcome. *)
Lemma drive_outcome {Aw} (cb : Aw -> ST (bytes * sock) (Aw * callback))
    (Inv : Aw -> bytes -> sock -> Prop) (meas : Aw -> nat)
    (Q : out Aw -> bytes * sock -> Prop) fuel aw b w :
  (forall aw b w, Inv aw b w ->
     match cb aw (b, w) with
     | (Val (aw', Rearmed), (b', w')) => Inv aw' b' w' /\ (meas aw' < meas aw)%nat
     | (Val (aw', Resumed), st') => Q (Val aw') st'
     | (Exn e, st') => Q (Exn e) st'
     | (Undef, _) | (NoFuel, _) => False
     end) ->
  match Event_add (b, w) with
  | (Val _, (b', w')) => Inv aw b' w'
  | (Exn e, st') => Q (Exn e) st'
  | (Undef, _) | (NoFuel, _) => False
  end ->
  (meas aw < Pos.to_nat fuel)%nat ->
  Q (fst (drive cb fuel aw (b, w))) (snd (drive cb fuel aw (b, w))).
Proof.
  intros Hcb Hadd Hm. unfold drive. unfold bind at 1 3.
  destruct (Event_add (b, w)) as [[[]|e| |] [b' w']]; try done.
  apply (loop_rule _ (fun aw st => Inv aw (fst st) (snd st)) (fun aw _ => meas aw) Q); [|done|done].
  clear Hadd Hm aw b w b' w'. intros aw [b w] Hinv. specialize (Hcb aw b w Hinv).
  unfold bind. by destruct (cb aw (b, w)) as [[[aw' []]|e| |] [b' w']].
Qed.

Lemma drive_rule {Aw} (cb : Aw -> ST (bytes * sock) (Aw * callback))
    (Inv : Aw -> bytes -> net -> Prop) (meas : Aw -> nat)
    (Q : out Aw -> bytes -> net -> Prop) fuel aw b w :
  (forall aw b w, Inv aw b (view w) ->
     match cb aw (b, w) with
     | (Val (aw', Rearmed), (b', w')) => Inv aw' b' (view w') /\ (meas aw' < meas aw)%nat
     | (Val (aw', Resumed), st') => ends Q (Val aw') st'
     | (Exn e, _) => lib_failure e
     | (Undef, _) | (NoFuel, _) => False
     end) ->
  Inv aw b (view w) -> (meas aw < Pos.to_nat fuel)%nat ->
  ends Q (fst (drive cb fuel aw (b, w))) (snd (drive cb fuel aw (b, w))).
Proof.
  intros Hcb Hinv Hm.
  apply (drive_outcome cb (fun aw b w => Inv aw b (view w)) meas (ends Q)); [|clear Hcb|done].
  - clear aw b w Hinv Hm. intros aw b w Hinv. specialize (Hcb aw b w Hinv).
    destruct (cb aw (b, w)) as [[[aw' []]|e| |] [b' w']]; try done. left. eauto.
  - destruct (Event_add_law b w) as [[e [He HF]]|[w' [-> Hv]]]; [|by rewrite Hv].
    destruct (Event_add (b, w)) as [[] ?]; simplify_eq/=. left. eauto.
Qed.

(** *** Reading exactly [n] bytes, from the buffer [b0] and the kernel [w0] *)

Section Read.
Context (n : Z) (b0 : bytes) (w0 : sock) (n_range : 0 < n < 2 ^ 31).

Definition add_failed : exn := runtime_error (str "event_add failed").
Definition read_failed : exn := runtime_error (str "failed to read from fd").

(** The buffer after [k] bytes. *)
Definition so_far (k : Z) : bytes := b0 ++ ztake k (rx (view w0)).

(** [waiting k w]: [k] bytes have been read and the event has been added, in the
    state [w] of the kernel. *)
Inductive waiting : Z -> sock -> Prop :=
| waiting_first w :
    event_add w0 = (0, w) -> waiting 0 w
| waiting_next k w r b w1 w2 :
    waiting k w -> evbuffer_read w (so_far k) (n - k) = (r, b, w1) -> 0 < r < n - k ->
    event_add w1 = (0, w2) -> waiting (k + r) w2.

(** The failures: of the first [event_add], of a read, and of [event_add] after a
    read that was too short. *)
Inductive read_failure : exn -> Prop :=
| first_add_fails : fst (event_add w0) <> 0 -> read_failure add_failed
| read_fails k w :
    waiting k w -> fst (fst (evbuffer_read w (so_far k) (n - k))) < 0 -> read_failure read_failed
| next_add_fails k w r b w1 :
    waiting k w -> evbuffer_read w (so_far k) (n - k) = (r, b, w1) -> 0 < r < n - k ->
    fst (event_add w1) <> 0 -> read_failure add_failed.

Lemma read_failure_lib e : read_failure e -> lib_failure e.
Proof. intros []; lib_fail. Qed.

Lemma event_add_ok w : fst (event_add w) = 0 -> view (snd (event_add w)) = view w.
Proof. intros H. by destruct (event_add_spec w) as [|[_ ->]]. Qed.

(** One read while waiting. *)
Lemma waiting_read k w :
  0 <= k < n -> k <= zlen (rx (view w0)) -> view w = Net (zdrop k (rx (view w0))) (tx (view w0)) ->
  let '(r, b, w1) := evbuffer_read w (so_far k) (n - k) in
  r < 0 \/
  (r = 0 /\ zlen (rx (view w0)) = k /\ b = so_far k /\ view w1 = view w) \/
  (0 < r <= n - k /\ k + r <= zlen (rx (view w0)) /\ b = so_far (k + r) /\
   view w1 = Net (zdrop (k + r) (rx (view w0))) (tx (view w0))).
Proof.
  intros Hk Hle Hv. pose proof (evbuffer_read_spec w (so_far k) (n - k) ltac:(lia)) as Hs.
  destruct (evbuffer_read w (so_far k) (n - k)) as [[r b] w1]. rewrite Hv in Hs. cbn [rx tx] in Hs.
  pose proof (zlen_zdrop k (rx (view w0)) ltac:(lia)) as Hlen. rewrite Z.min_l in Hlen by lia.
  destruct Hs as [?|[(-> & Hrx & -> & Hv')|(Hr & Hr2 & -> & Hv')]]; [by left| |].
  - right; left. rewrite Hrx, zlen_nil in Hlen. rewrite Hv. split_and!; [done|lia|done|done].
  - right; right. rewrite zdrop_zdrop in Hv' by lia. unfold so_far.
    rewrite <- app_assoc, ztake_ztake_add by lia. split_and!; try done; lia.
Qed.

Lemma waiting_view k w : waiting k w ->
  0 <= k < n /\ k <= zlen (rx (view w0)) /\ view w = Net (zdrop k (rx (view w0))) (tx (view w0)).
Proof.
  induction 1 as [w Ha|k w r b w1 w2 _ (Hk & Hle & Hv) Hr Hlt Ha].
  - pose proof (event_add_ok w0) as Hw. rewrite Ha in Hw. cbn in Hw. rewrite Hw, zdrop_0 by done.
    pose proof (zlen_nonneg (rx (view w0))). split_and!; try lia. by destruct (view w0).
  - pose proof (waiting_read k w Hk Hle Hv) as Hs. rewrite Hr in Hs.
    destruct Hs as [?|[?|(_ & Hle2 & _ & Hv1)]]; [lia|lia|].
    pose proof (event_add_ok w1) as Hw. rewrite Ha in Hw. cbn in Hw. rewrite Hw, Hv1 by done.
    split_and!; [lia..|done].
Qed.

(** What the awaiter knows while it waits, and when it is resumed. *)
Definition reading (aw : ReadAwaiter) (b : bytes) (w : sock) : Prop :=
  exists k, aw = mkReadAwaiter n k false false /\ b = so_far k /\ waiting k w.
Definition read_done (o : out ReadAwaiter) (st : bytes * sock) : Prop :=
  let v := view w0 in
  match o with
  | Exn e => read_failure e
  | Val aw =>
      (ra_err aw = true /\ read_failure read_failed) \/
      (ra_err aw = false /\ ra_eof aw = true /\ zlen (rx v) < n /\
       fst st = b0 ++ rx v /\ view (snd st) = Net [] (tx v)) \/
      (ra_err aw = false /\ ra_eof aw = false /\ n <= zlen (rx v) /\
       fst st = so_far n /\ view (snd st) = Net (zdrop n (rx v)) (tx v))
  | _ => False
  end.

Lemma read_exactly_callback aw b w :
  reading aw b w ->
  match ReadExactlyAwaiter_on_read_ready aw (b, w) with
  | (Val (aw', Rearmed), (b', w')) =>
      reading aw' b' w' /\ (Z.to_nat (n - ra_bytes_read aw') < Z.to_nat (n - ra_bytes_read aw))%nat
  | (Val (aw', Resumed), st') => read_done (Val aw') st'
  | (Exn e, st') => read_done (Exn e) st'
  | (Undef, _) | (NoFuel, _) => False
  end.
Proof.
  intros (k & -> & -> & Hw). pose proof (waiting_view k w Hw) as (Hk & Hle & Hv).
  unfold ReadExactlyAwaiter_on_read_ready. cbn [ra_limit ra_bytes_read ra_err ra_eof].
  unfold u64. rewrite (Z.mod_small (n - _)) by lia. unfold s32. rewrite sgn_small by lia.
  pose proof (waiting_read k w Hk Hle Hv) as Hs.
  destruct (evbuffer_read w (so_far k) (n - k)) as [[r b] w1] eqn:Hr.
  destruct (Z.ltb_spec r 0).
  { left. split; [done|]. eapply read_fails; [done|]. by rewrite Hr. }
  destruct Hs as [?|[(-> & Hz & -> & Hv1)|(Hr2 & Hle2 & -> & Hv1)]]; [lia| |].
  - right; left. cbn. rewrite Hv1, Hv. unfold so_far. rewrite ztake_all, zdrop_all by lia.
    split_and!; try done; lia.
  - rewrite (Z.mod_small (k + r)) by lia. destruct (Z.eqb_spec r 0); [lia|].
    destruct (Z.eqb_spec (k + r) n) as [Hd|Hd]; cbn [negb].
    + right; right. cbn. rewrite Hv1, Hd in *. split_and!; try done; lia.
    + unfold bind, Event_add. destruct (event_add w1) as [rc w2] eqn:Ha.
      destruct (decide (rc <> 0)) as [Hn|Hz].
      * eapply next_add_fails; [done..|lia|]. by rewrite Ha.
      * split; [|cbn; lia]. exists (k + r). split_and!; [done..|].
        eapply waiting_next; [done..|lia|]. rewrite Ha. f_equal. lia.
Qed.

Lemma co_await_ReadExactly_exact :
  let v := view w0 in
  let r := co_await_ReadExactly (ReadAwaiter_ctor n) (b0, w0) in
  (exists e, fst r = Exn e /\ read_failure e) \/
  (fst r = (if n <=? zlen (rx v) then Val tt else Exn end_of_stream) /\
   fst (snd r) = b0 ++ ztake n (rx v) /\ view (snd (snd r)) = Net (zdrop n (rx v)) (tx v)).
Proof.
  intros v. unfold co_await_ReadExactly, ReadAwaiter_await_ready, ReadAwaiter_ctor, u64.
  rewrite Z.mod_small by lia. cbn [ra_limit ra_bytes_read]. destruct (Z.leb_spec n 0); [lia|]. unfold bind.
  pose proof (drive_outcome ReadExactlyAwaiter_on_read_ready reading
    (fun aw => Z.to_nat (n - ra_bytes_read aw)) read_done (fuel_for n) (mkReadAwaiter n 0 false false) b0 w0
    read_exactly_callback) as Hd.
  ospecialize (Hd _ _).
  { unfold Event_add. destruct (event_add w0) as [rc w] eqn:Ha. destruct (decide (rc <> 0)).
    - apply first_add_fails. by rewrite Ha.
    - exists 0. unfold so_far. rewrite ztake_0, app_nil_r. split_and!; [done..|].
      apply waiting_first. rewrite Ha. f_equal. lia. }
  { unfold fuel_for. cbn [ra_bytes_read]. lia. }
  destruct (drive _ _ _ _) as [o [b' w']]. cbn [fst snd] in Hd. unfold ReadExactlyAwaiter_await_resume.
  destruct o as [aw|e| |]; [|by left; exists e|done..].
  destruct Hd as [[-> Hf]|[(-> & -> & Hz & Hb & Hv)|(-> & -> & Hz & Hb & Hv)]]; [left; by exists read_failed|right..];
    cbn in Hb, Hv |- *; fold v in Hz, Hb, Hv |- *; rewrite Hb, Hv.
  - destruct (Z.leb_spec n (zlen (rx v))); [lia|]. by rewrite ztake_all, zdrop_all by lia.
  - by destruct (Z.leb_spec n (zlen (rx v))); [|lia].
Qed.
End Read.

Lemma co_await_ReadExactly_law k b w :
  0 <= k < 2 ^ 31 ->
  ends (fun o b' v' => spec_read k (b, view w) = (o, (b', v')))
    (fst (co_await_ReadExactly (ReadAwaiter_ctor k) (b, w)))
    (snd (co_await_ReadExactly (ReadAwaiter_ctor k) (b, w))).
Proof.
  intros Hk. unfold spec_read. destruct (Z.ltb_spec k 0); [lia|].
  destruct (Z.eqb_spec k 0) as [->|Hk0]; [by right|]. destruct (Z.leb_spec (2 ^ 31) k); [lia|].
  assert (0 < k < 2 ^ 31) as Hk2 by lia.
  destruct (co_await_ReadExactly_exact k b w Hk2) as [(e & He & Hf)|(Ho & Hb & Hv)].
  { left. exists e. split; [done|]. by eapply read_failure_lib. }
  right. rewrite Ho, Hb, Hv. destruct (Z.leb_spec k (zlen (rx (view w)))); [done|].
  by rewrite ztake_all, zdrop_all by lia.
Qed.

Lemma write_callback b0 v0 aw b w :
  0 < zlen b0 < 2 ^ 63 ->
  let Inv aw b v :=
    (wa_limit aw = zlen b0 \/ (wa_limit aw = -1 /\ wa_bytes_written aw = 0)) /\
    0 <= wa_bytes_written aw < zlen b0 /\ wa_err aw = false /\
    b = zdrop (wa_bytes_written aw) b0 /\
    v = Net (rx v0) (tx v0 ++ ztake (wa_bytes_written aw) b0) in
  let Q o b v := exists aw', o = Val aw' /\
    (wa_err aw' = true \/
     (wa_err aw' = false /\ b = [] /\ v = Net (rx v0) (tx v0 ++ b0))) in
  Inv aw b (view w) ->
  match WriteAwaiter_on_write_ready aw (b, w) with
  | (Val (aw', Rearmed), (b', w')) =>
      Inv aw' b' (view w') /\
      (Z.to_nat (zlen b0 - wa_bytes_written aw') < Z.to_nat (zlen b0 - wa_bytes_written aw))%nat
  | (Val (aw', Resumed), st') => ends Q (Val aw') st'
  | (Exn e, _) => lib_failure e
  | (Undef, _) | (NoFuel, _) => False
  end.
Proof.
  intros Hk Inv Q (Hl & Hr & He & Hb & Hv).
  unfold WriteAwaiter_on_write_ready. rewrite evbuffer_get_length_spec.
  set (bw := wa_bytes_written aw) in *.
  pose proof (zlen_zdrop bw b0 ltac:(lia)) as Hlen. rewrite Z.min_l in Hlen by lia.
  rewrite <- Hb in Hlen.
  assert ((if wa_limit aw <? 0 then s64 (zlen b) else wa_limit aw) = zlen b0) as ->.
  { unfold s64. destruct (Z.ltb_spec (wa_limit aw) 0); [|lia].
    rewrite sgn_small by lia. lia. }
  pose proof (evbuffer_write_atmost_spec w b (zlen b0)) as Hs.
  ospecialize (Hs _ _). { intros ->. rewrite zlen_nil in Hlen. lia. } { lia. }
  destruct (evbuffer_write_atmost w b (zlen b0)) as [[n b'] w'].
  destruct (Z.ltb_spec n 0).
  { right. eexists; split; [done|]. by left. }
  destruct Hs as [?|(Hn & -> & Hv')]; [lia|].
  unfold u64. rewrite (Z.mod_small (bw + n)) by lia. unfold s64. rewrite sgn_small by lia.
  rewrite Hv in Hv'. simpl in Hv'.
  rewrite Hb, <- app_assoc, ztake_ztake_add in Hv' by lia.
  rewrite Hb, zdrop_zdrop by lia.
  destruct (Z.eqb_spec (bw + n) (zlen b0)) as [Hd|Hd]; simpl.
  - right. eexists; split; [done|]. right. simpl. rewrite Hd in *.
    rewrite zdrop_all, Hv', ztake_all by lia. auto.
  - unfold bind. destruct (Event_add_law (zdrop (bw + n) b0) w') as [[e [He' HF]]|[w2 [-> Hv2]]].
    { destruct (Event_add _) as [[] ?]; simplify_eq/=. done. }
    simpl. rewrite Hv2. repeat split; auto; simpl; lia.
Qed.

Lemma Buffer_write_all_law :
  refines lib_failure (Rprod eq (fun w v => view w = v)) (Buffer_write (-1)) spec_write.
Proof.
  intros [b w] [b' v'] [Hb Hw]. simpl in Hb, Hw. subst b' v'. unfold spec_write.
  pose proof (zlen_nonneg b).
  destruct (Z.eqb_spec (zlen b) 0); [by left|]. destruct (Z.leb_spec (2 ^ 63) (zlen b)); [by left|].
  right. simpl. unfold Buffer_write, co_await_Write. simpl. rewrite evbuffer_get_length_spec.
  unfold bind.
  pose proof (drive_rule WriteAwaiter_on_write_ready _
    (fun aw => Z.to_nat (zlen b - wa_bytes_written aw)) _ (fuel_for (zlen b))
    (WriteAwaiter_ctor (-1)) b w
    (fun aw b' w' => write_callback b (view w) aw b' w' ltac:(lia))) as Hd.
  ospecialize (Hd _ _).
  { simpl. rewrite ztake_0, zdrop_0, app_nil_r. repeat split; auto; try lia. by destruct (view w). }
  { unfold fuel_for. simpl. lia. }
  destruct (drive _ _ _ _) as [o [b' w']]. simpl in Hd.
  destruct Hd as [[e [-> HF]]|[aw' [-> [He|(He & Hb & Hv)]]]]; [left; eauto| |];
    unfold WriteAwaiter_await_resume; rewrite He.
  - left. eexists; split; [done|lib_fail].
  - right. simpl in *. subst b'. repeat split; auto.
Qed.

Lemma ends_refines (m : ST (bytes * sock) unit) (m' : ST (bytes * net) unit) :
  (forall b w, fst (m' (b, view w)) <> Undef ->
     ends (fun o b' v' => m' (b, view w) = (o, (b', v'))) (fst (m (b, w))) (snd (m (b, w)))) ->
  refines lib_failure (Rprod eq (fun w v => view w = v)) m m'.
Proof.
  intros Hm [b w] [b' v'] [Hb Hw]. simpl in Hb, Hw. subst b' v'.
  assert (fst (m' (b, view w)) = Undef \/ fst (m' (b, view w)) <> Undef) as [Hu|Hu].
  { destruct (m' (b, view w)) as [[] ?]; auto. }
  - by left.
  - right. destruct (Hm b w Hu) as [He|He]; [by left|right].
    rewrite He. simpl. by destruct (m (b, w)) as [o [b' w']].
Qed.

Lemma spec_read_defined k b v : fst (spec_read k (b, v)) <> Undef -> 0 <= k < 2 ^ 31.
Proof.
  unfold spec_read. destruct (Z.ltb_spec k 0); [done|]. destruct (Z.eqb_spec k 0); [lia|].
  by destruct (Z.leb_spec (2 ^ 31) k); [|lia].
Qed.

#[export] Instance libevent_socket_laws :
  SocketLaws libevent_socket (fun w v => view w = v).
Proof.
  split; simpl.
  - intros n. apply ends_refines. intros b w Hu. apply spec_read_defined in Hu.
    unfold Buffer_read, s64. rewrite sgn_small by lia. by apply co_await_ReadExactly_law.
  - intros n. apply ends_refines. intros b w Hu. unfold spec_read_to in *.
    destruct (Z.ltb_spec n 0); [done|]. apply spec_read_defined in Hu.
    unfold Buffer_read_to. simpl. rewrite evbuffer_get_length_spec. pose proof (zlen_nonneg b).
    destruct (Z.leb_spec n (zlen b)).
    + rewrite Z.max_l by lia. by apply co_await_ReadExactly_law.
    + rewrite Z.max_r by lia. unfold u64. rewrite Z.mod_small by lia.
      apply co_await_ReadExactly_law. lia.
  - apply Buffer_write_all_law.
Qed.
End Laws.

Lemma Buffer_write_delivers {L : Libevent} {view} {LS : LibeventSpec L view} b w :
  0 < zlen b < 2 ^ 63 ->
  delivers lib_failure (Rprod eq (fun w v => view w = v)) (Buffer_write (-1)) (b, w)
    (Val tt) ([], Net (rx (view w)) (tx (view w) ++ b)).
Proof.
  intros Hb. eapply refines_delivers with (s' := (b, view w));
    [apply Buffer_write_all_law|done|by apply spec_write_nonempty|done].
Qed.

(** ** Properties *)

(** C14: the methods of [Buffer] implement the queue of bytes the protocol code
    relies on: over any libevent that keeps its contract, each of them throws the
    failure of the libevent function it calls exactly when that function reports one,
    and otherwise answers, and leaves the buffer, exactly as its abstract counterpart
    does, "not enough data" and "end of stream" included; so the laws of the
    interface hold. *)
Theorem Buffer_implements_queue {L : Libevent} {view} {LS : LibeventSpec L view} :
  reports_failures /\ BufferLaws libevent_buffer.
Proof. split; [apply libevent_buffer_reports|apply libevent_buffer_laws]. Qed.

(** C15: [co_await read(fd, n)] ends, after at most [n] callbacks: with exactly [n]
    more bytes of the stream in the buffer, however the kernel slices them; or,
    when the peer closes earlier, with "end of stream" and all of what it sent in
    the buffer. It ends otherwise only when libevent reports a failure, with the
    exception of the call that failed: the first [event_add], a read made while it
    waits, or [event_add] after a read that was too short. *)
Theorem Buffer_read_exactly {L : Libevent} {view} {LS : LibeventSpec L view} n b w :
  0 < n < 2 ^ 31 ->
  let v := view w in
  let r := Buffer_read n (b, w) in
  (exists e, fst r = Exn e /\ read_failure (view := view) n b w e) \/
  (fst r = (if n <=? zlen (rx v) then Val tt else Exn end_of_stream) /\
   fst (snd r) = b ++ ztake n (rx v) /\ view (snd (snd r)) = Net (zdrop n (rx v)) (tx v)).
Proof.
  intros Hn v. unfold Buffer_read, s64. rewrite sgn_small by lia. by apply co_await_ReadExactly_exact.
Qed.

(** [co_await write(fd)] ends with every byte of the buffer sent, in order,
    and the buffer empty, however the kernel slices the writes, or with a failure
    that libevent reports. *)
Theorem Buffer_write_all {L : Libevent} {view} {LS : LibeventSpec L view} b w :
  0 < zlen b < 2 ^ 63 ->
  let v := view w in
  delivers lib_failure (Rprod eq (fun w v => view w = v)) (Buffer_write (-1)) (b, w)
    (Val tt) ([], Net (rx v) (tx v ++ b)).
Proof. apply Buffer_write_delivers. Qed.

(** [co_await write(fd, size)] with a size is not exact: [on_write_ready]
    offers the kernel [size] bytes at every callback instead of what is left, so
    after a short write it sends bytes beyond the first [size], and then misses
    the count it stops at. Here the kernel takes two bytes per call, the caller
    asks for three of six, and all six are sent before the wait fails. *)
Theorem Buffer_write_size_overshoots :
  @Buffer_write (chunked 2) 3 (str "abcdef", Net [] []) =
    (Exn (runtime_error (str "failed to write to fd")), ([], Net [] (str "abcdef"))).
Proof. vm_compute. reflexivity. Qed.

Lemma Buffer_implements_queue_witness :
  @reports_failures (chunked 2) /\ BufferLaws (@libevent_buffer (chunked 2)).
Proof. exact (Buffer_implements_queue (LS := chunked_spec 2)). Defined.

Lemma Buffer_read_exactly_witness :
  let r := @Buffer_read (chunked 2) 5 ([], Net (str "abcdefg") []) in
  (exists e, fst r = Exn e /\
     read_failure (L := chunked 2) (view := fun w => w) 5 [] (Net (str "abcdefg") []) e) \/
  (fst r = Val tt /\ fst (snd r) = str "abcde" /\ snd (snd r) = Net (str "fg") []).
Proof.
  apply (Buffer_read_exactly (LS := chunked_spec 2) 5 [] (Net (str "abcdefg") [])). lia.
Defined.

Lemma Buffer_write_all_witness :
  delivers lib_failure (Rprod eq (fun w v => w = v))
    (@Buffer_write (chunked 2) (-1)) (str "abcdefg", Net [] [])
    (Val tt) ([], Net [] (str "abcdefg")).
Proof.
  apply (Buffer_write_all (LS := chunked_spec 2) (str "abcdefg") (Net [] [])).
  split; reflexivity.
Defined.
