(* ===== verification/Ownership.v ===== *)
(** * Objects that own a resource (Event.cc, Task.hh, DNSBase.cc, Config.cc)

    Many classes of the library wrap a pointer that libevent, or the compiler's
    coroutine machinery, gives out: an object is constructed with the resource,
    may be moved, and releases it in its destructor. The objects go by names; an
    object holds a resource or a null pointer. The classes differ in what move
    assignment does with the resource that the target had. *)
From stdpp Require Import tactics base list numbers strings gmap.
From S2P Require Import Prelude.

(** ** What objects hold

    [f] says which resources a value of the map holds. *)
Section Held.
Context {V : Type} (f : V -> list nat).

Definition held_by (m : gmap nat V) : list nat := map_to_list m ≫= fun p => f (snd p).

Lemma held_insert m x v : m !! x = None -> held_by (<[x := v]> m) ≡ₚ f v ++ held_by m.
Proof. intros H. unfold held_by. by rewrite map_to_list_insert. Qed.

Lemma held_delete m x v : m !! x = Some v -> held_by m ≡ₚ f v ++ held_by (delete x m).
Proof.
  intros H. rewrite <- held_insert by apply lookup_delete_eq. by rewrite insert_delete_id.
Qed.

Lemma held_update m x v v' :
  m !! x = Some v -> f v ++ held_by (<[x := v']> m) ≡ₚ f v' ++ held_by m.
Proof.
  intros H. rewrite <- insert_delete_eq, held_insert by apply lookup_delete_eq.
  rewrite (held_delete m x v H). solve_Permutation.
Qed.

(** Moving the contents of [y] to [x]: what [x] held is displaced. *)
Lemma held_move m x y v o null :
  f null = [] -> m !! x = Some v -> m !! y = Some o ->
  held_by (<[y := null]> (<[x := o]> m)) ++ f v ≡ₚ held_by m.
Proof.
  intros Hn Hx Hy.
  pose proof (held_update m x v o Hx) as H1.
  assert (<[x := o]> m !! y = Some o) as Hy'
    by (destruct (decide (x = y)) as [->|]; [apply lookup_insert_eq|by rewrite lookup_insert_ne]).
  pose proof (held_update _ y o null Hy') as H2. rewrite Hn in H2. simpl in H2.
  apply (Permutation_app_inv_l (f o)). rewrite <- H1, <- H2. solve_Permutation.
Qed.

Lemma held_move_new m x y o null :
  f null = [] -> m !! x = None -> m !! y = Some o ->
  held_by (<[y := null]> (<[x := o]> m)) ≡ₚ held_by m.
Proof.
  intros Hn Hx Hy. assert (x <> y) by congruence.
  assert (<[x := o]> m !! y = Some o) as Hy' by by rewrite lookup_insert_ne.
  pose proof (held_update _ y o null Hy') as Hp. rewrite Hn, (held_insert m x o Hx) in Hp.
  simpl in Hp. by apply Permutation_app_inv_l in Hp.
Qed.
End Held.

(** ** The operations *)

Definition handle : Type := option nat.
Record handles := mkHandles { h_objects : gmap nat handle; h_released : list nat }.
Definition handles_new : handles := mkHandles ∅ [].

Definition on_handles (f : gmap nat handle -> gmap nat handle) : ST handles unit :=
  modify (fun s => mkHandles (f (h_objects s)) (h_released s)).
Definition handle_of (x : nat) : ST handles handle := fun s =>
  match h_objects s !! x with Some h => (Val h, s) | None => (Undef, s) end.
(** The function of the library that gives the resource back. *)
Definition release (h : handle) : ST handles unit :=
  match h with
  | Some r => modify (fun s => mkHandles (h_objects s) (h_released s ++ [r]))
  | None => ret tt
  end.

(** An object made with a resource, or with none. *)
Definition construct (x : nat) (h : handle) : ST handles unit := on_handles (insert x h).
(** The resource moves along; the other object gets a null pointer. *)
Definition move_construct (x other : nat) : ST handles unit :=
  let! o := handle_of other in
  on_handles (fun m => <[other := None]> (<[x := o]> m)).
Definition destroy (x : nat) : ST handles unit :=
  let! h := handle_of x in
  release h ;;; on_handles (delete x).

(** Event.cc: [event_new] may answer null, and so throw. *)
Definition Event_default (x : nat) : ST handles unit := construct x None.
Definition Event_ctor (x : nat) (ev : handle) : ST handles unit :=
  match ev with None => throw bad_alloc | Some _ => construct x ev end.
Definition Event_move : nat -> nat -> ST handles unit := move_construct.
Definition Event_assign (x other : nat) : ST handles unit :=
  handle_of x ;;;
  let! o := handle_of other in
  on_handles (fun m => <[other := None]> (<[x := o]> m)).
Definition Event_destroy : nat -> ST handles unit := destroy.

(** DNSBase.cc: the pointer of [evdns_base_new] is not checked. *)
Definition DNSBase_ctor (x : nat) (dns : handle) : ST handles unit := construct x dns.
Definition DNSBase_move : nat -> nat -> ST handles unit := move_construct.
Definition DNSBase_assign (x other : nat) : ST handles unit :=
  handle_of x ;;;
  let! o := handle_of other in
  on_handles (fun m => <[other := None]> (<[x := o]> m)).
Definition DNSBase_destroy : nat -> ST handles unit := destroy.

(** Task.hh: the resource is the coroutine's frame; assignment destroys the frame
    that the target had, and after assigning an object to itself it has none. *)
Definition TaskBase_ctor (x : nat) (coro : handle) : ST handles unit := construct x coro.
Definition TaskBase_move : nat -> nat -> ST handles unit := move_construct.
Definition TaskBase_assign (x other : nat) : ST handles unit :=
  let! h := handle_of x in
  release h ;;;
  let! o := handle_of other in
  on_handles (fun m => <[other := None]> (<[x := o]> m)).
Definition TaskBase_destroy : nat -> ST handles unit := destroy.

(** ** Sequences of operations *)

Inductive handle_class := EventClass | DNSBaseClass | TaskClass.
#[export] Instance handle_class_eq_dec : EqDecision handle_class.
Proof. solve_decision. Defined.

Inductive handle_op :=
| HNew (x : nat) (h : handle)
| HMove (x other : nat)
| HAssign (x other : nat)
| HDestroy (x : nat).

Definition handle_step (cls : handle_class) (op : handle_op) : ST handles unit :=
  match cls, op with
  | EventClass, HNew x None => Event_default x
  | EventClass, HNew x h => Event_ctor x h
  | EventClass, HMove x y => Event_move x y
  | EventClass, HAssign x y => Event_assign x y
  | EventClass, HDestroy x => Event_destroy x
  | DNSBaseClass, HNew x h => DNSBase_ctor x h
  | DNSBaseClass, HMove x y => DNSBase_move x y
  | DNSBaseClass, HAssign x y => DNSBase_assign x y
  | DNSBaseClass, HDestroy x => DNSBase_destroy x
  | TaskClass, HNew x h => TaskBase_ctor x h
  | TaskClass, HMove x y => TaskBase_move x y
  | TaskClass, HAssign x y => TaskBase_assign x y
  | TaskClass, HDestroy x => TaskBase_destroy x
  end.
Fixpoint handle_run (cls : handle_class) (ops : list handle_op) : ST handles unit :=
  match ops with
  | [] => ret tt
  | op :: ops => handle_step cls op ;;; handle_run cls ops
  end.

(** A new object has a name that is not in use. *)
Definition op_fresh (op : handle_op) (s : handles) : bool :=
  match op with
  | HNew x _ | HMove x _ => bool_decide (h_objects s !! x = None)
  | _ => true
  end.
Fixpoint ops_fresh (cls : handle_class) (ops : list handle_op) (s : handles) : bool :=
  match ops with
  | [] => true
  | op :: ops => op_fresh op s && ops_fresh cls ops (snd (handle_step cls op s))
  end.

Definition handle_list (h : handle) : list nat := match h with Some r => [r] | None => [] end.
Definition resources (ops : list handle_op) : list nat :=
  ops ≫= fun op => match op with HNew _ h => handle_list h | _ => [] end.
(** The resources that assignments displace. *)
Definition displaced1 (op : handle_op) (s : handles) : list nat :=
  match op with
  | HAssign x _ => match h_objects s !! x with Some h => handle_list h | None => [] end
  | _ => []
  end.
Fixpoint displaced (cls : handle_class) (ops : list handle_op) (s : handles) : list nat :=
  match ops with
  | [] => []
  | op :: ops => displaced1 op s ++ displaced cls ops (snd (handle_step cls op s))
  end.

Definition unreleased (cls : handle_class) (l : list nat) : list nat :=
  match cls with TaskClass => [] | _ => l end.

Lemma unreleased_app cls l1 l2 : unreleased cls (l1 ++ l2) = unreleased cls l1 ++ unreleased cls l2.
Proof. by destruct cls. Qed.

Lemma release_eq h s :
  release h s = (Val tt, mkHandles (h_objects s) (h_released s ++ handle_list h)).
Proof. destruct h; [done|]. simpl. rewrite app_nil_r. by destruct s. Qed.

Lemma handle_step_accounted cls op s s' :
  op_fresh op s = true -> handle_step cls op s = (Val tt, s') ->
  resources [op] ++ h_released s ++ held_by handle_list (h_objects s) ≡ₚ
  h_released s' ++ held_by handle_list (h_objects s') ++ unreleased cls (displaced1 op s).
Proof.
  unfold resources. intros Hf Hr. simpl. rewrite app_nil_r.
  destruct op as [x h|x y|x y|x]; simpl in Hf; try apply bool_decide_eq_true in Hf; simpl.
  - assert (s' = mkHandles (<[x := h]> (h_objects s)) (h_released s)) as ->
      by (destruct cls, h; by injection Hr as <-).
    simpl. rewrite held_insert by done. destruct cls; simpl; rewrite app_nil_r; solve_Permutation.
  - assert (exists o, h_objects s !! y = Some o /\
      s' = mkHandles (<[y := None]> (<[x := o]> (h_objects s))) (h_released s)) as (o & Hy & ->).
    { destruct cls;
        unfold handle_step, Event_move, DNSBase_move, TaskBase_move, move_construct, bind, handle_of in Hr;
        (destruct (h_objects s !! y) as [o|] eqn:Hy; [|done]); exists o; by injection Hr as <-. }
    simpl. rewrite (held_move_new handle_list _ x y o None) by done.
    destruct cls; simpl; by rewrite app_nil_r.
  - assert (exists h o, h_objects s !! x = Some h /\ h_objects s !! y = Some o /\
      s' = mkHandles (<[y := None]> (<[x := o]> (h_objects s)))
             (h_released s ++ match cls with TaskClass => handle_list h | _ => [] end))
      as (h & o & Hx & Hy & ->).
    { destruct cls; unfold handle_step, Event_assign, DNSBase_assign, TaskBase_assign, bind, handle_of in Hr;
        (destruct (h_objects s !! x) as [h|] eqn:Hx; [|done]); try rewrite release_eq in Hr; simpl in Hr;
        (destruct (h_objects s !! y) as [o|] eqn:Hy; [|done]); exists h, o; injection Hr as <-;
        by rewrite ?app_nil_r. }
    rewrite Hx. simpl. rewrite <- (held_move handle_list _ x y h o None) by done.
    destruct cls; simpl; rewrite ?app_nil_r; solve_Permutation.
  - assert (exists h, h_objects s !! x = Some h /\
      s' = mkHandles (delete x (h_objects s)) (h_released s ++ handle_list h)) as (h & Hx & ->).
    { destruct cls;
        unfold handle_step, Event_destroy, DNSBase_destroy, TaskBase_destroy, destroy, bind, handle_of in Hr;
        (destruct (h_objects s !! x) as [h|] eqn:Hx; [|done]); rewrite release_eq in Hr; exists h;
        by injection Hr as <-. }
    simpl. rewrite (held_delete handle_list _ x h Hx). destruct cls; simpl; rewrite app_nil_r;
      solve_Permutation.
Qed.

Lemma handle_run_accounted cls ops : forall s s',
  ops_fresh cls ops s = true -> handle_run cls ops s = (Val tt, s') ->
  resources ops ++ h_released s ++ held_by handle_list (h_objects s) ≡ₚ
  h_released s' ++ held_by handle_list (h_objects s') ++ unreleased cls (displaced cls ops s).
Proof.
  induction ops as [|op ops IH]; intros s s' Hf Hr; cbn [ops_fresh handle_run displaced] in *.
  - injection Hr as <-. destruct cls; by rewrite app_nil_r.
  - apply andb_prop in Hf as [Hf1 Hf2]. unfold bind in Hr.
    destruct (handle_step cls op s) as [[[]| | |] s1] eqn:Hs; try done. cbn [snd] in *.
    pose proof (handle_step_accounted cls op s s1 Hf1 Hs) as Hp. specialize (IH s1 s' Hf2 Hr).
    assert (resources (op :: ops) = resources [op] ++ resources ops) as ->
      by (unfold resources; simpl; by rewrite app_nil_r).
    rewrite unreleased_app.
    transitivity (resources ops ++ (resources [op] ++ h_released s ++ held_by handle_list (h_objects s)));
      [solve_Permutation|]. rewrite Hp.
    transitivity (unreleased cls (displaced1 op s) ++
      (resources ops ++ h_released s1 ++ held_by handle_list (h_objects s1)));
      [solve_Permutation|]. rewrite IH. solve_Permutation.
Qed.

(** C18: whatever sequence of constructions, moves, assignments and destructions
    runs, every resource is released once, or held by one object, or -- for
    events and DNS bases only -- lost because an assignment overwrote the object
    that held it. So no event, DNS base or coroutine frame is ever released twice,
    and once every [Task] is destroyed, every coroutine frame has been destroyed. *)
Theorem handles_accounted cls ops s :
  ops_fresh cls ops handles_new = true -> handle_run cls ops handles_new = (Val tt, s) ->
  resources ops ≡ₚ h_released s ++ held_by handle_list (h_objects s) ++
                   unreleased cls (displaced cls ops handles_new) /\
  (cls = TaskClass -> h_objects s = ∅ -> h_released s ≡ₚ resources ops).
Proof.
  intros Hf Hr. pose proof (handle_run_accounted cls ops handles_new s Hf Hr) as Hp.
  simpl in Hp. change (held_by handle_list ∅) with (@nil nat) in Hp. rewrite app_nil_r in Hp.
  split; [done|]. intros -> Hs. rewrite Hp, Hs. simpl. by rewrite !app_nil_r.
Qed.

(** Assigning tasks around, one of them to itself, and destroying all. *)
Lemma handles_accounted_witness :
  let ops := [HNew 0 (Some 7); HNew 1 (Some 8); HAssign 0 1; HMove 2 0; HAssign 2 2;
              HDestroy 0; HDestroy 1; HDestroy 2]%nat in
  let s := mkHandles ∅ [7; 8]%nat in
  resources ops ≡ₚ h_released s ++ held_by handle_list (h_objects s) ++
                   unreleased TaskClass (displaced TaskClass ops handles_new) /\
  (TaskClass = TaskClass -> h_objects s = ∅ -> h_released s ≡ₚ resources ops).
Proof.
  intros ops s. apply (handles_accounted TaskClass ops s); vm_compute; reflexivity.
Defined.
