(* ===== verification/BufferRefs.v ===== *)
(** * Who frees what is left with libevent (src/src/Buffer.cc, Base.cc)

    The [owned] flag of a [Buffer], the copies that [add_reference] and
    [add(string&&)] leave with libevent until it is done with the data, and the
    callback that [Base::once] leaves with it until its event. libevent is not
    part of the repository: whether it takes a reference is an argument, and when
    it lets go of one is a step of its own. *)
From stdpp Require Import tactics base list numbers strings gmap.
From S2P Require Import Prelude.

(** What [new] has made: the string that [add] moves its argument into, the copy
    of a cleanup function, or the copy of a callback. *)
Inductive copy := CopyString (s : bytes) | CopyFunction (cleanup : nat) | CopyCallback (cb : nat).

(** [buf] may be null; [owned] is [None] while it has no value. *)
Record Buffer := mkBuffer { bo_buf : option nat; bo_owned : option bool }.

Record world := mkWorld {
  w_buffers : gmap nat Buffer;
  w_freed : list nat;                 (* evbuffer_free *)
  w_held : gmap nat copy;             (* references that libevent has, by name *)
  w_made : list copy;
  w_deleted : list copy;
  w_called : list nat                 (* functions called *)
}.
Definition world_new : world := mkWorld ∅ [] ∅ [] [] [].

Definition on_buffers (f : gmap nat Buffer -> gmap nat Buffer) : ST world unit :=
  modify (fun w => mkWorld (f (w_buffers w)) (w_freed w) (w_held w) (w_made w) (w_deleted w) (w_called w)).
Definition buffer (x : nat) : ST world Buffer := fun w =>
  match w_buffers w !! x with Some b => (Val b, w) | None => (Undef, w) end.

(** ** Constructors and destructor *)

Definition Buffer_ctor (x : nat) (new : option nat) : ST world unit :=
  match new with
  | None => throw bad_alloc
  | Some b => on_buffers (insert x (mkBuffer (Some b) (Some true)))
  end.
(** A view of an evbuffer that somebody else owns. *)
Definition Buffer_of (x b : nat) : ST world unit :=
  on_buffers (insert x (mkBuffer (Some b) (Some false))).
Definition Buffer_move (x other : nat) : ST world unit :=
  let! o := buffer other in
  on_buffers (fun m => <[x := mkBuffer (bo_buf o) None]> (<[other := mkBuffer None (Some false)]> m)).
Definition Buffer_destroy (x : nat) : ST world unit :=
  let! b := buffer x in
  match bo_owned b, bo_buf b with
  | None, _ | Some true, None => undef
  | Some true, Some e =>
      modify (fun w => mkWorld (delete x (w_buffers w)) (w_freed w ++ [e]) (w_held w) (w_made w)
                         (w_deleted w) (w_called w))
  | Some false, _ => on_buffers (delete x)
  end.

(** ** References *)

Definition add_reference_failed : exn := runtime_error (str "evbuffer_add_reference").

Definition new_copy (c : copy) : ST world unit :=
  modify (fun w => mkWorld (w_buffers w) (w_freed w) (w_held w) (w_made w ++ [c])
                     (w_deleted w) (w_called w)).
Definition delete_copy (c : copy) : ST world unit :=
  modify (fun w => mkWorld (w_buffers w) (w_freed w) (w_held w) (w_made w)
                     (w_deleted w ++ [c]) (w_called w)).
Definition call_cleanup (f : nat) : ST world unit :=
  modify (fun w => mkWorld (w_buffers w) (w_freed w) (w_held w) (w_made w)
                     (w_deleted w) (w_called w ++ [f])).

(** [evbuffer_add_reference], and [event_base_once] alike: when it succeeds,
    libevent has the reference [r]. *)
Definition evbuffer_add_reference (r : nat) (c : copy) (taken : bool) : ST world bool :=
  (if taken then
     modify (fun w => mkWorld (w_buffers w) (w_freed w) (<[r := c]> (w_held w)) (w_made w)
                        (w_deleted w) (w_called w))
   else ret tt) ;;;
  ret taken.

(** [add_reference] with a [std::function]. *)
Definition add_reference (r cleanup : nat) (taken : bool) : ST world unit :=
  let fn_copy := CopyFunction cleanup in
  new_copy fn_copy ;;;
  let! taken := evbuffer_add_reference r fn_copy taken in
  if (taken : bool) then ret tt else delete_copy fn_copy ;;; throw add_reference_failed.

(** [add(string&& data)]; the state has the argument in front, which gets its
    value back when the reference is not taken. *)
Definition add (r : nat) (taken : bool) : ST (bytes * world) unit :=
  let! data := on_fst get in
  let s := CopyString data in
  on_snd (new_copy s) ;;;
  on_fst (put []) ;;;
  let! taken := on_snd (evbuffer_add_reference r s taken) in
  if (taken : bool) then ret tt
  else on_fst (put data) ;;; on_snd (delete_copy s) ;;; throw add_reference_failed.

(** [Base::once]; [event_base_once] may fail. *)
Definition once_failed : exn := runtime_error (str "event_base_once failed").
Definition Base_once (r cb : nat) (taken : bool) : ST world unit :=
  let fn := CopyCallback cb in
  new_copy fn ;;;
  let! taken := evbuffer_add_reference r fn taken in
  if (taken : bool) then ret tt else delete_copy fn ;;; throw once_failed.

(** libevent lets go of a reference, or the event of [once] comes. *)
Definition dispatch_delete_string (s : bytes) : ST world unit := delete_copy (CopyString s).
Definition dispatch_cxx_cleanup_fn (f : nat) : ST world unit :=
  call_cleanup f ;;; delete_copy (CopyFunction f).
Definition dispatch_once_cb (f : nat) : ST world unit :=
  call_cleanup f ;;; delete_copy (CopyCallback f).
Definition release (r : nat) : ST world unit := fun w =>
  match w_held w !! r with
  | None => (Undef, w)
  | Some c =>
      let w' := mkWorld (w_buffers w) (w_freed w) (delete r (w_held w)) (w_made w)
                  (w_deleted w) (w_called w) in
      match c with
      | CopyString s => dispatch_delete_string s w'
      | CopyFunction f => dispatch_cxx_cleanup_fn f w'
      | CopyCallback f => dispatch_once_cb f w'
      end
  end.

(** ** Sequences *)

Inductive op :=
| OAddString (r : nat) (data : bytes) (taken : bool)
| OAddReference (r cleanup : nat) (taken : bool)
| OOnce (r cb : nat) (taken : bool)
| ORelease (r : nat).
Definition step (o : op) : ST world unit :=
  match o with
  | OAddString r data taken => with_local data (add r taken)
  | OAddReference r cleanup taken => add_reference r cleanup taken
  | OOnce r cb taken => Base_once r cb taken
  | ORelease r => release r
  end.
(** Names of references are not used twice at a time. *)
Definition fresh (o : op) (w : world) : bool :=
  match o with
  | OAddString r _ _ | OAddReference r _ _ | OOnce r _ _ => bool_decide (w_held w !! r = None)
  | ORelease _ => true
  end.
(** The state after a sequence, [None] once a step is undefined or not fresh; the
    caller goes on after an exception. *)
Fixpoint run (ops : list op) (w : world) : option world :=
  match ops with
  | [] => Some w
  | o :: ops =>
      if fresh o w then
        match step o w with
        | (Undef, _) => None
        | (_, w') => run ops w'
        end
      else None
  end.

Definition held (w : world) : list copy := (map_to_list (w_held w)).*2.
Definition functions (l : list copy) : list nat :=
  l ≫= fun c => match c with CopyFunction f | CopyCallback f => [f] | CopyString _ => [] end.
(** The functions that libevent took. *)
Definition cleanups_taken (ops : list op) : list nat :=
  ops ≫= fun o => match o with OAddReference _ f true | OOnce _ f true => [f] | _ => [] end.

(** ** Lemmas *)

(** Every copy is held or deleted, once; a cleanup function is called when its
    reference is released. *)
Definition accounted (taken : list nat) (w : world) : Prop :=
  w_made w ≡ₚ w_deleted w ++ held w /\ taken ≡ₚ w_called w ++ functions (held w).

Lemma copies_insert w r c :
  w_held w !! r = None -> (map_to_list (<[r := c]> (w_held w))).*2 ≡ₚ c :: held w.
Proof. intros H. unfold held. by rewrite map_to_list_insert. Qed.

Lemma copies_delete w r c :
  w_held w !! r = Some c -> held w ≡ₚ c :: (map_to_list (delete r (w_held w))).*2.
Proof. intros H. unfold held. by rewrite <- (map_to_list_delete _ _ _ H). Qed.

#[local] Instance functions_proper : Proper (Permutation ==> Permutation) functions.
Proof. intros l l' H. unfold functions. by rewrite H. Qed.

Lemma step_accounted o w w' taken :
  fresh o w = true -> accounted taken w -> fst (step o w) <> Undef -> snd (step o w) = w' ->
  accounted (cleanups_taken [o] ++ taken) w'.
Proof.
  unfold accounted. intros Hf [Hm Ht] Hu <-.
  destruct o as [r data []|r f []|r f []|r]; simpl in *; try apply bool_decide_eq_true in Hf;
    unfold held; simpl.
  - rewrite copies_insert by done. rewrite Hm. split; [solve_Permutation|done].
  - fold (held w). rewrite Hm. split; [solve_Permutation|done].
  - rewrite copies_insert by done. rewrite Hm, Ht. simpl. split; solve_Permutation.
  - fold (held w). rewrite Hm. split; [solve_Permutation|done].
  - rewrite copies_insert by done. rewrite Hm, Ht. simpl. split; solve_Permutation.
  - fold (held w). rewrite Hm. split; [solve_Permutation|done].
  - unfold release in *. destruct (w_held w !! r) as [c|] eqn:Hr; [|done].
    pose proof (copies_delete w r c Hr) as Hd. rewrite Hd in Hm, Ht.
    destruct c; simpl; rewrite Hm, Ht; simpl; split; solve_Permutation.
Qed.

Lemma run_accounted ops : forall w w' taken,
  accounted taken w -> run ops w = Some w' -> accounted (cleanups_taken ops ++ taken) w'.
Proof.
  induction ops as [|o ops IH]; intros w w' taken Ha Hr; cbn [run] in Hr.
  - by simplify_eq.
  - destruct (fresh o w) eqn:Hf; [|done].
    pose proof (step_accounted o w (snd (step o w)) taken Hf Ha) as Hs.
    assert (run ops (snd (step o w)) = Some w' /\ fst (step o w) <> Undef) as [Hr' Hu]
      by (destruct (step o w) as [[] ?]; done).
    specialize (IH _ _ _ (Hs Hu eq_refl) Hr').
    unfold accounted in *. destruct IH as [H1 H2]. split; [done|]. rewrite <- H2.
    unfold cleanups_taken. simpl. rewrite app_nil_r. solve_Permutation.
Qed.

(** C17: every string that [add(string&&)] moves away and every copy of a cleanup
    function or of a callback of [once] is deleted once: at once when libevent
    does not take it, else when it lets go of it; what is left is exactly what
    libevent still holds. A function is called once for every time it was taken
    and let go of, and never for a time it was not taken. *)
Theorem references_accounted ops w :
  run ops world_new = Some w ->
  w_made w ≡ₚ w_deleted w ++ held w /\ cleanups_taken ops ≡ₚ w_called w ++ functions (held w).
Proof.
  intros H. rewrite <- (app_nil_r (cleanups_taken ops)).
  apply (run_accounted ops world_new w []); [|done]. by split.
Qed.

Lemma references_accounted_witness :
  let ops := [OAddString 0 (str "abc") true; OAddReference 1 7 true; OOnce 2 8 true;
              ORelease 1; ORelease 0; OAddString 3 (str "d") false] in
  let w := mkWorld ∅ [] {[ 2%nat := CopyCallback 8 ]}
    [CopyString (str "abc"); CopyFunction 7; CopyCallback 8; CopyString (str "d")]
    [CopyFunction 7; CopyString (str "abc"); CopyString (str "d")] [7%nat] in
  w_made w ≡ₚ w_deleted w ++ held w /\ cleanups_taken ops ≡ₚ w_called w ++ functions (held w).
Proof. intros ops w. apply (references_accounted ops w). vm_compute. reflexivity. Defined.

(** A rejected string is given back to the caller. *)
Lemma add_gives_back r data w :
  fst (snd (add r false (data, w))) = data /\ fst (add r false (data, w)) = Exn add_reference_failed.
Proof. done. Qed.

(** A [Buffer] that owns its evbuffer frees it when it is destroyed, one that is a
    view does not; after a move the new object has no value for [owned], so
    destroying it is undefined, and the evbuffer is never freed as it should be. *)
Lemma destroy_moved x y w b :
  w_buffers w !! y = Some b ->
  fst ((Buffer_move x y ;;; Buffer_destroy x) w) = Undef.
Proof.
  intros Hy. unfold Buffer_move, Buffer_destroy, bind, buffer. rewrite Hy. simpl.
  by rewrite lookup_insert_eq.
Qed.
