(* ===== verification/Text.v ===== *)
(** * Text: the fragments of printf, scanf and the character tests the code uses

    [string_printf], [fprintf] and [sscanf] appear all over the protocol code with
    a small set of conversions; this file models those conversions, and proves
    that scanning a printed number gives the number back. *)
From stdpp Require Import tactics base list numbers strings.
From S2P Require Import Prelude.

(** ** Printing *)

Definition digit (d : Z) : byte := byte_of (48 + d).

Fixpoint dec_aux (fuel : nat) (n : Z) (acc : bytes) : bytes :=
  match fuel with
  | O => acc
  | S fuel =>
      let acc := digit (n mod 10) :: acc in
      if n <? 10 then acc else dec_aux fuel (n / 10) acc
  end.
(** ["%u"] of a nonnegative number; a number has at most as many digits as bits. *)
Definition dec (n : Z) : bytes := dec_aux (S (Z.to_nat (Z.log2 n))) n [].
(** ["%d"]. *)
Definition dec_signed (n : Z) : bytes := if n <? 0 then str "-" ++ dec (- n) else dec n.

(** ["%0<w>u"]. *)
Definition pad0 (w : nat) (s : bytes) : bytes := repeat (digit 0) (w - length s) ++ s.
Definition dec0 (w : nat) (n : Z) : bytes := pad0 w (dec n).

Definition hex_digit (d : Z) : byte := if d <? 10 then byte_of (48 + d) else byte_of (55 + d).
(** The low [w] digits of a number in upper-case hexadecimal: ["%0<w>X"] of a
    number that fits them. *)
Fixpoint hex0 (w : nat) (n : Z) : bytes :=
  match w with
  | O => []
  | S w => hex0 w (n / 16) ++ [hex_digit (n mod 16)]
  end.

(** ** Characters *)

Definition is_digit (b : byte) : bool := (48 <=? byte_val b) && (byte_val b <=? 57).
Definition is_space (b : byte) : bool :=
  (byte_val b =? 32) || ((9 <=? byte_val b) && (byte_val b <=? 13)).
Definition tolower (b : byte) : byte :=
  if (65 <=? byte_val b) && (byte_val b <=? 90) then byte_of (byte_val b + 32) else b.

(** The bytes a [c_str()] shows to a C function: those before the first NUL. *)
Definition c_str (s : bytes) : bytes :=
  match split_nul s with Some (h, _) => h | None => s end.

(** ** Scanning *)

Fixpoint scan_digits (l : bytes) (acc : Z) : Z * bytes :=
  match l with
  | b :: l' => if is_digit b then scan_digits l' (10 * acc + (byte_val b - 48)) else (acc, l)
  | [] => (acc, [])
  end.

Fixpoint skip_spaces (l : bytes) : bytes :=
  match l with
  | b :: l' => if is_space b then skip_spaces l' else l
  | [] => []
  end.

Definition starts_digit (l : bytes) : bool :=
  match l with b :: _ => is_digit b | [] => false end.

(** The subject sequence of [strtoul(s, nullptr, 10)]; [None] when there is none. *)
Definition scan_unsigned (l : bytes) : option (Z * bytes) :=
  let '(neg, l) :=
    match l with
    | b :: l' =>
        if decide (b = Byte.x2d) then (true, l')
        else if decide (b = Byte.x2b) then (false, l') else (false, l)
    | [] => (false, [])
    end in
  if starts_digit l then
    let '(v, l) := scan_digits l 0 in
    Some (if (neg : bool) then u64 (- v) else v, l)
  else None.

(** The directives of [sscanf] in use: a literal byte, white space, and an
    unsigned conversion into [w] bits. *)
Inductive directive : Type := Lit (b : byte) | Space | UInt (w : Z).

(** The values converted before the first mismatch; a value that does not fit its
    object is undefined behaviour. *)
Fixpoint sscanf (fmt : list directive) (l : bytes) : out (list Z) :=
  match fmt with
  | [] => Val []
  | Lit c :: fmt =>
      match l with
      | b :: l' => if decide (b = c) then sscanf fmt l' else Val []
      | [] => Val []
      end
  | Space :: fmt => sscanf fmt (skip_spaces l)
  | UInt w :: fmt =>
      match scan_unsigned (skip_spaces l) with
      | None => Val []
      | Some (v, l') =>
          if v <? 2 ^ w then
            match sscanf fmt l' with Val vs => Val (v :: vs) | o => o end
          else Undef
      end
  end.

(** [std::string::find]: where the first occurrence of [pat] starts. *)
Fixpoint find_sub (pat l : bytes) : option Z :=
  if decide (pat `prefix_of` l) then Some 0
  else match l with [] => None | _ :: l => (fun i => 1 + i) <$> find_sub pat l end.

(** ** Lemmas *)

Lemma digit_val d : 0 <= d < 10 -> byte_val (digit d) = 48 + d.
Proof. intros. unfold digit. rewrite byte_val_of, Z.mod_small; lia. Qed.

Lemma is_digit_digit d : 0 <= d < 10 -> is_digit (digit d) = true.
Proof. intros. unfold is_digit. rewrite digit_val by done. by destruct (Z.leb_spec 48 (48 + d)), (Z.leb_spec (48 + d) 57); try lia. Qed.

Lemma scan_digits_digit d l acc :
  0 <= d < 10 -> scan_digits (digit d :: l) acc = scan_digits l (10 * acc + d).
Proof.
  intros. cbn [scan_digits]. rewrite is_digit_digit, digit_val by done.
  f_equal. lia.
Qed.

(** The digits that [dec_aux] puts in front of [acc] scan to [n]. *)
Lemma scan_dec_aux fuel n acc a :
  0 <= n < 2 ^ Z.of_nat fuel -> (0 < fuel)%nat ->
  exists k, 0 <= k /\ scan_digits (dec_aux fuel n acc) a = scan_digits acc (a * 10 ^ k + n).
Proof.
  revert n acc. induction fuel as [|fuel IH]; intros n acc Hn Hf; [lia|].
  cbn [dec_aux]. pose proof (Z.mod_pos_bound n 10 ltac:(lia)).
  destruct (Z.ltb_spec n 10).
  - exists 1. split; [lia|]. rewrite scan_digits_digit by done.
    rewrite Z.mod_small by lia. f_equal. lia.
  - rewrite Nat2Z.inj_succ, Z.pow_succ_r in Hn by lia.
    destruct fuel as [|fuel']; [change (2 ^ Z.of_nat 0) with 1 in Hn; lia|].
    destruct (IH (n / 10) (digit (n mod 10) :: acc)) as (k & Hk & ->).
    { split; [apply Z.div_pos; lia|]. apply Z.div_lt_upper_bound; lia. }
    { lia. }
    exists (k + 1). split; [lia|]. rewrite scan_digits_digit by done. f_equal.
    rewrite Z.pow_add_r by lia. pose proof (Z.div_mod n 10). lia.
Qed.

Lemma dec_fuel n : 0 <= n -> n < 2 ^ Z.of_nat (S (Z.to_nat (Z.log2 n))).
Proof.
  intros Hn. destruct (Z.eq_dec n 0) as [->|]; [done|].
  rewrite Nat2Z.inj_succ, Z2Nat.id by apply Z.log2_nonneg. apply Z.log2_spec. lia.
Qed.

Lemma scan_digits_0s k l : scan_digits (repeat (digit 0) k ++ l) 0 = scan_digits l 0.
Proof. induction k as [|k IH]; [done|]. simpl repeat. cbn [app]. by rewrite scan_digits_digit. Qed.

Lemma scan_digits_stop l a : starts_digit l = false -> scan_digits l a = (a, l).
Proof. destruct l as [|b l]; [done|]. simpl. by intros ->. Qed.

Lemma dec_aux_app fuel n acc r : dec_aux fuel n acc ++ r = dec_aux fuel n (acc ++ r).
Proof.
  revert n acc. induction fuel as [|fuel IH]; intros n acc; [done|]. cbn [dec_aux].
  destruct (n <? 10); [done|]. by rewrite IH.
Qed.

Lemma scan_dec0 w n r :
  0 <= n -> starts_digit r = false -> scan_digits (dec0 w n ++ r) 0 = (n, r).
Proof.
  intros Hn Hr. unfold dec0, pad0. rewrite <- app_assoc, scan_digits_0s. unfold dec.
  rewrite dec_aux_app. destruct (scan_dec_aux _ n ([] ++ r) 0 (conj Hn (dec_fuel n Hn)) ltac:(lia))
    as (k & _ & ->). by rewrite scan_digits_stop.
Qed.

Lemma dec_aux_head fuel n acc :
  0 <= n -> exists d l, dec_aux (S fuel) n acc = digit d :: l /\ 0 <= d < 10.
Proof.
  revert n acc. induction fuel as [|fuel IH]; intros n acc Hn;
    pose proof (Z.mod_pos_bound n 10 ltac:(lia)).
  - cbn [dec_aux]. destruct (n <? 10); eauto.
  - change (dec_aux (S (S fuel)) n acc) with
      (if n <? 10 then digit (n mod 10) :: acc else dec_aux (S fuel) (n / 10) (digit (n mod 10) :: acc)).
    destruct (n <? 10); [eauto|]. apply IH. apply Z.div_pos; lia.
Qed.

Lemma dec0_head w n : 0 <= n -> exists d l, dec0 w n = digit d :: l /\ 0 <= d < 10.
Proof.
  intros Hn. unfold dec0, pad0, dec.
  destruct (w - _)%nat as [|k]; simpl repeat; cbn [app].
  - by apply dec_aux_head.
  - exists 0. eauto with lia.
Qed.

Lemma length_dec0 w n : (w <= length (dec0 w n))%nat.
Proof. unfold dec0, pad0. rewrite length_app, repeat_length. lia. Qed.

Lemma scan_unsigned_dec0 w n r :
  0 <= n -> starts_digit r = false ->
  scan_unsigned (skip_spaces (dec0 w n ++ r)) = Some (n, r).
Proof.
  intros Hn Hr. pose proof (scan_dec0 w n r Hn Hr) as Hs.
  destruct (dec0_head w n Hn) as (d & l & Hd & Hr10). rewrite Hd in *. cbn [app] in *.
  assert (is_space (digit d) = false /\ digit d <> Byte.x2d /\ digit d <> Byte.x2b) as (Hsp & H1 & H2).
  { assert (d = 0 \/ d = 1 \/ d = 2 \/ d = 3 \/ d = 4 \/ d = 5 \/ d = 6 \/ d = 7 \/ d = 8 \/ d = 9)
      as Hc by lia.
    by destruct Hc as [->|[->|[->|[->|[->|[->|[->|[->|[->| ->]]]]]]]]]. }
  cbn [skip_spaces]. rewrite Hsp. unfold scan_unsigned.
  rewrite !decide_False by done. cbn [starts_digit].
  rewrite is_digit_digit by done. by rewrite Hs.
Qed.

Lemma sscanf_UInt w' w n r fmt vs :
  0 <= n < 2 ^ w -> starts_digit r = false -> sscanf fmt r = Val vs ->
  sscanf (UInt w :: fmt) (dec0 w' n ++ r) = Val (n :: vs).
Proof.
  intros Hn Hr Hf. cbn [sscanf]. rewrite scan_unsigned_dec0 by (done || lia).
  destruct (Z.ltb_spec n (2 ^ w)); [|lia]. by rewrite Hf.
Qed.

Lemma sscanf_Lit c r fmt : sscanf (Lit c :: fmt) (c :: r) = sscanf fmt r.
Proof. cbn [sscanf]. by rewrite decide_True. Qed.

Lemma skip_spaces_dec0 w n r : 0 <= n -> skip_spaces (dec0 w n ++ r) = dec0 w n ++ r.
Proof.
  intros Hn. destruct (dec0_head w n Hn) as (d & l & -> & Hd). cbn [app skip_spaces].
  assert (d = 0 \/ d = 1 \/ d = 2 \/ d = 3 \/ d = 4 \/ d = 5 \/ d = 6 \/ d = 7 \/ d = 8 \/ d = 9)
    as Hc by lia.
  by destruct Hc as [->|[->|[->|[->|[->|[->|[->|[->|[->| ->]]]]]]]]].
Qed.

Lemma sscanf_Space fmt w n r :
  0 <= n -> sscanf (Space :: fmt) (Byte.x20 :: dec0 w n ++ r) = sscanf fmt (dec0 w n ++ r).
Proof.
  intros Hn. rewrite <- (skip_spaces_dec0 w n r Hn) at 2. done.
Qed.

(** Printed numbers hold digits only. *)
Lemma dec_aux_digits fuel n acc b :
  b ∈ dec_aux fuel n acc -> 0 <= n -> b ∈ acc \/ exists d, 0 <= d < 10 /\ b = digit d.
Proof.
  revert n acc. induction fuel as [|fuel IH]; intros n acc; [by left|]. cbn [dec_aux].
  intros Hb Hn. pose proof (Z.mod_pos_bound n 10 ltac:(lia)) as Hm.
  assert (b ∈ digit (n mod 10) :: acc \/ exists d, 0 <= d < 10 /\ b = digit d) as [Hin|?]; [| |by right].
  { destruct (n <? 10); [by left|]. apply IH in Hb; [done|]. apply Z.div_pos; lia. }
  apply elem_of_cons in Hin as [->|?]; [right; eauto|by left].
Qed.

Lemma dec0_not_in b w n : 0 <= n -> is_digit b = false -> b ∉ dec0 w n.
Proof.
  intros Hn Hb Hin. unfold dec0, pad0, dec in Hin. apply elem_of_app in Hin as [Hin|Hin].
  - apply list_elem_of_In, repeat_spec in Hin as ->. by rewrite is_digit_digit in Hb.
  - apply dec_aux_digits in Hin as [Hin|(d & Hd & ->)]; [by apply elem_of_nil in Hin| |done].
    by rewrite is_digit_digit in Hb.
Qed.

Lemma length_dec_aux fuel n acc w :
  0 <= n < 10 ^ Z.of_nat w -> (0 < w)%nat ->
  (length (dec_aux fuel n acc) <= w + length acc)%nat.
Proof.
  revert n acc w. induction fuel as [|fuel IH]; intros n acc w Hn Hw; cbn [dec_aux]; [lia|].
  destruct (Z.ltb_spec n 10); [simpl; lia|].
  destruct w as [|[|w]]; [lia|change (10 ^ Z.of_nat 1) with 10 in Hn; lia|].
  etrans; [apply (IH (n / 10) _ (S w))|simpl; lia]; [|lia].
  rewrite Nat2Z.inj_succ, Z.pow_succ_r in Hn by lia.
  split; [apply Z.div_pos; lia|]. apply Z.div_lt_upper_bound; lia.
Qed.

Lemma length_dec0_eq w n : 0 <= n < 10 ^ Z.of_nat w -> (0 < w)%nat -> length (dec0 w n) = w.
Proof.
  intros Hn Hw. unfold dec0, pad0. rewrite length_app, repeat_length.
  pose proof (length_dec_aux (S (Z.to_nat (Z.log2 n))) n [] w Hn Hw) as Hl.
  simpl length in Hl at 2. unfold dec. lia.
Qed.

Lemma c_str_no_nul s : Byte.x00 ∉ s -> c_str s = s.
Proof. intros Hs. unfold c_str. by rewrite split_nul_None. Qed.

Lemma split_nul_le s : forall h t, split_nul s = Some (h, t) -> zlen h <= zlen s.
Proof.
  induction s as [|b s IH]; intros h t; cbn [split_nul]; [done|].
  rewrite zlen_cons. pose proof (zlen_nonneg s). destruct (decide _); intros; simplify_eq;
    [change (zlen []) with 0; lia|].
  destruct (split_nul s) as [[h' t']|]; simplify_eq. rewrite zlen_cons. specialize (IH _ _ eq_refl). lia.
Qed.

Lemma zlen_c_str s : zlen (c_str s) <= zlen s.
Proof. unfold c_str. destruct (split_nul s) as [[h t]|] eqn:E; [by eapply split_nul_le|done]. Qed.

(** ** Lemmas on searching *)

Lemma find_sub_Some pat l : forall i,
  find_sub pat l = Some i -> exists l1 l2, l = l1 ++ pat ++ l2 /\ zlen l1 = i.
Proof.
  induction l as [|b l IH]; intros i; cbn [find_sub]; case_decide as Hp; intros H; simplify_eq/=.
  - destruct Hp as [l2 ->]. by exists [], l2.
  - destruct Hp as [l2 ->]. by exists [], l2.
  - destruct (find_sub pat l) as [j|]; simplify_eq/=.
    destruct (IH j eq_refl) as (l1 & l2 & -> & <-). exists (b :: l1), l2.
    split; [done|]. by rewrite zlen_cons.
Qed.

(** The first occurrence is the one found. *)
Lemma find_sub_first pat l1 l2 :
  exists i, find_sub pat (l1 ++ pat ++ l2) = Some i /\ 0 <= i <= zlen l1.
Proof.
  induction l1 as [|b l1 IH]; cbn [app find_sub].
  - exists 0. split; [|done]. destruct (pat ++ l2) eqn:E; cbn [find_sub]; rewrite decide_True; try done;
      rewrite <- E; by exists l2.
  - rewrite zlen_cons. pose proof (zlen_nonneg l1). case_decide; [exists 0; by split; [|lia]|].
    destruct IH as (i & -> & Hi). exists (1 + i). split; [done|lia].
Qed.

Lemma find_sub_None pat l : find_sub pat l = None <-> ~ exists l1 l2, l = l1 ++ pat ++ l2.
Proof.
  split.
  - intros H (l1 & l2 & ->). destruct (find_sub_first pat l1 l2) as (i & Hi & _). congruence.
  - intros H. destruct (find_sub pat l) as [i|] eqn:E; [|done].
    destruct H. destruct (find_sub_Some pat l i E) as (l1 & l2 & -> & _). by exists l1, l2.
Qed.

Lemma find_sub_range pat l i : find_sub pat l = Some i -> 0 <= i <= zlen l - zlen pat.
Proof.
  intros (l1 & l2 & -> & <-)%find_sub_Some. rewrite !zlen_app.
  pose proof (zlen_nonneg l1). pose proof (zlen_nonneg l2). lia.
Qed.
