(* ===== verification/BufferPointers.v ===== *)
(** * Positions, space and locks of a Buffer (src/src/Buffer.cc)

    The methods that look into an evbuffer at a position, find a position, write
    into its space, or set its lock and its ends: each is one call of libevent and
    what the code makes of the answer. [evb] is the evbuffer as libevent has it,
    of which [evb_contents] are the bytes. *)
From stdpp Require Import tactics base list numbers strings.
From S2P Require Import Prelude BufferApi Libevent Chunked Buffer Text.

(** ** libevent's functions *)

(** [struct evbuffer_ptr] : its public member [pos], -1 when nothing was found. *)
Definition evbuffer_ptr := Z.
Inductive evbuffer_ptr_how := EVBUFFER_PTR_SET | EVBUFFER_PTR_ADD.

(** An iovec is its bytes where data is read or written, its length where space
    is asked for. *)
Class Evbuffer := {
  evb : Type;
  evb_contents : evb -> bytes;
  evb_eol_style : Type;
  evb_get_length : evb -> Z;
  evb_get_contiguous_space : evb -> Z;
  evb_expand : Z -> evb -> Z * evb;
  evb_pullup : Z -> evb -> option bytes * evb;
  evb_copyout_from : evb -> evbuffer_ptr -> Z -> Z * bytes;
  evb_search : evb -> bytes -> option evbuffer_ptr -> evbuffer_ptr;
  evb_search_range : evb -> bytes -> option evbuffer_ptr -> option evbuffer_ptr -> evbuffer_ptr;
  evb_search_eol : evb -> option evbuffer_ptr -> evb_eol_style -> evbuffer_ptr * Z;
  evb_ptr_set : evb -> Z -> evbuffer_ptr_how -> evbuffer_ptr -> Z * evbuffer_ptr;
  evb_peek : evb -> Z -> option evbuffer_ptr -> Z -> Z * list bytes;
  evb_reserve_space : Z -> Z -> evb -> Z * list Z * evb;
  evb_commit_space : list bytes -> evb -> Z * evb;
  evb_add_file : Z -> Z -> Z -> evb -> Z * evb;
  evb_add_buffer_reference : evb -> evb -> Z * (evb * evb);
  evb_freeze : bool -> evb -> Z * evb;
  evb_unfreeze : bool -> evb -> Z * evb;
  evb_enable_locking : option Z -> evb -> Z * evb;
  evb_lock : evb -> evb;
  evb_unlock : evb -> evb
}.

(** The manual on the functions whose answers the code interprets. [size_t] and
    [ev_ssize_t] arguments are integers; a count is an [ev_ssize_t]. *)
Class EvbufferSpec (E : Evbuffer) : Prop := {
  evb_get_length_spec e : evb_get_length e = zlen (evb_contents e);
  evb_copyout_from_spec e pos n :
    0 <= pos <= zlen (evb_contents e) -> 0 <= n ->
    fst (evb_copyout_from e pos n) < 0 \/
    evb_copyout_from e pos n =
      (Z.min n (zlen (evb_contents e) - pos), ztake n (zdrop pos (evb_contents e)));
  evb_search_spec e what start :
    0 <= default 0 start <= zlen (evb_contents e) ->
    evb_search e what start =
      match find_sub what (zdrop (default 0 start) (evb_contents e)) with
      | Some i => default 0 start + i
      | None => -1
      end;
  evb_ptr_set_spec e n pos :
    0 <= n ->
    (zlen (evb_contents e) < n /\ fst (evb_ptr_set e n EVBUFFER_PTR_SET pos) <> 0) \/
    (n <= zlen (evb_contents e) /\ evb_ptr_set e n EVBUFFER_PTR_SET pos = (0, n));
  evb_reserve_commit_spec e n n_vecs k lens e1 ds :
    evb_reserve_space n n_vecs e = (k, lens, e1) -> 0 < k ->
    Forall2 (fun d len => zlen d <= len) ds lens ->
    evb_contents e1 = evb_contents e /\
    (fst (evb_commit_space ds e1) <> 0 \/
     (fst (evb_commit_space ds e1) = 0 /\
      evb_contents (snd (evb_commit_space ds e1)) = evb_contents e ++ concat ds))
}.

Section Methods.
Context {E : Evbuffer}.

(** ** Locks and frozen ends *)

Definition Buffer_enable_locking (lock : option Z) : ST evb unit :=
  checked "evbuffer_enable_locking" (evb_enable_locking lock).
Definition Buffer_lock : ST evb unit := modify evb_lock.
Definition Buffer_unlock : ST evb unit := modify evb_unlock.

(** Any nonzero [at_front] is the front. *)
Definition Buffer_freeze (at_front : Z) : ST evb unit :=
  checked "evbuffer_freeze" (evb_freeze (negb (at_front =? 0))).
Definition Buffer_unfreeze (at_front : Z) : ST evb unit :=
  checked "evbuffer_unfreeze" (evb_unfreeze (negb (at_front =? 0))).

(** ** Space *)

Definition Buffer_get_contiguous_space : ST evb Z := gets evb_get_contiguous_space.
Definition Buffer_expand (size : Z) : ST evb unit := checked "evbuffer_expand" (evb_expand size).

Definition Buffer_pullup (size : Z) : ST evb bytes := fun e =>
  let '(ret, e') := evb_pullup size e in
  match ret with Some p => (Val p, e') | None => fail "evbuffer_pullup" e' end.

(** The return values of [peek] and [reserve_space] go to the caller as they are. *)
Definition Buffer_peek (size : Z) (start_at : option evbuffer_ptr) (n_vec : Z)
    : ST evb (Z * list bytes) := gets (fun e => evb_peek e size start_at n_vec).
Definition Buffer_reserve_space (size n_vecs : Z) : ST evb (Z * list Z) := fun e =>
  let '(k, lens, e') := evb_reserve_space size n_vecs e in (Val (k, lens), e').
Definition Buffer_commit_space (vec : list bytes) : ST evb unit :=
  checked "evbuffer_commit_space" (evb_commit_space vec).

(** ** Data from files and other buffers *)

(** The [size_t] becomes an [ev_off_t]. *)
Definition Buffer_add_file (fd offset size : Z) : ST evb unit :=
  checked "evbuffer_add_file" (evb_add_file fd offset (s64 size)).
(** State: this buffer and the other one. *)
Definition Buffer_add_buffer_reference : ST (evb * evb) unit :=
  checked "evbuffer_add_buffer_reference" (fun p => evb_add_buffer_reference (fst p) (snd p)).

(** ** Positions *)

Definition Buffer_ptr_set (pos : evbuffer_ptr) (position : Z) (how : evbuffer_ptr_how)
    : ST evb evbuffer_ptr := fun e =>
  let '(rc, pos') := evb_ptr_set e position how pos in
  if decide (rc <> 0) then fail "evbuffer_ptr_set" e else (Val pos', e).

Definition Buffer_search (what : bytes) (start : option evbuffer_ptr) : ST evb evbuffer_ptr :=
  gets (fun e => evb_search e what start).
Definition Buffer_search_range (what : bytes) (start stop : option evbuffer_ptr)
    : ST evb evbuffer_ptr := gets (fun e => evb_search_range e what start stop).
Definition Buffer_search_eol (start : option evbuffer_ptr) (eol : evb_eol_style)
    : ST evb (evbuffer_ptr * Z) := gets (fun e => evb_search_eol e start eol).

(** [copyout_from_atmost(pos, data, size)] and the overload that answers a string:
    the data, whose length is the count. *)
Definition Buffer_copyout_from_atmost (pos : evbuffer_ptr) (size : Z) : ST evb bytes := fun e =>
  if string_max_size <? size then (Exn string_too_long, e)
  else
    let '(ret, data) := evb_copyout_from e pos size in
    if ret <? 0 then fail "evbuffer_copyout_from" e else (Val data, e).

(** [copyout_from(pos, data, size)]: here the count stays an [ssize_t]. *)
Definition Buffer_copyout_from (pos : evbuffer_ptr) (size : Z) : ST evb bytes := fun e =>
  let '(ret, data) := evb_copyout_from e pos size in
  if ret <? 0 then fail "evbuffer_copyout_from" e
  else if u64 ret <? size then (Exn not_enough_data, e)
  else (Val data, e).
Definition Buffer_copyout_from_string (pos : evbuffer_ptr) (size : Z) : ST evb bytes :=
  if string_max_size <? size then throw string_too_long else Buffer_copyout_from pos size.

End Methods.

(** [debug_print_contents]: what is handed to [print_data], if anything. *)
Definition Buffer_debug_print_contents {L : Libevent} : ST bytes (option bytes) :=
  let! size := Buffer_get_length in
  if size =? 0 then ret None
  else let! d := @copyout_string libevent_buffer size in ret (Some d).

(** ** Reading at a position *)

Definition copyout_from_failed : exn := runtime_error (str "evbuffer_copyout_from").
Definition copyout_failed : exn := runtime_error (str "evbuffer_copyout").

Lemma s32_range z : - 2 ^ 31 <= s32 z < 2 ^ 31.
Proof. unfold s32, sgn. pose proof (Z.mod_pos_bound (z + 2 ^ (32 - 1)) (2 ^ 32)). lia. Qed.

Section Laws.
Context {E : Evbuffer} {ES : EvbufferSpec E}.

(** Libevent's failure exactly when libevent reports one, and otherwise what the
    contents say. *)
Lemma copyout_from_failure pos n e :
  fst (evb_copyout_from e pos n) < 0 -> Buffer_copyout_from pos n e = (Exn copyout_from_failed, e).
Proof.
  intros Hf. unfold Buffer_copyout_from. destruct (evb_copyout_from e pos n) as [ret d]. simpl in Hf.
  by destruct (Z.ltb_spec ret 0); [|lia].
Qed.
Lemma copyout_from_success pos n e :
  let c := evb_contents e in
  0 <= pos <= zlen c -> 0 <= n -> zlen c < 2 ^ 63 -> 0 <= fst (evb_copyout_from e pos n) ->
  Buffer_copyout_from pos n e =
    (if pos + n <=? zlen c then Val (ztake n (zdrop pos c)) else Exn not_enough_data, e).
Proof.
  intros c Hp Hn Hl Hr. unfold Buffer_copyout_from.
  destruct (evb_copyout_from_spec e pos n Hp Hn) as [Hf| ->]; [lia|].
  fold c. destruct (Z.ltb_spec (Z.min n (zlen c - pos)) 0); [lia|].
  unfold u64. rewrite Z.mod_small by lia.
  destruct (Z.ltb_spec (Z.min n (zlen c - pos)) n), (Z.leb_spec (pos + n) (zlen c)); try lia; done.
Qed.

Lemma copyout_from_atmost_cases pos n e :
  let c := evb_contents e in
  0 <= pos <= zlen c -> 0 <= n <= string_max_size ->
  Buffer_copyout_from_atmost pos n e = (Exn copyout_from_failed, e) \/
  Buffer_copyout_from_atmost pos n e = (Val (ztake n (zdrop pos c)), e).
Proof.
  intros c Hp Hn. unfold Buffer_copyout_from_atmost. destruct (Z.ltb_spec string_max_size n); [lia|].
  destruct (evb_copyout_from_spec e pos n Hp ltac:(lia)) as [Hf| ->].
  - left. destruct (evb_copyout_from e pos n) as [ret d]. simpl in Hf.
    by destruct (Z.ltb_spec ret 0); [|lia].
  - right. fold c. by destruct (Z.ltb_spec (Z.min n (zlen c - pos)) 0); [lia|].
Qed.

(** [ptr_set] refuses exactly the positions behind the end. *)
Lemma ptr_set_cases pos n e :
  0 <= n ->
  Buffer_ptr_set pos n EVBUFFER_PTR_SET e =
  (if n <=? zlen (evb_contents e) then Val n
   else Exn (runtime_error (str "evbuffer_ptr_set")), e).
Proof.
  intros Hn. unfold Buffer_ptr_set.
  destruct (evb_ptr_set_spec e n pos Hn) as [[Hl Hf]|[Hl ->]].
  - destruct (evb_ptr_set _ _ _ _) as [rc p]. simpl in Hf. rewrite decide_True by done.
    by destruct (Z.leb_spec n (zlen (evb_contents e))); [lia|].
  - rewrite decide_False by lia. by destruct (Z.leb_spec n (zlen (evb_contents e))); [|lia].
Qed.

End Laws.

(** ** What the methods promise *)

(** A position found by [search] is one where [copyout_from] finds what was looked
    for, and the first such at or behind the start; when there is none the answer
    is -1. *)
Theorem search_finds {E : Evbuffer} {ES : EvbufferSpec E} what start e :
  let c := evb_contents e in
  0 <= start <= zlen c -> zlen c < 2 ^ 63 ->
  exists q, Buffer_search what (Some start) e = (Val q, e) /\
    ((q = -1 /\ ~ exists l1 l2, zdrop start c = l1 ++ what ++ l2) \/
     (start <= q /\ (forall l1 l2, zdrop start c = l1 ++ what ++ l2 -> q <= start + zlen l1) /\
      (0 <= fst (evb_copyout_from e q (zlen what)) ->
       Buffer_copyout_from q (zlen what) e = (Val what, e)))).
Proof.
  intros c Hs Hl. eexists. split; [done|]. rewrite evb_search_spec by done. simpl default. fold c.
  pose proof (zlen_zdrop start c ltac:(lia)) as Hz. rewrite Z.min_l in Hz by lia.
  destruct (find_sub what (zdrop start c)) as [i|] eqn:Ef; [right|left].
  - pose proof (find_sub_range _ _ _ Ef) as Hi. pose proof (zlen_nonneg what).
    split_and!; [lia| |].
    + intros l1 l2 Hc. rewrite Hc in Ef. destruct (find_sub_first what l1 l2) as (j & Hj & ?).
      rewrite Hj in Ef. simplify_eq. lia.
    + intros Hr. rewrite copyout_from_success by (fold c; lia). fold c.
      destruct (Z.leb_spec (start + i + zlen what) (zlen c)); [|lia]. do 2 f_equal.
      apply find_sub_Some in Ef as (l1 & l2 & Hc & Hl1).
      rewrite <- zdrop_zdrop, Hc, zdrop_app, ztake_app by (done || lia). done.
  - split; [done|]. by apply find_sub_None.
Qed.

(** C16: a position inside the buffer and any size. [copyout_from] throws its libevent
    failure when libevent reports one, and otherwise answers exactly the bytes there,
    or "not enough data" when there are fewer; the buffer is left alone. [copyout]
    does the same at the start of a buffer for a size below 2^31; it keeps the count
    in an [int], so from 2^31 bytes on it throws whatever the buffer holds: as if
    libevent had failed when the truncated count is negative, and "not enough data"
    otherwise. *)
Theorem copyout_sizes {L : Libevent} {view : sock -> net} {LS : LibeventSpec L view}
    {E : Evbuffer} {ES : EvbufferSpec E} pos n e b :
  let c := evb_contents e in
  0 <= pos <= zlen c -> 0 <= n -> zlen c < 2 ^ 63 ->
  Buffer_copyout_from pos n e =
    (if fst (evb_copyout_from e pos n) <? 0 then Exn copyout_from_failed
     else if pos + n <=? zlen c then Val (ztake n (zdrop pos c)) else Exn not_enough_data, e) /\
  Buffer_copyout n b =
    (if fst (evbuffer_copyout b n) <? 0 then Exn copyout_failed
     else if n <? 2 ^ 31 then if n <=? zlen b then Val (ztake n b) else Exn not_enough_data
     else if s32 (Z.min n (zlen b)) <? 0 then Exn copyout_failed else Exn not_enough_data, b).
Proof.
  intros c Hp Hn Hl. split.
  { destruct (Z.ltb_spec (fst (evb_copyout_from e pos n)) 0);
      [by apply copyout_from_failure|by apply copyout_from_success]. }
  unfold Buffer_copyout. pose proof (zlen_nonneg b). destruct (evbuffer_copyout_spec b n Hn) as [Hf| ->].
  - destruct (evbuffer_copyout b n) as [rc d]. simpl in *. unfold s32. rewrite sgn_small by lia.
    by destruct (Z.ltb_spec rc 0); [|lia].
  - cbn [fst]. destruct (Z.ltb_spec (Z.min n (zlen b)) 0); [lia|].
    pose proof (s32_range (Z.min n (zlen b))).
    destruct (Z.ltb_spec n (2 ^ 31)) as [Hs|Hs].
    + unfold s32. rewrite sgn_small by lia. destruct (Z.ltb_spec (Z.min n (zlen b)) 0); [lia|].
      unfold u64. rewrite Z.mod_small by lia.
      destruct (Z.ltb_spec (Z.min n (zlen b)) n), (Z.leb_spec n (zlen b)); try lia; done.
    + destruct (Z.ltb_spec (s32 (Z.min n (zlen b))) 0); [done|]. unfold u64. rewrite Z.mod_small by lia.
      by destruct (Z.ltb_spec (s32 (Z.min n (zlen b))) n); [|lia].
Qed.

(** Data written into reserved space is at the end of the buffer once it is
    committed. *)
Theorem reserve_commit_appends {E : Evbuffer} {ES : EvbufferSpec E} n n_vecs k lens e e1 ds :
  Buffer_reserve_space n n_vecs e = (Val (k, lens), e1) -> 0 < k ->
  Forall2 (fun d len => zlen d <= len) ds lens ->
  let '(o, e2) := Buffer_commit_space ds e1 in
  (o = Val tt /\ evb_contents e2 = evb_contents e ++ concat ds) \/
  o = Exn (runtime_error (str "evbuffer_commit_space")).
Proof.
  unfold Buffer_reserve_space, Buffer_commit_space, checked. intros Hr Hk Hd.
  destruct (evb_reserve_space n n_vecs e) as [[k' lens'] e1'] eqn:Er. simplify_eq.
  destruct (evb_reserve_commit_spec _ _ _ _ _ _ _ Er Hk Hd) as [_ [Hf|[Hf Hc]]];
    destruct (evb_commit_space ds e1) as [rc e2]; simpl in *.
  - rewrite decide_True by done. by right.
  - rewrite decide_False by lia. left. by split.
Qed.

(** ** Witnesses: an evbuffer that is its bytes *)

Definition plain : Evbuffer := {|
  evb := bytes;
  evb_contents := fun e => e;
  evb_eol_style := unit;
  evb_get_length := zlen;
  evb_get_contiguous_space := zlen;
  evb_expand := fun _ e => (0, e);
  evb_pullup := fun n e => (if n <=? zlen e then Some (if n <? 0 then e else ztake n e) else None, e);
  evb_copyout_from := fun e pos n => (Z.min n (zlen e - pos), ztake n (zdrop pos e));
  evb_search := fun e what start =>
    match find_sub what (zdrop (default 0 start) e) with
    | Some i => default 0 start + i | None => -1 end;
  evb_search_range := fun e what start _ =>
    match find_sub what (zdrop (default 0 start) e) with
    | Some i => default 0 start + i | None => -1 end;
  evb_search_eol := fun e start _ => (-1, 0);
  evb_ptr_set := fun e n how pos =>
    let p := match how with EVBUFFER_PTR_SET => n | EVBUFFER_PTR_ADD => pos + n end in
    if p <=? zlen e then (0, p) else (-1, -1);
  evb_peek := fun e n _ _ => (1, [ztake n e]);
  evb_reserve_space := fun n _ e => (1, [n], e);
  evb_commit_space := fun ds e => (0, e ++ concat ds);
  evb_add_file := fun _ _ _ e => (-1, e);
  evb_add_buffer_reference := fun e e' => (0, (e ++ e', e'));
  evb_freeze := fun _ e => (0, e);
  evb_unfreeze := fun _ e => (0, e);
  evb_enable_locking := fun _ e => (0, e);
  evb_lock := fun e => e;
  evb_unlock := fun e => e
|}.

#[export] Instance plain_spec : EvbufferSpec plain.
Proof.
  split; simpl; try done; try (intros; by right).
  - intros e n pos Hn. destruct (Z.leb_spec n (zlen e)); [by right|left]. by split.
  - intros e n n_vecs k lens e1 ds Hr Hk Hd. simplify_eq. split; [done|]. by right.
Qed.

Lemma search_finds_witness :
  exists q, @Buffer_search plain (str "lo") (Some 1) (str "hello, low") = (Val q, str "hello, low") /\
    ((q = -1 /\ ~ exists l1 l2, zdrop 1 (str "hello, low") = l1 ++ str "lo" ++ l2) \/
     (1 <= q /\ (forall l1 l2, zdrop 1 (str "hello, low") = l1 ++ str "lo" ++ l2 -> q <= 1 + zlen l1) /\
      (0 <= fst (@evb_copyout_from plain (str "hello, low") q 2) ->
       @Buffer_copyout_from plain q 2 (str "hello, low") = (Val (str "lo"), str "hello, low")))).
Proof.
  apply (search_finds (str "lo") 1 (str "hello, low" : @evb plain)); vm_compute; intuition congruence.
Defined.

Lemma copyout_sizes_witness :
  @Buffer_copyout_from plain 3 2 (str "hello") = (Val (str "lo"), str "hello") /\
  @Buffer_copyout (chunked 3) 2 (str "hello") = (Val (str "he"), str "hello").
Proof.
  apply (copyout_sizes (L := chunked 3) 3 2 (str "hello" : @evb plain) (str "hello"));
    vm_compute; intuition congruence.
Defined.

Lemma reserve_commit_appends_witness :
  @Buffer_reserve_space plain 8 1 (str "he") = (Val (1, [8]), str "he") /\
  ((Val tt = Val tt /\ str "hello" = str "he" ++ concat [str "llo"]) \/
   Val tt = Exn (runtime_error (str "evbuffer_commit_space"))).
Proof.
  split; [reflexivity|].
  apply (reserve_commit_appends (E := plain) 8 1 1 [8] (str "he") (str "he") [str "llo"]);
    [reflexivity|reflexivity|]. constructor; [vm_compute; congruence|constructor].
Defined.
