(* ===== verification/Channel.v ===== *)
(** * Waiting lists and channels (src/src/Channel.hh)

    [Channel] and [FutureBase] keep the suspended coroutines in a singly linked
    list together with an iterator to the node that the next one goes behind.
    [AwaiterList] models that pair with the identity of the nodes, so that an
    iterator can dangle. [Channel] follows.

    Resuming a coroutine runs it up to its next suspension before [resume]
    returns. [Channel::write] does nothing after it resumes a reader, and the
    first thing the reader does is its [await_resume]; whatever else it does to
    the channel comes after that, as if by the next calls. So the life of a
    channel is a sequence of calls of [read] (with the calling coroutine) and
    [write], and [channel_run] answers which coroutine received which item. *)
From stdpp Require Import tactics base list numbers strings.
From S2P Require Import Prelude.

(** ** The list of awaiting coroutines *)

Module AwaiterList.
Section AwaiterList.
Context {Coro : Type}.

(** A [forward_list] iterator: [before_begin()] or a node. *)
Inductive iterator : Type := BeforeBegin | At (node : nat).

#[global] Instance iterator_eq_dec : EqDecision iterator.
Proof. solve_decision. Defined.

(** [next_node] numbers the allocations. *)
Record t := mk { nodes : list (nat * Coro); insert_it : iterator; next_node : nat }.

Definition empty_list : t := mk [] BeforeBegin 0.

(** The new node behind node [n]; [None] when [n] is not in the list. *)
Fixpoint insert_after (n : nat) (x : nat * Coro) (l : list (nat * Coro))
    : option (list (nat * Coro)) :=
  match l with
  | [] => None
  | y :: l =>
      if decide (fst y = n) then Some (y :: x :: l)
      else option_map (cons y) (insert_after n x l)
  end.

(** [insert_it = list.emplace_after(insert_it, c)]; undefined for an iterator to
    an erased node. *)
Definition push (c : Coro) : ST t unit := fun l =>
  let x := (next_node l, c) in
  match insert_it l with
  | BeforeBegin => (Val tt, mk (x :: nodes l) (At (next_node l)) (S (next_node l)))
  | At n =>
      match insert_after n x (nodes l) with
      | Some ns => (Val tt, mk ns (At (next_node l)) (S (next_node l)))
      | None => (Undef, l)
      end
  end.

(** [front()] and [pop_front()]; the iterator stays where it is. *)
Definition pop : ST t (option Coro) := fun l =>
  match nodes l with
  | [] => (Val None, l)
  | (_, c) :: ns => (Val (Some c), mk ns (insert_it l) (next_node l))
  end.

(** The coroutines, the longest waiting first. *)
Definition waiting (l : t) : list Coro := map snd (nodes l).

(** While somebody waits the iterator is at the last node; before anybody ever
    waited it is [before_begin]. Nodes are numbered in order. *)
Definition wf (l : t) : Prop :=
  (forall x, x ∈ nodes l -> (fst x < next_node l)%nat) /\ NoDup (map fst (nodes l)) /\
  match insert_it l with
  | BeforeBegin => nodes l = []
  | At n => (n < next_node l)%nat /\
            (nodes l = [] \/ exists ns c, nodes l = ns ++ [(n, c)])
  end.

(** Nobody waits any more although somebody did: the iterator dangles. *)
Definition dangling (l : t) : Prop := nodes l = [] /\ insert_it l <> BeforeBegin.

Lemma insert_after_last n x (ns : list (nat * Coro)) (c : Coro) :
  n ∉ map fst ns -> insert_after n x (ns ++ [(n, c)]) = Some (ns ++ [(n, c); x]).
Proof.
  induction ns as [|y ns IH]; intros Hn; simpl.
  - by rewrite decide_True.
  - apply not_elem_of_cons in Hn as [Hy Hn]. rewrite decide_False by congruence.
    by rewrite IH.
Qed.

Lemma wf_empty : wf empty_list.
Proof. split_and!; try done. - by intros x ?%elem_of_nil. - constructor. Qed.

Lemma wf_fresh l ns : wf l -> nodes l = ns -> next_node l ∉ map fst ns.
Proof.
  intros (Hlt & _) <- Hin. apply list_elem_of_fmap in Hin as (x & Hx & Hin%Hlt). lia.
Qed.

(** Unless the iterator dangles, [push] appends and keeps the list well formed. *)
Lemma push_spec c l :
  wf l -> ~ dangling l ->
  exists l', push c l = (Val tt, l') /\ waiting l' = waiting l ++ [c] /\ wf l' /\ ~ dangling l'.
Proof.
  intros Hwf Hd. pose proof (wf_fresh l _ Hwf eq_refl) as Hfresh. destruct Hwf as (Hlt & Hnd & Hit).
  unfold push, dangling, waiting in *. destruct l as [ns it nx]; simpl in *.
  assert (exists ns', (match it with
      | BeforeBegin => ns' = (nx, c) :: ns
      | At n => insert_after n (nx, c) ns = Some ns' end) /\ ns' = ns ++ [(nx, c)]) as (ns' & Hp & ->).
  { destruct it as [|n]; [subst; eexists; by split|].
    destruct Hit as [Hn [->|(ns0 & c0 & ->)]].
    - exfalso. by apply Hd.
    - rewrite map_app in Hnd. apply NoDup_app in Hnd as (_ & Hnot & _).
      rewrite insert_after_last by (intros Hin; apply (Hnot n Hin); apply list_elem_of_here).
      eexists. split; [done|]. by rewrite <- app_assoc. }
  exists (mk (ns ++ [(nx, c)]) (At nx) (S nx)). split_and!.
  - destruct it; [by subst|by rewrite Hp].
  - simpl. by rewrite map_app.
  - split_and!; simpl.
    + intros x [Hx%Hlt| ->%list_elem_of_singleton]%elem_of_app; simpl; lia.
    + rewrite map_app. apply NoDup_app. split_and!; [done| |apply NoDup_singleton].
      by intros y Hy ->%list_elem_of_singleton.
    + split; [lia|]. right. by exists ns, c.
  - intros [Hnil _]. simpl in Hnil. by destruct ns.
Qed.

Lemma push_dangling c l : dangling l -> push c l = (Undef, l).
Proof.
  unfold push. destruct l as [ns [|n] nx]; intros [Hn Hit]; simpl in *; subst; done.
Qed.

Lemma pop_spec l :
  wf l ->
  match waiting l with
  | [] => pop l = (Val None, l)
  | c :: cs => exists l', pop l = (Val (Some c), l') /\ waiting l' = cs /\ wf l' /\
                          (cs <> [] -> ~ dangling l')
  end.
Proof.
  destruct l as [[|[n c] ns] it nx]; unfold waiting, pop; simpl; [done|].
  intros (Hlt & Hnd & Hit). eexists. split_and!; [done|done| |].
  - split_and!; simpl.
    + intros x Hx. apply Hlt. by right.
    + by apply NoDup_cons in Hnd as [_ ?].
    + simpl in Hit. destruct it as [|m]; [done|]. destruct Hit as [Hm [?|(ns0 & c0 & Hns)]]; [done|].
      split; [done|]. destruct ns0 as [|x ns0]; simplify_eq/=; [by left|right; eauto].
  - intros Hne [Hnil _]. simpl in Hnil. subst. done.
Qed.
End AwaiterList.
Arguments t : clear implicits.
End AwaiterList.

(** ** Channels *)

Section Channel.
Context {Item Coro : Type}.

Record Channel := mkChannel {
  ch_queue : list Item;
  ch_awaiting : AwaiterList.t Coro
}.

Definition Channel_new : Channel := mkChannel [] AwaiterList.empty_list.

Definition Channel_empty (c : Channel) : bool :=
  match ch_queue c with [] => true | _ => false end.
Definition Channel_size (c : Channel) : Z := zlen (ch_queue c).

(** [~Channel()]. *)
Definition Channel_destroy : ST Channel unit := fun c =>
  match AwaiterList.waiting (ch_awaiting c) with
  | [] => (Val tt, c)
  | _ :: _ => (Exn (logic_error (str "Channel destroyed with awaiters present")), c)
  end.

Definition on_awaiting {A} (m : ST (AwaiterList.t Coro) A) : ST Channel A :=
  focus ch_awaiting (fun l c => mkChannel (ch_queue c) l) m.

(** [ReadAwaiter]. [front()] of an empty deque is undefined. *)
Definition Channel_await_ready : ST Channel bool := gets (fun c => negb (Channel_empty c)).
Definition Channel_await_suspend (coro : Coro) : ST Channel unit :=
  on_awaiting (AwaiterList.push coro).
Definition Channel_await_resume : ST Channel Item := fun c =>
  match ch_queue c with
  | [] => (Undef, c)
  | v :: q => (Val v, mkChannel q (ch_awaiting c))
  end.

(** [co_await read()] by [coro], up to its suspension: the item if it does not
    suspend. *)
Definition Channel_read (coro : Coro) : ST Channel (option Item) :=
  let! ready := Channel_await_ready in
  if ready then let! v := Channel_await_resume in ret (Some v)
  else Channel_await_suspend coro ;;; ret None.

(** The coroutine resumed, if any, with the item its [await_resume] answers. *)
Definition Channel_resume_awaiter : ST Channel (option (Coro * Item)) :=
  let! coro := on_awaiting AwaiterList.pop in
  match coro with
  | None => ret None
  | Some coro => let! v := Channel_await_resume in ret (Some (coro, v))
  end.

Definition Channel_write (v : Item) : ST Channel (option (Coro * Item)) :=
  modify (fun c => mkChannel (ch_queue c ++ [v]) (ch_awaiting c)) ;;;
  Channel_resume_awaiter.

(** ** Sequences of calls *)

Inductive channel_op : Type := Read (coro : Coro) | Write (v : Item).

(** The items delivered by one call. *)
Definition channel_step (op : channel_op) : ST Channel (list (Coro * Item)) :=
  match op with
  | Read coro =>
      let! r := Channel_read coro in
      ret (match r with Some v => [(coro, v)] | None => [] end)
  | Write v =>
      let! r := Channel_write v in
      ret (match r with Some d => [d] | None => [] end)
  end.

Fixpoint channel_run (ops : list channel_op) : ST Channel (list (Coro * Item)) :=
  match ops with
  | [] => ret []
  | op :: ops =>
      let! d := channel_step op in
      let! ds := channel_run ops in
      ret (d ++ ds)
  end.

Definition reads_of (ops : list channel_op) : list Coro :=
  omap (fun op => match op with Read c => Some c | Write _ => None end) ops.
Definition writes_of (ops : list channel_op) : list Item :=
  omap (fun op => match op with Read _ => None | Write v => Some v end) ops.

(** ** Lemmas *)

(** Nobody waits while there are items. *)
Definition channel_inv (c : Channel) : Prop :=
  AwaiterList.wf (ch_awaiting c) /\
  (ch_queue c = [] \/ AwaiterList.waiting (ch_awaiting c) = []).
Definition waiters (c : Channel) : list Coro := AwaiterList.waiting (ch_awaiting c).

Lemma channel_inv_new : channel_inv Channel_new.
Proof. split; [apply AwaiterList.wf_empty|by left]. Qed.

Lemma Channel_read_item coro v q l :
  Channel_read coro (mkChannel (v :: q) l) = (Val (Some v), mkChannel q l).
Proof. done. Qed.

Lemma Channel_read_suspends coro c :
  channel_inv c -> ch_queue c = [] -> ~ AwaiterList.dangling (ch_awaiting c) ->
  exists c', Channel_read coro c = (Val None, c') /\ channel_inv c' /\ ch_queue c' = [] /\
    waiters c' = waiters c ++ [coro].
Proof.
  intros [Hwf _] Hq Hd. destruct c as [q l]. simpl in *. subst q.
  destruct (AwaiterList.push_spec coro l Hwf Hd) as (l' & Hp & Hw & Hwf' & _).
  exists (mkChannel [] l'). split_and!; [|by split; [|left]|done|done].
  unfold Channel_read, bind, Channel_await_suspend, on_awaiting, focus. simpl. by rewrite Hp.
Qed.

Lemma Channel_read_dangling coro c :
  ch_queue c = [] -> AwaiterList.dangling (ch_awaiting c) ->
  fst (Channel_read coro c) = Undef.
Proof.
  intros Hq Hd. destruct c as [q l]. simpl in *. subst q.
  unfold Channel_read, bind, Channel_await_suspend, on_awaiting, focus. simpl.
  by rewrite AwaiterList.push_dangling.
Qed.

Lemma Channel_write_spec v c :
  channel_inv c ->
  match waiters c with
  | [] => Channel_write v c = (Val None, mkChannel (ch_queue c ++ [v]) (ch_awaiting c))
  | coro :: cs => exists c', Channel_write v c = (Val (Some (coro, v)), c') /\ channel_inv c' /\
                     ch_queue c' = [] /\ waiters c' = cs
  end.
Proof.
  intros [Hwf Hex]. destruct c as [q l]. unfold waiters in *. simpl in *.
  pose proof (AwaiterList.pop_spec l Hwf) as Hp.
  unfold Channel_write, Channel_resume_awaiter, bind, modify, on_awaiting, focus. simpl.
  destruct (AwaiterList.waiting l) as [|coro cs] eqn:Ew; [by rewrite Hp|].
  destruct Hp as (l' & -> & Hw & Hwf' & _). destruct Hex as [->|?]; [|done].
  exists (mkChannel [] l'). split_and!; simpl; try done. split; [done|by left].
Qed.

(** One call, when it is defined. *)
Lemma channel_step_spec op c ds c' :
  channel_inv c -> channel_step op c = (Val ds, c') ->
  channel_inv c' /\
  map snd ds ++ ch_queue c' = ch_queue c ++ writes_of [op] /\
  map fst ds ++ waiters c' = waiters c ++ reads_of [op].
Proof.
  intros Hinv. destruct op as [coro|v]; simpl; unfold bind at 1.
  - destruct (ch_queue c) as [|v q] eqn:Eq.
    + intros Hr. assert (~ AwaiterList.dangling (ch_awaiting c)) as Hd.
      { intros Hd. pose proof (Channel_read_dangling coro c Eq Hd) as Hu.
        by destruct (Channel_read coro c) as [[] ?]. }
      destruct (Channel_read_suspends coro c Hinv Eq Hd) as (c1 & Heq & Hi & Hq & Hw).
      rewrite Heq in Hr. injection Hr as <- <-. by rewrite Hq, Hw.
    + destruct c as [q0 l]. simpl in *. subst q0. rewrite Channel_read_item.
      intros [= <- <-]. destruct Hinv as [Hwf [?|Hw]]; [done|].
      unfold waiters. simpl in *. rewrite Hw, app_nil_r. split_and!; [|done|done].
      split; [done|]. by right.
  - pose proof (Channel_write_spec v c Hinv) as Hw. destruct (waiters c) as [|coro cs] eqn:Ew.
    + rewrite Hw. intros [= <- <-]. unfold waiters in *. simpl. rewrite Ew. destruct Hinv as [Hwf _].
      split; [split; [done|by right]|done].
    + destruct Hw as (c1 & -> & Hi & Hq & Hw1). intros [= <- <-]. rewrite Hq, Hw1. simpl.
      destruct Hinv as [_ [->|Hn]]; [by rewrite app_nil_r|]. unfold waiters in Ew. congruence.
Qed.

Lemma channel_run_spec ops c ds c' :
  channel_inv c -> channel_run ops c = (Val ds, c') ->
  channel_inv c' /\
  map snd ds ++ ch_queue c' = ch_queue c ++ writes_of ops /\
  map fst ds ++ waiters c' = waiters c ++ reads_of ops.
Proof.
  revert c ds. induction ops as [|op ops IH]; intros c ds Hinv; simpl.
  - intros [= <- <-]. by rewrite !app_nil_r.
  - unfold bind. destruct (channel_step op c) as [[d| | |] c1] eqn:Es; try done.
    destruct (channel_run ops c1) as [[ds'| | |] c2] eqn:Er; try done. intros [= <- <-].
    destruct (channel_step_spec op c d c1 Hinv Es) as (Hi1 & Hq1 & Hw1).
    destruct (IH c1 ds' Hi1 Er) as (Hi2 & Hq2 & Hw2).
    split; [done|]. rewrite !map_app, <- !app_assoc, Hq2, Hw2, !app_assoc, Hq1, Hw1, <- !app_assoc.
    unfold writes_of, reads_of. by destruct op.
Qed.
End Channel.
Arguments Channel : clear implicits.
Arguments channel_op : clear implicits.

(** ** When a channel is used beyond what its list supports *)

Section Hazard.
Context {Item Coro : Type}.

(** [waited] says whether a reader ever suspended, [balance] counts the items
    written less the reads: does some reader suspend, with nobody waiting, after
    an earlier reader did? *)
Fixpoint waits_again (waited : bool) (balance : Z) (ops : list (channel_op Item Coro)) : bool :=
  match ops with
  | [] => false
  | Write _ :: ops => waits_again waited (balance + 1) ops
  | Read _ :: ops =>
      if waited && (balance =? 0) then true
      else waits_again (waited || (balance <=? 0)) (balance - 1) ops
  end.

Definition hazard_inv (waited : bool) (balance : Z) (c : Channel Item Coro) : Prop :=
  channel_inv c /\ balance = zlen (ch_queue c) - zlen (waiters c) /\
  waited = bool_decide (AwaiterList.insert_it (ch_awaiting c) <> AwaiterList.BeforeBegin).

Lemma dangling_iff (c : Channel Item Coro) :
  AwaiterList.dangling (ch_awaiting c) <->
  waiters c = [] /\ AwaiterList.insert_it (ch_awaiting c) <> AwaiterList.BeforeBegin.
Proof.
  unfold AwaiterList.dangling, waiters, AwaiterList.waiting.
  destruct (AwaiterList.nodes (ch_awaiting c)); simpl; split; intros [? ?]; by split.
Qed.

Lemma push_insert_it (co : Coro) l l' :
  AwaiterList.push co l = (Val tt, l') -> AwaiterList.insert_it l' <> AwaiterList.BeforeBegin.
Proof.
  unfold AwaiterList.push. destruct (AwaiterList.insert_it l); [by intros [= <-]|].
  destruct (AwaiterList.insert_after _ _ _); [by intros [= <-]|done].
Qed.

Lemma Channel_read_insert_it (co : Coro) (c c' : Channel Item Coro) :
  Channel_read co c = (Val None, c') ->
  AwaiterList.insert_it (ch_awaiting c') <> AwaiterList.BeforeBegin.
Proof.
  destruct c as [[|v q] l]; [|done]. unfold Channel_read, bind, Channel_await_suspend, on_awaiting,
    focus. simpl. destruct (AwaiterList.push co l) as [[[]| | |] l'] eqn:E; try done.
  intros [= <-]. by apply push_insert_it in E.
Qed.

Lemma Channel_write_insert_it v (c c' : Channel Item Coro) r :
  Channel_write v c = (Val r, c') ->
  AwaiterList.insert_it (ch_awaiting c') = AwaiterList.insert_it (ch_awaiting c).
Proof.
  destruct c as [q [ns it nx]]. unfold Channel_write, Channel_resume_awaiter, bind, on_awaiting,
    focus, AwaiterList.pop. simpl. destruct ns as [|[n co] ns]; simpl; [by intros [= _ <-]|].
  unfold Channel_await_resume. simpl. destruct (q ++ [v]); simpl; [done|]. by intros [= _ <-].
Qed.

Lemma hazard_write w bal v c :
  hazard_inv w bal c ->
  exists ds c', channel_step (Write v) c = (Val ds, c') /\ hazard_inv w (bal + 1) c'.
Proof.
  intros (Hinv & -> & ->). pose proof (Channel_write_spec v c Hinv) as Hw.
  assert (exists r c', Channel_write v c = (Val r, c')) as (r & c' & E).
  { destruct (waiters c); [eauto|]. destruct Hw as (c' & Hw & _). eauto. }
  pose proof (Channel_write_insert_it v c c' r E) as Hit.
  assert (channel_step (Write v) c = (Val (match r with Some d => [d] | None => [] end), c')) as Hs.
  { simpl. by rewrite (bind_Val _ _ _ _ _ E). }
  eexists _, c'. split; [exact Hs|]. destruct (channel_step_spec _ _ _ _ Hinv Hs) as (Hi & H1 & H2).
  split; [done|]. split; [|by rewrite Hit]. unfold zlen.
  apply (f_equal length) in H1, H2. rewrite !length_app, !length_map in *. simpl in *. lia.
Qed.

Lemma hazard_read w bal co c :
  hazard_inv w bal c ->
  if w && (bal =? 0) then fst (channel_step (Read co) c) = Undef
  else exists ds c', channel_step (Read co) c = (Val ds, c') /\
                     hazard_inv (w || (bal <=? 0)) (bal - 1) c'.
Proof.
  intros (Hinv & -> & ->). pose proof (dangling_iff c) as Hd.
  set (it := AwaiterList.insert_it _) in *.
  destruct (ch_queue c) as [|v q] eqn:Eq.
  - pose proof (zlen_nonneg (waiters c)). change (zlen (@nil Item)) with 0.
    destruct (decide (AwaiterList.dangling (ch_awaiting c))) as [Hdang|Hnd].
    + pose proof (Channel_read_dangling co c Eq Hdang) as Hu. apply Hd in Hdang as [-> Hit].
      rewrite bool_decide_eq_true_2 by done. simpl. unfold bind.
      by destruct (Channel_read co c) as [[] ?].
    + assert (bool_decide (it <> AwaiterList.BeforeBegin) && (0 - zlen (waiters c) =? 0) = false) as ->.
      { case_bool_decide as Hit; [|done]. simpl. apply Z.eqb_neq. intros Hz.
        apply Hnd, Hd. split; [|done]. apply zlen_0. lia. }
      destruct (Channel_read_suspends co c Hinv Eq Hnd) as (c' & Hr & Hi & Hq & Hw).
      pose proof (Channel_read_insert_it co c c' Hr) as Hit'.
      exists [], c'. split; [simpl; by rewrite (bind_Val _ _ _ _ _ Hr)|]. split; [done|].
      split; [rewrite Hq, Hw, zlen_app; change (zlen [co]) with 1; change (zlen (@nil Item)) with 0; lia|].
      rewrite (bool_decide_eq_true_2 _ Hit'). apply orb_true_intro. right. lia.
  - destruct Hinv as [Hwf [?|Hnone]]; [congruence|]. fold (waiters c) in Hnone.
    rewrite Hnone. change (zlen (@nil Coro)) with 0. rewrite zlen_cons. pose proof (zlen_nonneg q).
    destruct c as [q0 l]. simpl in *. subst q0.
    destruct (Z.eqb_spec (1 + zlen q - 0) 0); [lia|]. rewrite andb_false_r.
    eexists _, _. split; [unfold bind; rewrite Channel_read_item; done|].
    split; [split; [done|by right]|]. unfold waiters in *. simpl in *. rewrite Hnone.
    split; [change (zlen (@nil Coro)) with 0; lia|].
    destruct (Z.leb_spec (1 + zlen q - 0) 0); [lia|]. by rewrite orb_false_r.
Qed.
End Hazard.

(** ** Properties *)

Section Properties.
Context {Item Coro : Type}.

(** C9: whatever the calls, as long as they are defined, a channel is first in,
    first out on both sides: the items delivered and then those still queued are
    the items written, in order; the readers served and then those still waiting
    are the readers, in order. So the n-th read gets the n-th item written. And
    nobody waits while items are queued. *)
Theorem channel_fifo (ops : list (channel_op Item Coro)) ds c :
  channel_run ops Channel_new = (Val ds, c) ->
  map snd ds ++ ch_queue c = writes_of ops /\
  map fst ds ++ waiters c = reads_of ops /\
  (ch_queue c = [] \/ waiters c = []).
Proof.
  intros Hr. destruct (channel_run_spec ops _ _ _ channel_inv_new Hr) as ([_ Hex] & H1 & H2).
  split_and!; [exact H1|exact H2|exact Hex].
Qed.

Lemma channel_run_hazard (ops : list (channel_op Item Coro)) w bal c :
  hazard_inv w bal c ->
  if waits_again w bal ops then fst (channel_run ops c) = Undef
  else exists ds c', channel_run ops c = (Val ds, c').
Proof.
  revert w bal c. induction ops as [|op ops IH]; intros w bal c Hinv; simpl; [by eexists _, _|].
  assert ((if match op with Read _ => w && (bal =? 0) | Write _ => false end
    then fst (channel_step op c) = Undef
    else exists ds c', channel_step op c = (Val ds, c') /\
      hazard_inv (match op with Read _ => w || (bal <=? 0) | Write _ => w end)
        (match op with Read _ => bal - 1 | Write _ => bal + 1 end) c')) as Hstep.
  { destruct op as [co|v]; [by apply hazard_read|by apply hazard_write]. }
  assert (forall ds c' w' bal', channel_step op c = (Val ds, c') -> hazard_inv w' bal' c' ->
    if waits_again w' bal' ops
    then fst ((let! d := channel_step op in let! ds := channel_run ops in ret (d ++ ds)) c) = Undef
    else exists ds c', (let! d := channel_step op in let! ds := channel_run ops in ret (d ++ ds)) c =
                         (Val ds, c')) as Hnext.
  { intros ds c' w' bal' Hs Hi. specialize (IH w' bal' c' Hi). rewrite (bind_Val _ _ _ _ _ Hs).
    destruct (waits_again w' bal' ops); unfold bind.
    - by destruct (channel_run ops c') as [[] ?].
    - destruct IH as (ds' & c'' & ->). by eexists _, _. }
  destruct op as [co|v]; [destruct (w && (bal =? 0))|].
  - unfold bind. by destruct (channel_step (Read co) c) as [[] ?].
  - destruct Hstep as (ds & c' & Hs & Hi). by apply (Hnext ds c').
  - destruct Hstep as (ds & c' & Hs & Hi). by apply (Hnext ds c').
Qed.

(** C11: when a sequence of calls is defined. It never throws; it reaches undefined
    behaviour exactly when a reader has to wait, nobody else waiting, after an
    earlier reader waited and was served: the iterator behind which the new
    awaiter goes is then one to an erased node. The shortest such sequence is a
    read, a write and a read. *)
Theorem channel_defined_iff (ops : list (channel_op Item Coro)) :
  (if waits_again false 0 ops then fst (channel_run ops Channel_new) = Undef
   else exists ds c, channel_run ops Channel_new = (Val ds, c)) /\
  (forall (a b : Coro) (v : Item), waits_again false 0 [Read a; Write v; Read b] = true).
Proof.
  split; [|done]. apply channel_run_hazard. split; [apply channel_inv_new|done].
Qed.
End Properties.

Lemma channel_fifo_witness :
  let ops := [Write 1; Write 2; Read "a"%string; Read "b"%string; Read "c"%string; Read "d"%string;
              Write 3] in
  exists ds c, channel_run ops Channel_new = (Val ds, c) /\
    ds = [("a"%string, 1); ("b"%string, 2); ("c"%string, 3)] /\ waiters c = ["d"%string] /\
    map fst ds ++ waiters c = reads_of ops.
Proof.
  eexists _, _. split; [vm_compute; reflexivity|]. split; [reflexivity|]. split; [reflexivity|].
  eapply channel_fifo. vm_compute. reflexivity.
Defined.
