(* ===== verification/Future.v ===== *)
(** * Futures (src/src/Future.hh, and DeferredFuture of src/src/Base.hh)

    The value of a future is set once; the coroutines that waited for it are then
    resumed in order. A resumed coroutine runs before [coro.resume()] returns, and
    may itself use the future, so the calls interleave with the loop of
    [resume_awaiters]: [future_step] lets any call happen between two rounds of
    it, and the theorems hold of every interleaving. *)
From stdpp Require Import tactics base list numbers strings relations.
From S2P Require Import Prelude Channel.

Section Future.
Context {Res Coro : Type}.

(** [std::variant<std::monostate, ResultT, std::exception_ptr>]. *)
Inductive future_value : Type := Pending | HasResult (v : Res) | HasException (e : exn).

Record Future := mkFuture { fu_value : future_value; fu_awaiting : AwaiterList.t Coro }.

Definition Future_new : Future := mkFuture Pending AwaiterList.empty_list.
(** [FutureBase(const ResultT& value)]: the iterator stays uninitialized, but a
    done future is never waited for. *)
Definition Future_of_value (v : Res) : Future := mkFuture (HasResult v) AwaiterList.empty_list.

Definition Future_destroy : ST Future unit := fun f =>
  match AwaiterList.waiting (fu_awaiting f) with
  | [] => (Val tt, f)
  | _ :: _ => (Exn (logic_error (str "Future destroyed with awaiters present")), f)
  end.

Definition Future_done (f : Future) : bool :=
  match fu_value f with Pending => false | _ => true end.
Definition Future_has_result (f : Future) : bool :=
  match fu_value f with HasResult _ => true | _ => false end.
Definition Future_has_exception (f : Future) : bool :=
  match fu_value f with HasException _ => true | _ => false end.

(** [std::get<std::exception_ptr>] throws on a pending future. *)
Definition Future_result (f : Future) : out Res :=
  match fu_value f with
  | HasResult v => Val v
  | HasException e => Exn e
  | Pending => Exn bad_variant_access
  end.

Definition on_awaiters {A} (m : ST (AwaiterList.t Coro) A) : ST Future A :=
  focus fu_awaiting (fun l f => mkFuture (fu_value f) l) m.

Definition Future_await_suspend (coro : Coro) : ST Future unit := on_awaiters (AwaiterList.push coro).

(** [co_await future] by [coro], up to its suspension: what [await_resume] gives
    when it does not suspend. *)
Definition Future_co_await (coro : Coro) : ST Future (option (out Res)) :=
  let! done := gets Future_done in
  if done then let! r := gets Future_result in ret (Some r)
  else Future_await_suspend coro ;;; ret None.

(** The setters up to their call of [resume_awaiters]. *)
Definition Future_set (what : string) (v : future_value) : ST Future unit := fun f =>
  if Future_done f then (Exn (logic_error (str what)), f)
  else (Val tt, mkFuture v (fu_awaiting f)).

Definition set_result (v : Res) : ST Future unit :=
  Future_set "set_result called on done Future" (HasResult v).
Definition set_exception (e : exn) : ST Future unit :=
  Future_set "set_exception called on done Future" (HasException e).
Definition canceled_error : exn := runtime_error (str "Future canceled").
Definition cancel : ST Future unit :=
  Future_set "set_exception called on done Future" (HasException canceled_error).

(** One round of [resume_awaiters]: the coroutine resumed, and what its
    [await_resume] gives; [None] when the loop is over. *)
Definition resume_next : ST Future (option (Coro * out Res)) :=
  let! coro := on_awaiters AwaiterList.pop in
  match coro with
  | None => ret None
  | Some coro => let! r := gets Future_result in ret (Some (coro, r))
  end.

(** The whole loop, when the coroutines resumed leave the future alone. *)
Definition resume_awaiters (fuel : positive) : ST Future (list (Coro * out Res)) :=
  loop (fun acc =>
          let! r := resume_next in
          match r with
          | Some d => ret (inl (acc ++ [d]))
          | None => ret (inr acc)
          end) fuel [].

(** ** Interleavings *)

(** A future in use: whether a [resume_awaiters] is running, and, as ghost state,
    the coroutines that ever suspended and those resumed, with what they got. *)
Record fconf := mkConf {
  fc_future : Future; fc_resuming : bool;
  fc_suspended : list Coro; fc_resumed : list (Coro * out Res)
}.

Definition fconf_new : fconf := mkConf Future_new false [] [].

Inductive future_step : fconf -> fconf -> Prop :=
| step_await_ready coro f r s d res f' :
    Future_co_await coro f = (Val (Some res), f') ->
    future_step (mkConf f r s d) (mkConf f' r s d)
| step_await_suspend coro f r s d f' :
    Future_co_await coro f = (Val None, f') ->
    future_step (mkConf f r s d) (mkConf f' r (s ++ [coro]) d)
| step_set what v f r s d f' :
    v <> Pending -> Future_set what v f = (Val tt, f') ->
    future_step (mkConf f r s d) (mkConf f' true s d)
| step_resume_next f s d co res f' :
    resume_next f = (Val (Some (co, res)), f') ->
    future_step (mkConf f true s d) (mkConf f' true s (d ++ [(co, res)]))
| step_loop_over f s d f' :
    resume_next f = (Val None, f') ->
    future_step (mkConf f true s d) (mkConf f' false s d).

(** ** The invariant *)

Definition future_inv (c : fconf) : Prop :=
  let f := fc_future c in
  AwaiterList.wf (fu_awaiting f) /\
  (* who suspended has been resumed, or still waits, in order *)
  map fst (fc_resumed c) ++ AwaiterList.waiting (fu_awaiting f) = fc_suspended c /\
  (* everybody got the value of the future *)
  Forall (fun d => snd d = Future_result f) (fc_resumed c) /\
  (* nobody is resumed before there is a value, nobody is left behind after *)
  (Future_done f = false ->
     fc_resuming c = false /\ fc_resumed c = [] /\ ~ AwaiterList.dangling (fu_awaiting f)) /\
  (Future_done f = true -> fc_resuming c = false -> AwaiterList.waiting (fu_awaiting f) = []).

Lemma future_inv_new : future_inv fconf_new.
Proof.
  split; [apply AwaiterList.wf_empty|]. split; [done|]. split; [constructor|].
  split; [|done]. intros _. split; [done|]. split; [done|]. by intros [_ Hn].
Qed.

Lemma co_await_done coro f :
  Future_done f = true -> Future_co_await coro f = (Val (Some (Future_result f)), f).
Proof. intros Hd. unfold Future_co_await, bind, gets. by rewrite Hd. Qed.

Lemma co_await_pending coro f :
  Future_done f = false -> AwaiterList.wf (fu_awaiting f) -> ~ AwaiterList.dangling (fu_awaiting f) ->
  exists l, Future_co_await coro f = (Val None, mkFuture (fu_value f) l) /\
    AwaiterList.waiting l = AwaiterList.waiting (fu_awaiting f) ++ [coro] /\
    AwaiterList.wf l /\ ~ AwaiterList.dangling l.
Proof.
  intros Hd Hwf Hnd. destruct (AwaiterList.push_spec coro _ Hwf Hnd) as (l & Hp & ? & ? & ?).
  exists l. split; [|done].
  unfold Future_co_await, bind, gets, Future_await_suspend, on_awaiters, focus. by rewrite Hd, Hp.
Qed.

Lemma resume_next_spec f :
  AwaiterList.wf (fu_awaiting f) ->
  match AwaiterList.waiting (fu_awaiting f) with
  | [] => resume_next f = (Val None, f)
  | c :: cs => exists l, resume_next f = (Val (Some (c, Future_result f)), mkFuture (fu_value f) l) /\
                         AwaiterList.waiting l = cs /\ AwaiterList.wf l
  end.
Proof.
  intros Hwf. pose proof (AwaiterList.pop_spec _ Hwf) as Hp.
  unfold resume_next, bind, on_awaiters, focus.
  destruct (AwaiterList.waiting (fu_awaiting f)) as [|c cs].
  - rewrite Hp. by destruct f.
  - destruct Hp as (l & -> & ? & ? & _). by exists l.
Qed.

Lemma Future_set_spec what v f f' :
  Future_set what v f = (Val tt, f') ->
  Future_done f = false /\ f' = mkFuture v (fu_awaiting f).
Proof. unfold Future_set. destruct (Future_done f); [done|]. by intros [= <-]. Qed.

Lemma future_step_inv c c' : future_step c c' -> future_inv c -> future_inv c'.
Proof.
  intros Hs (Hwf & Hord & Hall & Hpend & Hleft).
  destruct Hs as [coro f r s d res f' E|coro f r s d f' E|what v f r s d f' Hv E|f s d co res f' E|f s d f' E];
    cbn [fc_future fc_resuming fc_suspended fc_resumed] in *.
  - destruct (Future_done f) eqn:Ed.
    + rewrite co_await_done in E by done. injection E as <- <-.
      split; [done|]. split; [done|]. split; [done|]. simpl. rewrite Ed. by split.
    + destruct (Hpend eq_refl) as (_ & _ & Hnd).
      destruct (co_await_pending coro f Ed Hwf Hnd) as (l & E' & _). congruence.
  - destruct (Future_done f) eqn:Ed; [by rewrite co_await_done in E|].
    destruct (Hpend eq_refl) as (-> & -> & Hnd).
    destruct (co_await_pending coro f Ed Hwf Hnd) as (l & E' & Hw & Hwf' & Hnd').
    rewrite E in E'. injection E' as ->. unfold future_inv, Future_done in *. simpl in *. rewrite Ed.
    split_and!; [done|by rewrite Hw, <- Hord|by constructor|done|done].
  - apply Future_set_spec in E as [Ed ->]. destruct (Hpend Ed) as (_ & -> & Hnd).
    unfold future_inv, Future_done. simpl. split_and!; [done|done|by constructor| |done].
    by destruct v.
  - pose proof (resume_next_spec f Hwf) as Hn.
    destruct (Future_done f) eqn:Ed; [|by destruct (Hpend eq_refl)].
    destruct (AwaiterList.waiting (fu_awaiting f)) as [|c0 cs] eqn:Ew; [congruence|].
    destruct Hn as (l & E' & Hw & Hwf'). rewrite E in E'. injection E' as -> -> ->.
    unfold future_inv, Future_done, Future_result in *. simpl in *. rewrite Ed.
    split_and!; [done| | |done|done].
    + rewrite map_app, <- app_assoc. simpl. by rewrite Hw.
    + apply Forall_app. by split; [|repeat constructor].
  - pose proof (resume_next_spec f Hwf) as Hn.
    destruct (AwaiterList.waiting (fu_awaiting f)) as [|c0 cs] eqn:Ew.
    + rewrite E in Hn. injection Hn as ->. unfold future_inv. simpl. rewrite Ew.
      split_and!; try done. intros Hd. by destruct (Hpend Hd) as (_ & ? & ?).
    + destruct Hn as (l & E' & _). congruence.
Qed.

Lemma reachable_inv c : rtc future_step fconf_new c -> future_inv c.
Proof.
  pose proof future_inv_new as H0. revert H0. generalize fconf_new. intros c0 H0 Hr.
  induction Hr as [|c0 c1 c2 Hs _ IH]; [done|]. apply IH. by eapply future_step_inv.
Qed.

(** The loop, run on its own, resumes everybody that waits, in order. *)
Lemma resume_awaiters_spec f fuel :
  AwaiterList.wf (fu_awaiting f) ->
  (length (AwaiterList.waiting (fu_awaiting f)) < Pos.to_nat fuel)%nat ->
  exists l, resume_awaiters fuel f =
      (Val (map (fun c => (c, Future_result f)) (AwaiterList.waiting (fu_awaiting f))),
       mkFuture (fu_value f) l) /\ AwaiterList.waiting l = [] .
Proof.
  intros Hwf Hf. unfold resume_awaiters. set (body := fun acc : list (Coro * out Res) => _).
  pose proof (loop_rule body
    (fun acc f' => AwaiterList.wf (fu_awaiting f') /\ fu_value f' = fu_value f /\
       acc ++ map (fun c => (c, Future_result f)) (AwaiterList.waiting (fu_awaiting f')) =
         map (fun c => (c, Future_result f)) (AwaiterList.waiting (fu_awaiting f)))
    (fun _ f' => length (AwaiterList.waiting (fu_awaiting f')))
    (fun o f' => o = Val (map (fun c => (c, Future_result f)) (AwaiterList.waiting (fu_awaiting f))) /\
       fu_value f' = fu_value f /\ AwaiterList.waiting (fu_awaiting f') = [])) as Hl.
  ospecialize (Hl _).
  { intros acc f' (Hwf' & Hv & Hacc). unfold body, bind.
    pose proof (resume_next_spec f' Hwf') as Hn.
    destruct (AwaiterList.waiting (fu_awaiting f')) as [|c cs] eqn:Ew.
    - rewrite Hn. simpl. rewrite app_nil_r in Hacc. by subst acc.
    - destruct Hn as (l & -> & Hw & Hwfl). simpl. rewrite Hw.
      split; [|simpl; lia]. split_and!; [done|done|].
      rewrite <- app_assoc, <- Hacc. simpl. unfold Future_result. by rewrite Hv. }
  specialize (Hl fuel [] f). ospecialize (Hl _ _); [done|done|].
  destruct (loop body fuel [] f) as [o f'] eqn:E. simpl in Hl. destruct Hl as (-> & Hv & Hw).
  exists (fu_awaiting f'). split; [|done]. rewrite <- Hv. by destruct f'.
Qed.
End Future.
Arguments future_value : clear implicits.
Arguments Future : clear implicits.
Arguments fconf : clear implicits.

(** ** DeferredFuture *)

Section Deferred.
Context {Res Coro : Type}.

(** The future and the coroutines that [base.once] has been asked to resume from
    the event loop. *)
Record DeferredFuture := mkDeferred { df_future : Future Res Coro; df_scheduled : list Coro }.

Definition on_future {A} (m : ST (Future Res Coro) A) : ST DeferredFuture A :=
  focus df_future (fun f d => mkDeferred f (df_scheduled d)) m.

(** [DeferredFuture::resume_awaiters]. *)
Definition deferred_resume_awaiters (fuel : positive) : ST DeferredFuture unit :=
  loop (fun _ : unit =>
          let! coro := on_future (on_awaiters AwaiterList.pop) in
          match coro with
          | Some coro =>
              modify (fun d => mkDeferred (df_future d) (df_scheduled d ++ [coro])) ;;; ret (inl tt)
          | None => ret (inr tt)
          end) fuel tt.

(** [FutureBase::set_result] is a member of the base class and [resume_awaiters]
    is not virtual: the call resolves to [FutureBase::resume_awaiters]. *)
Definition deferred_set_result (fuel : positive) (v : Res)
    : ST DeferredFuture (list (Coro * out Res)) :=
  on_future (set_result v ;;; resume_awaiters fuel).
End Deferred.
Arguments DeferredFuture : clear implicits.

(** ** Properties *)

Section Properties.
Context {Res Coro : Type}.

(** C10: in every state a future reaches, however the calls of the resumed
    coroutines interleave with the loop that resumes them: waiting for it is never
    undefined; the coroutines resumed and then those still waiting are those that
    suspended, in order, so each is resumed once; everybody resumed got the
    future's one outcome; and once the loop has ended nobody is left waiting. *)
Theorem future_safe (c : fconf Res Coro) :
  rtc future_step fconf_new c ->
  (forall co, fst (Future_co_await co (fc_future c)) <> Undef) /\
  map fst (fc_resumed c) ++ AwaiterList.waiting (fu_awaiting (fc_future c)) = fc_suspended c /\
  Forall (fun d => snd d = Future_result (fc_future c)) (fc_resumed c) /\
  (Future_done (fc_future c) = true -> fc_resuming c = false ->
   AwaiterList.waiting (fu_awaiting (fc_future c)) = []).
Proof.
  intros Hr. destruct (reachable_inv c Hr) as (Hwf & Hord & Hall & Hpend & Hleft).
  split_and!; [|done|done|done]. intros co. destruct (Future_done (fc_future c)) eqn:Ed.
  - by rewrite co_await_done.
  - destruct (Hpend eq_refl) as (_ & _ & Hnd).
    by destruct (co_await_pending co _ Ed Hwf Hnd) as (l & -> & _).
Qed.

(** The outcome of a future is set once: no sequence of steps changes it, and
    a second [set_result], [set_exception] or [cancel] throws and changes
    nothing. *)
Theorem future_value_stable (c c' : fconf Res Coro) :
  rtc future_step c c' -> Future_done (fc_future c) = true ->
  fu_value (fc_future c') = fu_value (fc_future c) /\
  (forall what v, Future_set what v (fc_future c') =
                    (Exn (logic_error (str what)), fc_future c')).
Proof.
  intros Hr Hd.
  assert (fu_value (fc_future c') = fu_value (fc_future c)) as Hv.
  { induction Hr as [|c0 c1 c2 Hs _ IH]; [done|].
    assert (fu_value (fc_future c1) = fu_value (fc_future c0)) as He.
    { destruct Hs as [coro f r s d res f' E|coro f r s d f' E|what v f r s d f' Hv E|f s d co res f' E|f s d f' E];
        simpl in *.
      - rewrite co_await_done in E by done. congruence.
      - by rewrite co_await_done in E.
      - apply Future_set_spec in E as [? _]. congruence.
      - revert E. unfold resume_next, bind, on_awaiters, focus.
        destruct (AwaiterList.pop _) as [[[]| | |] ?]; by intros [= _ _ <-].
      - revert E. unfold resume_next, bind, on_awaiters, focus.
        destruct (AwaiterList.pop _) as [[[]| | |] ?]; by intros [= <-]. }
    rewrite <- He. apply IH. unfold Future_done. by rewrite He. }
  split; [done|]. intros what v. unfold Future_set, Future_done in *. by rewrite Hv, Hd.
Qed.

(** [set_result] on a pending future resumes every coroutine that waits, in
    the order they began to wait, with the value, and its loop ends. *)
Theorem set_result_resumes_all (c : fconf Res Coro) v fuel :
  rtc future_step fconf_new c -> Future_done (fc_future c) = false ->
  (length (fc_suspended c) < Pos.to_nat fuel)%nat ->
  exists f', (set_result v ;;; resume_awaiters fuel) (fc_future c) =
      (Val (map (fun co => (co, Val v)) (fc_suspended c)), f') /\
    AwaiterList.waiting (fu_awaiting f') = [] /\ Future_result f' = Val v.
Proof.
  intros Hr Hd Hf. destruct (reachable_inv c Hr) as (Hwf & Hord & _ & Hpend & _).
  destruct (Hpend Hd) as (_ & Hnone & _). rewrite Hnone in Hord. simpl in Hord.
  set (f1 := mkFuture (HasResult v) (fu_awaiting (fc_future c))).
  destruct (resume_awaiters_spec f1 fuel Hwf) as (l & He & Hl); [simpl; by rewrite Hord|].
  exists (mkFuture (HasResult v) l). split_and!; [|done|done].
  unfold set_result, Future_set, bind. rewrite Hd. fold f1. rewrite He. simpl. by rewrite Hord.
Qed.

(** Setting a [DeferredFuture] does not defer: its awaiting coroutines are
    resumed within the call, and none is handed to the event loop. *)
Theorem deferred_set_result_immediate (c : fconf Res Coro) v fuel sched :
  rtc future_step fconf_new c -> Future_done (fc_future c) = false ->
  (length (fc_suspended c) < Pos.to_nat fuel)%nat ->
  exists f', deferred_set_result fuel v (mkDeferred (fc_future c) sched) =
    (Val (map (fun co => (co, Val v)) (fc_suspended c)), mkDeferred f' sched).
Proof.
  intros Hr Hd Hf. destruct (reachable_inv c Hr) as (Hwf & Hord & _ & Hpend & _).
  destruct (Hpend Hd) as (_ & Hnone & _). rewrite Hnone in Hord. simpl in Hord.
  destruct (resume_awaiters_spec (mkFuture (HasResult v) (fu_awaiting (fc_future c))) fuel Hwf)
    as (l & He & _); [simpl; by rewrite Hord|].
  exists (mkFuture (HasResult v) l).
  unfold deferred_set_result, on_future, focus, set_result, Future_set, bind. simpl.
  rewrite Hd, He. simpl. by rewrite Hord.
Qed.
End Properties.

(** ** Witnesses: two coroutines wait, and the value comes *)

Definition two_wait : fconf Z string :=
  mkConf (snd ((Future_co_await "a"%string ;;; Future_co_await "b"%string) Future_new)) false
    ["a"%string; "b"%string] [].

Lemma two_wait_reachable : rtc future_step fconf_new two_wait.
Proof.
  eapply rtc_l; [apply (step_await_suspend "a"%string); reflexivity|].
  eapply rtc_l; [apply (step_await_suspend "b"%string); reflexivity|]. reflexivity.
Qed.

Lemma future_safe_witness :
  fst (Future_co_await "c"%string (fc_future two_wait)) <> Undef.
Proof. apply (future_safe two_wait two_wait_reachable). Defined.

Lemma future_value_stable_witness :
  let c := mkConf (Res := Z) (Coro := string) (Future_of_value 7) false [] [] in
  Future_set "again" (HasResult 8) (fc_future c) =
    (Exn (logic_error (str "again")), fc_future c).
Proof.
  intros c. apply (future_value_stable c c (rtc_refl _ c)). reflexivity.
Defined.

Lemma set_result_resumes_all_witness :
  exists f', (set_result 7 ;;; resume_awaiters 3) (fc_future two_wait) =
      (Val [("a"%string, Val 7); ("b"%string, Val 7)], f') /\
    AwaiterList.waiting (fu_awaiting f') = [] /\ Future_result f' = Val 7.
Proof.
  apply (set_result_resumes_all two_wait 7 3 two_wait_reachable); [reflexivity|simpl; lia].
Defined.

Lemma deferred_set_result_immediate_witness :
  exists f', deferred_set_result 3 7 (mkDeferred (fc_future two_wait) []) =
    (Val [("a"%string, Val 7); ("b"%string, Val 7)], mkDeferred f' []).
Proof.
  apply (deferred_set_result_immediate two_wait 7 3 [] two_wait_reachable); [reflexivity|simpl; lia].
Defined.
