(* ===== verification/Task.v ===== *)
(** * Tasks (src/src/Task.hh, Task.cc)

    A task is a coroutine frame with its promise; the tasks live in a heap, a map
    from pointers. A coroutine runs until it suspends or returns before the call
    that resumed it returns, so a resumption is an event: [finish] answers the
    coroutine that the final awaiter transfers to. *)
From stdpp Require Import tactics base list numbers strings gmap relations.
From S2P Require Import Prelude.

(** ** Promises and tasks *)

Section Task.
Context {Res : Type}.

Abbreviation ptr := nat.
(** Coroutines that may await a task. *)
Abbreviation coro := nat.

(** [std::variant<ReturnT, std::exception_ptr>]. *)
Inductive promise_value : Type := PResult (v : Res) | PException (e : exn).

Record task := mkTask {
  t_started : bool;                  (* TaskBase::started *)
  t_done : bool;                     (* coro.done(): at its final suspension *)
  t_awaiting : option coro;          (* TaskPromise::awaiting_coro *)
  t_value : promise_value            (* TaskPromise::value *)
}.

(** A task just created: the value is a default-constructed result. *)
Definition task_new (dflt : Res) : task := mkTask false false None (PResult dflt).

Local Abbreviation heap := (gmap ptr task).

(** Dereferencing a pointer to no task is undefined. *)
Definition deref {A} (p : ptr) (f : task -> A) : ST heap A := fun h =>
  match h !! p with Some t => (Val (f t), h) | None => (Undef, h) end.
Definition update (p : ptr) (f : task -> task) : ST heap unit := fun h =>
  match h !! p with Some t => (Val tt, <[p := f t]> h) | None => (Undef, h) end.

Definition set_awaiting_coro (c : option coro) (t : task) : task :=
  mkTask (t_started t) (t_done t) c (t_value t).
Definition set_started (t : task) : task := mkTask true (t_done t) (t_awaiting t) (t_value t).
Definition set_done (v : promise_value) (t : task) : task :=
  mkTask (t_started t) true (t_awaiting t) v.

(** [TaskPromise::result]. *)
Definition promise_result (v : promise_value) : out Res :=
  match v with PResult v => Val v | PException e => Exn e end.
Definition Task_result (p : ptr) : ST heap Res :=
  let! v := deref p t_value in of_out (promise_result v).

Definition TaskBase_done (p : ptr) : ST heap bool := deref p t_done.
Definition link (p : ptr) (c : option coro) : ST heap unit := update p (set_awaiting_coro c).

(** [start()]: whether it resumes the coroutine. *)
Definition start (p : ptr) : ST heap bool :=
  let! started := deref p t_started in
  if started then ret false else update p set_started ;;; ret true.

(** The coroutine returns or throws: [return_value] or [unhandled_exception], then
    [final_suspend]; the coroutine that the final awaiter resumes, if any. *)
Definition finish (p : ptr) (v : promise_value) : ST heap (option coro) :=
  update p (set_done v) ;;; deref p t_awaiting.

(** [AwaiterBase]: whom [await_suspend] transfers control to. *)
Definition AwaiterBase_await_ready (p : ptr) : ST heap bool := TaskBase_done p.
Definition AwaiterBase_await_suspend (p : ptr) (me : coro) : ST heap (option ptr) :=
  link p (Some me) ;;;
  let! started := deref p t_started in
  if started then ret None else update p set_started ;;; ret (Some p).

(** ** AnyAwaiter

    The set of tasks is a list without duplicates, in the order of its iteration,
    which [unordered_set] leaves open. *)

Definition add_task (p : ptr) (tasks : list ptr) : list ptr :=
  if decide (p ∈ tasks) then tasks else p :: tasks.

Definition not_started : exn :=
  logic_error (str "all tasks must be started before using AnyAwaiter").
Definition none_resumed : exn :=
  logic_error (str "no task resumed during AnyAwaiter suspend").

Fixpoint AnyAwaiter_await_ready (tasks : list ptr) : ST heap bool :=
  match tasks with
  | [] => ret false
  | p :: tasks =>
      let! done := TaskBase_done p in
      if done then ret true
      else
        let! started := deref p t_started in
        if negb started then throw not_started else AnyAwaiter_await_ready tasks
  end.

Fixpoint AnyAwaiter_await_suspend (tasks : list ptr) (me : coro) : ST heap unit :=
  match tasks with
  | [] => ret tt
  | p :: tasks => link p (Some me) ;;; AnyAwaiter_await_suspend tasks me
  end.

(** The loop of [await_resume]: the first done task seen and the tasks left. *)
Fixpoint erase_done (tasks : list ptr) : ST heap (option ptr * list ptr) :=
  match tasks with
  | [] => ret (None, [])
  | p :: tasks =>
      let! done := TaskBase_done p in
      if done then
        let! r := erase_done tasks in
        ret (Some p, snd r)
      else
        link p None ;;;
        let! r := erase_done tasks in
        ret (fst r, p :: snd r)
  end.

Definition AnyAwaiter_await_resume (tasks : list ptr) : ST heap (ptr * list ptr) :=
  let! r := erase_done tasks in
  match fst r with
  | None => throw none_resumed
  | Some p => ret (p, snd r)
  end.

(** ** all_limit

    [me] is the coroutine of [all_limit]; the range is the list of its tasks. It
    is either running, suspended in [co_await aw], or has returned; [Failed] is an
    exception out of it, and [Broken] its resumption while it runs. *)

Inductive pc : Type := Running | Suspended | Finished | Failed (e : exn) | Broken.

Record limit_state := mkLimit {
  ls_heap : heap; ls_todo : list ptr; ls_aw : list ptr; ls_pc : pc
}.

Section AllLimit.
Context (me : coro) (parallelism : nat).

(** A task that runs reaches its end. *)
Inductive completes (p : ptr) (h h' : heap) (resumed : option coro) : Prop :=
| completes_intro t v :
    h !! p = Some t -> t_started t = true -> t_done t = false ->
    finish p v h = (Val resumed, h') -> completes p h h' resumed.

(** While a task runs inside [start], that one and others may end; ending one that
    would resume this coroutine is kept apart. *)
Definition quiet (h h' : heap) : Prop := exists p r, completes p h h' r /\ r <> Some me.

Definition must_wait (s : limit_state) : Prop :=
  (parallelism <= length (ls_aw s))%nat \/ ls_todo s = [].

Definition limit_new (h : heap) (tasks : list ptr) : limit_state := mkLimit h tasks [] Running.

Inductive limit_step : limit_state -> limit_state -> Prop :=
| ls_return h :
    limit_step (mkLimit h [] [] Running) (mkLimit h [] [] Finished)
| ls_no_wait h todo aw aw' aw'' h1 h2 ret :
    ~ (todo = [] /\ aw = []) -> must_wait (mkLimit h todo aw Running) -> aw' ≡ₚ aw ->
    AnyAwaiter_await_ready aw' h = (Val true, h1) ->
    AnyAwaiter_await_resume aw' h1 = (Val (ret, aw''), h2) ->
    limit_step (mkLimit h todo aw Running) (mkLimit h2 todo aw'' Running)
| ls_wait h todo aw aw' h1 h2 :
    ~ (todo = [] /\ aw = []) -> must_wait (mkLimit h todo aw Running) -> aw' ≡ₚ aw ->
    AnyAwaiter_await_ready aw' h = (Val false, h1) ->
    AnyAwaiter_await_suspend aw' me h1 = (Val tt, h2) ->
    limit_step (mkLimit h todo aw Running) (mkLimit h2 todo aw Suspended)
| ls_ready_throws h todo aw aw' h1 e :
    ~ (todo = [] /\ aw = []) -> must_wait (mkLimit h todo aw Running) -> aw' ≡ₚ aw ->
    AnyAwaiter_await_ready aw' h = (Exn e, h1) ->
    limit_step (mkLimit h todo aw Running) (mkLimit h1 todo aw (Failed e))
| ls_no_wait_throws h todo aw aw' h1 h2 e :
    ~ (todo = [] /\ aw = []) -> must_wait (mkLimit h todo aw Running) -> aw' ≡ₚ aw ->
    AnyAwaiter_await_ready aw' h = (Val true, h1) ->
    AnyAwaiter_await_resume aw' h1 = (Exn e, h2) ->
    limit_step (mkLimit h todo aw Running) (mkLimit h2 todo aw (Failed e))
| ls_start h p todo aw h1 h2 runs :
    ~ must_wait (mkLimit h (p :: todo) aw Running) ->
    start p h = (Val runs, h1) -> (if (runs : bool) then rtc quiet h1 h2 else h2 = h1) ->
    limit_step (mkLimit h (p :: todo) aw Running) (mkLimit h2 todo (add_task p aw) Running)
| ls_start_reentered h p todo aw h1 h2 h3 q :
    ~ must_wait (mkLimit h (p :: todo) aw Running) ->
    start p h = (Val true, h1) -> rtc quiet h1 h2 -> completes q h2 h3 (Some me) ->
    limit_step (mkLimit h (p :: todo) aw Running) (mkLimit h3 todo aw Broken)
| ls_other_ends h todo aw h1 p r :
    completes p h h1 r -> r <> Some me ->
    limit_step (mkLimit h todo aw Suspended) (mkLimit h1 todo aw Suspended)
| ls_resume h todo aw aw' aw'' h1 h2 p ret :
    completes p h h1 (Some me) -> aw' ≡ₚ aw ->
    AnyAwaiter_await_resume aw' h1 = (Val (ret, aw''), h2) ->
    limit_step (mkLimit h todo aw Suspended) (mkLimit h2 todo aw'' Running)
| ls_resume_throws h todo aw aw' h1 h2 p e :
    completes p h h1 (Some me) -> aw' ≡ₚ aw ->
    AnyAwaiter_await_resume aw' h1 = (Exn e, h2) ->
    limit_step (mkLimit h todo aw Suspended) (mkLimit h2 todo aw (Failed e)).
End AllLimit.
End Task.
Arguments promise_value : clear implicits.
Arguments task : clear implicits.
Abbreviation heap Res := (gmap nat (task Res)).
Arguments limit_state : clear implicits.

(** ** The operations of AnyAwaiter on a heap *)

Section AnyLemmas.
Context {Res : Type}.
Implicit Types (h : heap Res) (t : task Res).

Definition is_done (h : heap Res) (p : nat) : bool :=
  match h !! p with Some t => t_done t | None => false end.

(** [h'] is [h] with the tasks of [ps] linked to [c]. *)
Definition relinked (ps : nat -> Prop) `{forall p, Decision (ps p)} (c : option nat) h h' : Prop :=
  forall p, h' !! p = if decide (ps p) then set_awaiting_coro c <$> h !! p else h !! p.

Lemma is_done_Some h p t : h !! p = Some t -> is_done h p = t_done t.
Proof. unfold is_done. by intros ->. Qed.

Lemma deref_eq {A} h p t (f : task Res -> A) : h !! p = Some t -> deref p f h = (Val (f t), h).
Proof. unfold deref. by intros ->. Qed.

Lemma update_eq h p t f : h !! p = Some t -> update p f h = (Val tt, <[p := f t]> h).
Proof. unfold update. by intros ->. Qed.

Lemma await_ready_spec (tasks : list nat) h :
  (forall p, p ∈ tasks -> exists t, h !! p = Some t /\ t_started t = true) ->
  AnyAwaiter_await_ready tasks h = (Val (existsb (is_done h) tasks), h).
Proof.
  induction tasks as [|p tasks IH]; intros Hin; [done|]. simpl.
  destruct (Hin p) as (t & Ht & Hs); [by left|]. unfold TaskBase_done.
  erewrite bind_Val by by apply deref_eq. rewrite (is_done_Some _ _ _ Ht).
  destruct (t_done t); [done|]. erewrite bind_Val by by apply deref_eq. rewrite Hs. simpl.
  apply IH. intros q Hq. apply Hin. by right.
Qed.

Lemma await_suspend_spec (tasks : list nat) me h :
  (forall p, p ∈ tasks -> is_Some (h !! p)) ->
  exists h', AnyAwaiter_await_suspend tasks me h = (Val tt, h') /\
             relinked (fun p => p ∈ tasks) (Some me) h h'.
Proof.
  revert h. induction tasks as [|p tasks IH]; intros h Hin.
  - exists h. split; [done|]. intros q. by rewrite decide_False by apply not_elem_of_nil.
  - destruct (Hin p) as [t Ht]; [by left|]. simpl. unfold link.
    rewrite (bind_Val _ _ _ _ _ (update_eq _ _ _ _ Ht)).
    destruct (IH (<[p := set_awaiting_coro (Some me) t]> h)) as (h' & -> & Hr).
    { intros q Hq. rewrite lookup_insert. case_decide; [by eexists|]. apply Hin. by right. }
    exists h'. split; [done|]. intros q. rewrite Hr, lookup_insert.
    destruct (decide (p = q)) as [<-|Hne].
    + rewrite Ht. rewrite (decide_True (P := p ∈ p :: tasks)) by by left. by destruct (decide _).
    + destruct (decide (q ∈ tasks)).
      * by rewrite decide_True by by right.
      * by rewrite decide_False by (apply not_elem_of_cons; by split).
Qed.

Lemma erase_done_spec (tasks : list nat) h :
  (forall p, p ∈ tasks -> is_Some (h !! p)) ->
  exists r h', erase_done tasks h =
      (Val (r, List.filter (fun p => negb (is_done h p)) tasks), h') /\
    relinked (fun p => p ∈ tasks /\ is_done h p = false) None h h' /\
    match r with
    | None => existsb (is_done h) tasks = false
    | Some p => p ∈ tasks /\ is_done h p = true
    end.
Proof.
  revert h. induction tasks as [|p tasks IH]; intros h Hin.
  - exists None, h. split; [done|]. split; [|done]. intros q.
    by rewrite decide_False by (intros [[]%elem_of_nil _]).
  - destruct (Hin p) as [t Ht]; [by left|]. cbn [erase_done List.filter existsb]. unfold TaskBase_done.
    erewrite bind_Val by by apply deref_eq. pose proof (is_done_Some _ _ _ Ht) as Hd. rewrite Hd.
    destruct (t_done t) eqn:Etd.
    + destruct (IH h) as (r & h' & He & Hr & _). { intros q Hq. apply Hin. by right. }
      rewrite (bind_Val _ _ _ _ _ He). exists (Some p), h'. split; [done|]. split.
      * intros q. rewrite Hr. destruct (decide (p = q)) as [<-|Hne].
        -- by rewrite !decide_False by (intros [_ ?]; congruence).
        -- destruct (decide (q ∈ tasks /\ _)) as [[? ?]|Hn].
           ++ by rewrite decide_True by (split; [by right|done]).
           ++ by rewrite decide_False by (intros [[?|?]%elem_of_cons ?]; [by subst|by apply Hn]).
      * split; [by left|done].
    + unfold link. rewrite (bind_Val _ _ _ _ _ (update_eq _ _ _ _ Ht)).
      set (h1 := <[p := _]> h).
      assert (forall q, is_done h1 q = is_done h q) as Hsame.
      { intros q. unfold h1, is_done. rewrite lookup_insert. destruct (decide (p = q)) as [<-|]; [|done].
        by rewrite Ht. }
      destruct (IH h1) as (r & h' & He & Hr & Hres).
      { intros q Hq. unfold h1. rewrite lookup_insert. case_decide; [by eexists|]. apply Hin. by right. }
      rewrite (bind_Val _ _ _ _ _ He). exists r, h'.
      assert (List.filter (fun p => negb (is_done h1 p)) tasks =
              List.filter (fun p => negb (is_done h p)) tasks) as ->.
      { apply List.filter_ext. intros q. by rewrite Hsame. }
      split; [done|]. split.
      * intros q. rewrite Hr.
        destruct (decide (p = q)) as [<-|Hne].
        -- rewrite (decide_True (P := p ∈ p :: tasks /\ _)) by (split; [by left|done]).
           assert (h1 !! p = Some (set_awaiting_coro None t)) as -> by (unfold h1; apply lookup_insert_eq).
           rewrite Ht. by destruct (decide _).
        -- rewrite Hsame. destruct (decide (q ∈ tasks /\ _)) as [[? ?]|Hn].
           ++ rewrite decide_True by (split; [by right|done]).
              f_equal. unfold h1. by apply lookup_insert_ne.
           ++ rewrite decide_False by (intros [[?|?]%elem_of_cons ?]; [by subst|by apply Hn]).
              unfold h1. by apply lookup_insert_ne.
      * destruct r as [q|]; simpl.
        -- rewrite <- Hsame. destruct Hres. split; [by right|done].
        -- rewrite <- Hres. clear - Hsame. induction tasks as [|q tasks IH]; [done|]. simpl. by rewrite <- Hsame, IH.
Qed.

Lemma await_resume_spec (tasks : list nat) h :
  (forall p, p ∈ tasks -> is_Some (h !! p)) -> existsb (is_done h) tasks = true ->
  exists ret h', AnyAwaiter_await_resume tasks h =
      (Val (ret, List.filter (fun p => negb (is_done h p)) tasks), h') /\
    relinked (fun p => p ∈ tasks /\ is_done h p = false) None h h' /\
    ret ∈ tasks /\ is_done h ret = true.
Proof.
  intros Hin He. destruct (erase_done_spec tasks h Hin) as (r & h' & Hr & Hl & Hres).
  unfold AnyAwaiter_await_resume. rewrite (bind_Val _ _ _ _ _ Hr). simpl.
  destruct r as [p|]; [|congruence]. by exists p, h'.
Qed.

(** Completion only marks the task done. *)
Lemma completes_spec p h h' r :
  completes p h h' r ->
  exists t v, h !! p = Some t /\ t_started t = true /\ t_done t = false /\ r = t_awaiting t /\
              h' = <[p := set_done v t]> h.
Proof.
  intros [t v Ht Hs Hd Hf]. exists t, v. split_and!; try done;
    revert Hf; unfold finish; rewrite (bind_Val _ _ _ _ _ (update_eq _ _ _ _ Ht));
    unfold deref; rewrite lookup_insert_eq; by intros [= <- <-].
Qed.
End AnyLemmas.

(** ** The invariant of all_limit *)

Section LimitInvariant.
Context {Res : Type} (me parallelism : nat).
Implicit Types (h : heap Res) (t : task Res) (s : limit_state Res).

(** The tasks of the range: still to start, among the awaited, or done; those that
    are not done are linked to [me] exactly while it is suspended on them. *)
Definition heap_inv (suspended : bool) (todo aw : list nat) h : Prop :=
  NoDup (todo ++ aw) /\
  (forall p, p ∈ todo ++ aw -> is_Some (h !! p)) /\
  (forall p t, h !! p = Some t ->
     (p ∈ todo -> t_started t = false /\ t_done t = false) /\
     (p ∈ aw -> t_started t = true) /\
     (p ∉ todo -> p ∉ aw -> t_done t = true) /\
     (t_done t = false ->
        t_awaiting t = if suspended && bool_decide (p ∈ aw) then Some me else None)).

Definition limit_inv s : Prop :=
  heap_inv (match ls_pc s with Suspended => true | _ => false end) (ls_todo s) (ls_aw s) (ls_heap s) /\
  (length (ls_aw s) <= parallelism)%nat /\
  match ls_pc s with
  | Running => True
  | Suspended =>
      must_wait parallelism s /\ ~ (ls_todo s = [] /\ ls_aw s = []) /\
      (forall p, p ∈ ls_aw s -> is_done (ls_heap s) p = false)
  | Finished => ls_todo s = [] /\ ls_aw s = []
  | Failed _ | Broken => False
  end.

Lemma heap_inv_aw_some sus todo aw h p : heap_inv sus todo aw h -> p ∈ aw -> is_Some (h !! p).
Proof. intros (_ & Hs & _) Hp. apply Hs, elem_of_app. by right. Qed.

Lemma heap_inv_aw_started sus todo aw h p :
  heap_inv sus todo aw h -> p ∈ aw -> exists t, h !! p = Some t /\ t_started t = true.
Proof.
  intros Hi Hp. destruct (heap_inv_aw_some _ _ _ _ _ Hi Hp) as [t Ht]. exists t.
  split; [done|]. destruct Hi as (_ & _ & Hi). by apply (Hi p t Ht).
Qed.

(** A running task that ends is an awaited one. *)
Lemma heap_inv_completes sus todo aw h h' p r :
  heap_inv sus todo aw h -> completes p h h' r ->
  p ∈ aw /\ r = (if sus then Some me else None) /\ heap_inv sus todo aw h' /\ is_done h' p = true.
Proof.
  intros (Hnd & Hsome & Hi) Hc. destruct (completes_spec _ _ _ _ Hc) as (t & v & Ht & Hs & Hd & -> & ->).
  destruct (Hi p t Ht) as (H1 & H2 & H3 & H4).
  assert (p ∈ aw) as Hp.
  { destruct (decide (p ∈ aw)) as [|Haw]; [done|]. destruct (decide (p ∈ todo)) as [Htodo|Htodo].
    - destruct (H1 Htodo). congruence.
    - specialize (H3 Htodo Haw). congruence. }
  split; [done|]. split.
  { rewrite (H4 Hd). rewrite bool_decide_eq_true_2 by done. by destruct sus. }
  split; [|unfold is_done; by rewrite lookup_insert_eq].
  split; [done|]. split.
  - intros q Hq. rewrite lookup_insert. destruct (decide (p = q)); [eexists; reflexivity|by apply Hsome].
  - intros q u. rewrite lookup_insert. destruct (decide (p = q)) as [<-|Hne]; [|apply Hi].
    intros [= <-]. simpl. split_and!; try done. intros Htodo. destruct (H1 Htodo). congruence.
Qed.

Lemma heap_inv_quiet todo aw h h' :
  heap_inv false todo aw h -> rtc (quiet me) h h' -> heap_inv false todo aw h'.
Proof.
  intros Hi Hr. induction Hr as [|h0 h1 h2 (p & r & Hc & _) _ IH]; [done|]. apply IH.
  by apply (heap_inv_completes _ _ _ _ _ _ _ Hi) in Hc as (_ & _ & ? & _).
Qed.

(** Linking what is awaited suspends. *)
Lemma heap_inv_link todo aw aw' h h' :
  heap_inv false todo aw h -> aw' ≡ₚ aw -> relinked (fun p => p ∈ aw') (Some me) h h' ->
  heap_inv true todo aw h' /\ (forall p, is_done h' p = is_done h p).
Proof.
  intros (Hnd & Hsome & Hi) Hp Hr. split.
  - split; [done|]. split.
    + intros q Hq. rewrite Hr. destruct (Hsome q Hq) as [t Ht]. rewrite Ht.
      destruct (decide _); by eexists.
    + intros q u. rewrite Hr. destruct (h !! q) as [t|] eqn:Ht; [|by destruct (decide _)].
      destruct (Hi q t Ht) as (H1 & H2 & H3 & H4). simpl.
      destruct (decide (q ∈ aw')) as [Hq|Hq]; intros [= <-]; simpl; (split_and!; try done);
        rewrite Hp in Hq.
      * intros _. by rewrite bool_decide_eq_true_2.
      * intros Hd. rewrite bool_decide_eq_false_2 by done. by rewrite (H4 Hd).
  - intros q. unfold is_done. rewrite Hr. by destruct (decide _), (h !! q).
Qed.

(** Erasing what is done, and unlinking the rest, resumes. *)
Lemma heap_inv_erase sus todo aw aw' h h' :
  heap_inv sus todo aw h -> aw' ≡ₚ aw ->
  relinked (fun p => p ∈ aw' /\ is_done h p = false) None h h' ->
  heap_inv false todo (List.filter (fun p => negb (is_done h p)) aw') h'.
Proof.
  intros (Hnd & Hsome & Hi) Hp Hr. set (aw'' := List.filter _ aw').
  assert (forall q, q ∈ aw'' <-> q ∈ aw /\ is_done h q = false) as Hin.
  { intros q. unfold aw''. rewrite !list_elem_of_In, filter_In, <- !list_elem_of_In, Hp.
    destruct (is_done h q); split; intros [? ?]; by split. }
  rewrite <- Hp in Hnd. apply NoDup_app in Hnd as (Hnd1 & Hnd2 & Hnd3).
  split; [|split].
  - apply NoDup_app. split_and!; [done| |].
    + intros q Hq Hq'. apply Hin in Hq' as [Hq' _]. rewrite <- Hp in Hq'. by apply (Hnd2 q).
    + apply NoDup_ListNoDup, List.NoDup_filter, NoDup_ListNoDup, Hnd3.
  - intros q [Hq|Hq]%elem_of_app.
    + destruct (Hsome q) as [t Ht]; [apply elem_of_app; by left|]. rewrite Hr, Ht.
      destruct (decide _); by eexists.
    + apply Hin in Hq as [Hq _]. destruct (Hsome q) as [t Ht]; [apply elem_of_app; by right|].
      rewrite Hr, Ht. destruct (decide _); by eexists.
  - intros q u. rewrite Hr. destruct (h !! q) as [t|] eqn:Ht; [|by destruct (decide _)].
    destruct (Hi q t Ht) as (H1 & H2 & H3 & H4). simpl.
    pose proof (is_done_Some _ _ _ Ht) as Hdq.
    destruct (decide (q ∈ aw' /\ is_done h q = false)) as [[Hq Hd]|Hq]; intros [= <-]; simpl.
    + rewrite Hp in Hq. split_and!; [done|by intros [? _]%Hin; auto| |done].
      intros Htodo Haw. exfalso. by apply Haw, Hin.
    + rewrite Hp in Hq. split_and!; [done|by intros [? _]%Hin; auto| |].
      * intros Htodo Haw. destruct (t_done t) eqn:Ed; [done|]. apply H3; [done|].
        intros Hq'. apply Haw, Hin. by rewrite Hdq.
      * intros Hd. rewrite (H4 Hd). rewrite bool_decide_eq_false_2; [by rewrite andb_false_r|].
        intros Hq'. apply Hq. by rewrite Hdq.
Qed.

(** Starting the next task moves it among the awaited ones. *)
Lemma heap_inv_start p todo aw h :
  heap_inv false (p :: todo) aw h ->
  exists t, start p h = (Val true, <[p := set_started t]> h) /\ add_task p aw = p :: aw /\
    heap_inv false todo (p :: aw) (<[p := set_started t]> h).
Proof.
  intros (Hnd & Hsome & Hi). destruct (Hsome p) as [t Ht]; [by left|]. exists t.
  destruct (Hi p t Ht) as (H1 & _ & _ & H4). destruct H1 as [Hs Hd]; [by left|].
  simpl in Hnd. pose proof Hnd as [Hp Hnd']%NoDup_cons. apply not_elem_of_app in Hp as [Hp1 Hp2].
  split; [|split; [|split; [|split]]].
  - unfold start. erewrite bind_Val by by apply deref_eq. rewrite Hs.
    by rewrite (bind_Val _ _ _ _ _ (update_eq _ _ _ _ Ht)).
  - unfold add_task. by rewrite decide_False.
  - by rewrite <- Permutation_middle.
  - intros q Hq. rewrite lookup_insert. destruct (decide (p = q)); [by eexists|]. apply Hsome.
    rewrite <- Permutation_middle in Hq. done.
  - intros q u. rewrite lookup_insert. destruct (decide (p = q)) as [<-|Hne].
    + intros [= <-]. simpl. split_and!; try done.
      * intros _ Hn. exfalso. apply Hn. by left.
    + intros Hu. destruct (Hi q u Hu) as (H1' & H2' & H3' & H4'). split_and!; try done.
      * intros Hq. apply H1'. by right.
      * intros [?|Hq]%elem_of_cons; [congruence|by apply H2'].
      * intros Hq1 Hq2. apply H3'; [|by intros ?; apply Hq2; right].
        intros [?|?]%elem_of_cons; congruence.
Qed.

Lemma existsb_perm (f : nat -> bool) l l' : l ≡ₚ l' -> existsb f l = existsb f l'.
Proof.
  induction 1 as [|x l l' _ IH|x y l|l l' l'' _ IH1 _ IH2]; simpl; [done|by rewrite IH| |congruence].
  by destruct (f x), (f y).
Qed.

Lemma length_filter_lt (f : nat -> bool) l p :
  p ∈ l -> f p = false -> (length (List.filter f l) < length l)%nat.
Proof.
  intros Hp Hf. induction l as [|x l IH]; [by apply elem_of_nil in Hp|].
  apply elem_of_cons in Hp as [<-|Hp]; simpl.
  - rewrite Hf. pose proof (List.filter_length_le f l). lia.
  - specialize (IH Hp). destruct (f x); simpl; lia.
Qed.
End LimitInvariant.

Section LimitProofs.
Context {Res : Type} (me parallelism : nat).
Implicit Types (h : heap Res) (t : task Res) (s : limit_state Res).

Lemma existsb_false_in (f : nat -> bool) l p : existsb f l = false -> p ∈ l -> f p = false.
Proof.
  intros He Hp. destruct (f p) eqn:E; [|done].
  assert (existsb f l = true); [|congruence]. apply existsb_exists. exists p.
  by rewrite <- list_elem_of_In.
Qed.

Lemma existsb_true_in (f : nat -> bool) l p : p ∈ l -> f p = true -> existsb f l = true.
Proof. intros Hp Hf. apply existsb_exists. exists p. by rewrite <- list_elem_of_In. Qed.

Lemma limit_step_inv s s' :
  limit_step me parallelism s s' -> limit_inv me parallelism s -> limit_inv me parallelism s'.
Proof.
  intros Hs (Hi & Hlen & Hpc). destruct Hs; simpl in Hi, Hlen, Hpc.
  - done.
  - match goal with H : aw' ≡ₚ aw |- _ => rename H into Hp end.
    rewrite await_ready_spec in H2
      by (intros q Hq; rewrite Hp in Hq; by apply (heap_inv_aw_started _ _ _ _ _ _ Hi)).
    injection H2 as He <-.
    destruct (await_resume_spec aw' h) as (ret' & h' & Hr & Hl & _); [|done|].
    { intros q Hq. rewrite Hp in Hq. by eapply heap_inv_aw_some. }
    rewrite H3 in Hr. injection Hr as -> -> ->.
    split; [by eapply heap_inv_erase|]. split; [|done]. simpl.
    pose proof (List.filter_length_le (fun p => negb (is_done h p)) aw'). rewrite <- Hp in Hlen. lia.
  - rewrite await_ready_spec in H2
      by (intros q Hq; rewrite H1 in Hq; by apply (heap_inv_aw_started _ _ _ _ _ _ Hi)).
    injection H2 as He <-.
    destruct (await_suspend_spec aw' me h) as (h' & Hr & Hl).
    { intros q Hq. rewrite H1 in Hq. by eapply heap_inv_aw_some. }
    rewrite H3 in Hr. injection Hr as <-.
    destruct (heap_inv_link me _ _ _ _ _ Hi H1 Hl) as [Hi' Hd].
    split; [done|]. split; [done|]. simpl. split; [done|]. split; [done|].
    intros q Hq. rewrite Hd. rewrite <- H1 in Hq. by eapply existsb_false_in.
  - rewrite await_ready_spec in H2
      by (intros q Hq; rewrite H1 in Hq; by apply (heap_inv_aw_started _ _ _ _ _ _ Hi)).
    done.
  - rewrite await_ready_spec in H2
      by (intros q Hq; rewrite H1 in Hq; by apply (heap_inv_aw_started _ _ _ _ _ _ Hi)).
    injection H2 as He <-.
    destruct (await_resume_spec aw' h) as (ret' & h' & Hr & _ & _); [|done|congruence].
    intros q Hq. rewrite H1 in Hq. by eapply heap_inv_aw_some.
  - destruct (heap_inv_start me _ _ _ _ Hi) as (t & Hst & Hadd & Hi').
    rewrite H0 in Hst. injection Hst as -> ->. rewrite Hadd.
    split; [by eapply heap_inv_quiet|]. split; [|done]. simpl.
    unfold must_wait in H. simpl in H. lia.
  - destruct (heap_inv_start me _ _ _ _ Hi) as (t & Hst & _ & Hi').
    rewrite H0 in Hst. injection Hst as ->.
    apply (heap_inv_quiet me _ _ _ _ Hi') in H1.
    by apply (heap_inv_completes me _ _ _ _ _ _ _ H1) in H2 as (_ & ? & _).
  - by apply (heap_inv_completes me _ _ _ _ _ _ _ Hi) in H as (_ & ? & _).
  - destruct (heap_inv_completes me _ _ _ _ _ _ _ Hi H) as (Hpaw & _ & Hi1 & Hd).
    destruct (await_resume_spec aw' h1) as (ret' & h' & Hr & Hl & _).
    { intros q Hq. rewrite H0 in Hq. by eapply heap_inv_aw_some. }
    { apply (existsb_true_in _ _ p); [by rewrite H0|done]. }
    rewrite H1 in Hr. injection Hr as -> -> ->.
    split; [by eapply heap_inv_erase|]. split; [|done]. simpl.
    pose proof (List.filter_length_le (fun p => negb (is_done h1 p)) aw'). rewrite <- H0 in Hlen. lia.
  - destruct (heap_inv_completes me _ _ _ _ _ _ _ Hi H) as (Hpaw & _ & Hi1 & Hd).
    destruct (await_resume_spec aw' h1) as (ret' & h' & Hr & _ & _); [| |congruence].
    { intros q Hq. rewrite H0 in Hq. by eapply heap_inv_aw_some. }
    { apply (existsb_true_in _ _ p); [by rewrite H0|done]. }
Qed.

(** The range: distinct tasks just created. *)
Definition fresh_range h (tasks : list nat) : Prop :=
  NoDup tasks /\ (forall p, p ∈ tasks <-> is_Some (h !! p)) /\
  (forall p t, h !! p = Some t -> t_started t = false /\ t_done t = false /\ t_awaiting t = None).

Lemma limit_inv_new h tasks : fresh_range h tasks -> limit_inv me parallelism (limit_new h tasks).
Proof.
  intros (Hnd & Hdom & Hf). split; [|split; [simpl; lia|done]]. simpl. split.
  - by rewrite app_nil_r.
  - rewrite app_nil_r. split; [intros p; by apply Hdom|]. intros p t Ht.
    destruct (Hf p t Ht) as (? & ? & ?). split_and!; try done.
    + by intros []%elem_of_nil.
    + intros Hp. exfalso. apply Hp, Hdom. by eexists.
Qed.

Definition limit_reach h tasks s : Prop :=
  fresh_range h tasks /\ rtc (limit_step me parallelism) (limit_new h tasks) s.

Lemma limit_reach_inv h tasks s : limit_reach h tasks s -> limit_inv me parallelism s.
Proof.
  intros [Hf Hr]. apply limit_inv_new in Hf. revert Hf Hr. generalize (limit_new h tasks).
  intros s0 H0 Hr. induction Hr as [|s0 s1 s2 Hs _ IH]; [done|].
  apply IH. by eapply limit_step_inv.
Qed.

(** ** Every step makes progress *)

Definition undone h (ps : list nat) : list nat := List.filter (fun p => negb (is_done h p)) ps.
Definition limit_measure s : nat :=
  4 * length (ls_todo s) + length (ls_aw s) + 2 * length (undone (ls_heap s) (ls_aw s)) +
  match ls_pc s with Running => 1 | _ => 0 end.

Lemma length_filter_le (f g : nat -> bool) l :
  (forall p, p ∈ l -> f p = true -> g p = true) ->
  (length (List.filter f l) <= length (List.filter g l))%nat.
Proof.
  induction l as [|x l IH]; intros Hfg; [done|]. simpl.
  assert (length (List.filter f l) <= length (List.filter g l))%nat.
  { apply IH. intros p Hp. apply Hfg. by right. }
  destruct (f x) eqn:Ef; [rewrite Hfg by (by left || done)|destruct (g x)]; simpl; lia.
Qed.

Lemma length_filter_lt2 (f g : nat -> bool) l p :
  (forall p, f p = true -> g p = true) -> p ∈ l -> f p = false -> g p = true ->
  (length (List.filter f l) < length (List.filter g l))%nat.
Proof.
  intros Hfg Hp Hf Hg. induction l as [|x l IH]; [by apply elem_of_nil in Hp|].
  apply elem_of_cons in Hp as [<-|Hp]; simpl.
  - rewrite Hf, Hg. pose proof (length_filter_le f g l (fun q _ => Hfg q)). simpl. lia.
  - specialize (IH Hp). destruct (f x) eqn:Ef; [rewrite (Hfg x Ef)|destruct (g x)]; simpl; lia.
Qed.

Lemma length_filter_perm (f : nat -> bool) l l' :
  l ≡ₚ l' -> length (List.filter f l) = length (List.filter f l').
Proof.
  induction 1 as [|x l l' _ IH|x y l|l l' l'' _ IH1 _ IH2]; simpl; [done| | |congruence].
  - destruct (f x); simpl; congruence.
  - by destruct (f x), (f y).
Qed.

Lemma filter_id (f : nat -> bool) l :
  (forall p, p ∈ l -> f p = true) -> List.filter f l = l.
Proof.
  induction l as [|x l IH]; intros Hf; [done|]. simpl. rewrite Hf by by left.
  f_equal. apply IH. intros p Hp. apply Hf. by right.
Qed.

(** Unlinking or linking leaves [is_done] alone. *)
Lemma relinked_is_done (ps : nat -> Prop) `{forall p, Decision (ps p)} c h h' p :
  relinked ps c h h' -> is_done h' p = is_done h p.
Proof. intros Hr. unfold is_done. rewrite Hr. by destruct (decide _), (h !! p). Qed.

(** What is left after the erasure: fewer tasks, all of them running. *)
Lemma erase_measure aw aw' h h' p :
  aw' ≡ₚ aw -> relinked (fun p => p ∈ aw' /\ is_done h p = false) None h h' ->
  p ∈ aw -> is_done h p = true ->
  (length (undone h aw') < length aw)%nat /\
  (length (undone h' (undone h aw')) = length (undone h aw'))%nat /\
  (length (undone h aw') = length (undone h aw))%nat.
Proof.
  intros Hp Hr Hin Hd. split_and!.
  - rewrite <- Hp in Hin |- *. unfold undone. apply (length_filter_lt _ _ p Hin). by rewrite Hd.
  - unfold undone at 1. rewrite filter_id; [done|]. intros q Hq.
    rewrite (relinked_is_done _ _ _ _ _ Hr). unfold undone in Hq.
    by apply list_elem_of_In, filter_In in Hq as [_ ?].
  - by apply length_filter_perm.
Qed.

Lemma is_done_completes h h' p q r :
  completes p h h' r -> is_done h' q = is_done h q || bool_decide (p = q).
Proof.
  intros Hc. destruct (completes_spec _ _ _ _ Hc) as (t & v & Ht & _ & Hd & _ & ->).
  unfold is_done. rewrite lookup_insert. destruct (decide (p = q)) as [<-|Hne].
  - by rewrite bool_decide_eq_true_2, orb_true_r.
  - by rewrite bool_decide_eq_false_2, orb_false_r.
Qed.

Lemma limit_step_measure s s' :
  limit_inv me parallelism s -> limit_step me parallelism s s' ->
  (limit_measure s' < limit_measure s)%nat.
Proof.
  intros (Hi & Hlen & Hpc) Hs. unfold limit_measure.
  destruct Hs as [h|h todo aw aw' aw'' h1 h2 ret Hne Hw Hp He Hr|h todo aw aw' h1 h2 Hne Hw Hp He Hr
    |h todo aw aw' h1 e Hne Hw Hp He|h todo aw aw' h1 h2 e Hne Hw Hp He Hr
    |h p todo aw h1 h2 runs Hw Hst Hq|h p todo aw h1 h2 h3 q Hw Hst Hq Hc|h todo aw h1 p r Hc Hr
    |h todo aw aw' aw'' h1 h2 p ret Hc Hp Hr|h todo aw aw' h1 h2 p e Hc Hp Hr];
    simpl in *; try (simpl; lia).
  - rewrite await_ready_spec in He
      by (intros q Hq; rewrite Hp in Hq; by apply (heap_inv_aw_started _ _ _ _ _ _ Hi)).
    injection He as He <-.
    destruct (await_resume_spec aw' h) as (ret' & h' & Hr' & Hl & Hin & Hd); [|done|].
    { intros q Hq. rewrite Hp in Hq. by eapply heap_inv_aw_some. }
    rewrite Hr in Hr'. injection Hr' as -> -> ->. rewrite Hp in Hin.
    destruct (erase_measure aw aw' h h' ret' Hp Hl Hin Hd) as (H1 & H2 & H3).
    fold (undone h aw'). lia.
  - rewrite await_ready_spec in He
      by (intros q Hq; rewrite Hp in Hq; by apply (heap_inv_aw_started _ _ _ _ _ _ Hi)).
    injection He as _ <-.
    destruct (await_suspend_spec aw' me h) as (h' & Hr' & Hl).
    { intros q Hq. rewrite Hp in Hq. by eapply heap_inv_aw_some. }
    rewrite Hr in Hr'. injection Hr' as ->.
    assert (length (undone h' aw) <= length (undone h aw))%nat; [|lia].
    apply length_filter_le. intros q _. by rewrite (relinked_is_done _ _ _ _ _ Hl).
  - rewrite await_ready_spec in He
      by (intros q Hq; rewrite Hp in Hq; by apply (heap_inv_aw_started _ _ _ _ _ _ Hi)).
    done.
  - rewrite await_ready_spec in He
      by (intros q Hq; rewrite Hp in Hq; by apply (heap_inv_aw_started _ _ _ _ _ _ Hi)).
    injection He as He <-.
    destruct (await_resume_spec aw' h) as (ret' & h' & Hr' & _ & _); [|done|congruence].
    intros q Hq. rewrite Hp in Hq. by eapply heap_inv_aw_some.
  - destruct (heap_inv_start me _ _ _ _ Hi) as (t & Hst' & -> & _). cbn [length].
    assert (length (undone h2 (p :: aw)) <= S (length (undone h aw)))%nat; [|lia].
    simpl. assert (length (undone h2 aw) <= length (undone h aw))%nat as Hle.
    { apply length_filter_le. intros q _. rewrite !negb_true_iff. intros Hd2.
      destruct (is_done h q) eqn:Ed; [|done]. rewrite <- Hd2. symmetry.
      rewrite Hst in Hst'. injection Hst' as -> ->.
      assert (is_done (<[p:=set_started t]> h) q = true) as Hd1.
      { revert Ed. unfold is_done. rewrite lookup_insert. destruct (decide (p = q)) as [<-|]; [|done].
        destruct Hi as (_ & Hsome & Hi). destruct (Hsome p) as [u Hu]; [by left|].
        destruct (Hi p u Hu) as ([? ?] & _); [by left|]. rewrite Hu. congruence. }
      clear - Hq Hd1. induction Hq as [|h0 h1 h2 (p' & r & Hc & _) _ IH]; [done|].
      apply IH. rewrite (is_done_completes _ _ _ _ _ Hc). by rewrite Hd1. }
    unfold undone in *. destruct (negb (is_done h2 p)); simpl; lia.
  - destruct (heap_inv_start me _ _ _ _ Hi) as (t & Hst' & _ & Hi').
    rewrite Hst in Hst'. injection Hst' as ->.
    apply (heap_inv_quiet me _ _ _ _ Hi') in Hq.
    by apply (heap_inv_completes me _ _ _ _ _ _ _ Hq) in Hc as (_ & ? & _).
  - destruct (heap_inv_completes me _ _ _ _ _ _ _ Hi Hc) as (_ & ? & _). done.
  - destruct (heap_inv_completes me _ _ _ _ _ _ _ Hi Hc) as (Hpaw & _ & Hi1 & Hd).
    destruct (await_resume_spec aw' h1) as (ret' & h' & Hr' & Hl & _ & _).
    { intros q Hq. rewrite Hp in Hq. by eapply heap_inv_aw_some. }
    { apply (existsb_true_in _ _ p); [by rewrite Hp|done]. }
    rewrite Hr in Hr'. injection Hr' as -> -> ->.
    destruct (erase_measure aw aw' h1 h' p Hp Hl Hpaw Hd) as (H1 & H2 & H3).
    fold (undone h1 aw').
    assert (length (undone h1 aw) < length (undone h aw))%nat; [|lia].
    apply (length_filter_lt2 _ _ _ p); [|done|by rewrite Hd|].
    + intros q. rewrite (is_done_completes _ _ _ _ _ Hc). by destruct (is_done h q).
    + destruct (completes_spec _ _ _ _ Hc) as (t & v & Ht & _ & Htd & _).
      by rewrite (is_done_Some _ _ _ Ht), Htd.
  - destruct (heap_inv_completes me _ _ _ _ _ _ _ Hi Hc) as (Hpaw & _ & Hi1 & Hd).
    destruct (await_resume_spec aw' h1) as (ret' & h' & Hr' & _); [| |congruence].
    { intros q Hq. rewrite Hp in Hq. by eapply heap_inv_aw_some. }
    { apply (existsb_true_in _ _ p); [by rewrite Hp|done]. }
Qed.
End LimitProofs.

(** ** No operation creates or destroys a task *)

Section Domain.
Context {Res : Type}.
Implicit Types (h : heap Res).

Definition same_tasks h h' : Prop := forall p, is_Some (h' !! p) <-> is_Some (h !! p).
Definition keeps {A} (m : ST (heap Res) A) : Prop := forall h, same_tasks h (snd (m h)).

#[export] Instance same_tasks_preorder : PreOrder same_tasks.
Proof.
  split; [done|]. intros h1 h2 h3 H1 H2 p. by rewrite (H2 p), (H1 p).
Qed.

Lemma keeps_bind {A B} (m : ST (heap Res) A) (k : A -> ST (heap Res) B) :
  keeps m -> (forall a, keeps (k a)) -> keeps (bind m k).
Proof.
  intros Hm Hk h. specialize (Hm h). unfold bind. destruct (m h) as [[a| | |] h']; simpl in *; try done.
  etrans; [exact Hm|apply Hk].
Qed.

Lemma keeps_ret {A} (a : A) : keeps (ret a).
Proof. intros h. reflexivity. Qed.

Lemma keeps_throw {A} e : keeps (@throw (heap Res) A e).
Proof. intros h. reflexivity. Qed.

Lemma keeps_deref {A} p (f : task Res -> A) : keeps (deref p f).
Proof. intros h. unfold deref. by destruct (h !! p). Qed.

Lemma keeps_update p f : keeps (update p f).
Proof.
  intros h q. unfold update. destruct (h !! p) as [t|] eqn:Ht; simpl; [|done].
  rewrite lookup_insert. destruct (decide (p = q)) as [<-|]; [|done]. rewrite Ht.
  split; by eexists.
Qed.
End Domain.

Ltac keeps_auto :=
  repeat lazymatch goal with
  | |- keeps (bind _ _) => apply keeps_bind; [|intros ?]
  | |- keeps (match ?x with _ => _ end) => destruct x
  | |- keeps (ret _) => apply keeps_ret
  | |- keeps (throw _) => apply keeps_throw
  | |- keeps (deref _ _) => apply keeps_deref
  | |- keeps (update _ _) => apply keeps_update
  end.

Section LimitDomain.
Context {Res : Type} (me parallelism : nat).
Implicit Types (h : heap Res) (s : limit_state Res).

Lemma keeps_ready tasks : keeps (Res := Res) (AnyAwaiter_await_ready tasks).
Proof.
  induction tasks as [|p tasks IH]; simpl; unfold TaskBase_done; keeps_auto. done.
Qed.

Lemma keeps_suspend tasks : keeps (Res := Res) (AnyAwaiter_await_suspend tasks me).
Proof. induction tasks as [|p tasks IH]; simpl; unfold link; keeps_auto. done. Qed.

Lemma keeps_resume tasks : keeps (Res := Res) (AnyAwaiter_await_resume tasks).
Proof.
  unfold AnyAwaiter_await_resume. apply keeps_bind; [|intros; keeps_auto].
  induction tasks as [|p tasks IH]; simpl; unfold TaskBase_done, link; keeps_auto; done.
Qed.

Lemma keeps_start p : keeps (Res := Res) (start p).
Proof. unfold start. keeps_auto. Qed.

Lemma keeps_eq {A} (m : ST (heap Res) A) h o h' : keeps m -> m h = (o, h') -> same_tasks h h'.
Proof. intros Hm E. specialize (Hm h). by rewrite E in Hm. Qed.

Lemma completes_keeps p h h' r : completes p h h' r -> same_tasks h h'.
Proof.
  intros [t v _ _ _ Hf]. eapply keeps_eq; [|exact Hf]. unfold finish. keeps_auto.
Qed.

Lemma quiet_keeps h h' : rtc (quiet me) h h' -> same_tasks h h'.
Proof.
  induction 1 as [|h0 h1 h2 (p & r & Hc & _) _ IH]; [done|].
  etrans; [by eapply completes_keeps|done].
Qed.

Lemma limit_step_keeps s s' :
  limit_step me parallelism s s' -> same_tasks (ls_heap s) (ls_heap s').
Proof.
  intros []; simpl;
    repeat match goal with
    | H : AnyAwaiter_await_ready _ _ = _ |- _ => apply (keeps_eq _ _ _ _ (keeps_ready _)) in H
    | H : AnyAwaiter_await_suspend _ _ _ = _ |- _ => apply (keeps_eq _ _ _ _ (keeps_suspend _)) in H
    | H : AnyAwaiter_await_resume _ _ = _ |- _ => apply (keeps_eq _ _ _ _ (keeps_resume _)) in H
    | H : start _ _ = _ |- _ => apply (keeps_eq _ _ _ _ (keeps_start _)) in H
    | H : completes _ _ _ _ |- _ => apply completes_keeps in H
    | H : rtc (quiet _) _ _ |- _ => apply quiet_keeps in H
    | H : if ?b then _ else _ |- _ => destruct b; subst
    end; try done; repeat (etrans; [eassumption|]); done.
Qed.

Lemma limit_reach_keeps h tasks s :
  limit_reach me parallelism h tasks s -> same_tasks h (ls_heap s).
Proof.
  intros [_ Hr]. change h with (ls_heap (limit_new h tasks)). revert Hr. generalize (limit_new h tasks).
  induction 1 as [|s0 s1 s2 Hs _ IH]; [done|]. etrans; [by eapply limit_step_keeps|done].
Qed.
End LimitDomain.

(** ** Properties of all_limit *)

Section LimitProperties.
Context {Res : Type} (me parallelism : nat).
Implicit Types (h : heap Res) (s : limit_state Res).

(** The tasks that run are among those that are awaited. *)
Lemma limit_reach_running h tasks s running :
  limit_reach me parallelism h tasks s -> NoDup running ->
  (forall p, p ∈ running -> exists t, ls_heap s !! p = Some t /\
     t_started t = true /\ t_done t = false) ->
  (length running <= parallelism)%nat.
Proof.
  intros Hr Hnd Hrun. pose proof (limit_reach_inv _ _ _ _ _ Hr) as (Hi & Hlen & _).
  etrans; [|exact Hlen]. apply NoDup_incl_length; [by apply NoDup_ListNoDup|].
  intros p Hp. apply list_elem_of_In in Hp. apply list_elem_of_In.
  destruct (Hrun p Hp) as (t & Ht & Hs & Hd). destruct Hi as (_ & _ & Hi).
  destruct (Hi p t Ht) as (H1 & _ & H3 & _).
  destruct (decide (p ∈ ls_aw s)) as [|Haw]; [done|].
  destruct (decide (p ∈ ls_todo s)) as [Ht'|Ht'].
  - destruct (H1 Ht'). congruence.
  - specialize (H3 Ht' Haw). congruence.
Qed.

Lemma limit_reach_finished h tasks s p :
  limit_reach me parallelism h tasks s -> ls_pc s = Finished -> p ∈ tasks ->
  is_done (ls_heap s) p = true.
Proof.
  intros Hr He Hp. pose proof (limit_reach_inv _ _ _ _ _ Hr) as (Hi & _ & Hpc).
  pose proof (limit_reach_keeps _ _ _ _ _ Hr) as Hdom. destruct Hr as [(_ & Htasks & _) _].
  rewrite He in Hpc. destruct Hpc as [Ht Ha].
  destruct Hi as (_ & _ & Hi). apply Htasks, Hdom in Hp as [t Hp].
  rewrite (is_done_Some _ _ _ Hp). destruct (Hi p t Hp) as (_ & _ & H3 & _).
  apply H3; [rewrite Ht|rewrite Ha]; by intros []%elem_of_nil.
Qed.

(** C1: [all_limit] keeps its promise in every state it can reach, whatever order
    the tasks end in: at most [parallelism] of them have started and not ended; it
    is never resumed while it runs, never throws, and when it returns every task
    of the range is done. *)
Theorem all_limit_safe h tasks s :
  limit_reach me parallelism h tasks s ->
  (forall running, NoDup running ->
     (forall p, p ∈ running -> exists t, ls_heap s !! p = Some t /\
        t_started t = true /\ t_done t = false) ->
     (length running <= parallelism)%nat) /\
  (forall e, ls_pc s <> Failed e) /\ ls_pc s <> Broken /\
  (ls_pc s = Finished -> forall p, p ∈ tasks -> is_done (ls_heap s) p = true).
Proof.
  intros Hr. pose proof (limit_reach_inv _ _ _ _ _ Hr) as (_ & _ & Hpc). split_and!.
  - intros running. by apply (limit_reach_running h tasks).
  - intros e He. by rewrite He in Hpc.
  - intros He. by rewrite He in Hpc.
  - intros He p. by apply (limit_reach_finished h tasks).
Qed.

(** Each awaited task, whenever it ends, resumes a suspended [all_limit]. *)
Lemma suspended_resumes h todo aw p v :
  limit_inv me parallelism (mkLimit h todo aw Suspended) -> p ∈ aw ->
  exists h1 h2 aw'', finish p v h = (Val (Some me), h1) /\
    limit_step me parallelism (mkLimit h todo aw Suspended) (mkLimit h2 todo aw'' Running).
Proof.
  intros (Hi & _ & _ & _ & Hnd) Hp. simpl in *.
  destruct (heap_inv_aw_started _ _ _ _ _ _ Hi Hp) as (t & Ht & Hs). specialize (Hnd p Hp).
  rewrite (is_done_Some _ _ _ Ht) in Hnd.
  assert (t_awaiting t = Some me) as Ha.
  { destruct Hi as (_ & _ & Hi). destruct (Hi p t Ht) as (_ & _ & _ & H4).
    rewrite (H4 Hnd). by rewrite bool_decide_eq_true_2. }
  set (h1 := <[p := set_done v t]> h).
  assert (finish p v h = (Val (Some me), h1)) as Hf.
  { unfold finish. rewrite (bind_Val _ _ _ _ _ (update_eq _ _ _ _ Ht)).
    unfold deref. by rewrite lookup_insert_eq, <- Ha. }
  assert (completes p h h1 (Some me)) as Hc by by eapply completes_intro.
  destruct (heap_inv_completes me _ _ _ _ _ _ _ Hi Hc) as (_ & _ & Hi1 & Hd).
  destruct (await_resume_spec aw h1) as (ret & h2 & Hr & _ & _).
  { intros q Hq. by eapply heap_inv_aw_some. }
  { by eapply existsb_true_in. }
  eexists h1, h2, _. split; [done|]. by eapply ls_resume.
Qed.

Lemma running_steps h todo aw :
  limit_inv me parallelism (mkLimit h todo aw Running) ->
  exists s', limit_step me parallelism (mkLimit h todo aw Running) s'.
Proof.
  intros (Hi & Hlen & _). simpl in *.
  destruct (decide (todo = [] /\ aw = [])) as [[-> ->]|Hne]; [by eexists; apply ls_return|].
  assert (Decision (must_wait parallelism (mkLimit h todo aw Running))) as Hdec
    by (unfold must_wait; simpl; apply _).
  destruct (decide (must_wait parallelism (mkLimit h todo aw Running))) as [Hw|Hw].
  - assert (AnyAwaiter_await_ready aw h = (Val (existsb (is_done h) aw), h)) as He.
    { apply await_ready_spec. intros q Hq. by eapply heap_inv_aw_started. }
    destruct (existsb (is_done h) aw) eqn:Ed.
    + destruct (await_resume_spec aw h) as (ret & h2 & Hr & _); [|done|].
      { intros q Hq. by eapply heap_inv_aw_some. }
      eexists. by eapply ls_no_wait.
    + destruct (await_suspend_spec aw me h) as (h2 & Hr & _).
      { intros q Hq. by eapply heap_inv_aw_some. }
      eexists. by eapply ls_wait.
  - destruct todo as [|p todo]; [by destruct Hw; right|].
    destruct (heap_inv_start me _ _ _ _ Hi) as (t & Hst & _ & _).
    eexists. eapply ls_start; [done|exact Hst|apply rtc_refl].
Qed.

(** C2: [all_limit] always gets to its end: it takes at most [4 n + 1] steps for
    [n] tasks; while it runs it can take one; and with a parallelism of at least
    one it suspends only on tasks that are running, any of which resumes it when
    it ends, so no wake-up is lost. *)
Theorem all_limit_progress h tasks s :
  limit_reach me parallelism h tasks s ->
  (forall n s', nsteps (limit_step me parallelism) n (limit_new h tasks) s' ->
     (n <= 4 * length tasks + 1)%nat) /\
  (ls_pc s = Running -> exists s', limit_step me parallelism s s') /\
  (ls_pc s = Suspended -> (1 <= parallelism)%nat ->
     ls_aw s <> [] /\
     forall p v, p ∈ ls_aw s -> exists h1 s',
       finish p v (ls_heap s) = (Val (Some me), h1) /\
       ls_pc s' = Running /\ limit_step me parallelism s s').
Proof.
  intros Hr. pose proof (limit_reach_inv _ _ _ _ _ Hr) as Hinv. split_and!.
  - intros n s' Hn. destruct Hr as [Hf _]. pose proof (limit_inv_new me parallelism _ _ Hf) as H0.
    assert (n + limit_measure s' <= limit_measure (limit_new h tasks))%nat as Hle.
    { revert H0 Hn. generalize (limit_new h tasks). intros s0 H0 Hn.
      induction Hn as [s0|n s0 s1 s2 Hs _ IH]; [lia|].
      pose proof (limit_step_measure _ _ _ _ H0 Hs). apply limit_step_inv in Hs; [|done].
      specialize (IH Hs). lia. }
    unfold limit_measure in Hle. simpl in Hle. lia.
  - intros Hpc. destruct s as [h' todo aw pc]. simpl in Hpc. subst pc. by apply running_steps.
  - intros Hpc Hk. destruct s as [h' todo aw pc]. simpl in *. subst pc. split.
    + destruct Hinv as (_ & _ & Hw & Hne & _). simpl in *. intros ->.
      destruct Hw as [Hw|Hw]; simpl in *; [lia|]. by apply Hne.
    + intros p v Hp. destruct (suspended_resumes _ _ _ _ v Hinv Hp) as (h1 & h2 & aw'' & Hf & Hs).
      exists h1, (mkLimit h2 todo aw'' Running). split; [exact Hf|]. split; [reflexivity|exact Hs].
Qed.

(** With a parallelism of zero [all_limit] of any tasks suspends at once,
    having started none of them, and nothing can ever resume it. *)
Theorem all_limit_zero_hangs h tasks :
  fresh_range h tasks -> tasks <> [] ->
  limit_step me 0 (limit_new h tasks) (mkLimit h tasks [] Suspended) /\
  (forall s', ~ limit_step me 0 (mkLimit h tasks [] Suspended) s').
Proof.
  intros (Hnd & Hdom & Hf) Hne. split.
  - apply ls_wait with (aw' := []) (h1 := h); try done; [by intros [? _]|by left].
  - assert (forall p h' r, ~ completes p h h' r) as Hno.
    { intros p h' r Hc. apply completes_spec in Hc as (t & v & Ht & Hs & _).
      destruct (Hf p t Ht). congruence. }
    intros s' Hs. inversion Hs; subst; by eapply Hno.
Qed.
End LimitProperties.

(** ** Witnesses: three tasks, two at a time *)

Definition three_tasks : heap Z :=
  <[1%nat := task_new 0]> (<[2%nat := task_new 0]> {[3%nat := task_new 0]}).

Lemma three_tasks_fresh : fresh_range three_tasks [1; 2; 3]%nat.
Proof.
  split; [|split].
  - apply NoDup_ListNoDup. repeat constructor; simpl; lia.
  - intros p. unfold three_tasks. rewrite !elem_of_cons.
    destruct (decide (p = 1)%nat) as [->|]; [rewrite lookup_insert_eq; split; [by eexists|auto]|].
    destruct (decide (p = 2)%nat) as [->|];
      [rewrite lookup_insert_ne, lookup_insert_eq by done; split; [by eexists|auto]|].
    destruct (decide (p = 3)%nat) as [->|];
      [rewrite !lookup_insert_ne, lookup_singleton_eq by done; split; [by eexists|auto]|].
    rewrite !lookup_insert_ne, lookup_singleton_ne by done.
    split; [intros [?|[?|[?|[]%elem_of_nil]]]; done|by intros [? ?]].
  - intros p t. unfold three_tasks. rewrite !lookup_insert, lookup_singleton.
    repeat destruct (decide _); intros [= <-]; done.
Qed.

Lemma three_tasks_reach : limit_reach 0 2 three_tasks [1; 2; 3]%nat (limit_new three_tasks [1; 2; 3]%nat).
Proof. split; [apply three_tasks_fresh|done]. Qed.

Lemma all_limit_safe_witness :
  let s := limit_new three_tasks [1; 2; 3]%nat in
  limit_reach 0 2 three_tasks [1; 2; 3]%nat s /\
  (forall e, ls_pc s <> Failed e) /\ ls_pc s <> Broken.
Proof.
  split; [apply three_tasks_reach|].
  split; apply (all_limit_safe 0 2 three_tasks _ _ three_tasks_reach).
Defined.

Lemma all_limit_progress_witness :
  exists s', limit_step 0 2 (limit_new three_tasks [1; 2; 3]%nat) s'.
Proof. apply (all_limit_progress 0 2 three_tasks _ _ three_tasks_reach). reflexivity. Defined.

Lemma all_limit_zero_hangs_witness :
  fresh_range three_tasks [1; 2; 3]%nat /\
  (forall s', ~ limit_step 0 0 (mkLimit three_tasks [1; 2; 3]%nat [] Suspended) s').
Proof.
  split; [apply three_tasks_fresh|].
  apply (all_limit_zero_hangs 0 three_tasks [1; 2; 3]%nat three_tasks_fresh). discriminate.
Defined.
