(* ===== verification/Join.v ===== *)
(** * Waiting for tasks: all, multi, any, and detached tasks
    (src/src/Task.hh, Task.cc)

    [all] and [multi] start every task and then await them one by one: [all] in
    the order of its range, within one coroutine; [multi] in the reverse order, as
    each of its levels awaits the next level before its own task. [any] starts
    every task and awaits an [AnyAwaiter] of them. As in Task.v the coroutines are
    step relations over the heap of tasks, in which other coroutines may end
    between two steps. *)
From stdpp Require Import tactics base list numbers strings gmap relations.
From S2P Require Import Prelude Task.

Abbreviation ptr := nat.
Abbreviation coro := nat.

(** ** all and multi

    What is to be started and what is to be awaited: tasks with the coroutine that
    awaits each. The awaited task is the first one of [js_waits]. *)

Section Join.
Context {Res : Type}.

Record join_state := mkJoin {
  js_heap : heap Res; js_todo : list (ptr * coro); js_waits : list (ptr * coro); js_pc : pc
}.

Definition join_new (h : heap Res) (tasks : list (ptr * coro)) : join_state :=
  mkJoin h tasks [] Running.

Section Step.
(** [push] files a task just started; [mine] are the coroutines of the join. *)
Context (push : ptr * coro -> list (ptr * coro) -> list (ptr * coro)) (mine : list coro).

(** Another task ends, and resumes no coroutine of the join. *)
Definition aside (h h' : heap Res) : Prop :=
  exists p r, completes p h h' r /\ forall c, r = Some c -> c ∉ mine.

Inductive join_step : join_state -> join_state -> Prop :=
| jn_start h p c todo waits h1 h2 runs :
    start p h = (Val runs, h1) -> (if (runs : bool) then rtc aside h1 h2 else h2 = h1) ->
    join_step (mkJoin h ((p, c) :: todo) waits Running)
      (mkJoin h2 todo (push (p, c) waits) Running)
| jn_start_reentered h p c todo waits h1 h2 h3 q c' :
    start p h = (Val true, h1) -> rtc aside h1 h2 -> completes q h2 h3 (Some c') -> c' ∈ mine ->
    join_step (mkJoin h ((p, c) :: todo) waits Running) (mkJoin h3 todo waits Broken)
| jn_ready h p c waits h1 :
    AwaiterBase_await_ready p h = (Val true, h1) ->
    join_step (mkJoin h [] ((p, c) :: waits) Running) (mkJoin h1 [] waits Running)
| jn_wait h p c waits h1 h2 next :
    AwaiterBase_await_ready p h = (Val false, h1) ->
    AwaiterBase_await_suspend p c h1 = (Val next, h2) ->
    join_step (mkJoin h [] ((p, c) :: waits) Running) (mkJoin h2 [] ((p, c) :: waits) Suspended)
| jn_other_ends h todo waits h1 :
    aside h h1 -> join_step (mkJoin h todo waits Suspended) (mkJoin h1 todo waits Suspended)
| jn_resume h p c waits h1 q :
    completes q h h1 (Some c) ->
    join_step (mkJoin h [] ((p, c) :: waits) Suspended) (mkJoin h1 [] waits Running)
| jn_misresume h todo waits h1 q c :
    completes q h h1 (Some c) -> c ∈ mine -> option_map snd (head waits) <> Some c ->
    join_step (mkJoin h todo waits Suspended) (mkJoin h1 todo waits Broken)
| jn_return h : join_step (mkJoin h [] [] Running) (mkJoin h [] [] Finished).
End Step.

Definition all_new (me : coro) (h : heap Res) (tasks : list ptr) : join_state :=
  join_new h (map (fun p => (p, me)) tasks).
Definition all_step (me : coro) : join_state -> join_state -> Prop :=
  join_step (fun t waits => waits ++ [t]) [me].

(** Each level of [multi] is a coroutine of its own. *)
Definition multi_new (h : heap Res) (tasks : list (ptr * coro)) : join_state := join_new h tasks.
Definition multi_step (levels : list coro) : join_state -> join_state -> Prop :=
  join_step cons levels.

(** ** any *)

Inductive any_pc : Type := AnyRunning | AnySuspended | Returned (p : ptr) | AnyFailed (e : exn) | AnyBroken.

Record any_state := mkAny {
  as_heap : heap Res; as_todo : list ptr; as_aw : list ptr; as_pc : any_pc
}.

Definition any_new (h : heap Res) (tasks : list ptr) : any_state := mkAny h tasks [] AnyRunning.

(** [co_return co_await aw], from the outcome of [await_resume]. *)
Definition any_result (o : out (ptr * list ptr)) : any_pc :=
  match o with Val (p, _) => Returned p | Exn e => AnyFailed e | _ => AnyBroken end.

Inductive any_step (me : coro) : any_state -> any_state -> Prop :=
| an_start h p todo aw h1 h2 runs :
    start p h = (Val runs, h1) -> (if (runs : bool) then rtc (quiet me) h1 h2 else h2 = h1) ->
    any_step me (mkAny h (p :: todo) aw AnyRunning) (mkAny h2 todo (add_task p aw) AnyRunning)
| an_start_reentered h p todo aw h1 h2 h3 q :
    start p h = (Val true, h1) -> rtc (quiet me) h1 h2 -> completes q h2 h3 (Some me) ->
    any_step me (mkAny h (p :: todo) aw AnyRunning) (mkAny h3 todo aw AnyBroken)
| an_no_wait h aw aw' h1 h2 o :
    aw' ≡ₚ aw -> AnyAwaiter_await_ready aw' h = (Val true, h1) ->
    AnyAwaiter_await_resume aw' h1 = (o, h2) ->
    any_step me (mkAny h [] aw AnyRunning) (mkAny h2 [] aw (any_result o))
| an_wait h aw aw' h1 h2 :
    aw' ≡ₚ aw -> AnyAwaiter_await_ready aw' h = (Val false, h1) ->
    AnyAwaiter_await_suspend aw' me h1 = (Val tt, h2) ->
    any_step me (mkAny h [] aw AnyRunning) (mkAny h2 [] aw AnySuspended)
| an_ready_throws h aw aw' h1 e :
    aw' ≡ₚ aw -> AnyAwaiter_await_ready aw' h = (Exn e, h1) ->
    any_step me (mkAny h [] aw AnyRunning) (mkAny h1 [] aw (AnyFailed e))
| an_other_ends h aw h1 p r :
    completes p h h1 r -> r <> Some me ->
    any_step me (mkAny h [] aw AnySuspended) (mkAny h1 [] aw AnySuspended)
| an_resume h aw aw' h1 h2 p o :
    completes p h h1 (Some me) -> aw' ≡ₚ aw -> AnyAwaiter_await_resume aw' h1 = (o, h2) ->
    any_step me (mkAny h [] aw AnySuspended) (mkAny h2 [] aw (any_result o)).
End Join.
Arguments join_state : clear implicits.
Arguments any_state : clear implicits.

(** ** Detached tasks

    The frame of a detached task belongs to its [DetachedTaskCoroutine], which the
    promise, the final awaiter and the [DetachedTask] share. *)

Inductive frame_state : Type := FrameRunning | FrameSuspended | FrameDestroyed.

Record detached := mkDetached { dt_destroyed : bool; dt_frame : frame_state }.

(** [initial_suspend] is [suspend_never]: the coroutine runs at once. *)
Definition detached_new : detached := mkDetached false FrameRunning.

(** [coro.destroy()]: defined on a suspended coroutine only. *)
Definition frame_destroy : ST detached unit := fun d =>
  match dt_frame d with
  | FrameSuspended => (Val tt, mkDetached (dt_destroyed d) FrameDestroyed)
  | _ => (Undef, d)
  end.

(** [DetachedTaskCoroutine::cancel]. *)
Definition detached_cancel : ST detached bool :=
  let! destroyed := gets dt_destroyed in
  modify (fun d => mkDetached true (dt_frame d)) ;;;
  let should_destroy := negb destroyed in
  (if should_destroy then frame_destroy else ret tt) ;;;
  ret should_destroy.

(** The coroutine suspends in an awaiter, is resumed by whatever it awaits, or
    returns: then it is suspended in the final awaiter, which cancels. *)
Definition detached_suspend : ST detached unit := fun d =>
  match dt_frame d with
  | FrameRunning => (Val tt, mkDetached (dt_destroyed d) FrameSuspended)
  | _ => (Undef, d)
  end.
Definition detached_resume : ST detached unit := fun d =>
  match dt_frame d with
  | FrameSuspended => (Val tt, mkDetached (dt_destroyed d) FrameRunning)
  | _ => (Undef, d)
  end.
Definition detached_return : ST detached bool := detached_suspend ;;; detached_cancel.

Inductive detached_op : Type := DSuspend | DResume | DReturn | DCancel.

(** How many times a call destroyed the frame. *)
Definition detached_step (op : detached_op) : ST detached nat :=
  match op with
  | DSuspend => detached_suspend ;;; ret 0%nat
  | DResume => detached_resume ;;; ret 0%nat
  | DReturn => let! b := detached_return in ret (if (b : bool) then 1 else 0)%nat
  | DCancel => let! b := detached_cancel in ret (if (b : bool) then 1 else 0)%nat
  end.
Fixpoint detached_run (ops : list detached_op) : ST detached nat :=
  match ops with
  | [] => ret 0%nat
  | op :: ops => let! n := detached_step op in let! m := detached_run ops in ret (n + m)%nat
  end.

(** ** How the heap evolves: tasks only start and end *)

Section Evolution.
Context {Res : Type}.
Implicit Types (h : heap Res) (t : task Res).

Definition evolves h h' : Prop :=
  forall p, match h !! p, h' !! p with
  | Some t, Some t' =>
      (t_started t = true -> t_started t' = true) /\ (t_done t = true -> t_done t' = true)
  | None, None => True
  | _, _ => False
  end.

#[export] Instance evolves_preorder : PreOrder evolves.
Proof.
  split.
  - intros h p. by destruct (h !! p).
  - intros h1 h2 h3 H12 H23 p. specialize (H12 p). specialize (H23 p).
    destruct (h1 !! p), (h2 !! p), (h3 !! p); try done.
    destruct H12, H23. split; auto.
Qed.

Lemma evolves_some h h' p : evolves h h' -> is_Some (h !! p) -> is_Some (h' !! p).
Proof. intros He [t Ht]. specialize (He p). rewrite Ht in He. destruct (h' !! p); [by eexists|done]. Qed.

Lemma evolves_started h h' p t' :
  evolves h h' -> (forall t, h !! p = Some t -> t_started t = true) -> h' !! p = Some t' ->
  t_started t' = true.
Proof.
  intros He Hs Ht. specialize (He p). rewrite Ht in He. destruct (h !! p) eqn:E; [|done].
  apply He. by apply Hs.
Qed.

Lemma evolves_done h h' p : evolves h h' -> is_done h p = true -> is_done h' p = true.
Proof.
  intros He. specialize (He p). unfold is_done. destruct (h !! p); [|done].
  destruct (h' !! p); [|done]. by apply He.
Qed.

Lemma evolves_update h p t f :
  h !! p = Some t -> (t_started t = true -> t_started (f t) = true) ->
  (t_done t = true -> t_done (f t) = true) -> evolves h (<[p := f t]> h).
Proof.
  intros Ht Hs Hd q. rewrite lookup_insert. destruct (decide (p = q)) as [<-|].
  - by rewrite Ht.
  - by destruct (h !! q).
Qed.

Lemma completes_evolves p h h' r : completes p h h' r -> evolves h h'.
Proof.
  intros (t & v & Ht & Hs & _ & _ & ->)%completes_spec. by apply (evolves_update _ _ _ (set_done v)).
Qed.

(** [start] succeeds on any task, and changes nothing but its flag. *)
Lemma start_spec p h :
  is_Some (h !! p) -> exists runs h', start p h = (Val runs, h') /\ evolves h h' /\
    (forall q, h' !! q = if decide (q = p) then set_started <$> h !! q else h !! q).
Proof.
  intros [t Ht]. unfold start. erewrite bind_Val by by apply deref_eq.
  destruct (t_started t) eqn:Hs.
  - exists false, h. split; [done|]. split; [done|]. intros q.
    destruct (decide (q = p)) as [->|]; [|done]. rewrite Ht. by destruct t; simpl in Hs; subst.
  - rewrite (bind_Val _ _ _ _ _ (update_eq _ _ _ _ Ht)). eexists true, _. split; [done|].
    split; [by apply evolves_update|]. intros q. rewrite lookup_insert.
    destruct (decide (p = q)) as [<-|]; [rewrite decide_True, Ht by done|rewrite decide_False by congruence]; done.
Qed.
End Evolution.

(** ** The invariant of all and multi *)

Section JoinInvariant.
Context {Res : Type} (push : ptr * coro -> list (ptr * coro) -> list (ptr * coro)) (mine : list coro).
Context (push_elem : forall x l y, y ∈ push x l <-> y = x \/ y ∈ l).
Context (push_length : forall x l, length (push x l) = S (length l)).
Implicit Types (h : heap Res) (t : task Res) (s : join_state Res).

Definition unlinked t : Prop := forall c, t_awaiting t = Some c -> c ∉ mine.

(** Only the awaited task is linked to the join, and only while it is suspended. *)
Definition links (awaited : option (ptr * coro)) h : Prop :=
  forall p t, h !! p = Some t -> t_done t = false ->
  match awaited with
  | Some (q, c) => if decide (p = q) then t_awaiting t = Some c else unlinked t
  | None => unlinked t
  end.

Definition awaited s : option (ptr * coro) :=
  match js_pc s with Suspended => head (js_waits s) | _ => None end.

Definition join_inv (tasks : list ptr) s : Prop :=
  (forall p c, (p, c) ∈ js_todo s ++ js_waits s -> is_Some (js_heap s !! p) /\ c ∈ mine) /\
  (forall p c t, (p, c) ∈ js_waits s -> js_heap s !! p = Some t -> t_started t = true) /\
  (forall p, p ∈ tasks ->
     p ∈ (js_todo s).*1 \/ p ∈ (js_waits s).*1 \/ is_done (js_heap s) p = true) /\
  links (awaited s) (js_heap s) /\
  match js_pc s with
  | Running => True
  | Suspended => exists p c waits,
      js_todo s = [] /\ js_waits s = (p, c) :: waits /\ is_done (js_heap s) p = false
  | Finished => js_todo s = [] /\ js_waits s = []
  | Failed _ | Broken => False
  end.

(** A task that ends resumes the join exactly when it is the awaited one. *)
Lemma links_completes aw h h' p r :
  links aw h -> completes p h h' r ->
  links aw h' /\
  match aw with
  | Some (q, c) => if decide (p = q) then r = Some c else forall c', r = Some c' -> c' ∉ mine
  | None => forall c', r = Some c' -> c' ∉ mine
  end.
Proof.
  intros Hl (t & v & Ht & Hs & Hd & -> & ->)%completes_spec. split; [|exact (Hl p t Ht Hd)].
  intros q u. rewrite lookup_insert. destruct (decide (p = q)) as [<-|]; [by intros [= <-]|apply Hl].
Qed.

Lemma links_aside aw h h' : links aw h -> rtc (aside mine) h h' -> links aw h' /\ evolves h h'.
Proof.
  intros Hl Hr. induction Hr as [|h0 h1 h2 (p & r & Hc & _) _ IH]; [by split|].
  destruct (links_completes _ _ _ _ _ Hl Hc) as [Hl1 _]. destruct (IH Hl1) as [Hl2 He].
  split; [done|]. etrans; [by eapply completes_evolves|done].
Qed.

Lemma links_start p h h' :
  links None h -> (forall q, h' !! q = if decide (q = p) then set_started <$> h !! q else h !! q) ->
  links None h'.
Proof.
  intros Hl Hh q u. rewrite Hh. destruct (decide (q = p)) as [->|]; [|apply Hl].
  destruct (h !! p) as [t|] eqn:Ht; [|done]. simpl. intros [= <-] Hd. exact (Hl p t Ht Hd).
Qed.

Lemma await_suspend_links p c h :
  links None h -> is_Some (h !! p) ->
  exists next h', AwaiterBase_await_suspend p c h = (Val next, h') /\ evolves h h' /\
    links (Some (p, c)) h' /\ (forall q, is_done h' q = is_done h q).
Proof.
  intros Hl [t Ht]. unfold AwaiterBase_await_suspend, link.
  rewrite (bind_Val _ _ _ _ _ (update_eq _ _ _ _ Ht)).
  set (t1 := set_awaiting_coro (Some c) t). set (h1 := <[p := t1]> h).
  assert (h1 !! p = Some t1) as Ht1 by apply lookup_insert_eq.
  assert (forall t2, t_started t2 = t_started t1 \/ t_started t2 = true -> t_done t2 = t_done t ->
    t_awaiting t2 = Some c ->
    evolves h (<[p := t2]> h) /\ links (Some (p, c)) (<[p := t2]> h) /\
    forall q, is_done (<[p := t2]> h) q = is_done h q) as Hall.
  { intros t2 Hs2 Hd2 Ha2. split_and!.
    - apply (evolves_update _ _ _ (fun _ => t2) Ht); [|congruence].
      intros Hs. destruct Hs2 as [->|]; done.
    - intros q u. rewrite lookup_insert. destruct (decide (p = q)) as [<-|].
      + intros [= <-] _. by rewrite decide_True.
      + intros Hu Hd. rewrite decide_False by congruence. exact (Hl q u Hu Hd).
    - intros q. unfold is_done. rewrite lookup_insert. destruct (decide (p = q)) as [<-|]; [|done].
      by rewrite Ht. }
  erewrite bind_Val by by apply deref_eq. destruct (t_started t1) eqn:Hs.
  - exists None, h1. split; [done|]. apply Hall; [by left|done|done].
  - rewrite (bind_Val _ _ _ _ _ (update_eq _ _ _ _ Ht1)). unfold h1. rewrite insert_insert_eq.
    exists (Some p), (<[p := set_started t1]> h). split; [done|].
    apply Hall; [by right|done|done].
Qed.

(** What the invariant says of the range carries over to a later heap. *)
Lemma join_inv_evolves tasks h h' todo todo' waits waits' pc' :
  evolves h h' -> links (awaited (mkJoin h' todo' waits' pc')) h' ->
  (forall p c, (p, c) ∈ todo' ++ waits' -> is_Some (h !! p) /\ c ∈ mine) ->
  (forall p c t, (p, c) ∈ waits' -> h !! p = Some t -> t_started t = true) ->
  (forall p, p ∈ tasks -> p ∈ todo.*1 \/ p ∈ waits.*1 \/ is_done h p = true) ->
  (forall p c, (p, c) ∈ todo ++ waits -> (p, c) ∈ todo' ++ waits' \/ is_done h' p = true) ->
  match pc' with
  | Running => True
  | Suspended => exists p c waits,
      todo' = [] /\ waits' = (p, c) :: waits /\ is_done h' p = false
  | Finished => todo' = [] /\ waits' = []
  | Failed _ | Broken => False
  end ->
  join_inv tasks (mkJoin h' todo' waits' pc').
Proof.
  intros He Hl H1 H2 H3 Hsub Hpc. split_and!; simpl; try done.
  - intros p c Hp. destruct (H1 p c Hp) as [Hs Hc]. split; [by eapply evolves_some|done].
  - intros p c t Hp Ht. eapply evolves_started; [done| |exact Ht]. intros u. by apply (H2 p c u).
  - assert (forall p, p ∈ (todo ++ waits).*1 ->
      p ∈ todo'.*1 \/ p ∈ waits'.*1 \/ is_done h' p = true) as Hin.
    { intros p ([p' c] & -> & Hp)%list_elem_of_fmap. destruct (Hsub p' c Hp) as [Hq|]; [|by right; right].
      apply elem_of_app in Hq as [Hq|Hq]; apply (list_elem_of_fmap_2 fst) in Hq; auto. }
    intros p Hp. destruct (H3 p Hp) as [Hq|[Hq|Hq]].
    + apply Hin. rewrite fmap_app. apply elem_of_app. by left.
    + apply Hin. rewrite fmap_app. apply elem_of_app. by right.
    + right; right. by eapply evolves_done.
Qed.

Lemma join_step_inv tasks s s' :
  join_step push mine s s' -> join_inv tasks s -> join_inv tasks s'.
Proof.
  intros Hs (H1 & H2 & H3 & Hl & Hpc).
  destruct Hs as [h p c todo waits h1 h2 runs Hst Hq|h p c todo waits h1 h2 h3 q c' Hst Hq Hc Hm
    |h p c waits h1 Hr|h p c waits h1 h2 next Hr Hsu|h todo waits h1 (q & r & Hc & Hno)
    |h p c waits h1 q Hc|h todo waits h1 q c Hc Hm Hne|h]; simpl in *.
  - destruct (H1 p c) as [Hsome Hc]; [by left|].
    destruct (start_spec p h Hsome) as (runs' & h1' & Hst' & He & Hh).
    rewrite Hst in Hst'. injection Hst' as <- <-.
    pose proof (links_start _ _ _ Hl Hh) as Hl1.
    assert (links None h2 /\ evolves h1 h2) as [Hl2 He2].
    { destruct runs; [by apply (links_aside None)|by subst]. }
    apply (join_inv_evolves tasks h1 h2 ((p, c) :: todo) todo waits); try done.
    + intros q d Hq'. apply elem_of_app in Hq'. rewrite push_elem in Hq'.
      assert ((q, d) ∈ (p, c) :: todo ++ waits) as Hin.
      { rewrite elem_of_cons, elem_of_app. tauto. }
      destruct (H1 q d Hin). split; [by eapply evolves_some|done].
    + intros q d t Hq' Ht. apply push_elem in Hq' as [[= -> ->]|Hq'].
      * rewrite Hh, decide_True in Ht by done. destruct (h !! p); [|done]. by injection Ht as <-.
      * eapply evolves_started; [exact He| |exact Ht]. intros u. by apply (H2 q d u).
    + intros q Hq'. destruct (H3 q Hq') as [?|[?|?]]; [by left|by right; left|].
      right; right. by eapply evolves_done.
    + intros q d Hq'. left. rewrite elem_of_app, push_elem.
      change ((q, d) ∈ (p, c) :: todo ++ waits) in Hq'. rewrite elem_of_cons, elem_of_app in Hq'. tauto.
  - destruct (H1 p c) as [Hsome _]; [by left|].
    destruct (start_spec p h Hsome) as (runs' & h1' & Hst' & He & Hh).
    rewrite Hst in Hst'. injection Hst' as <- <-.
    pose proof (links_start _ _ _ Hl Hh) as Hl1.
    destruct (links_aside None _ _ Hl1 Hq) as [Hl2 _].
    destruct (links_completes None _ _ _ _ Hl2 Hc) as [_ Hno]. exfalso. by apply (Hno c').
  - unfold AwaiterBase_await_ready, TaskBase_done in Hr. destruct (H1 p c) as [[t Ht] _]; [by left|].
    rewrite (deref_eq _ _ _ _ Ht) in Hr. injection Hr as Hd <-.
    apply (join_inv_evolves tasks h h [] [] ((p, c) :: waits)); try done.
    + intros q d Hq. apply H1. by right.
    + intros q d t' Hq. apply (H2 q d). by right.
    + intros q d [[= -> ->]|Hq]%elem_of_cons; [|by left]. right. by rewrite (is_done_Some _ _ _ Ht).
  - unfold AwaiterBase_await_ready, TaskBase_done in Hr. destruct (H1 p c) as [[t Ht] _]; [by left|].
    rewrite (deref_eq _ _ _ _ Ht) in Hr. injection Hr as Hd <-.
    destruct (await_suspend_links p c h Hl) as (next' & h' & Hs' & He & Hl' & Hdone); [by eexists|].
    rewrite Hsu in Hs'. injection Hs' as <- <-.
    apply (join_inv_evolves tasks h h2 [] [] ((p, c) :: waits)); try done; [by intros; left|].
    exists p, c, waits. split_and!; try done. rewrite Hdone. by rewrite (is_done_Some _ _ _ Ht).
  - destruct Hpc as (p & c & w & -> & -> & Hd). simpl in Hl.
    destruct (links_completes (Some (p, c)) _ _ _ _ Hl Hc) as [Hl1 Hr].
    assert (q <> p) as Hne.
    { intros ->. rewrite decide_True in Hr by done. apply (Hno c Hr). apply (H1 p c). by left. }
    apply (join_inv_evolves tasks h h1 [] [] ((p, c) :: w)); try done;
      [by eapply completes_evolves|by intros; left|].
    exists p, c, w. split_and!; try done. rewrite (is_done_completes _ _ _ _ _ Hc), Hd.
    by rewrite bool_decide_eq_false_2.
  - destruct Hpc as (p' & c' & w & _ & [= <- <- <-] & Hd).
    destruct (links_completes (Some (p, c)) _ _ _ _ Hl Hc) as [Hl1 Hr].
    assert (q = p) as ->.
    { destruct (decide (q = p)); [done|]. exfalso. apply (Hr c); [done|]. apply (H1 p c). by left. }
    assert (is_done h1 p = true) as Hd1.
    { rewrite (is_done_completes _ _ _ _ _ Hc). by rewrite bool_decide_eq_true_2, orb_true_r. }
    apply (join_inv_evolves tasks h h1 [] [] ((p, c) :: waits)); try done.
    + by eapply completes_evolves.
    + intros q u Hu Hdu. pose proof (Hl1 q u Hu Hdu) as Hq. simpl in Hq.
      destruct (decide (q = p)) as [->|]; [|done].
      rewrite (is_done_Some _ _ _ Hu) in Hd1. congruence.
    + intros q d Hq. apply H1. by right.
    + intros q d t' Hq. apply (H2 q d). by right.
    + intros q d [[= -> ->]|Hq]%elem_of_cons; [by right|by left].
  - destruct Hpc as (p & c' & w & -> & -> & Hd). simpl in *.
    destruct (links_completes (Some (p, c')) _ _ _ _ Hl Hc) as [_ Hr].
    destruct (decide (q = p)) as [->|]; [congruence|exfalso; by apply (Hr c)].
  - split_and!; try done.
Qed.
End JoinInvariant.

(** ** all and multi get to their end *)

Section JoinProgress.
Context {Res : Type} (push : ptr * coro -> list (ptr * coro) -> list (ptr * coro)) (mine : list coro).
Context (push_elem : forall x l y, y ∈ push x l <-> y = x \/ y ∈ l).
Context (push_length : forall x l, length (push x l) = S (length l)).
Implicit Types (h : heap Res) (t : task Res) (s : join_state Res).

(** Over a list [ps] of all tasks of the heap. *)
Definition join_measure (ps : list ptr) s : nat :=
  3 * length (js_todo s) + 2 * length (js_waits s) + length (undone (js_heap s) ps) +
  match js_pc s with Running => 1 | _ => 0 end.

Lemma evolves_undone h h' ps : evolves h h' -> (length (undone h' ps) <= length (undone h ps))%nat.
Proof.
  intros He. apply length_filter_le. intros p _. rewrite !negb_true_iff. intros Hd.
  destruct (is_done h p) eqn:E; [|done]. by rewrite (evolves_done _ _ _ He E) in Hd.
Qed.

Lemma completes_undone h h' p r ps :
  (forall q, is_Some (h !! q) -> q ∈ ps) -> completes p h h' r ->
  (length (undone h' ps) < length (undone h ps))%nat.
Proof.
  intros Hps Hc. pose proof (is_done_completes h h' p) as Hd.
  destruct (completes_spec _ _ _ _ Hc) as (t & v & Ht & _ & Htd & _).
  apply (length_filter_lt2 _ _ _ p).
  - intros q. rewrite (Hd q r Hc). by destruct (is_done h q).
  - apply Hps. by eexists.
  - rewrite (Hd p r Hc). by rewrite bool_decide_eq_true_2, orb_true_r.
  - by rewrite (is_done_Some _ _ _ Ht), Htd.
Qed.

Lemma asides_evolve h h' : rtc (aside mine) h h' -> evolves h h'.
Proof.
  induction 1 as [|h0 h1 h2 (p & r & Hc & _) _ IH]; [done|].
  etrans; [by eapply completes_evolves|done].
Qed.

Lemma join_step_measure tasks ps s s' :
  (forall q, is_Some (js_heap s !! q) -> q ∈ ps) -> join_inv mine tasks s ->
  join_step push mine s s' ->
  (join_measure ps s' < join_measure ps s)%nat /\ evolves (js_heap s) (js_heap s').
Proof.
  intros Hps Hi Hs. pose proof (join_step_inv push mine push_elem _ _ _ Hs Hi) as Hi'.
  destruct Hi as (H1 & _ & _ & Hl & Hpc). unfold join_measure.
  destruct Hs as [h p c todo waits h1 h2 runs Hst Hq|h p c todo waits h1 h2 h3 q c' Hst Hq Hc Hm
    |h p c waits h1 Hr|h p c waits h1 h2 next Hr Hsu|h todo waits h1 (q & r & Hc & Hno)
    |h p c waits h1 q Hc|h todo waits h1 q c Hc Hm Hne|h]; simpl in *;
    try (by destruct Hi' as (_ & _ & _ & _ & [])).
  - destruct (H1 p c) as [Hsome _]; [by left|].
    destruct (start_spec p h Hsome) as (runs' & h1' & Hst' & He & _).
    rewrite Hst in Hst'. injection Hst' as <- <-.
    assert (evolves h h2) as He2.
    { etrans; [exact He|]. destruct runs; [by apply asides_evolve|by subst]. }
    split; [|done]. rewrite push_length. pose proof (evolves_undone _ _ ps He2). lia.
  - unfold AwaiterBase_await_ready, TaskBase_done in Hr. destruct (H1 p c) as [[t Ht] _]; [by left|].
    rewrite (deref_eq _ _ _ _ Ht) in Hr. injection Hr as _ <-. split; [lia|done].
  - unfold AwaiterBase_await_ready, TaskBase_done in Hr. destruct (H1 p c) as [[t Ht] _]; [by left|].
    rewrite (deref_eq _ _ _ _ Ht) in Hr. injection Hr as _ <-.
    destruct (await_suspend_links mine p c h Hl) as (next' & h' & Hs' & He & _); [by eexists|].
    rewrite Hsu in Hs'. injection Hs' as <- <-. pose proof (evolves_undone _ _ ps He). split; [lia|done].
  - pose proof (completes_undone _ _ _ _ ps Hps Hc). split; [lia|by eapply completes_evolves].
  - pose proof (completes_undone _ _ _ _ ps Hps Hc). split; [lia|by eapply completes_evolves].
  - split; [lia|done].
Qed.

(** The heap at the start: the coroutines of the join are new, so no task is
    linked to them. The tasks may have been started, or be done, before. *)
Definition join_start h (tasks : list (ptr * coro)) : Prop :=
  (forall p c, (p, c) ∈ tasks -> is_Some (h !! p) /\ c ∈ mine) /\
  (forall p t c, h !! p = Some t -> t_awaiting t = Some c -> c ∉ mine).

Lemma join_inv_new h tasks :
  join_start h tasks -> join_inv mine tasks.*1 (join_new h tasks).
Proof.
  intros [H1 H2]. split_and!; simpl; try done.
  - intros p c. rewrite app_nil_r. apply H1.
  - by intros p c t []%elem_of_nil.
  - by left.
  - intros p t Ht _ c. by apply (H2 p t).
Qed.

(** What both promise: they never fail and are never resumed while they run; they
    always get on; they wait only for a task that is running and that resumes them
    when it ends; and when they return every task is done. *)
Definition join_correct (tasks : list (ptr * coro)) (ps : list ptr)
    (step : join_state Res -> join_state Res -> Prop) (s0 : join_state Res) : Prop :=
  (forall n s, nsteps step n s0 s -> (n <= 3 * length tasks + length ps + 1)%nat) /\
  forall s, rtc step s0 s ->
    match js_pc s with
    | Running => exists s', step s s'
    | Suspended => exists p c waits, js_waits s = (p, c) :: waits /\
        is_done (js_heap s) p = false /\
        forall v, exists h' s', finish p v (js_heap s) = (Val (Some c), h') /\ step s s' /\
          s' = mkJoin h' (js_todo s) waits Running
    | Finished => forall p, p ∈ tasks.*1 -> is_done (js_heap s) p = true
    | Failed _ | Broken => False
    end.

Lemma join_running_steps tasks h todo waits :
  join_inv mine tasks (mkJoin h todo waits Running) ->
  exists s', join_step push mine (mkJoin h todo waits Running) s'.
Proof.
  intros (H1 & _ & _ & Hl & _). simpl in *. destruct todo as [|[p c] todo].
  - destruct waits as [|[p c] waits]; [by eexists; apply jn_return|].
    destruct (H1 p c) as [[t Ht] _]; [by left|].
    assert (AwaiterBase_await_ready p h = (Val (t_done t), h)) as Hr by (by apply deref_eq).
    destruct (t_done t); [eexists; by apply jn_ready|].
    destruct (await_suspend_links mine p c h Hl) as (next & h' & Hs & _); [by eexists|].
    eexists. by eapply jn_wait.
  - destruct (H1 p c) as [Hsome _]; [by left|].
    destruct (start_spec p h Hsome) as (runs & h' & Hst & _). eexists.
    eapply jn_start; [exact Hst|]. destruct runs; [apply rtc_refl|done].
Qed.

Lemma join_suspended_resumes tasks h p c waits v :
  join_inv mine tasks (mkJoin h [] ((p, c) :: waits) Suspended) ->
  is_done h p = false ->
  exists h', finish p v h = (Val (Some c), h') /\
    join_step push mine (mkJoin h [] ((p, c) :: waits) Suspended) (mkJoin h' [] waits Running).
Proof.
  intros (H1 & H2 & _ & Hl & _) Hd. simpl in *. destruct (H1 p c) as [[t Ht] _]; [by left|].
  rewrite (is_done_Some _ _ _ Ht) in Hd. pose proof (Hl p t Ht Hd) as Ha. simpl in Ha.
  rewrite decide_True in Ha by done.
  assert (finish p v h = (Val (Some c), <[p := set_done v t]> h)) as Hf.
  { unfold finish. rewrite (bind_Val _ _ _ _ _ (update_eq _ _ _ _ Ht)).
    unfold deref. by rewrite lookup_insert_eq, <- Ha. }
  eexists. split; [exact Hf|]. apply (jn_resume _ _ _ _ _ _ _ p).
  eapply completes_intro; [exact Ht| |exact Hd|exact Hf]. apply (H2 p c t); [by left|done].
Qed.

Lemma join_is_correct h tasks ps :
  join_start h tasks -> (forall q, is_Some (h !! q) -> q ∈ ps) ->
  join_correct tasks ps (join_step push mine) (join_new h tasks).
Proof.
  intros Hst Hps. pose proof (join_inv_new _ _ Hst) as H0. split.
  - intros n s Hn.
    assert (n + join_measure ps s <= join_measure ps (join_new h tasks))%nat as Hle.
    { change h with (js_heap (join_new h tasks)) in Hps. revert Hps H0 Hn. generalize (join_new h tasks).
      intros s0 Hps H0 Hn. induction Hn as [s0|n s0 s1 s2 Hs _ IH]; [lia|].
      destruct (join_step_measure _ ps _ _ Hps H0 Hs) as [Hm He].
      apply (join_step_inv push mine push_elem) with (tasks := tasks.*1) in Hs; [|done].
      assert (forall q, is_Some (js_heap s1 !! q) -> q ∈ ps) as Hps1.
      { intros q [t Ht]. apply Hps. specialize (He q). rewrite Ht in He.
        destruct (js_heap s0 !! q); [by eexists|done]. }
      specialize (IH Hps1 Hs). lia. }
    unfold join_measure in Hle. simpl in Hle.
    pose proof (List.filter_length_le (fun p => negb (is_done h p)) ps). unfold undone in Hle. lia.
  - intros s Hr. assert (join_inv mine tasks.*1 s) as Hi.
    { clear Hst Hps. induction Hr as [|s0 s1 s2 Hs _ IH]; [done|].
      apply IH. by eapply (join_step_inv push mine push_elem). }
    destruct s as [h' todo waits pc]. destruct pc; simpl.
    + by eapply join_running_steps.
    + destruct Hi as (Hi1 & Hi2 & Hi3 & Hi4 & p & c & w & ? & ? & Hd). simpl in *. subst.
      exists p, c, w. split; [done|]. split; [done|]. intros v.
      destruct (join_suspended_resumes tasks.*1 h' p c w v) as (h1 & Hf & Hs); [|done|].
      { split_and!; try done. by exists p, c, w. }
      exists h1, (mkJoin h1 [] w Running). by split_and!.
    + destruct Hi as (_ & _ & Hi & _ & Ht & Hw). simpl in *. subst. intros p Hp.
      destruct (Hi p Hp) as [[]%elem_of_nil|[[]%elem_of_nil|?]]; done.
    + by destruct Hi as (_ & _ & _ & _ & []).
    + by destruct Hi as (_ & _ & _ & _ & []).
Qed.
End JoinProgress.

(** ** Properties of all and multi *)

Section JoinProperties.
Context {Res : Type}.
Implicit Types (h : heap Res).

(** C3: [all] returns, within a bounded number of steps, when every task of its
    range is done: in any state it can reach it either can go on or waits for a
    task that has not ended and that resumes it when it ends; it never throws and
    is never resumed while it runs. The tasks may be started before, occur twice,
    and end in any order, also while another one is being started. *)
Theorem all_waits_for_all me h tasks ps :
  (forall p, p ∈ tasks -> is_Some (h !! p)) ->
  (forall p t, h !! p = Some t -> t_awaiting t <> Some me) ->
  (forall q, is_Some (h !! q) -> q ∈ ps) ->
  join_correct (map (fun p => (p, me)) tasks) ps (all_step me) (all_new me h tasks).
Proof.
  intros Ht Hme Hps. apply join_is_correct; [| | |done].
  - intros x l y. rewrite elem_of_app, list_elem_of_singleton. tauto.
  - intros x l. rewrite length_app. simpl. lia.
  - split.
    + intros p c (q & [= -> ->] & Hq)%list_elem_of_fmap. split; [by apply Ht|by left].
    + intros p t c Hp Hc [->|[]%elem_of_nil]%elem_of_cons. by apply (Hme p t).
Qed.

(** [multi] of any tasks, each awaited by a level of its own, keeps the same
    promise as [all]. *)
Theorem multi_waits_for_all levels h tasks ps :
  (forall p c, (p, c) ∈ tasks -> is_Some (h !! p) /\ c ∈ levels) ->
  (forall p t c, h !! p = Some t -> t_awaiting t = Some c -> c ∉ levels) ->
  (forall q, is_Some (h !! q) -> q ∈ ps) ->
  join_correct tasks ps (multi_step levels) (multi_new h tasks).
Proof.
  intros Ht Hl Hps. apply join_is_correct; [|done|by split|done].
  intros x l y. by rewrite elem_of_cons.
Qed.
End JoinProperties.

(** ** The invariant of any *)

Section AnyInvariant.
Context {Res : Type} (me : coro).
Implicit Types (h : heap Res) (t : task Res) (s : any_state Res).

Definition any_links (suspended : bool) (aw : list ptr) h : Prop :=
  forall p t, h !! p = Some t -> t_done t = false ->
  if suspended && bool_decide (p ∈ aw) then t_awaiting t = Some me else t_awaiting t <> Some me.

(** Every task of the range is still to start or awaited; what is awaited has started. *)
Definition any_range (tasks todo aw : list ptr) h : Prop :=
  (forall p, p ∈ tasks <-> p ∈ todo \/ p ∈ aw) /\
  (forall p, p ∈ tasks -> is_Some (h !! p)) /\
  (forall p t, p ∈ aw -> h !! p = Some t -> t_started t = true).

Definition any_inv (tasks : list ptr) s : Prop :=
  any_range tasks (as_todo s) (as_aw s) (as_heap s) /\
  any_links (match as_pc s with AnySuspended => true | _ => false end) (as_aw s) (as_heap s) /\
  match as_pc s with
  | AnyRunning => True
  | AnySuspended => as_todo s = [] /\ forall p, p ∈ as_aw s -> is_done (as_heap s) p = false
  | Returned p => as_todo s = [] /\ p ∈ as_aw s /\ is_done (as_heap s) p = true
  | AnyFailed _ | AnyBroken => False
  end.

Lemma any_range_evolves tasks todo aw h h' :
  evolves h h' -> any_range tasks todo aw h -> any_range tasks todo aw h'.
Proof.
  intros He (Ht & Hs & Hst). split_and!; [done| |].
  - intros p Hp. eapply evolves_some; [exact He|]. by apply Hs.
  - intros p t Hp. eapply evolves_started; [exact He|]. intros u. by apply Hst.
Qed.

(** Starting the next task of the range. *)
Lemma any_range_start tasks p todo aw h :
  any_range tasks (p :: todo) aw h -> any_links false aw h ->
  exists runs h', start p h = (Val runs, h') /\ evolves h h' /\
    any_range tasks todo (add_task p aw) h' /\ any_links false (add_task p aw) h'.
Proof.
  intros (Ht & Hs & Hst) Hl.
  destruct (start_spec p h) as (runs & h' & Hrun & He & Hh); [apply Hs, Ht; left; by left|].
  exists runs, h'. split; [done|]. split; [done|].
  assert (forall q, q ∈ add_task p aw <-> q = p \/ q ∈ aw) as Hadd.
  { intros q. unfold add_task. destruct (decide (p ∈ aw)); [|by rewrite elem_of_cons].
    split; [tauto|by intros [->|]]. }
  split; [split_and!|].
  - intros q. rewrite Ht, Hadd, elem_of_cons. tauto.
  - intros q Hq. eapply evolves_some; [exact He|]. by apply Hs.
  - intros q t Hq. rewrite Hh. apply Hadd in Hq.
    destruct (decide (q = p)) as [->|]; [destruct (h !! p); [by intros [= <-]|done]|].
    destruct Hq; [done|by apply Hst].
  - intros q u. rewrite Hh. destruct (decide (q = p)) as [->|]; [|apply Hl].
    destruct (h !! p) as [t|] eqn:Hpt; [|done]. intros [= <-] Hd. exact (Hl p t Hpt Hd).
Qed.

Lemma any_range_ready tasks aw aw' h :
  any_range tasks [] aw h -> aw' ≡ₚ aw ->
  AnyAwaiter_await_ready aw' h = (Val (existsb (is_done h) aw'), h).
Proof.
  intros (Ht & Hs & Hst) Hp. apply await_ready_spec. intros q Hq. rewrite Hp in Hq.
  destruct (Hs q) as [t Hqt]; [by apply Ht; right|]. exists t. split; [done|by apply (Hst q)].
Qed.

Lemma any_links_completes sus aw h h' p r :
  any_links sus aw h -> completes p h h' r ->
  any_links sus aw h' /\ (r = Some me <-> sus = true /\ p ∈ aw).
Proof.
  intros Hl (t & v & Ht & Hs & Hd & -> & ->)%completes_spec. split.
  - intros q u. rewrite lookup_insert. destruct (decide (p = q)) as [<-|]; [by intros [= <-]|apply Hl].
  - pose proof (Hl p t Ht Hd) as Hp. destruct sus; simpl in Hp; [|by split; [|intros [? _]]].
    destruct (bool_decide_reflect (p ∈ aw)); split; try done; by intros [_ ?].
Qed.

Lemma quiet_links aw h h' :
  any_links false aw h -> rtc (quiet me) h h' -> any_links false aw h' /\ evolves h h'.
Proof.
  intros Hl Hr. induction Hr as [|h0 h1 h2 (p & r & Hc & _) _ IH]; [by split|].
  destruct (any_links_completes _ _ _ _ _ _ Hl Hc) as [Hl1 _]. destruct (IH Hl1) as [Hl2 He].
  split; [done|]. etrans; [by eapply completes_evolves|done].
Qed.

Lemma relinked_evolves (ps : ptr -> Prop) `{forall p, Decision (ps p)} c h h' :
  relinked ps c h h' -> evolves h h'.
Proof. intros Hr p. rewrite Hr. by destruct (decide _), (h !! p). Qed.

(** The outcome of [await_resume] once an awaited task is done. *)
Lemma any_resume_inv tasks sus aw aw' h o h2 :
  any_range tasks [] aw h -> any_links sus aw h ->
  aw' ≡ₚ aw -> existsb (is_done h) aw' = true -> AnyAwaiter_await_resume aw' h = (o, h2) ->
  any_inv tasks (mkAny h2 [] aw (any_result o)) /\ evolves h h2 /\
  exists p, any_result o = Returned p /\ p ∈ aw /\ is_done h p = true.
Proof.
  intros Hr Hl Hp He Ho.
  destruct (await_resume_spec aw' h) as (p & h' & Hre & Hl2 & Hin & Hd); [|done|].
  { intros p Hq. rewrite Hp in Hq. destruct Hr as (Ht & Hs & _). apply Hs, Ht. by right. }
  rewrite Ho in Hre. injection Hre as -> ->. rewrite Hp in Hin.
  pose proof (relinked_evolves _ _ _ _ Hl2) as Hev.
  split; [|split; [done|by exists p]]. split; [by eapply any_range_evolves|]. simpl. split.
  - intros q u. rewrite Hl2. destruct (h !! q) as [t|] eqn:Hq; [|by destruct (decide _)].
    pose proof (is_done_Some _ _ _ Hq) as Hdq. simpl.
    destruct (decide (q ∈ aw' /\ is_done h q = false)) as [[Hq1 Hq2]|Hn]; simpl;
      intros [= <-] Hd'; [done|].
    pose proof (Hl q t Hq Hd') as Hlq.
    rewrite bool_decide_eq_false_2 in Hlq; [by rewrite andb_false_r in Hlq|].
    intros Hq'. apply Hn. by rewrite Hp, Hdq.
  - split; [done|]. split; [done|]. by apply (evolves_done _ _ _ Hev).
Qed.

Lemma any_suspend_inv tasks aw aw' h h2 :
  any_range tasks [] aw h -> any_links false aw h -> aw' ≡ₚ aw ->
  existsb (is_done h) aw' = false -> AnyAwaiter_await_suspend aw' me h = (Val tt, h2) ->
  any_inv tasks (mkAny h2 [] aw AnySuspended) /\ evolves h h2.
Proof.
  intros Hr Hl Hp He Hsu. destruct (await_suspend_spec aw' me h) as (h' & Hr' & Hl2).
  { intros q Hq. rewrite Hp in Hq. destruct Hr as (Ht & Hs & _). apply Hs, Ht. by right. }
  rewrite Hsu in Hr'. injection Hr' as <-. pose proof (relinked_evolves _ _ _ _ Hl2) as Hev.
  split; [|done]. split; [by eapply any_range_evolves|]. simpl. split.
  - intros q u. rewrite Hl2. simpl. destruct (decide (q ∈ aw')) as [Hq|Hq]; rewrite Hp in Hq.
    + destruct (h !! q) as [t|] eqn:Hqt; [|done]. intros [= <-] _.
      by rewrite bool_decide_eq_true_2.
    + intros Hqu Hd. rewrite bool_decide_eq_false_2 by done. exact (Hl q u Hqu Hd).
  - split; [done|]. intros q Hq. rewrite (relinked_is_done _ _ _ _ _ Hl2). rewrite <- Hp in Hq.
    by eapply existsb_false_in.
Qed.

Lemma completes_is_done h h' p r : completes p h h' r -> is_done h' p = true.
Proof.
  intros Hc. rewrite (is_done_completes _ _ _ _ _ Hc). by rewrite bool_decide_eq_true_2, orb_true_r.
Qed.

Lemma any_step_inv tasks s s' : any_step me s s' -> any_inv tasks s -> any_inv tasks s'.
Proof.
  intros Hstep (Hr & Hl & Hpc).
  destruct Hstep as [h p todo aw h1 h2 runs Hrun Hq|h p todo aw h1 h2 h3 q Hrun Hq Hc
    |h aw aw' h1 h2 o Hp Hre Ho|h aw aw' h1 h2 Hp Hre Hsu|h aw aw' h1 e Hp Hre
    |h aw h1 p r Hc Hno|h aw aw' h1 h2 p o Hc Hp Ho]; simpl in *;
    try (rewrite (any_range_ready _ _ _ _ Hr Hp) in Hre; (discriminate || injection Hre as He <-)).
  - destruct (any_range_start _ _ _ _ _ Hr Hl) as (runs' & h' & Hst & He & Hr1 & Hl1).
    rewrite Hrun in Hst. injection Hst as <- <-.
    assert (any_links false (add_task p aw) h2 /\ evolves h1 h2) as [Hl2 He2].
    { destruct runs; [by apply quiet_links|by subst]. }
    split; [by eapply any_range_evolves|done].
  - destruct (any_range_start _ _ _ _ _ Hr Hl) as (runs' & h' & Hst & He & Hr1 & Hl1).
    rewrite Hrun in Hst. injection Hst as <- <-. destruct (quiet_links _ _ _ Hl1 Hq) as [Hl2 _].
    destruct (any_links_completes _ _ _ _ _ _ Hl2 Hc) as [_ Hno].
    by destruct (proj1 Hno eq_refl) as [? _].
  - by apply (any_resume_inv tasks false aw aw' h o h2).
  - by apply (any_suspend_inv tasks aw aw' h h2).
  - destruct (any_links_completes _ _ _ _ _ _ Hl Hc) as [Hl1 Hiff].
    split; [eapply any_range_evolves; [by eapply completes_evolves|done]|]. split; [done|].
    split; [done|]. intros q Hq. simpl in *.
    rewrite (is_done_completes _ _ _ _ _ Hc), (proj2 Hpc q Hq).
    rewrite bool_decide_eq_false_2; [done|]. intros ->. by apply Hno, Hiff.
  - destruct (any_links_completes _ _ _ _ _ _ Hl Hc) as [Hl1 Hiff].
    destruct (proj1 Hiff eq_refl) as [_ Hpaw].
    apply (any_resume_inv tasks true aw aw' h1 o h2); try done.
    + eapply any_range_evolves; [by eapply completes_evolves|done].
    + apply (existsb_true_in _ _ p); [by rewrite Hp|by eapply completes_is_done].
Qed.
End AnyInvariant.

Section AnyProperties.
Context {Res : Type} (me : coro).
Implicit Types (h : heap Res) (s : any_state Res).

Definition any_measure (ps : list ptr) s : nat :=
  length (as_todo s) + length (undone (as_heap s) ps) +
  match as_pc s with AnyRunning => 2 | AnySuspended => 1 | _ => 0 end.

Lemma quiets_evolve h h' : rtc (quiet me) h h' -> evolves h h'.
Proof.
  induction 1 as [|h0 h1 h2 (p & r & Hc & _) _ IH]; [done|].
  etrans; [by eapply completes_evolves|done].
Qed.

Lemma any_step_measure tasks ps s s' :
  (forall q, is_Some (as_heap s !! q) -> q ∈ ps) -> any_inv me tasks s -> any_step me s s' ->
  (any_measure ps s' < any_measure ps s)%nat /\ evolves (as_heap s) (as_heap s').
Proof.
  intros Hps (Hr & Hl & Hpc) Hstep. unfold any_measure.
  destruct Hstep as [h p todo aw h1 h2 runs Hrun Hq|h p todo aw h1 h2 h3 q Hrun Hq Hc
    |h aw aw' h1 h2 o Hp Hre Ho|h aw aw' h1 h2 Hp Hre Hsu|h aw aw' h1 e Hp Hre
    |h aw h1 p r Hc Hno|h aw aw' h1 h2 p o Hc Hp Ho]; simpl in *;
    try (rewrite (any_range_ready _ _ _ _ Hr Hp) in Hre; (discriminate || injection Hre as He <-)).
  - destruct (any_range_start _ _ _ _ _ _ Hr Hl) as (runs' & h' & Hst & He & _).
    rewrite Hrun in Hst. injection Hst as <- <-.
    assert (evolves h h2) as He2.
    { etrans; [exact He|]. destruct runs; [by apply quiets_evolve|by subst]. }
    pose proof (evolves_undone _ _ ps He2). split; [lia|done].
  - destruct (any_range_start _ _ _ _ _ _ Hr Hl) as (runs' & h' & Hst & He & _).
    rewrite Hrun in Hst. injection Hst as <- <-.
    assert (evolves h h3) as He2.
    { etrans; [exact He|]. etrans; [by apply quiets_evolve|by eapply completes_evolves]. }
    pose proof (evolves_undone _ _ ps He2). split; [lia|done].
  - destruct (any_resume_inv me tasks false aw aw' h o h2 Hr Hl Hp He Ho) as (_ & Hev & p & -> & _).
    pose proof (evolves_undone _ _ ps Hev). split; [lia|done].
  - destruct (any_suspend_inv me tasks aw aw' h h2 Hr Hl Hp He Hsu) as (_ & Hev).
    pose proof (evolves_undone _ _ ps Hev). split; [lia|done].
  - pose proof (completes_undone _ _ _ _ ps Hps Hc). split; [lia|by eapply completes_evolves].
  - destruct (any_links_completes _ _ _ _ _ _ _ Hl Hc) as [Hl1 Hiff].
    destruct (proj1 Hiff eq_refl) as [_ Hpaw].
    destruct (any_resume_inv me tasks true aw aw' h1 o h2) as (_ & Hev & q & -> & _); try done.
    + eapply any_range_evolves; [by eapply completes_evolves|done].
    + apply (existsb_true_in _ _ p); [by rewrite Hp|by eapply completes_is_done].
    + pose proof (completes_undone _ _ _ _ ps Hps Hc). pose proof (evolves_undone _ _ ps Hev).
      split; [lia|]. etrans; [by eapply completes_evolves|done].
Qed.

Definition any_start h (tasks : list ptr) : Prop :=
  (forall p, p ∈ tasks -> is_Some (h !! p)) /\
  (forall p t, h !! p = Some t -> t_awaiting t <> Some me).

Lemma any_inv_new h tasks : any_start h tasks -> any_inv me tasks (any_new h tasks).
Proof.
  intros [H1 H2]. split; [split_and!|split]; simpl; try done.
  - intros p. rewrite elem_of_nil. tauto.
  - by intros p t []%elem_of_nil.
  - intros p t Ht _. by apply (H2 p t).
Qed.

Lemma any_running_steps tasks h todo aw :
  any_inv me tasks (mkAny h todo aw AnyRunning) ->
  exists s', any_step me (mkAny h todo aw AnyRunning) s'.
Proof.
  intros (Hr & Hl & _). simpl in *. destruct todo as [|p todo].
  - pose proof (any_range_ready _ _ aw _ Hr (Permutation_refl _)) as Hre.
    destruct (existsb (is_done h) aw) eqn:He.
    + destruct (AnyAwaiter_await_resume aw h) as [o h2] eqn:Ho. eexists. by eapply an_no_wait.
    + destruct (await_suspend_spec aw me h) as (h2 & Hsu & _).
      { intros p Hp. destruct Hr as (Ht & Hs & _). apply Hs, Ht. by right. }
      eexists. by eapply an_wait.
  - destruct (any_range_start _ _ _ _ _ _ Hr Hl) as (runs & h' & Hst & _). eexists.
    eapply an_start; [exact Hst|]. destruct runs; [apply rtc_refl|done].
Qed.

(** The first awaited task to end is the answer. *)
Lemma any_suspended_resumes tasks h aw p v :
  any_inv me tasks (mkAny h [] aw AnySuspended) -> p ∈ aw ->
  exists h1 h2, finish p v h = (Val (Some me), h1) /\
    any_step me (mkAny h [] aw AnySuspended) (mkAny h2 [] aw (Returned p)).
Proof.
  intros (Hr & Hl & _ & Hd) Hp. simpl in *. pose proof Hr as (Ht & Hs & Hst).
  destruct (Hs p) as [t Hpt]; [by apply Ht; right|]. pose proof (Hd p Hp) as Hdp.
  rewrite (is_done_Some _ _ _ Hpt) in Hdp. pose proof (Hl p t Hpt Hdp) as Ha. simpl in Ha.
  rewrite bool_decide_eq_true_2 in Ha by done. set (h1 := <[p := set_done v t]> h).
  assert (finish p v h = (Val (Some me), h1)) as Hf.
  { unfold finish. rewrite (bind_Val _ _ _ _ _ (update_eq _ _ _ _ Hpt)).
    unfold deref. by rewrite lookup_insert_eq, <- Ha. }
  assert (completes p h h1 (Some me)) as Hc.
  { eapply completes_intro; [exact Hpt|by apply (Hst p)|exact Hdp|exact Hf]. }
  destruct (AnyAwaiter_await_resume aw h1) as [o h2] eqn:Ho.
  destruct (any_resume_inv me tasks true aw aw h1 o h2) as (_ & _ & q & Hq & Hqaw & Hqd); try done.
  - eapply any_range_evolves; [by eapply completes_evolves|done].
  - by apply (any_links_completes _ _ _ _ _ _ _ Hl Hc).
  - apply (existsb_true_in _ _ p); [done|by eapply completes_is_done].
  - assert (q = p) as ->.
    { rewrite (is_done_completes _ _ _ _ _ Hc), (Hd q Hqaw) in Hqd. by apply bool_decide_eq_true in Hqd. }
    exists h1, h2. split; [done|]. rewrite <- Hq. by eapply an_resume.
Qed.

(** C4: [any] answers a task of its range that is done: within a bounded number
    of steps it has started every task and returned, or it waits while none of
    them is done, and then the first one to end, whichever it is, resumes it and
    is the answer. It never throws, is never resumed while it runs, and once it
    has returned no task that still runs is linked to it. *)
Theorem any_answers h tasks ps :
  any_start h tasks -> (forall q, is_Some (h !! q) -> q ∈ ps) ->
  (forall n s, nsteps (any_step me) n (any_new h tasks) s ->
     (n <= length tasks + length ps + 2)%nat) /\
  (forall s, rtc (any_step me) (any_new h tasks) s ->
     match as_pc s with
     | AnyRunning => exists s', any_step me s s'
     | AnySuspended => forall p, p ∈ tasks ->
         is_done (as_heap s) p = false /\
         forall v, exists h' s', finish p v (as_heap s) = (Val (Some me), h') /\
           any_step me s s' /\ as_pc s' = Returned p
     | Returned p => p ∈ tasks /\ is_done (as_heap s) p = true /\
         forall q t, as_heap s !! q = Some t ->
           (q ∈ tasks -> t_started t = true) /\ (t_done t = false -> t_awaiting t <> Some me)
     | AnyFailed _ | AnyBroken => False
     end).
Proof.
  intros Hst Hps. pose proof (any_inv_new _ _ Hst) as H0. split.
  - intros n s Hn.
    assert (n + any_measure ps s <= any_measure ps (any_new h tasks))%nat as Hle.
    { change h with (as_heap (any_new h tasks)) in Hps. revert Hps H0 Hn. generalize (any_new h tasks).
      intros s0 Hps H0 Hn. induction Hn as [s0|n s0 s1 s2 Hs _ IH]; [lia|].
      destruct (any_step_measure _ ps _ _ Hps H0 Hs) as [Hm He]. apply any_step_inv with (tasks := tasks) in Hs; [|done].
      assert (forall q, is_Some (as_heap s1 !! q) -> q ∈ ps) as Hps1.
      { intros q [t Ht]. apply Hps. specialize (He q). rewrite Ht in He.
        destruct (as_heap s0 !! q); [by eexists|done]. }
      specialize (IH Hps1 Hs). lia. }
    unfold any_measure in Hle. simpl in Hle.
    pose proof (List.filter_length_le (fun p => negb (is_done h p)) ps). unfold undone in Hle. lia.
  - intros s Hr. assert (any_inv me tasks s) as Hi.
    { clear Hst Hps. induction Hr as [|s0 s1 s2 Hs _ IH]; [done|]. apply IH. by eapply any_step_inv. }
    destruct s as [h' todo aw pc]. pose proof Hi as ((Ht & Hs & Hstd) & Hl & Hpc).
    destruct pc as [| |p|e|]; simpl in *; try done.
    + by eapply any_running_steps.
    + destruct Hpc as [-> Hd]. intros p Hp. apply Ht in Hp as [[]%elem_of_nil|Hp].
      split; [by apply Hd|]. intros v. destruct (any_suspended_resumes tasks h' aw p v Hi Hp) as (h1 & h2 & Hf & Hstep).
      by exists h1, (mkAny h2 [] aw (Returned p)).
    + destruct Hpc as (-> & Hp & Hd). split; [by apply Ht; right|]. split; [done|]. intros q t Hq. split.
      * intros Hin. apply Ht in Hin as [[]%elem_of_nil|Hin]. by apply (Hstd q).
      * intros Hqd. exact (Hl q t Hq Hqd).
Qed.
End AnyProperties.

(** ** Detached tasks: the frame is destroyed once *)

(** The calls a program can make: a coroutine suspends or returns while it runs,
    is resumed while it is suspended, and is not cancelled by itself; after the
    frame is gone only [cancel] is left. *)
Fixpoint detached_proper (f : frame_state) (ops : list detached_op) : bool :=
  match ops with
  | [] => true
  | op :: ops =>
      match f, op with
      | FrameRunning, DSuspend => detached_proper FrameSuspended ops
      | FrameRunning, DReturn => detached_proper FrameDestroyed ops
      | FrameSuspended, DResume => detached_proper FrameRunning ops
      | FrameSuspended, DCancel => detached_proper FrameDestroyed ops
      | FrameDestroyed, DCancel => detached_proper FrameDestroyed ops
      | _, _ => false
      end
  end.

Definition frame_gone (f : frame_state) : bool :=
  match f with FrameDestroyed => true | _ => false end.

Lemma detached_run_spec ops f :
  if detached_proper f ops then
    exists f', (frame_gone f = true -> frame_gone f' = true) /\
      detached_run ops (mkDetached (frame_gone f) f) = (Val (if frame_gone f' && negb (frame_gone f) then 1 else 0)%nat, mkDetached (frame_gone f') f')
  else fst (detached_run ops (mkDetached (frame_gone f) f)) = Undef.
Proof.
  revert f. induction ops as [|op ops IH]; intros f.
  - exists f. split; [done|]. simpl. by destruct (frame_gone f).
  - destruct f, op; cbn [detached_proper]; try reflexivity.
    all: match goal with
      | H : forall f, _ |- context [detached_proper ?g ?o] =>
          specialize (H g); destruct (detached_proper g o)
      end; simpl in *; unfold bind; simpl.
    all: try (match goal with H : exists f, _ |- _ => destruct H as (f' & Hg & Hrun) end; rewrite Hrun; exists f'; split; [by auto|];
              destruct f'; done || by discriminate Hg).
    all: match goal with |- context [detached_run ?o ?d] => by destruct (detached_run o d) as [[| | |] ?] end.
Qed.

(** However a detached task is suspended, resumed, cancelled and returns, its
    frame is destroyed at most once, by the first [cancel] or by its return, of
    which exactly one is told so; only resuming a destroyed frame, cancelling a
    running one and the like are undefined. *)
Theorem detached_destroyed_once ops :
  if detached_proper FrameRunning ops then
    exists f, detached_run ops detached_new =
      (Val (if frame_gone f then 1 else 0)%nat, mkDetached (frame_gone f) f)
  else fst (detached_run ops detached_new) = Undef.
Proof.
  pose proof (detached_run_spec ops FrameRunning) as H.
  destruct (detached_proper FrameRunning ops); [|exact H].
  destruct H as (f & _ & H). exists f. unfold detached_new. simpl in H. rewrite H. by rewrite andb_true_r.
Qed.

(** ** Witnesses *)

Lemma three_tasks_known : forall q, is_Some (three_tasks !! q) -> q ∈ [1; 2; 3]%nat.
Proof. intros q Hq. by apply (proj1 (proj2 three_tasks_fresh)). Qed.

Lemma three_tasks_unlinked p t c : three_tasks !! p = Some t -> t_awaiting t <> Some c.
Proof. intros Ht. destruct (proj2 (proj2 three_tasks_fresh) p t Ht) as (_ & _ & ->). done. Qed.

Lemma all_waits_for_all_witness :
  join_correct (map (fun p => (p, 0%nat)) [1; 2; 3]%nat) [1; 2; 3]%nat (all_step 0)
    (all_new 0 three_tasks [1; 2; 3]%nat).
Proof.
  apply (all_waits_for_all 0 three_tasks [1; 2; 3]%nat [1; 2; 3]%nat).
  - intros p. apply (proj1 (proj2 three_tasks_fresh)).
  - intros p t. apply three_tasks_unlinked.
  - exact three_tasks_known.
Defined.

Lemma multi_waits_for_all_witness :
  join_correct [(1, 7); (3, 8)]%nat [1; 2; 3]%nat (multi_step [7; 8]%nat)
    (multi_new three_tasks [(1, 7); (3, 8)]%nat).
Proof.
  apply (multi_waits_for_all [7; 8]%nat three_tasks [(1, 7); (3, 8)]%nat [1; 2; 3]%nat).
  - intros p c [[= -> ->]|[[= -> ->]|[]%elem_of_nil]%elem_of_cons]%elem_of_cons;
      (split; [by eexists|]); rewrite !elem_of_cons; auto.
  - intros p t c Ht Hc. by destruct (three_tasks_unlinked p t c Ht).
  - exact three_tasks_known.
Defined.

Lemma any_answers_witness :
  exists s', any_step 0 (any_new three_tasks [1; 3]%nat) s'.
Proof.
  refine (proj2 (any_answers 0 three_tasks [1; 3]%nat [1; 2; 3]%nat _ _) (any_new three_tasks [1; 3]%nat) _).
  - split.
    + intros p [->|[->|[]%elem_of_nil]%elem_of_cons]%elem_of_cons; by eexists.
    + intros p t. apply three_tasks_unlinked.
  - exact three_tasks_known.
  - apply rtc_refl.
Defined.
