(* ===== verification/VoidResults.v ===== *)
(** * Tasks and futures without a value (Task<void> in Task.hh and Task.cc,
    Future<void> in Future.hh)

    [TaskPromise<void>] holds an exception pointer instead of a variant, and
    [Future<void>] stores a null pointer as its value. Both specializations behave
    as the general templates at the type [unit], so the theorems about those hold
    of them. *)
From stdpp Require Import tactics base list numbers strings.
From S2P Require Import Prelude Channel Future Task.

(** ** [TaskPromise<void>] *)

(** [exc] is null until an exception leaves the coroutine. *)
Record void_promise := mkVoidPromise { vp_awaiting_coro : option nat; vp_exc : option exn }.
Definition void_promise_new : void_promise := mkVoidPromise None None.
Definition void_set_awaiting_coro (c : option nat) (p : void_promise) : void_promise :=
  mkVoidPromise c (vp_exc p).
Definition void_result (p : void_promise) : out unit :=
  match vp_exc p with Some e => Exn e | None => Val tt end.
Definition void_return_void (p : void_promise) : void_promise := p.
Definition void_unhandled_exception (e : exn) (p : void_promise) : void_promise :=
  mkVoidPromise (vp_awaiting_coro p) (Some e).
(** [FinalAwaiter::await_suspend]: who is resumed, if anybody. *)
Definition void_final (p : void_promise) : option nat := vp_awaiting_coro p.

(** The end of the coroutine. *)
Definition void_end (v : @promise_value unit) (p : void_promise) : void_promise :=
  match v with PResult _ => void_return_void p | PException e => void_unhandled_exception e p end.

(** ** [Future<void>] *)

Section FutureVoid.
Context {Coro : Type}.

(** The value is a pointer, which is null. *)
Abbreviation void_future := (Future (option nat) Coro).
Definition Future_void_result (f : void_future) : out unit :=
  match fu_value f with
  | HasResult _ => Val tt
  | HasException e => Exn e
  | Pending => Exn bad_variant_access
  end.
Definition Future_void_await_resume (f : void_future) : out unit := Future_void_result f.
Definition Future_void_set_result : ST void_future unit :=
  Future_set "set_result called on done Future" (HasResult None).
End FutureVoid.

(** ** They are the templates at [unit] *)

(** A promise of no value as a promise of a [unit]. *)
Definition unit_value (p : void_promise) : @promise_value unit :=
  match vp_exc p with Some e => PException e | None => PResult tt end.
Definition unit_task (started done : bool) (p : void_promise) : @task unit :=
  mkTask started done (vp_awaiting_coro p) (unit_value p).

(** The future with its null pointer forgotten. *)
Definition unit_future_value {Res} (v : @future_value Res) : @future_value unit :=
  match v with Pending => Pending | HasResult _ => HasResult tt | HasException e => HasException e end.
Definition unit_future {Coro} (f : Future (option nat) Coro) : Future unit Coro :=
  mkFuture (unit_future_value (fu_value f)) (fu_awaiting f).

Lemma void_result_is_unit_result p : void_result p = promise_result (unit_value p).
Proof. unfold void_result, unit_value. by destruct (vp_exc p). Qed.

Lemma void_task_is_unit_task s d p c v :
  unit_task s d (void_set_awaiting_coro c p) = set_awaiting_coro c (unit_task s d p) /\
  (vp_exc p = None -> unit_task s true (void_end v p) = set_done v (unit_task s d p)) /\
  void_final p = t_awaiting (unit_task s d p).
Proof.
  split; [done|]. split; [|done]. intros Hp. destruct v as [[]|e]; [|done].
  unfold unit_task, unit_value, void_end, void_return_void, set_done. simpl. by rewrite Hp.
Qed.

Lemma void_future_is_unit_future {Coro} (f : Future (option nat) Coro) :
  Future_void_await_resume f = Future_result (unit_future f) /\
  Future_void_set_result f =
    (fst (set_result tt (unit_future f)),
     if Future_done f then f else mkFuture (HasResult None) (fu_awaiting f)) /\
  unit_future (snd (Future_void_set_result f)) = snd (set_result tt (unit_future f)).
Proof.
  unfold Future_void_await_resume, Future_void_result, Future_void_set_result, set_result, Future_set, Future_done.
  destruct f as [[|v|e] l]; done.
Qed.

(** Futures of [unit] and [Future<void>] resume the same coroutines with the same
    outcomes. *)
Lemma void_resume_next {Coro} (f : Future (option nat) Coro) :
  fst (resume_next (unit_future f)) =
  match fst (resume_next f) with
  | Val (Some (c, _)) => Val (Some (c, Future_void_await_resume f))
  | Val None => Val None
  | Exn e => Exn e
  | Undef => Undef
  | NoFuel => NoFuel
  end.
Proof.
  destruct f as [v [[|[n c] ns] it nx]]; [done|]. by destruct v.
Qed.
