(* ===== verification/Coroutines.v ===== *)
(** * Coroutines on the event loop (Task.hh, Future.hh, Channel.hh, Event.cc, Base.cc)

    The other files take one awaitable object at a time and let the rest of the
    program do anything between its steps. This one composes them: a machine runs
    coroutines that await tasks, sets of tasks, futures, channels and timers, with
    the definitions of Task.v, Future.v and Channel.v as they are. A coroutine runs
    until it suspends, inside the call that resumed it: the activities under way
    are a stack, and the event loop resumes a coroutine when the stack is empty.

    Frames are never destroyed here; Join.v and Ownership.v have that part. *)
From stdpp Require Import tactics base list numbers strings gmap relations.
From S2P Require Import Prelude Channel Future Task.

(** ** Programs *)

(** What a coroutine returns or is answered; pointers to tasks, futures and
    channels are numbers. [VPicked] is the answer of an [AnyAwaiter]: a task, and
    the set of tasks that is left. *)
Inductive val : Type :=
| VVoid | VInt (z : Z) | VBool (b : bool) | VPtr (p : nat) | VPicked (p : nat) (rest : list nat).

#[export] Instance val_eq_dec : EqDecision val.
Proof. solve_decision. Defined.

(** The calls and awaits of a coroutine body. *)
Inductive op : Type :=
| OStart (t : nat)                            (* t.start() *)
| OWait (t : nat)                             (* co_await t.wait() *)
| OAwait (t : nat)                            (* co_await t *)
| OAwaitAny (tasks : list nat)                (* co_await aw *)
| ODone (t : nat)                             (* t.done() *)
| OResult (t : nat)                           (* t.result() *)
| OSleep (usecs : Z)                          (* co_await base.sleep(usecs) *)
| ONow                                        (* now() *)
| ONewFuture
| OAwaitFuture (f : nat)                      (* co_await f *)
| OSetFuture (f : nat) (what : string) (v : @future_value val)
| OHasResult (f : nat) | OHasException (f : nat) | OFutureResult (f : nat)
| ONewChannel
| ORead (c : nat)                             (* co_await c.read() *)
| OWrite (c : nat) (v : val)
| OEmpty (c : nat)
| OTerminate (e : exn).                       (* std::terminate() *)

(** The rest of a coroutine: it returns or lets an exception out, calls a function
    that is a [Task] coroutine with this body and a default-constructed result, or does something and goes on with
    what it is answered, which may be an exception. *)
Inductive prog : Type :=
| CoReturn (o : out val)
| CallTask (dflt : val) (body : prog) (k : nat -> prog)
| Do (o : op) (k : out val -> prog).

(** ** The machine *)

Abbreviation coro := nat.

(** A suspended coroutine: not started yet, or at the await [o]. *)
Inductive suspended : Type := AtStart (body : prog) | At (o : op) (k : out val -> prog).

(** What is under way: a coroutine runs, or the loop of [resume_awaiters] of a
    future. *)
Inductive activity : Type := Running (c : coro) (p : prog) | Resuming (f : nat).

Record machine := mkMachine {
  m_now : Z;                                  (* in microseconds *)
  m_tasks : gmap nat (@task val);             (* a task has the number of its coroutine *)
  m_code : gmap coro suspended;
  m_futures : gmap nat (@Future val coro);
  m_channels : gmap nat (Channel val coro);
  m_timers : list (Z * coro);                 (* deadlines *)
  m_next : nat;
  m_stack : list activity
}.

Definition with_now x m := mkMachine x (m_tasks m) (m_code m) (m_futures m) (m_channels m) (m_timers m) (m_next m) (m_stack m).
Definition with_tasks x m := mkMachine (m_now m) x (m_code m) (m_futures m) (m_channels m) (m_timers m) (m_next m) (m_stack m).
Definition with_code x m := mkMachine (m_now m) (m_tasks m) x (m_futures m) (m_channels m) (m_timers m) (m_next m) (m_stack m).
Definition with_futures x m := mkMachine (m_now m) (m_tasks m) (m_code m) x (m_channels m) (m_timers m) (m_next m) (m_stack m).
Definition with_channels x m := mkMachine (m_now m) (m_tasks m) (m_code m) (m_futures m) x (m_timers m) (m_next m) (m_stack m).
Definition with_timers x m := mkMachine (m_now m) (m_tasks m) (m_code m) (m_futures m) (m_channels m) x (m_next m) (m_stack m).
Definition with_next x m := mkMachine (m_now m) (m_tasks m) (m_code m) (m_futures m) (m_channels m) (m_timers m) x (m_stack m).
Definition with_stack x m := mkMachine (m_now m) (m_tasks m) (m_code m) (m_futures m) (m_channels m) (m_timers m) (m_next m) x.

(** How a step ends: [Idle] when nothing is left to do, [Terminated] for an
    exception out of a detached task, [Undefined] for what C++ leaves undefined, and
    [Broken] for resuming a coroutine that is not suspended in that await. *)
Inductive next : Type :=
| Step (m : machine) | Idle | Terminated (e : exn) | Undefined | Broken.

(** Who resumes a coroutine. *)
Inductive site : Type := STask (p : nat) | SFuture (f : nat) | SChannel (c : nat) | STimer | SStart.

Definition waits_on (o : op) (s : site) : bool :=
  match o, s with
  | OWait t, STask p | OAwait t, STask p => bool_decide (t = p)
  | OAwaitAny tasks, STask p => bool_decide (p ∈ tasks)
  | OAwaitFuture f, SFuture g => bool_decide (f = g)
  | ORead c, SChannel d => bool_decide (c = d)
  | OSleep _, STimer => true
  | _, _ => false
  end.

Section Machine.
(** The order in which an [unordered_set] of tasks is iterated, and which of the
    timers that are due at the same time fires first. *)
Context (order : list nat -> list nat) (which : list coro -> nat).

(** A coroutine goes on with an answer. *)
Definition go (c : coro) (k : out val -> prog) (o : out val) (st : list activity) (m : machine) : next :=
  match o with
  | Val _ | Exn _ => Step (with_stack (Running c (k o) :: st) m)
  | _ => Undefined
  end.
Definition suspend (c : coro) (o : op) (k : out val -> prog) (m : machine) : machine :=
  with_code (<[c := At o k]> (m_code m)) m.

(** Resuming a coroutine that has not started. *)
Definition begin (p : coro) (st : list activity) (m : machine) : next :=
  match m_code m !! p with
  | Some (AtStart body) => Step (with_stack (Running p body :: st) (with_code (delete p (m_code m)) m))
  | _ => Broken
  end.

(** [await_resume] of the awaiters of tasks. *)
Definition await_resume (o : op) : ST (gmap nat (@task val)) val :=
  match o with
  | OAwait t => Task_result t
  | OAwaitAny tasks =>
      let! r := AnyAwaiter_await_resume (order tasks) in ret (VPicked (fst r) (snd r))
  | _ => ret VVoid
  end.

(** Resuming [c], which waits at [s], with what [await_resume] answers. *)
Definition wake_with (c : coro) (s : site) (answer : op -> ST (gmap nat (@task val)) val)
    (st : list activity) (m : machine) : next :=
  match m_code m !! c with
  | Some (At o k) =>
      if waits_on o s then
        let '(a, h) := answer o (m_tasks m) in
        go c k a st (with_tasks h (with_code (delete c (m_code m)) m))
      else Broken
  | _ => Broken
  end.

Definition promise_of (o : out val) : option (@promise_value val) :=
  match o with Val v => Some (PResult v) | Exn e => Some (PException e) | _ => None end.

(** The end of a coroutine: of a task, whose final awaiter transfers to the
    coroutine that awaits it, or of a detached task. *)
Definition end_coroutine (c : coro) (o : out val) (st : list activity) (m : machine) : next :=
  match m_tasks m !! c, promise_of o with
  | Some _, Some v =>
      match finish c v (m_tasks m) with
      | (Val (Some d), h) => wake_with d (STask c) await_resume st (with_tasks h m)
      | (Val None, h) => Step (with_stack st (with_tasks h m))
      | _ => Undefined
      end
  | None, Some (PResult _) => Step (with_stack st m)
  | None, Some (PException e) => Terminated e
  | _, None => Undefined
  end.

(** The end of an await: the coroutine goes on if it is ready, and otherwise is
    suspended; control goes to [start_task] or back to what resumed it. *)
Definition await_task (c : coro) (o : op) (t : nat) (k : out val -> prog) (st : list activity)
    (m : machine) : next :=
  match AwaiterBase_await_ready t (m_tasks m) with
  | (Val true, _) =>
      let '(a, h) := await_resume o (m_tasks m) in go c k a st (with_tasks h m)
  | (Val false, _) =>
      match AwaiterBase_await_suspend t c (m_tasks m) with
      | (Val (Some p), h) => begin p st (suspend c o k (with_tasks h m))
      | (Val None, h) => Step (with_stack st (suspend c o k (with_tasks h m)))
      | _ => Undefined
      end
  | _ => Undefined
  end.
Definition await_any (c : coro) (tasks : list nat) (k : out val -> prog) (st : list activity)
    (m : machine) : next :=
  match AnyAwaiter_await_ready (order tasks) (m_tasks m) with
  | (Val true, _) =>
      let '(a, h) := await_resume (OAwaitAny tasks) (m_tasks m) in go c k a st (with_tasks h m)
  | (Val false, _) =>
      match AnyAwaiter_await_suspend (order tasks) c (m_tasks m) with
      | (Val _, h) => Step (with_stack st (suspend c (OAwaitAny tasks) k (with_tasks h m)))
      | _ => Undefined
      end
  | (Exn e, _) => go c k (Exn e) st m
  | _ => Undefined
  end.

(** The calls of tasks and of the clock. *)
Definition task_op (c : coro) (o : op) (k : out val -> prog) (st : list activity) (m : machine) : next :=
  match o with
  | OStart t =>
      match start t (m_tasks m) with
      | (Val true, h) => begin t (Running c (k (Val VVoid)) :: st) (with_tasks h m)
      | (Val false, _) => go c k (Val VVoid) st m
      | _ => Undefined
      end
  | OWait t | OAwait t => await_task c o t k st m
  | OAwaitAny tasks => await_any c tasks k st m
  | ODone t =>
      match TaskBase_done t (m_tasks m) with
      | (Val b, _) => go c k (Val (VBool b)) st m
      | _ => Undefined
      end
  | OResult t => go c k (fst (Task_result t (m_tasks m))) st m
  | OSleep usecs =>
      Step (with_stack st (suspend c o k (with_timers (m_timers m ++ [(m_now m + usecs, c)]) m)))
  | ONow => go c k (Val (VInt (m_now m))) st m
  | _ => Undefined
  end.

(** The calls of futures and channels. *)
Definition future_op (c : coro) (o : op) (f : nat) (k : out val -> prog) (st : list activity)
    (m : machine) : next :=
  match m_futures m !! f with
  | None => Undefined
  | Some fu =>
      let put fu' := with_futures (<[f := fu']> (m_futures m)) m in
      match o with
      | OAwaitFuture _ =>
          match Future_co_await c fu with
          | (Val (Some a), fu') => go c k a st (put fu')
          | (Val None, fu') => Step (with_stack st (suspend c o k (put fu')))
          | _ => Undefined
          end
      | OSetFuture _ what v =>
          match Future_set what v fu with
          | (Val _, fu') => Step (with_stack (Resuming f :: Running c (k (Val VVoid)) :: st) (put fu'))
          | (Exn e, fu') => go c k (Exn e) st (put fu')
          | _ => Undefined
          end
      | OHasResult _ => go c k (Val (VBool (Future_has_result fu))) st m
      | OHasException _ => go c k (Val (VBool (Future_has_exception fu))) st m
      | OFutureResult _ => go c k (Future_result fu) st m
      | _ => Undefined
      end
  end.
Definition channel_op (c : coro) (o : op) (ch : nat) (k : out val -> prog) (st : list activity)
    (m : machine) : next :=
  match m_channels m !! ch with
  | None => Undefined
  | Some x =>
      let put x' := with_channels (<[ch := x']> (m_channels m)) m in
      match o with
      | ORead _ =>
          match Channel_read c x with
          | (Val (Some v), x') => go c k (Val v) st (put x')
          | (Val None, x') => Step (with_stack st (suspend c o k (put x')))
          | _ => Undefined
          end
      | OWrite _ v =>
          let st' := Running c (k (Val VVoid)) :: st in
          match Channel_write v x with
          | (Val (Some (d, v)), x') => wake_with d (SChannel ch) (fun _ => ret v) st' (put x')
          | (Val None, x') => Step (with_stack st' (put x'))
          | _ => Undefined
          end
      | OEmpty _ => go c k (Val (VBool (Channel_empty x))) st m
      | _ => Undefined
      end
  end.

Definition run_op (c : coro) (o : op) (k : out val -> prog) (st : list activity) (m : machine) : next :=
  match o with
  | ONewFuture =>
      go c k (Val (VPtr (m_next m))) st
        (with_futures (<[m_next m := Future_new]> (m_futures m)) (with_next (S (m_next m)) m))
  | ONewChannel =>
      go c k (Val (VPtr (m_next m))) st
        (with_channels (<[m_next m := Channel_new]> (m_channels m)) (with_next (S (m_next m)) m))
  | OAwaitFuture f | OSetFuture f _ _ | OHasResult f | OHasException f | OFutureResult f =>
      future_op c o f k st m
  | ORead ch | OWrite ch _ | OEmpty ch => channel_op c o ch k st m
  | OTerminate e => Terminated e
  | _ => task_op c o k st m
  end.

(** Calling a function that is a coroutine makes its frame, suspended. *)
Definition call_task (c : coro) (dflt : val) (body : prog) (k : nat -> prog) (st : list activity) (m : machine) : next :=
  let p := m_next m in
  Step (with_stack (Running c (k p) :: st)
    (with_next (S p) (with_tasks (<[p := task_new dflt]> (m_tasks m))
      (with_code (<[p := AtStart body]> (m_code m)) m)))).

(** One round of [resume_awaiters]. *)
Definition resume_round (f : nat) (st : list activity) (m : machine) : next :=
  match m_futures m !! f with
  | None => Undefined
  | Some fu =>
      let put fu' := with_futures (<[f := fu']> (m_futures m)) m in
      match resume_next fu with
      | (Val (Some (d, a)), fu') => wake_with d (SFuture f) (fun _ => of_out a) (Resuming f :: st) (put fu')
      | (Val None, fu') => Step (with_stack st (put fu'))
      | _ => Undefined
      end
  end.

(** The event loop: the timers with the earliest deadline are due, and one of them
    fires. *)
Definition earliest (timers : list (Z * coro)) : option Z :=
  match timers with
  | [] => None
  | (d, _) :: timers => Some (foldr (fun t a => Z.min (fst t) a) d timers)
  end.
Definition due (d : Z) (timers : list (Z * coro)) : list coro :=
  map snd (List.filter (fun t => fst t =? d) timers).
Definition fire (m : machine) : next :=
  match earliest (m_timers m) with
  | None => Idle
  | Some d =>
      match due d (m_timers m) with
      | [] => Idle
      | c :: cs =>
          let c := nth (which (c :: cs)) cs c in
          wake_with c STimer await_resume []
            (with_now (Z.max (m_now m) d)
              (with_timers (List.filter (fun t => negb (snd t =? c)%nat) (m_timers m)) m))
      end
  end.

Definition step (m : machine) : next :=
  match m_stack m with
  | [] => fire m
  | Running c (CoReturn o) :: st => end_coroutine c o st m
  | Running c (CallTask dflt body k) :: st => call_task c dflt body k st m
  | Running c (Do o k) :: st => run_op c o k st m
  | Resuming f :: st => resume_round f st m
  end.

(** A detached task called outside of the event loop starts at once. *)
Definition call_detached (body : prog) (m : machine) : machine :=
  with_next (S (m_next m)) (with_stack [Running (m_next m) body] m).

(** [base.run()], for at most as many steps. *)
Definition run_steps (fuel : positive) (m : machine) : out next * machine :=
  loop (fun _ : unit => fun m =>
    match step m with
    | Step m' => (Val (inl tt), m')
    | n => (Val (inr n), m)
    end) fuel tt m.
End Machine.

Definition machine_new : machine := mkMachine 0 ∅ ∅ ∅ ∅ [] 0 [].

(** ** Writing programs

    A piece of a coroutine body that answers an [A]: it is given what follows, for
    its value or its exception. *)
Definition co (A : Type) : Type := (out A -> prog) -> prog.

Definition co_return {A} (a : A) : co A := fun k => k (Val a).
Definition co_throw {A} (e : exn) : co A := fun k => k (Exn e).
Definition co_bind {A B} (x : co A) (f : A -> co B) : co B := fun k =>
  x (fun o => match o with
              | Val a => f a k
              | Exn e => k (Exn e)
              | Undef => k Undef
              | NoFuel => k NoFuel
              end).
(** [try] and [catch] of the exceptions that [h] takes. *)
Definition co_try {A} (x : co A) (h : exn -> option (co A)) : co A := fun k =>
  x (fun o => match o with
              | Exn e => match h e with Some y => y k | None => k (Exn e) end
              | o => k o
              end).
Definition co_undef {A} : co A := fun k => k Undef.

Declare Scope co_scope.
Delimit Scope co_scope with co.
Bind Scope co_scope with co.
Notation "'let*' x ':=' m 'in' k" := (co_bind m (fun x => k))
  (at level 10, x pattern, m at level 200, k at level 200) : co_scope.
Notation "m ';*' k" := (co_bind m (fun _ => k))
  (at level 199, k at level 200, right associativity) : co_scope.
Open Scope co_scope.

Definition do_op (o : op) : co val := fun k => Do o k.
(** A call of a coroutine function with this body. *)
Definition call (dflt : val) (body : co val) : co nat := fun k =>
  CallTask dflt (body CoReturn) (fun p => k (Val p)).
Fixpoint for_each {A} (l : list A) (f : A -> co val) : co val :=
  match l with
  | [] => co_return VVoid
  | x :: l => f x ;* for_each l f
  end.

Definition as_bool (m : co val) : co bool :=
  let* v := m in match v with VBool b => co_return b | _ => co_undef end.
Definition as_ptr (m : co val) : co nat :=
  let* v := m in match v with VPtr p => co_return p | _ => co_undef end.
Definition as_int (m : co val) : co Z :=
  let* v := m in match v with VInt z => co_return z | _ => co_undef end.

(** ** multi, all, any, all_limit (Task.hh) *)

Fixpoint multi (t : nat) (r : list nat) : co val :=
  match r with
  | [] => do_op (OStart t) ;* do_op (OWait t)
  | t' :: r =>
      do_op (OStart t) ;*
      let* p := call VVoid (multi t' r) in
      do_op (OAwait p) ;*
      do_op (OWait t)
  end.

Definition all (tasks : list nat) : co val :=
  for_each tasks (fun t => do_op (OStart t)) ;*
  for_each tasks (fun t => do_op (OWait t)).

Fixpoint any_from (tasks aw : list nat) : co val :=
  match tasks with
  | [] =>
      let* v := do_op (OAwaitAny aw) in
      match v with VPicked p _ => co_return (VPtr p) | _ => co_undef end
  | t :: tasks => do_op (OStart t) ;* any_from tasks (add_task t aw)
  end.
Definition any (tasks : list nat) : co val := any_from tasks [].

(** One round of the loop of [all_limit] starts a task or takes one out of the
    awaiter; the fuel counts the rounds. *)
Fixpoint all_limit_rounds (fuel parallelism : nat) (todo aw : list nat) : co val :=
  match fuel with
  | O => fun k => k NoFuel
  | S fuel =>
      match todo, aw with
      | [], [] => co_return VVoid
      | _, _ =>
          if (parallelism <=? length aw)%nat || match todo with [] => true | _ => false end then
            let* v := do_op (OAwaitAny aw) in
            match v with
            | VPicked _ rest => all_limit_rounds fuel parallelism todo rest
            | _ => co_undef
            end
          else
            match todo with
            | [] => co_undef
            | t :: todo =>
                do_op (OStart t) ;* all_limit_rounds fuel parallelism todo (add_task t aw)
            end
      end
  end.
Definition all_limit (tasks : list nat) (parallelism : nat) : co val :=
  all_limit_rounds (S (2 * length tasks)) parallelism tasks [].

(** [co_await] of a task that a call makes. *)
Definition co_await_call (dflt : val) (body : co val) : co val :=
  let* p := call dflt body in do_op (OAwait p).
