(* ===== verification/CoroutineSafety.v ===== *)
(** * Coroutines are resumed only where they wait

    The invariant of the machine of Coroutines.v: whoever may resume a coroutine
    finds it suspended in the await it resumes, whatever the programs do. *)
From stdpp Require Import tactics base list numbers strings gmap relations.
From S2P Require Import Prelude Channel Future Task Coroutines.

Abbreviation theap := (gmap nat (@task val)).

(** ** What is registered *)

(** [s] may resume [c]. *)
Definition registered (m : machine) (c : coro) (s : site) : Prop :=
  match s with
  | STask p => exists t, m_tasks m !! p = Some t /\ t_done t = false /\ t_awaiting t = Some c
  | SStart => exists t, m_tasks m !! c = Some t /\ t_started t = false
  | SFuture f => exists fu, m_futures m !! f = Some fu /\ c ∈ AwaiterList.waiting (fu_awaiting fu)
  | SChannel ch => exists x, m_channels m !! ch = Some x /\ c ∈ waiters x
  | STimer => c ∈ (m_timers m).*2
  end.

Definition at_site (x : suspended) (s : site) : Prop :=
  match x, s with
  | AtStart _, SStart => True
  | At o _, s => waits_on o s = true
  | _, _ => False
  end.

Definition running (st : list activity) : list coro :=
  omap (fun a => match a with Running c _ => Some c | Resuming _ => None end) st.

(** Coroutines run or are suspended, and are suspended where they may be resumed. *)
Record scheduled (m : machine) : Prop := {
  sch_registered : forall c s, registered m c s ->
    exists x, m_code m !! c = Some x /\ at_site x s;
  sch_running : forall c, c ∈ running (m_stack m) -> m_code m !! c = None;
  sch_once : NoDup (running (m_stack m));
  sch_live : forall c t, m_tasks m !! c = Some t ->
    c ∈ running (m_stack m) \/ is_Some (m_code m !! c) -> t_done t = false;
  sch_known : forall c, c ∈ running (m_stack m) \/ is_Some (m_code m !! c) \/
    is_Some (m_tasks m !! c) -> (c < m_next m)%nat
}.

Definition future_ok (st : list activity) (f : nat) (fu : Future val coro) : Prop :=
  AwaiterList.wf (fu_awaiting fu) /\ NoDup (AwaiterList.waiting (fu_awaiting fu)) /\
  (Future_done fu = true -> Resuming f ∈ st \/ AwaiterList.waiting (fu_awaiting fu) = []).
Definition channel_ok (x : Channel val coro) : Prop := channel_inv x /\ NoDup (waiters x).

Record objects_ok (m : machine) : Prop := {
  ob_future : forall f fu, m_futures m !! f = Some fu -> future_ok (m_stack m) f fu;
  ob_channel : forall ch x, m_channels m !! ch = Some x -> channel_ok x;
  ob_timers : NoDup (m_timers m).*2;
  ob_known : forall f, is_Some (m_futures m !! f) \/ is_Some (m_channels m !! f) -> (f < m_next m)%nat
}.

(** Futures, channels and timers forget nobody. *)
Definition enlisted (m : machine) (c : coro) (o : op) : Prop :=
  match o with
  | OAwaitFuture f => registered m c (SFuture f)
  | ORead ch => registered m c (SChannel ch)
  | OSleep _ => registered m c STimer
  | _ => True
  end.
Definition enlisted_all (m : machine) : Prop :=
  forall c o k, m_code m !! c = Some (At o k) -> enlisted m c o.

Definition machine_ok (m : machine) : Prop := scheduled m /\ objects_ok m /\ enlisted_all m.

Lemma machine_ok_new : machine_ok machine_new.
Proof.
  split; [|split].
  - split; simpl.
    + intros c [p|f|ch| |] Hr; simpl in Hr; destruct_and?; try (destruct Hr as (? & ? & _); done).
      by apply elem_of_nil in Hr.
    + by intros c ?%elem_of_nil.
    + constructor.
    + done.
    + intros c [?%elem_of_nil|[[? ?]|[? ?]]]; done.
  - split; simpl; try done; [constructor|]. intros f [[? ?]|[? ?]]; done.
  - intros c o k. done.
Qed.

(** ** Changes of the parts *)

(** The program of the coroutine on top does not matter. *)
Lemma machine_ok_go c p p' st m :
  machine_ok (with_stack (Running c p :: st) m) -> machine_ok (with_stack (Running c p' :: st) m).
Proof.
  intros ([Hr Hc Ho Hl Hk] & [Hf Hch Ht Hn] & He). split; [|split; [|done]]; [done|].
  split; try done. intros f fu Hfu. destruct (Hf f fu Hfu) as (? & ? & Hd).
  split; [done|]. split; [done|]. intros Hdone. destruct (Hd Hdone) as [Hin|]; [left|by right].
  simpl in *. apply elem_of_cons in Hin as [?|Hin]; [done|]. by right.
Qed.

Definition next_ok (n : next) : Prop := n <> Broken /\ forall m, n = Step m -> machine_ok m.

Lemma next_ok_Step m : machine_ok m -> next_ok (Step m).
Proof. intros H. split; [done|]. by intros m' [= <-]. Qed.
Lemma next_ok_Undefined : next_ok Undefined.
Proof. by split. Qed.

Lemma next_ok_go c k o p st m :
  machine_ok (with_stack (Running c p :: st) m) -> next_ok (go c k o st m).
Proof.
  intros H. destruct o; simpl; try apply next_ok_Undefined; apply next_ok_Step; by apply (machine_ok_go c p).
Qed.

(** Futures do not depend on who runs on top. *)
Lemma future_ok_running c p st f fu :
  future_ok (Running c p :: st) f fu <-> future_ok st f fu.
Proof.
  split; intros (? & ? & Hd); (split; [done|]); (split; [done|]); intros Hdone;
    (destruct (Hd Hdone) as [Hin|]; [left|by right]).
  - by apply elem_of_cons in Hin as [?|Hin].
  - by right.
Qed.

(** The coroutine on top ends or is put aside. *)
Lemma machine_ok_pop c p st m :
  machine_ok (with_stack (Running c p :: st) m) -> machine_ok (with_stack st m).
Proof.
  intros ([Hr Hc Ho Hl Hk] & [Hf Hch Ht Hn] & He). split; [|split; [|done]].
  - split; simpl in *; [done| | | |].
    + intros d Hd. apply Hc. by right.
    + by apply NoDup_cons in Ho as [_ ?].
    + intros d t Ht' [Hd|Hd]; [apply (Hl d t Ht'); left; by right|apply (Hl d t Ht'); by right].
    + intros d [Hd|Hd]; apply Hk; [left; by right|by right].
  - split; try done. intros f fu Hfu. simpl. by eapply future_ok_running, Hf.
Qed.

(** [heap_step P h h'] : tasks are neither made nor ended; a link is kept or is one
    that [P] allows. *)
Definition heap_step (P : nat -> option coro -> Prop) (h h' : theap) : Prop :=
  forall p t', h' !! p = Some t' -> exists t, h !! p = Some t /\ t_done t' = t_done t /\
    (t_started t' = false -> t_started t = false) /\
    (t_awaiting t' = t_awaiting t \/ P p (t_awaiting t')).
Definition unlinked (p : nat) (c : option coro) : Prop := c = None.

Lemma heap_step_refl P h : heap_step P h h.
Proof. intros p t Ht. exists t. split_and!; try done. by left. Qed.
Lemma heap_step_trans P h h1 h2 : heap_step P h h1 -> heap_step P h1 h2 -> heap_step P h h2.
Proof.
  intros H1 H2 p t2 Ht2. destruct (H2 p t2 Ht2) as (t1 & Ht1 & Hd1 & Hs1 & Ha1).
  destruct (H1 p t1 Ht1) as (t & Ht & Hd & Hs & Ha). exists t. split_and!; [done|congruence|auto|].
  destruct Ha1 as [Ha1|?]; [|by right]. rewrite Ha1. by destruct Ha; [left|right].
Qed.
Lemma heap_step_weaken (P Q : nat -> option coro -> Prop) h h' :
  (forall p c, P p c -> Q p c) -> heap_step P h h' -> heap_step Q h h'.
Proof.
  intros HPQ H p t' Ht'. destruct (H p t' Ht') as (t & ? & ? & ? & [?|?]); exists t; split_and!; auto.
Qed.
Lemma heap_step_update (P : nat -> option coro -> Prop) h p t f :
  h !! p = Some t -> t_done (f t) = t_done t -> (t_started (f t) = false -> t_started t = false) ->
  (t_awaiting (f t) = t_awaiting t \/ P p (t_awaiting (f t))) -> heap_step P h (<[p := f t]> h).
Proof.
  intros Hp Hd Hs Ha q t' Ht'. apply lookup_insert_Some in Ht' as [[<- <-]|[? ?]].
  - by exists t.
  - exists t'. split_and!; try done. by left.
Qed.

Lemma registered_heap P h m c s :
  heap_step P (m_tasks m) h -> registered (with_tasks h m) c s ->
  registered m c s \/ exists p, s = STask p /\ P p (Some c).
Proof.
  intros Hh. destruct s as [p|f|ch| |]; simpl; auto.
  - intros (t' & Ht' & Hd & Ha). destruct (Hh p t' Ht') as (t & Ht & Hd' & _ & [Ha'|HP]).
    + left. exists t. split_and!; congruence.
    + right. exists p. split; [done|]. congruence.
  - intros (t' & Ht' & Hs). destruct (Hh c t' Ht') as (t & Ht & _ & Hs' & _). left. exists t. auto.
Qed.

Lemma heap_live P h m c t' :
  heap_step P (m_tasks m) h -> scheduled m -> h !! c = Some t' ->
  c ∈ running (m_stack m) \/ is_Some (m_code m !! c) -> t_done t' = false.
Proof.
  intros Hh Hm Ht' Hc. destruct (Hh c t' Ht') as (t & Ht & -> & _). by apply (sch_live m Hm c t).
Qed.

Lemma heap_known P h m c :
  heap_step P (m_tasks m) h -> is_Some (h !! c) -> is_Some (m_tasks m !! c).
Proof. intros Hh [t' Ht']. destruct (Hh c t' Ht') as (t & Ht & _). by exists t. Qed.

Lemma machine_ok_tasks h m :
  heap_step unlinked (m_tasks m) h -> machine_ok m -> machine_ok (with_tasks h m).
Proof.
  intros Hh (Hm & Hob & He). split; [|split].
  - pose proof Hm as [Hr Hc Ho Hl Hk]. split; simpl; try done.
    + intros c s [H|(p & _ & [=])]%(registered_heap _ _ _ _ _ Hh). by apply Hr.
    + intros c t Ht Hcc. by eapply heap_live.
    + intros c [H|[H|H]]; apply Hk; auto. right. right. by eapply heap_known.
  - by destruct Hob.
  - intros c o k Hcode. specialize (He c o k Hcode). by destruct o.
Qed.

(** The coroutine on top suspends in the await [o]; [m'] is what the await makes of
    the objects. *)
Lemma machine_ok_suspend c p st m m' o k :
  machine_ok (with_stack (Running c p :: st) m) ->
  m_code m' = m_code m -> m_next m' = m_next m ->
  heap_step (fun q d => d = None \/ d = Some c /\ waits_on o (STask q) = true) (m_tasks m) (m_tasks m') ->
  (forall d s, registered (with_tasks (m_tasks m) m') d s ->
     registered m d s \/ (d = c /\ waits_on o s = true)) ->
  objects_ok (with_stack st m') ->
  (forall d o', d <> c -> enlisted m d o' -> enlisted m' d o') ->
  enlisted m' c o ->
  machine_ok (with_stack st (suspend c o k m')).
Proof.
  intros ([Hr Hc Ho Hl Hk] & _ & He) Hcode Hnext Hh Hreg Hob Hkeep Hme. simpl in *.
  assert (m_code m !! c = None) as Hcc by (apply Hc; by left).
  apply NoDup_cons in Ho as [Hnot Ho].
  split; [|split; [by destruct Hob|]].
  - split; simpl; rewrite ?Hcode, ?Hnext; [| |done| |].
    + intros d s Hd.
      assert (registered m d s \/ (d = c /\ waits_on o s = true)) as [Hd'|[-> Hw]].
      { destruct (registered_heap _ (m_tasks m') (with_tasks (m_tasks m) m') d s Hh Hd)
          as [?|(q & -> & [[=]|[[= ->] Hw]])]; [by apply Hreg|by right]. }
      * destruct (Hr d s Hd') as (x & Hx & Hs). exists x. split; [|done].
        rewrite lookup_insert_ne; [done|congruence].
      * exists (At o k). split; [apply lookup_insert_eq|done].
    + intros d Hd. rewrite lookup_insert_ne by (by intros <-). apply Hc. by right.
    + intros d t' Ht' Hd. destruct (Hh d t' Ht') as (t & Ht & -> & _). apply (Hl d t Ht).
      destruct Hd as [Hd|Hd]; [left; by right|]. rewrite lookup_insert in Hd.
      destruct (decide (c = d)) as [<-|]; [left; by left|by right].
    + intros d Hd. apply Hk. destruct Hd as [Hd|[Hd|[t' Ht']]]; [left; by right| |].
      * rewrite lookup_insert in Hd. destruct (decide (c = d)) as [<-|]; [left; by left|right; by left].
      * destruct (Hh d t' Ht') as (t & Ht & _). right. right. by exists t.
  - intros d o' k' Hd. simpl in Hd. rewrite Hcode in Hd.
    apply lookup_insert_Some in Hd as [[<- [= <- <-]]|[Hne Hd]]; [by destruct o|].
    specialize (Hkeep d o' (not_eq_sym Hne) (He d o' k' Hd)). by destruct o'.
Qed.

(** [d], which is suspended, runs on top; nothing resumes it any more. *)
Lemma machine_ok_wake d x p st m m' :
  machine_ok (with_stack st m) -> m_code m !! d = Some x ->
  m_code m' = m_code m -> m_next m' = m_next m ->
  heap_step unlinked (m_tasks m) (m_tasks m') ->
  (forall e s, registered m' e s -> registered m e s /\ e <> d) ->
  objects_ok (with_stack st m') ->
  (forall e o, e <> d -> enlisted m e o -> enlisted m' e o) ->
  machine_ok (with_stack (Running d p :: st) (with_code (delete d (m_code m')) m')).
Proof.
  intros (Hsch & _ & He) Hd Hcode Hnext Hh Hreg Hob Hkeep. pose proof Hsch as [Hr Hc Ho Hl Hk].
  simpl in *. assert (d ∉ running st) as Hnot by (intros Hin%Hc; congruence).
  split; [|split].
  - split; simpl; rewrite ?Hcode, ?Hnext; [| | | |].
    + intros e s Hes. destruct (Hreg e s Hes) as [Hes' Hne]. destruct (Hr e s Hes') as (y & Hy & Hs).
      exists y. by rewrite lookup_delete_ne.
    + intros e [->|He']%elem_of_cons; [apply lookup_delete_eq|].
      rewrite lookup_delete_ne; [by apply Hc|]. by intros <-.
    + by apply NoDup_cons.
    + intros e t' Ht' Hes. eapply (heap_live _ _ (with_stack st m)); [exact Hh|done|exact Ht'|]. simpl.
      destruct Hes as [[->|?]%elem_of_cons|[y Hy]]; [right; by eexists|by left|right].
      apply lookup_delete_Some in Hy as [_ ?]. by eexists.
    + intros e Hes. apply Hk. destruct Hes as [[->|?]%elem_of_cons|[[y Hy]|Ht]];
        [right; left; by eexists|by left| |].
      * apply lookup_delete_Some in Hy as [_ ?]. right. left. by eexists.
      * right. right. by eapply heap_known.
  - destruct Hob as [Hf Hch Ht Hn]. split; try done. intros f fu Hfu. by apply future_ok_running, Hf.
  - intros e o k Hes. simpl in Hes. rewrite Hcode in Hes. apply lookup_delete_Some in Hes as [Hne Hes].
    specialize (Hkeep e o (not_eq_sym Hne) (He e o k Hes)). by destruct o.
Qed.

(** The coroutine on top ends. *)
Lemma machine_ok_finish c p st m t v :
  machine_ok (with_stack (Running c p :: st) m) -> m_tasks m !! c = Some t ->
  machine_ok (with_stack st (with_tasks (<[c := set_done v t]> (m_tasks m)) m)).
Proof.
  intros Hm Ht. pose proof Hm as ([_ Hc Ho _ _] & _ & _).
  assert (m_code m !! c = None) as Hcc by (apply Hc; by left).
  apply NoDup_cons in Ho as [Hnot _].
  apply machine_ok_pop in Hm as ([Hr Hc' Ho Hl Hk] & Hob & He). simpl in *.
  split; [|split; [by destruct Hob|]].
  - split; simpl; [|done|done| |].
    + intros d s Hd. apply Hr. destruct s as [q|f|ch| |]; simpl in *; try done.
      * destruct Hd as (t' & Ht' & Hd & Ha). apply lookup_insert_Some in Ht' as [[<- <-]|[? ?]]; [done|].
        by exists t'.
      * destruct Hd as (t' & Ht' & Hs). apply lookup_insert_Some in Ht' as [[<- <-]|[? ?]]; [by exists t|].
        by exists t'.
    + intros d t' Ht' Hd. apply lookup_insert_Some in Ht' as [[<- <-]|[? ?]]; [|by apply (Hl d t')].
      destruct Hd as [?|[? ?]]; [done|congruence].
    + intros d [Hd|[Hd|[t' Hd]]]; apply Hk; auto. right. right.
      apply lookup_insert_Some in Hd as [[<- _]|[_ ?]]; by eexists.
  - intros d o k Hd. specialize (He d o k Hd). by destruct o.
Qed.

Section Steps.
Context (order : list nat -> list nat) (which : list coro -> nat).
Hypothesis order_perm : forall l, order l ≡ₚ l.

(** ** Resuming *)

(** [m1] is [m] with [d] taken off the list of [s]. *)
Lemma wake_ok d s answer st m m1 :
  machine_ok (with_stack st m) ->
  (exists x, m_code m !! d = Some x /\ at_site x s) -> s <> SStart ->
  m_code m1 = m_code m -> m_next m1 = m_next m -> m_tasks m1 = m_tasks m ->
  (forall e s', registered m1 e s' -> registered m e s') ->
  objects_ok (with_stack st m1) ->
  (forall e o, e <> d -> enlisted m e o -> enlisted m1 e o) ->
  (forall o a h, waits_on o s = true -> answer o (m_tasks m) = (a, h) ->
     heap_step unlinked (m_tasks m) h /\
     ((exists v, a = Val v) \/ (exists e, a = Exn e) ->
      forall s', waits_on o s' = true -> ~ registered (with_tasks h m1) d s')) ->
  next_ok (wake_with d s answer st m1).
Proof.
  intros Hm (x & Hx & Hs) Hst Hcode Hnext Htasks Hreg Hob Hkeep Hans. unfold wake_with. rewrite Hcode, Hx.
  destruct x as [body|o k]; [by destruct s|]. simpl in Hs. rewrite Hs, Htasks.
  destruct (answer o (m_tasks m)) as [a h] eqn:Ea. destruct (Hans o a h Hs Ea) as [Hh Hno].
  assert (forall k', (exists v, a = Val v) \/ (exists e, a = Exn e) ->
    machine_ok (with_stack (Running d k' :: st) (with_tasks h (with_code (delete d (m_code m1)) m1)))) as Hok.
  { intros k' Ha. apply (machine_ok_wake d (At o k) k' st m (with_tasks h m1)); try done.
    - intros e s' Hes. assert (registered m e s') as Hes'.
      { destruct (registered_heap _ h m1 e s' ltac:(by rewrite Htasks) Hes) as [?|(p & _ & [=])].
        by apply Hreg. }
      split; [done|]. intros ->. apply (Hno Ha s'); [|done].
      destruct Hm as (Hsch & _ & _). destruct (sch_registered _ Hsch d s' Hes') as (y & Hy & Hsite).
      simpl in Hy. rewrite Hx in Hy. injection Hy as <-. done.
    - by destruct Hob. }
  rewrite Hcode in Hok.
  destruct a; simpl; try apply next_ok_Undefined; apply next_ok_Step, Hok; eauto.
Qed.

(** Answers that do not touch the tasks. *)
Lemma wake_object_ok d s a st m m1 :
  machine_ok (with_stack st m) ->
  (exists x, m_code m !! d = Some x /\ at_site x s) ->
  (forall p, s <> STask p) -> s <> SStart ->
  m_code m1 = m_code m -> m_next m1 = m_next m -> m_tasks m1 = m_tasks m ->
  (forall e s', registered m1 e s' -> registered m e s') -> ~ registered m1 d s ->
  objects_ok (with_stack st m1) ->
  (forall e o, e <> d -> enlisted m e o -> enlisted m1 e o) ->
  (forall o h, waits_on o s = true -> snd (a o h) = h) ->
  next_ok (wake_with d s a st m1).
Proof.
  intros Hm Hx Hs Hst Hcode Hnext Htasks Hreg Hno Hob Hkeep Ha. apply (wake_ok _ _ _ _ m); try done.
  intros o a' h' Hw Ea. specialize (Ha o (m_tasks m) Hw). rewrite Ea in Ha. simpl in Ha. subst h'.
  split; [apply heap_step_refl|]. intros _ s' Hw' Hreg'.
  assert (s' = s) as ->.
  { destruct s as [p| | | |], o, s'; simpl in Hw, Hw'; try done; try (by destruct (Hs p));
      apply bool_decide_eq_true in Hw, Hw'; congruence. }
  apply Hno. rewrite <- Htasks in Hreg'. by destruct s.
Qed.

Lemma begin_ok p st m :
  machine_ok (with_stack st m) -> (exists body, m_code m !! p = Some (AtStart body)) ->
  (forall t, m_tasks m !! p = Some t -> t_started t = true) ->
  next_ok (begin p st m).
Proof.
  intros Hm [body Hp] Hs. unfold begin. rewrite Hp. apply next_ok_Step.
  apply (machine_ok_wake p (AtStart body) body st m m); try done.
  - apply heap_step_refl.
  - intros e s Hes. split; [done|]. intros ->. destruct Hm as (Hsch & _ & _).
    destruct (sch_registered _ Hsch p s Hes) as (x & Hx & Hsite). simpl in Hx. rewrite Hp in Hx.
    injection Hx as <-. destruct s; try done. destruct Hes as (t & Ht & Hf). specialize (Hs t Ht). congruence.
  - by destruct Hm as (_ & ? & _).
Qed.

(** ** What the operations on tasks do to the heap *)

Lemma deref_inv {A} p (f : @task val -> A) h (a : A) h' :
  deref p f h = (Val a, h') -> h' = h /\ exists t, h !! p = Some t /\ a = f t.
Proof. unfold deref. destruct (h !! p) as [t|]; [|done]. intros [= <- <-]. eauto. Qed.
Lemma update_inv p f (h : theap) a h' :
  update p f h = (Val a, h') -> exists t, h !! p = Some t /\ h' = <[p := f t]> h.
Proof. unfold update. destruct (h !! p) as [t|]; [|done]. intros [= _ <-]. eauto. Qed.
Lemma deref_state {A} p (f : @task val -> A) h : snd (deref p f h) = h.
Proof. unfold deref. by destruct (h !! p). Qed.

Lemma link_heap p c (h : theap) a h' :
  link p c h = (a, h') -> heap_step (fun q d => q = p /\ d = c) h h'.
Proof.
  unfold link, update. destruct (h !! p) as [t|] eqn:Ep; intros [= <- <-]; [|apply heap_step_refl].
  apply heap_step_update; try done. by right.
Qed.

Lemma start_inv t (h : theap) b h' :
  start t h = (Val b, h') ->
  heap_step (fun _ _ => False) h h' /\
  if b then (exists x, h !! t = Some x /\ t_started x = false) /\
            (forall x, h' !! t = Some x -> t_started x = true)
  else h' = h.
Proof.
  unfold start. intros H. apply bind_inv in H as (started & h1 & H1 & H).
  apply deref_inv in H1 as (-> & x & Hx & ->). destruct (t_started x) eqn:Es.
  - injection H as <- <-. split; [apply heap_step_refl|done].
  - apply bind_inv in H as ([] & h2 & H2 & H). apply update_inv in H2 as (y & Hy & ->).
    injection H as <- <-. split.
    + apply heap_step_update; try done. by left.
    + split; [by exists x|]. intros z Hz. rewrite lookup_insert_eq in Hz. by injection Hz as <-.
Qed.

Lemma erase_done_heap tasks (h : theap) o h' :
  erase_done tasks h = (o, h') ->
  heap_step unlinked h h' /\
  (o = Undef \/ exists r, o = Val r /\
     forall p t, p ∈ tasks -> h' !! p = Some t -> t_done t = false -> t_awaiting t = None).
Proof.
  revert h o h'. induction tasks as [|q tasks IH]; intros h o h'; cbn [erase_done].
  { intros [= <- <-]. split; [apply heap_step_refl|]. right. eexists. split; [done|].
    by intros p t ?%elem_of_nil. }
  unfold bind at 1, TaskBase_done, deref. destruct (h !! q) as [x|] eqn:Eq.
  2: { intros [= <- <-]. split; [apply heap_step_refl|by left]. }
  destruct (t_done x) eqn:Ed.
  - unfold bind. destruct (erase_done tasks h) as [o1 h1] eqn:Er.
    destruct (IH h o1 h1 Er) as [Hh [->|(r & -> & Hu)]]; intros [= <- <-]; (split; [done|]); [by left|].
    right. eexists. split; [done|]. intros p t [->|Hp]%elem_of_cons Ht Hd; [|by apply (Hu p)].
    destruct (Hh q t Ht) as (y & Hy & Hd' & _). congruence.
  - unfold bind at 1, link. rewrite (update_eq _ _ _ _ Eq). set (h1 := <[q := _]> h).
    assert (heap_step unlinked h h1) as H1 by (apply heap_step_update; try done; by right).
    unfold bind. destruct (erase_done tasks h1) as [o2 h2] eqn:Er.
    destruct (IH h1 o2 h2 Er) as [Hh Hu]. assert (heap_step unlinked h h2) as H2 by by eapply heap_step_trans.
    destruct Hu as [->|(r & -> & Hu)]; intros [= <- <-]; (split; [done|]); [by left|].
    right. eexists. split; [done|]. intros p t [->|Hp]%elem_of_cons Ht Hd; [|by apply (Hu p)].
    destruct (Hh q t Ht) as (y & Hy & _ & _ & Ha). unfold h1 in Hy. rewrite lookup_insert_eq in Hy.
    injection Hy as <-. by destruct Ha as [->|].
Qed.

(** [await_resume] unlinks the tasks that it leaves in the set. *)
Lemma await_resume_heap o h a h' :
  await_resume order o h = (a, h') ->
  heap_step unlinked h h' /\
  ((exists v, a = Val v) \/ (exists e, a = Exn e) ->
   forall tasks p t, o = OAwaitAny tasks -> p ∈ tasks -> h' !! p = Some t -> t_done t = false ->
     t_awaiting t = None).
Proof.
  destruct o as [|t|t|tasks| | | | | | | | | | | | | | |]; simpl;
    try (intros [= <- <-]; by split; [apply heap_step_refl|]).
  - unfold Task_result, bind. intros H. pose proof (deref_state t t_value h) as Hs.
    destruct (deref t t_value h) as [[v|e| |] h1]; simpl in Hs; subst h1; injection H as <- <-;
      by split; [apply heap_step_refl|].
  - unfold AnyAwaiter_await_resume, bind. destruct (erase_done (order tasks) h) as [r h1] eqn:Er.
    destruct (erase_done_heap _ _ _ _ Er) as [Hh [->|([[p|] l] & -> & Hu)]]; intros [= <- <-];
      (split; [done|]); [by intros [[? [=]]|[? [=]]]| |];
      intros _ tasks' q t [= <-] Hq; apply Hu; by rewrite order_perm.
Qed.

Lemma any_suspend_heap tasks c (h : theap) o h' :
  AnyAwaiter_await_suspend tasks c h = (o, h') -> heap_step (fun q d => q ∈ tasks /\ d = Some c) h h'.
Proof.
  revert h. induction tasks as [|p tasks IH]; intros h; cbn [AnyAwaiter_await_suspend].
  { intros [= _ <-]. apply heap_step_refl. }
  unfold bind. destruct (link p (Some c) h) as [a h1] eqn:El. intros H.
  assert (heap_step (fun q d => q ∈ p :: tasks /\ d = Some c) h h1) as H1.
  { eapply heap_step_weaken; [|exact (link_heap _ _ _ _ _ El)]. intros q d [-> ->]. split; [by left|done]. }
  destruct a; try (injection H as _ <-; done).
  eapply heap_step_trans; [exact H1|]. eapply heap_step_weaken; [|exact (IH h1 H)].
  intros q d [? ->]. split; [by right|done].
Qed.

Lemma task_suspend_inv t c (h : theap) r h' :
  AwaiterBase_await_suspend t c h = (Val r, h') ->
  heap_step (fun q d => q = t /\ d = Some c) h h' /\
  match r with
  | Some p => p = t /\ (exists x, h !! t = Some x /\ t_started x = false) /\
              (forall x, h' !! t = Some x -> t_started x = true)
  | None => True
  end.
Proof.
  unfold AwaiterBase_await_suspend. intros H. apply bind_inv in H as (u & h1 & Hl & H).
  pose proof (link_heap _ _ _ _ _ Hl) as H1. apply bind_inv in H as (started & h2 & H2 & H).
  apply deref_inv in H2 as (-> & x & Hx & ->). apply update_inv in Hl as (y & Hy & ->).
  rewrite lookup_insert_eq in Hx. injection Hx as <-. simpl in H.
  destruct (t_started y) eqn:Es.
  - by injection H as <- <-.
  - apply bind_inv in H as ([] & h3 & H3 & H). apply update_inv in H3 as (z & Hz & ->).
    injection H as <- <-. split; [|split; [done|split; [by exists y|]]].
    + eapply heap_step_trans; [exact H1|]. apply heap_step_update; try done. by left.
    + intros w Hw. rewrite lookup_insert_eq in Hw. by injection Hw as <-.
Qed.

(** ** The steps *)

Lemma registered_start st m t x :
  machine_ok (with_stack st m) -> m_tasks m !! t = Some x -> t_started x = false ->
  exists body, m_code m !! t = Some (AtStart body).
Proof.
  intros (Hsch & _ & _) Ht Hs.
  destruct (sch_registered _ Hsch t SStart) as ([body|o k] & Hx & Hsite); [by exists x|by exists body|].
  by destruct o.
Qed.

Lemma running_no_code c p st m : machine_ok (with_stack (Running c p :: st) m) -> m_code m !! c = None.
Proof. intros (Hsch & _ & _). apply (sch_running _ Hsch). by left. Qed.

(** Suspending in an await of tasks. *)
Lemma suspend_tasks_ok c p st m h o k :
  machine_ok (with_stack (Running c p :: st) m) ->
  heap_step (fun q d => d = None \/ d = Some c /\ waits_on o (STask q) = true) (m_tasks m) h ->
  enlisted (with_tasks h m) c o ->
  machine_ok (with_stack st (suspend c o k (with_tasks h m))).
Proof.
  intros Hm Hh He. eapply machine_ok_suspend; try done.
  - intros d s Hd. left. by destruct s.
  - apply machine_ok_pop in Hm as (_ & Hob & _). by destruct Hob.
Qed.

Lemma await_task_ok c o t k p st m :
  o = OWait t \/ o = OAwait t ->
  machine_ok (with_stack (Running c p :: st) m) -> next_ok (await_task order c o t k st m).
Proof.
  intros Ho Hm. unfold await_task.
  destruct (AwaiterBase_await_ready t (m_tasks m)) as [[[]|e| |] h0]; try apply next_ok_Undefined.
  { destruct (await_resume order o (m_tasks m)) as [a h] eqn:Ea.
    apply (next_ok_go _ _ _ p).
    apply (machine_ok_tasks h (with_stack (Running c p :: st) m)); [|done].
    by destruct (await_resume_heap _ _ _ _ Ea). }
  destruct (AwaiterBase_await_suspend t c (m_tasks m)) as [[r|e| |] h] eqn:Es; try apply next_ok_Undefined.
  destruct (task_suspend_inv _ _ _ _ _ Es) as [Hh Hr].
  assert (machine_ok (with_stack st (suspend c o k (with_tasks h m)))) as Hs.
  { eapply suspend_tasks_ok; [done| |by destruct Ho; subst o].
    eapply heap_step_weaken; [|done]. intros q d [-> ->]. right. split; [done|].
    destruct Ho; subst o; simpl; by apply bool_decide_eq_true. }
  destruct r as [q|]; [|by apply next_ok_Step]. destruct Hr as (-> & (x & Hx & Hf) & Hst).
  apply begin_ok; [done| |done]. destruct (registered_start _ _ t x Hm Hx Hf) as [body Hb].
  exists body. simpl. rewrite lookup_insert_ne; [done|]. intros ->.
  pose proof (running_no_code _ _ _ _ Hm). congruence.
Qed.

Lemma await_any_ok c tasks k p st m :
  machine_ok (with_stack (Running c p :: st) m) -> next_ok (await_any order c tasks k st m).
Proof.
  intros Hm. unfold await_any.
  destruct (AnyAwaiter_await_ready (order tasks) (m_tasks m)) as [[[]|e| |] h0]; try apply next_ok_Undefined.
  - destruct (await_resume order (OAwaitAny tasks) (m_tasks m)) as [a h] eqn:Ea.
    apply (next_ok_go _ _ _ p).
    apply (machine_ok_tasks h (with_stack (Running c p :: st) m)); [|done].
    by destruct (await_resume_heap _ _ _ _ Ea).
  - destruct (AnyAwaiter_await_suspend (order tasks) c (m_tasks m)) as [[u|e| |] h] eqn:Es;
      try apply next_ok_Undefined.
    apply next_ok_Step. eapply suspend_tasks_ok; [done| |done].
    eapply heap_step_weaken; [|exact (any_suspend_heap _ _ _ _ _ Es)]. intros q d [Hq ->]. right.
    split; [done|]. simpl. apply bool_decide_eq_true. by rewrite <- order_perm.
  - by apply (next_ok_go _ _ _ p).
Qed.

Lemma sleep_ok c usecs k p st m :
  machine_ok (with_stack (Running c p :: st) m) ->
  machine_ok (with_stack st (suspend c (OSleep usecs) k
    (with_timers (m_timers m ++ [(m_now m + usecs, c)]) m))).
Proof.
  intros Hm. pose proof (running_no_code _ _ _ _ Hm) as Hc.
  assert (c ∉ (m_timers m).*2) as Hnot.
  { intros Hin. destruct Hm as (Hsch & _ & _).
    destruct (sch_registered _ Hsch c STimer Hin) as (x & Hx & _). simpl in Hx. congruence. }
  eapply machine_ok_suspend; try done.
  - apply heap_step_refl.
  - intros d [q|f|ch| |] Hd; auto. simpl in *. rewrite fmap_app in Hd.
    apply elem_of_app in Hd as [?| ->%list_elem_of_singleton]; auto.
  - apply machine_ok_pop in Hm as (_ & [Hf Hch Ht Hn] & _). split; try done. simpl in *.
    rewrite fmap_app. apply NoDup_app. split; [done|]. split; [|apply NoDup_singleton].
    by intros d Hd ->%list_elem_of_singleton.
  - intros d o _ Hd. destruct o; try done. simpl in *. rewrite fmap_app. apply elem_of_app. by left.
  - simpl. rewrite fmap_app. apply elem_of_app. right. by left.
Qed.

Lemma task_op_ok c o k p st m :
  machine_ok (with_stack (Running c p :: st) m) -> next_ok (task_op order c o k st m).
Proof.
  intros Hm. destruct o as [t|t|t|tasks|t|t|usecs| | | | | | | | | | | |]; cbn [task_op]; try apply next_ok_Undefined.
  - destruct (start t (m_tasks m)) as [[[]|e| |] h] eqn:Es; try apply next_ok_Undefined.
    + destruct (start_inv _ _ _ _ Es) as (Hh & (x & Hx & Hf) & Hst).
      assert (machine_ok (with_stack (Running c (k (Val VVoid)) :: st) (with_tasks h m))) as Hm'.
      { eapply (machine_ok_tasks h (with_stack (Running c (k (Val VVoid)) :: st) m)).
        - eapply heap_step_weaken; [|exact Hh]. done.
        - by apply (machine_ok_go c p). }
      apply begin_ok; [done| |done]. exact (registered_start _ _ t x Hm Hx Hf).
    + by apply (next_ok_go _ _ _ p).
  - apply await_task_ok with (p := p); auto.
  - apply await_task_ok with (p := p); auto.
  - by apply await_any_ok with (p := p).
  - destruct (TaskBase_done t (m_tasks m)) as [[b|e| |] h]; try apply next_ok_Undefined.
    by apply (next_ok_go _ _ _ p).
  - by apply (next_ok_go _ _ _ p).
  - apply next_ok_Step. by apply sleep_ok with (p := p).
  - by apply (next_ok_go _ _ _ p).
Qed.

(** A future and a channel put back. *)
Lemma objects_put_future f fu st m :
  objects_ok (with_stack st m) -> future_ok st f fu -> is_Some (m_futures m !! f) ->
  objects_ok (with_stack st (with_futures (<[f := fu]> (m_futures m)) m)).
Proof.
  intros [Hf Hch Ht Hn] Hok Hs. split; try done; simpl in *.
  - intros g gu Hg. apply lookup_insert_Some in Hg as [[<- <-]|[_ Hg]]; auto.
  - intros g [Hg|Hg]; apply Hn; [left|by right]. destruct Hg as [? Hg].
    apply lookup_insert_Some in Hg as [[<- _]|[_ ?]]; [done|by eexists].
Qed.
Lemma objects_put_channel ch x st m :
  objects_ok (with_stack st m) -> channel_ok x -> is_Some (m_channels m !! ch) ->
  objects_ok (with_stack st (with_channels (<[ch := x]> (m_channels m)) m)).
Proof.
  intros [Hf Hch Ht Hn] Hok Hs. split; try done; simpl in *.
  - intros g gu Hg. apply lookup_insert_Some in Hg as [[<- <-]|[_ Hg]]; eauto.
  - intros g [Hg|Hg]; apply Hn; [by left|right]. destruct Hg as [? Hg].
    apply lookup_insert_Some in Hg as [[<- _]|[_ ?]]; [done|by eexists].
Qed.

(** Who is registered when the list of one future, or channel, is [ws]. *)
Lemma registered_put_future f fu m c s :
  registered (with_futures (<[f := fu]> (m_futures m)) m) c s ->
  (s = SFuture f /\ c ∈ AwaiterList.waiting (fu_awaiting fu)) \/ (s <> SFuture f /\ registered m c s).
Proof.
  destruct s as [p|g|ch| |]; simpl; try (intros H; right; by split).
  intros (gu & Hg & Hc). apply lookup_insert_Some in Hg as [[<- <-]|[Hne Hg]]; [by left|].
  right. split; [congruence|]. by exists gu.
Qed.
Lemma registered_put_channel ch x m c s :
  registered (with_channels (<[ch := x]> (m_channels m)) m) c s ->
  (s = SChannel ch /\ c ∈ waiters x) \/ (s <> SChannel ch /\ registered m c s).
Proof.
  destruct s as [p|f|g| |]; simpl; try (intros H; right; by split).
  intros (gx & Hg & Hc). apply lookup_insert_Some in Hg as [[<- <-]|[Hne Hg]]; [by left|].
  right. split; [congruence|]. by exists gx.
Qed.
Lemma enlisted_put_future f fu fu' m c o :
  m_futures m !! f = Some fu ->
  (c ∈ AwaiterList.waiting (fu_awaiting fu) -> c ∈ AwaiterList.waiting (fu_awaiting fu')) ->
  enlisted m c o -> enlisted (with_futures (<[f := fu']> (m_futures m)) m) c o.
Proof.
  intros Hf Hin. destruct o; try done. simpl. intros (gu & Hg & Hc).
  destruct (decide (f = f0)) as [<-|Hne].
  - exists fu'. split; [apply lookup_insert_eq|]. apply Hin. congruence.
  - exists gu. by rewrite lookup_insert_ne.
Qed.
Lemma enlisted_put_channel ch x x' m c o :
  m_channels m !! ch = Some x -> (c ∈ waiters x -> c ∈ waiters x') ->
  enlisted m c o -> enlisted (with_channels (<[ch := x']> (m_channels m)) m) c o.
Proof.
  intros Hf Hin. destruct o; try done. simpl. intros (gx & Hg & Hc).
  destruct (decide (ch = c0)) as [<-|Hne].
  - exists x'. split; [apply lookup_insert_eq|]. apply Hin. congruence.
  - exists gx. by rewrite lookup_insert_ne.
Qed.

(** A future or channel whose waiting coroutines stay. *)
Lemma machine_ok_put_future f fu fu' st m :
  machine_ok (with_stack st m) -> m_futures m !! f = Some fu ->
  AwaiterList.waiting (fu_awaiting fu') = AwaiterList.waiting (fu_awaiting fu) -> future_ok st f fu' ->
  machine_ok (with_stack st (with_futures (<[f := fu']> (m_futures m)) m)).
Proof.
  intros (Hm & Hob & He) Hf Hw Hok. split; [|split].
  - destruct Hm as [Hr Hc Ho Hl Hk]. split; try done. intros c s Hs. apply Hr.
    destruct (registered_put_future f fu' m c s Hs) as [[-> Hin]|[_ ?]]; [|by destruct s].
    exists fu. split; [done|]. by rewrite <- Hw.
  - apply objects_put_future; eauto.
  - intros c o k Hcode. eapply enlisted_put_future; [exact Hf|by rewrite Hw|by apply (He c o k)].
Qed.
Lemma machine_ok_put_channel ch x x' st m :
  machine_ok (with_stack st m) -> m_channels m !! ch = Some x -> waiters x' = waiters x ->
  channel_ok x' -> machine_ok (with_stack st (with_channels (<[ch := x']> (m_channels m)) m)).
Proof.
  intros (Hm & Hob & He) Hf Hw Hok. split; [|split].
  - destruct Hm as [Hr Hc Ho Hl Hk]. split; try done. intros c s Hs. apply Hr.
    destruct (registered_put_channel ch x' m c s Hs) as [[-> Hin]|[_ ?]]; [|by destruct s].
    exists x. split; [done|]. by rewrite <- Hw.
  - apply objects_put_channel; eauto.
  - intros c o k Hcode. eapply enlisted_put_channel; [exact Hf|by rewrite Hw|by apply (He c o k)].
Qed.

Lemma co_await_inv c (fu : Future val coro) r fu' :
  AwaiterList.wf (fu_awaiting fu) -> Future_co_await c fu = (Val r, fu') ->
  match r with
  | Some a => fu' = fu
  | None => Future_done fu = false /\ Future_done fu' = false /\ AwaiterList.wf (fu_awaiting fu') /\
      AwaiterList.waiting (fu_awaiting fu') = AwaiterList.waiting (fu_awaiting fu) ++ [c]
  end.
Proof.
  intros Hwf. destruct (Future_done fu) eqn:Ed.
  - rewrite co_await_done by done. by intros [= <- <-].
  - destruct (decide (AwaiterList.nodes (fu_awaiting fu) = [] /\
      AwaiterList.insert_it (fu_awaiting fu) <> AwaiterList.BeforeBegin)) as [Hd|Hd].
    + unfold Future_co_await, bind, gets, Future_await_suspend, on_awaiters, focus. rewrite Ed.
      by rewrite AwaiterList.push_dangling.
    + destruct (co_await_pending c fu Ed Hwf Hd) as (l & -> & Hw & Hwf' & _).
      intros [= <- <-]. by split_and!.
Qed.

Lemma NoDup_snoc {A} (l : list A) x : NoDup l -> x ∉ l -> NoDup (l ++ [x]).
Proof.
  intros Hl Hx. apply NoDup_app. split; [done|]. split; [|apply NoDup_singleton].
  by intros y Hy ->%list_elem_of_singleton.
Qed.

Lemma await_future_ok c f fu fu' k p st m :
  machine_ok (with_stack (Running c p :: st) m) -> m_futures m !! f = Some fu ->
  Future_co_await c fu = (Val None, fu') ->
  machine_ok (with_stack st (suspend c (OAwaitFuture f) k (with_futures (<[f := fu']> (m_futures m)) m))).
Proof.
  intros Hm Hf Hr. pose proof Hm as (Hsch & Hob & _).
  destruct (ob_future _ Hob f fu Hf) as (Hwf & Hnd & _).
  destruct (co_await_inv c fu None fu' Hwf Hr) as (_ & Hp & Hwf' & Hw).
  assert (c ∉ AwaiterList.waiting (fu_awaiting fu)) as Hnot.
  { intros Hin. destruct (sch_registered _ Hsch c (SFuture f)) as (x & Hx & _); [by exists fu|].
    pose proof (running_no_code _ _ _ _ Hm). simpl in *. congruence. }
  eapply machine_ok_suspend; try done.
  - apply heap_step_refl.
  - intros d s Hd. destruct (registered_put_future f fu' m d s) as [[-> Hin]|[_ ?]]; [by destruct s| |by left].
    rewrite Hw in Hin. apply elem_of_app in Hin as [Hin| ->%list_elem_of_singleton]; [left; by exists fu|right].
    split; [done|]. simpl. by apply bool_decide_eq_true.
  - apply objects_put_future; [by apply machine_ok_pop in Hm as (_ & ? & _)| |by eexists].
    split; [done|]. rewrite Hw. split; [by apply NoDup_snoc|]. by rewrite Hp.
  - intros d o _ Hd. eapply enlisted_put_future; [exact Hf| |done].
    rewrite Hw. intros Hin. apply elem_of_app. by left.
  - exists fu'. split; [apply lookup_insert_eq|]. rewrite Hw. apply elem_of_app. right. by left.
Qed.

(** The loop of [resume_awaiters] starts, and ends when nobody waits. *)
Lemma machine_ok_push_loop f st m :
  machine_ok (with_stack st m) -> machine_ok (with_stack (Resuming f :: st) m).
Proof.
  intros ([Hr Hc Ho Hl Hk] & [Hf Hch Ht Hn] & He). split; [|split; [|done]]; [done|].
  split; try done. intros g gu Hg. destruct (Hf g gu Hg) as (? & ? & Hd). split; [done|]. split; [done|].
  intros Hdg. destruct (Hd Hdg) as [?|?]; [left; by right|by right].
Qed.
Lemma machine_ok_pop_loop f fu st m :
  machine_ok (with_stack (Resuming f :: st) m) -> m_futures m !! f = Some fu ->
  AwaiterList.waiting (fu_awaiting fu) = [] -> machine_ok (with_stack st m).
Proof.
  intros ([Hr Hc Ho Hl Hk] & [Hf Hch Ht Hn] & He) Hfu Hw. split; [|split; [|done]]; [done|].
  split; try done. intros g gu Hg. destruct (Hf g gu Hg) as (? & ? & Hd). split; [done|]. split; [done|].
  intros Hdg. simpl in Hg.
  destruct (Hd Hdg) as [[[= ->]|?]%elem_of_cons|?]; [right; congruence|by left|by right].
Qed.

Lemma future_op_ok c o f k p st m :
  (o = OAwaitFuture f \/ (forall g, o <> OAwaitFuture g)) ->
  machine_ok (with_stack (Running c p :: st) m) -> next_ok (future_op c o f k st m).
Proof.
  intros Ho Hm. unfold future_op. destruct (m_futures m !! f) as [fu|] eqn:Hf; [|apply next_ok_Undefined].
  pose proof Hm as (_ & Hob & _). pose proof (ob_future _ Hob f fu Hf) as (Hwf & Hnd & Hdone). cbv zeta.
  destruct o; try apply next_ok_Undefined; try (by apply (next_ok_go _ _ _ p)).
  - destruct Ho as [[= ->]|Ho]; [|by destruct (Ho f0)].
    destruct (Future_co_await c fu) as [[[a|]|e| |] fu'] eqn:Hr; try apply next_ok_Undefined.
    + assert (fu' = fu) as -> by exact (co_await_inv c fu (Some a) fu' Hwf Hr).
      apply (next_ok_go _ _ _ p). by eapply machine_ok_put_future.
    + apply next_ok_Step. by eapply await_future_ok.
  - destruct (Future_set what v fu) as [[[]|e| |] fu'] eqn:Hr; try apply next_ok_Undefined.
    + destruct (Future_set_spec _ _ _ _ Hr) as [Hp ->]. apply next_ok_Step.
      apply (machine_ok_put_future f fu _ (Resuming f :: Running c (k (Val VVoid)) :: st) m); try done.
      * by apply machine_ok_push_loop, (machine_ok_go c p).
      * split; [done|]. split; [done|]. intros _. left. by left.
    + assert (fu' = fu) as -> by (unfold Future_set in Hr; destruct (Future_done fu); by simplify_eq).
      apply (next_ok_go _ _ _ p). by eapply machine_ok_put_future.
Qed.

Lemma resume_round_ok f st m :
  machine_ok (with_stack (Resuming f :: st) m) -> next_ok (resume_round f st m).
Proof.
  intros Hm. unfold resume_round. destruct (m_futures m !! f) as [fu|] eqn:Hf; [|apply next_ok_Undefined].
  pose proof Hm as (Hsch & Hob & He). pose proof (ob_future _ Hob f fu Hf) as (Hwf & Hnd & Hdone).
  pose proof (resume_next_spec fu Hwf) as Hn. cbv zeta.
  destruct (AwaiterList.waiting (fu_awaiting fu)) as [|d ws] eqn:Ew.
  - rewrite Hn. apply next_ok_Step.
    apply (machine_ok_put_future f fu fu st m); try done.
    + by eapply machine_ok_pop_loop.
    + split; [done|]. rewrite Ew. by split; [|right].
  - destruct Hn as (l & -> & Hl & Hwf'). rewrite <- Hl in Hnd. apply NoDup_cons in Hnd as [Hnot Hnd].
    apply (wake_object_ok d (SFuture f) _ (Resuming f :: st) m); try done.
    + apply (sch_registered _ Hsch d (SFuture f)). exists fu. split; [done|]. rewrite Ew. by left.
    + intros e s' [[-> Hin]|[_ ?]]%registered_put_future; [|done]. exists fu. split; [done|].
      rewrite Ew. right. by rewrite <- Hl.
    + intros [[_ Hin]|[? _]]%registered_put_future; done.
    + apply objects_put_future; [done| |by eexists]. split; [done|]. split; [done|]. intros _. left. by left.
    + intros e o Hne Heo. eapply enlisted_put_future; [exact Hf| |done].
      rewrite Ew, <- Hl. by intros [?|?]%elem_of_cons.
Qed.

Lemma channel_read_inv c (x : Channel val coro) r x' :
  channel_inv x -> Channel_read c x = (Val r, x') ->
  channel_inv x' /\
  waiters x' = match r with Some _ => waiters x | None => waiters x ++ [c] end.
Proof.
  intros Hx. destruct (ch_queue x) as [|v q] eqn:Eq.
  - destruct (decide (AwaiterList.nodes (ch_awaiting x) = [] /\
      AwaiterList.insert_it (ch_awaiting x) <> AwaiterList.BeforeBegin)) as [Hd|Hd].
    + pose proof (Channel_read_dangling c x Eq Hd) as Hu. intros Hr. by rewrite Hr in Hu.
    + destruct (Channel_read_suspends c x Hx Eq Hd) as (x1 & -> & ? & _ & ?). by intros [= <- <-].
  - destruct x as [q0 l]. simpl in Eq. subst q0. rewrite Channel_read_item. intros [= <- <-].
    destruct Hx as [Hwf [?|Hw]]; [done|]. split; [|done]. split; [done|by right].
Qed.

Lemma await_channel_ok c ch x x' k p st m :
  machine_ok (with_stack (Running c p :: st) m) -> m_channels m !! ch = Some x ->
  Channel_read c x = (Val None, x') ->
  machine_ok (with_stack st (suspend c (ORead ch) k (with_channels (<[ch := x']> (m_channels m)) m))).
Proof.
  intros Hm Hx Hr. pose proof Hm as (Hsch & Hob & _).
  destruct (ob_channel _ Hob ch x Hx) as [Hinv Hnd].
  destruct (channel_read_inv c x None x' Hinv Hr) as [Hinv' Hw].
  assert (c ∉ waiters x) as Hnot.
  { intros Hin. destruct (sch_registered _ Hsch c (SChannel ch)) as (y & Hy & _); [by exists x|].
    pose proof (running_no_code _ _ _ _ Hm). simpl in *. congruence. }
  eapply machine_ok_suspend; try done.
  - apply heap_step_refl.
  - intros d s Hd. destruct (registered_put_channel ch x' m d s) as [[-> Hin]|[_ ?]];
      [by destruct s| |by left].
    rewrite Hw in Hin. apply elem_of_app in Hin as [Hin| ->%list_elem_of_singleton]; [left; by exists x|right].
    split; [done|]. simpl. by apply bool_decide_eq_true.
  - apply objects_put_channel; [by apply machine_ok_pop in Hm as (_ & ? & _)| |by eexists].
    split; [done|]. rewrite Hw. by apply NoDup_snoc.
  - intros d o _ Hd. eapply enlisted_put_channel; [exact Hx| |done].
    rewrite Hw. intros Hin. apply elem_of_app. by left.
  - exists x'. split; [apply lookup_insert_eq|]. rewrite Hw. apply elem_of_app. right. by left.
Qed.

Lemma channel_op_ok c o ch k p st m :
  (o = ORead ch \/ (forall g, o <> ORead g)) ->
  machine_ok (with_stack (Running c p :: st) m) -> next_ok (channel_op c o ch k st m).
Proof.
  intros Ho Hm. unfold channel_op. destruct (m_channels m !! ch) as [x|] eqn:Hx; [|apply next_ok_Undefined].
  pose proof Hm as (Hsch & Hob & _). pose proof (ob_channel _ Hob ch x Hx) as [Hinv Hnd]. cbv zeta.
  destruct o; try apply next_ok_Undefined; try (by apply (next_ok_go _ _ _ p)).
  - destruct Ho as [[= ->]|Ho]; [|by destruct (Ho c0)].
    destruct (Channel_read c x) as [[[v|]|e| |] x'] eqn:Hr; try apply next_ok_Undefined.
    + destruct (channel_read_inv c x (Some v) x' Hinv Hr) as [Hinv' Hw].
      apply (next_ok_go _ _ _ p). apply (machine_ok_put_channel ch x); try done. split; [done|congruence].
    + apply next_ok_Step. by eapply await_channel_ok.
  - apply (machine_ok_go c p (k (Val VVoid))) in Hm. pose proof Hm as (Hsch' & Hob' & _).
    pose proof (Channel_write_spec v x Hinv) as Hwr. destruct (waiters x) as [|d ws] eqn:Ew.
    + rewrite Hwr. apply next_ok_Step.
      apply (machine_ok_put_channel ch x _ (Running c (k (Val VVoid)) :: st)); try done.
      split; [split; [by destruct Hinv|by right]|]. unfold waiters in *. simpl. by rewrite Ew.
    + destruct Hwr as (x' & -> & Hinv' & _ & Hw'). rewrite <- Hw' in Hnd. apply NoDup_cons in Hnd as [Hnot Hnd].
      apply (wake_object_ok d (SChannel ch) _ (Running c (k (Val VVoid)) :: st) m); try done.
      * apply (sch_registered _ Hsch' d (SChannel ch)). exists x. split; [done|]. rewrite Ew. by left.
      * intros e s' [[-> Hin]|[_ ?]]%registered_put_channel; [|done]. exists x. split; [done|].
        rewrite Ew. right. by rewrite <- Hw'.
      * intros [[_ Hin]|[? _]]%registered_put_channel; done.
      * by apply objects_put_channel; [done| |eexists].
      * intros e o Hne Heo. eapply enlisted_put_channel; [exact Hx| |done].
        rewrite Ew, <- Hw'. by intros [?|?]%elem_of_cons.
Qed.

(** A new future or channel. *)
Lemma new_future_ok c p st m :
  machine_ok (with_stack (Running c p :: st) m) ->
  machine_ok (with_stack (Running c p :: st)
    (with_futures (<[m_next m := Future_new]> (m_futures m)) (with_next (S (m_next m)) m))).
Proof.
  intros (Hm & [Hf Hch Ht Hn] & He). simpl in *.
  assert (m_futures m !! m_next m = None) as Hnew.
  { destruct (m_futures m !! m_next m) eqn:E; [|done]. specialize (Hn (m_next m)).
    assert (m_next m < m_next m)%nat by (apply Hn; left; by eexists). lia. }
  split; [|split].
  - destruct Hm as [Hr Hc Ho Hl Hk]. split; try done.
    + intros d s Hd. apply Hr.
      destruct (registered_put_future (m_next m) Future_new m d s ltac:(by destruct s)) as [[-> Hin]|[_ ?]];
        [|by destruct s]. by apply elem_of_nil in Hin.
    + intros d Hd. specialize (Hk d Hd). simpl in *. lia.
  - split; try done; simpl.
    + intros f fu [[<- <-]|[_ Hf']]%lookup_insert_Some; [|by apply (Hf f)].
      split; [apply AwaiterList.wf_empty|]. by split; [constructor|].
    + intros f [[fu Hfu]|Hf']; [|specialize (Hn f (or_intror Hf')); lia].
      apply lookup_insert_Some in Hfu as [[<- _]|[_ Hfu]]; [lia|].
      specialize (Hn f (or_introl (ex_intro _ fu Hfu))). lia.
  - intros d o k Hd. specialize (He d o k Hd). destruct o; try done. simpl in *.
    destruct He as (fu & Hfu & Hin). exists fu. split; [|done]. rewrite lookup_insert_ne; [done|congruence].
Qed.
Lemma new_channel_ok c p st m :
  machine_ok (with_stack (Running c p :: st) m) ->
  machine_ok (with_stack (Running c p :: st)
    (with_channels (<[m_next m := Channel_new]> (m_channels m)) (with_next (S (m_next m)) m))).
Proof.
  intros (Hm & [Hf Hch Ht Hn] & He). simpl in *.
  assert (m_channels m !! m_next m = None) as Hnew.
  { destruct (m_channels m !! m_next m) eqn:E; [|done]. specialize (Hn (m_next m)).
    assert (m_next m < m_next m)%nat by (apply Hn; right; by eexists). lia. }
  split; [|split].
  - destruct Hm as [Hr Hc Ho Hl Hk]. split; try done.
    + intros d s Hd. apply Hr.
      destruct (registered_put_channel (m_next m) Channel_new m d s ltac:(by destruct s)) as [[-> Hin]|[_ ?]];
        [|by destruct s]. by apply elem_of_nil in Hin.
    + intros d Hd. specialize (Hk d Hd). simpl in *. lia.
  - split; try done; simpl.
    + intros ch x [[<- <-]|[_ Hx]]%lookup_insert_Some; [|by apply (Hch ch)].
      split; [apply channel_inv_new|constructor].
    + intros f [Hf'|[x Hx]]; [specialize (Hn f (or_introl Hf')); lia|].
      apply lookup_insert_Some in Hx as [[<- _]|[_ Hx]]; [lia|].
      specialize (Hn f (or_intror (ex_intro _ x Hx))). lia.
  - intros d o k Hd. specialize (He d o k Hd). destruct o; try done. simpl in *.
    destruct He as (x & Hx & Hin). exists x. split; [|done]. rewrite lookup_insert_ne; [done|congruence].
Qed.

Lemma run_op_ok c o k p st m :
  machine_ok (with_stack (Running c p :: st) m) -> next_ok (run_op order c o k st m).
Proof.
  intros Hm. destruct o; cbn [run_op]; try (by apply (task_op_ok _ _ _ p));
    try (apply (future_op_ok _ _ _ _ p); [by (by left) || by right|done]);
    try (apply (channel_op_ok _ _ _ _ p); [by (by left) || by right|done]).
  - apply (next_ok_go _ _ _ p). by apply new_future_ok.
  - apply (next_ok_go _ _ _ p). by apply new_channel_ok.
  - by split.
Qed.

Lemma call_task_ok c dflt body k p st m :
  machine_ok (with_stack (Running c p :: st) m) -> next_ok (call_task c dflt body k st m).
Proof.
  intros Hm. apply next_ok_Step. apply (machine_ok_go c p (k (m_next m))) in Hm.
  destruct Hm as ([Hr Hc Ho Hl Hk] & [Hf Hch Ht Hn] & He). set (q := m_next m) in *. simpl in *.
  assert (m_tasks m !! q = None) as Hq.
  { destruct (m_tasks m !! q) eqn:E; [|done]. assert (q < m_next m)%nat; [|unfold q in *; lia].
    apply Hk. right. right. by eexists. }
  assert (m_code m !! q = None) as Hq'.
  { destruct (m_code m !! q) eqn:E; [|done]. assert (q < m_next m)%nat; [|unfold q in *; lia].
    apply Hk. right. left. by eexists. }
  split; [|split].
  - split; simpl; [| |done| |].
    + intros d s Hd.
      assert ((d = q /\ s = SStart) \/ (d <> q /\ registered m d s)) as [[-> ->]|[Hne Hd']].
      { destruct s as [r|f|ch| |]; simpl in *.
        - destruct Hd as (t & Ht' & Hdone & Ha). apply lookup_insert_Some in Ht' as [[<- <-]|[? Ht']]; [done|].
          right. split; [|by exists t]. intros ->.
          destruct (Hr q (STask r)) as (x & Hx & _); [by exists t|congruence].
        - right. split; [|done]. intros ->. destruct (Hr q (SFuture f) Hd) as (x & Hx & _). congruence.
        - right. split; [|done]. intros ->. destruct (Hr q (SChannel ch) Hd) as (x & Hx & _). congruence.
        - right. split; [|done]. intros ->. destruct (Hr q STimer Hd) as (x & Hx & _). congruence.
        - destruct Hd as (t & Ht' & Hst). apply lookup_insert_Some in Ht' as [[<- _]|[? Ht']]; [by left|].
          right. split; [done|by exists t]. }
      * exists (AtStart body). split; [apply lookup_insert_eq|done].
      * destruct (Hr d s Hd') as (x & Hx & Hs). exists x. by rewrite lookup_insert_ne.
    + intros d Hd. rewrite lookup_insert_ne; [by apply Hc|]. intros <-.
      assert (q < m_next m)%nat by (apply Hk; by left). unfold q in *. lia.
    + intros d t Ht' Hd. apply lookup_insert_Some in Ht' as [[<- <-]|[Hne Ht']]; [done|].
      apply (Hl d t Ht'). destruct Hd as [?|Hd]; [by left|right]. by rewrite lookup_insert_ne in Hd.
    + intros d Hd. cut (d = q \/ (d < m_next m)%nat); [unfold q; lia|].
      destruct Hd as [Hd|[[x Hd]|[x Hd]]]; [right; apply Hk; by left| |];
        (apply lookup_insert_Some in Hd as [[<- _]|[_ Hd]]; [by left|right; apply Hk]); right;
        [left|right]; by eexists.
  - split; try done. simpl. intros f Hd. specialize (Hn f Hd). lia.
  - intros d o k' Hd. simpl in Hd. apply lookup_insert_Some in Hd as [[_ [=]]|[_ Hd]].
    specialize (He d o k' Hd). by destruct o.
Qed.

Lemma end_coroutine_ok c o st m :
  machine_ok (with_stack (Running c (CoReturn o) :: st) m) -> next_ok (end_coroutine order c o st m).
Proof.
  intros Hm. unfold end_coroutine.
  destruct (m_tasks m !! c) as [t|] eqn:Ht; destruct (promise_of o) as [v|] eqn:Ev;
    try apply next_ok_Undefined.
  2: { destruct v; [|by split]. apply next_ok_Step. by eapply machine_ok_pop. }
  unfold finish, bind. rewrite (update_eq _ _ _ _ Ht).
  rewrite (deref_eq _ _ (set_done v t)) by apply lookup_insert_eq. simpl.
  pose proof (machine_ok_finish _ _ _ _ _ v Hm Ht) as Hm'. set (m1 := with_tasks _ m) in *.
  destruct (t_awaiting t) as [d|] eqn:Ea; [|by apply next_ok_Step].
  apply (wake_ok d (STask c) _ _ m1 m1); try done.
  - destruct Hm as (Hsch & _ & _). apply (sch_registered _ Hsch d (STask c)). exists t.
    split; [done|]. split; [|done]. apply (sch_live _ Hsch c t Ht). left. by left.
  - by destruct Hm' as (_ & ? & _).
  - intros o' a h Hw Ha. destruct (await_resume_heap _ _ _ _ Ha) as [Hh Hu]. split; [done|].
    intros Hval s' Hw' Hreg. destruct s' as [q|f|ch| |]; try (by destruct o'). simpl in Hreg.
    destruct Hreg as (t' & Ht' & Hd & Hlink). destruct (Hh q t' Ht') as (t0 & Ht0 & Hd0 & _).
    assert (forall u, m_tasks m1 !! c = Some u -> t_done u = true) as Hdone
      by (intros u Hu'; simpl in Hu'; rewrite lookup_insert_eq in Hu'; by injection Hu' as <-).
    destruct o'; simpl in Hw, Hw'; try done;
      apply bool_decide_eq_true in Hw, Hw'; try subst.
    + specialize (Hdone _ Ht0). congruence.
    + specialize (Hdone _ Ht0). congruence.
    + specialize (Hu Hval _ q t' eq_refl Hw' Ht' Hd). congruence.
Qed.

Lemma due_timers d timers c : c ∈ due d timers -> c ∈ timers.*2.
Proof.
  unfold due. intros Hin. apply list_elem_of_In, List.in_map_iff in Hin as (x & <- & Hin).
  apply List.filter_In in Hin as [Hin _]. apply list_elem_of_fmap. exists x. split; [done|].
  by apply list_elem_of_In.
Qed.

Lemma NoDup_snd_filter {A B} (P : A * B -> bool) (l : list (A * B)) :
  NoDup l.*2 -> NoDup (List.filter P l).*2.
Proof.
  induction l as [|x l IH]; simpl; [done|]. intros [Hx Hl]%NoDup_cons.
  destruct (P x); simpl; [|by apply IH]. apply NoDup_cons. split; [|by apply IH].
  intros (y & Hy & Hin)%list_elem_of_fmap. apply Hx. rewrite Hy. apply list_elem_of_fmap.
  exists y. split; [done|]. apply list_elem_of_In in Hin. apply list_elem_of_In.
  by apply List.filter_In in Hin as [? _].
Qed.

Lemma fire_ok m : machine_ok (with_stack [] m) -> next_ok (fire order which m).
Proof.
  intros Hm. unfold fire. destruct (earliest (m_timers m)) as [d|]; [|by split].
  destruct (due d (m_timers m)) as [|c0 cs] eqn:Ed; [by split|]. cbv zeta.
  set (c := nth (which (c0 :: cs)) cs c0).
  assert (c ∈ (m_timers m).*2) as Hc.
  { apply (due_timers d). rewrite Ed. unfold c.
    destruct (nth_in_or_default (which (c0 :: cs)) cs c0) as [Hin| ->]; [right; by apply list_elem_of_In|by left]. }
  assert (forall e, e ∈ (List.filter (fun t => negb (snd t =? c)%nat) (m_timers m)).*2 <->
    e ∈ (m_timers m).*2 /\ e <> c) as Hfilter.
  { intros e. rewrite !list_elem_of_fmap. split.
    - intros (x & -> & Hin). apply list_elem_of_In, List.filter_In in Hin as [Hin Hx].
      apply list_elem_of_In in Hin. split; [by exists x|]. apply negb_true_iff, Nat.eqb_neq in Hx. done.
    - intros [(x & -> & Hin) Hne]. exists x. split; [done|]. apply list_elem_of_In, List.filter_In.
      split; [by apply list_elem_of_In|]. by apply negb_true_iff, Nat.eqb_neq. }
  pose proof Hm as (Hsch & Hob & _).
  apply (wake_object_ok c STimer _ [] m); try done.
  - exact (sch_registered _ Hsch c STimer Hc).
  - intros e [q|f|ch| |] He; try done. simpl in He |- *. by apply Hfilter in He as [? _].
  - simpl. intros He. by apply Hfilter in He as [_ ?].
  - destruct Hob as [Hf Hch Ht Hn]. split; try done. simpl in *.
    by apply NoDup_snd_filter.
  - intros e o Hne He. destruct o; try done. simpl in *. by apply Hfilter.
  - intros o h Hw. by destruct o.
Qed.

Lemma step_ok m : machine_ok m -> next_ok (step order which m).
Proof.
  intros Hm. unfold step. destruct m as [nw tasks code futures channels timers nx st]. simpl.
  set (m := mkMachine _ _ _ _ _ _ _ _) in *.
  destruct st as [|[c [o|dflt body k|o k]|f] st].
  - by apply fire_ok.
  - by apply end_coroutine_ok.
  - by apply (call_task_ok _ _ _ _ (CallTask dflt body k)).
  - by apply (run_op_ok _ _ _ (Do o k)).
  - by apply resume_round_ok.
Qed.

(** ** Reachable machines *)

(** Detached tasks are called between two runs of the event loop. *)
Inductive reachable : machine -> Prop :=
| reach_new : reachable machine_new
| reach_call body m : reachable m -> m_stack m = [] -> reachable (call_detached body m)
| reach_step m m' : reachable m -> step order which m = Step m' -> reachable m'.

Lemma with_stack_eta m st : m_stack m = st -> with_stack st m = m.
Proof. intros <-. by destruct m. Qed.

Lemma call_detached_ok body m : machine_ok m -> m_stack m = [] -> machine_ok (call_detached body m).
Proof.
  intros (Hsch & [Hf Hch Ht Hn] & He) Hst. pose proof Hsch as [Hr Hc Ho Hl Hk]. unfold call_detached.
  assert (m_code m !! m_next m = None) as Hnew.
  { destruct (m_code m !! m_next m) eqn:E; [|done]. assert (m_next m < m_next m)%nat; [|lia].
    apply Hk. right. left. by eexists. }
  split; [|split].
  - split; simpl; [done| | | |].
    + by intros c ->%list_elem_of_singleton.
    + apply NoDup_singleton.
    + intros c t Htc [->%list_elem_of_singleton|Hcode]; [|apply (Hl c t Htc); by right].
      assert (m_next m < m_next m)%nat; [|lia]. apply Hk. right. right. by eexists.
    + intros c [->%list_elem_of_singleton|Hcc]; [lia|]. specialize (Hk c (or_intror Hcc)). lia.
  - split; simpl; try done.
    + intros f fu Hfu. apply future_ok_running. rewrite <- Hst. by apply Hf.
    + intros f Hd. specialize (Hn f Hd). lia.
  - intros c o k Hcode. specialize (He c o k Hcode). by destruct o.
Qed.

Lemma reachable_ok m : reachable m -> machine_ok m.
Proof.
  induction 1 as [|body m _ IH Hst|m m' _ IH Hs].
  - apply machine_ok_new.
  - by apply call_detached_ok.
  - by apply (step_ok m IH).
Qed.

Lemma due_nonempty timers d : earliest timers = Some d -> due d timers <> [].
Proof.
  destruct timers as [|[d0 c0] timers]; [done|]. intros [= <-].
  assert (exists t, t ∈ (d0, c0) :: timers /\ fst t = foldr (fun t a => Z.min (fst t) a) d0 timers)
    as (t & Hin & Ht).
  { induction timers as [|[d1 c1] timers IH]; simpl; [by exists (d0, c0); split; [left|]|].
    destruct IH as (t & Hin & Ht).
    destruct (Z.min_spec d1 (foldr (fun t a => Z.min (fst t) a) d0 timers)) as [[_ ->]|[_ ->]].
    - exists (d1, c1). split; [right; by left|done].
    - exists t. split; [|done]. apply elem_of_cons in Hin as [->|Hin]; [by left|]. right. by right. }
  intros Hd. assert (snd t ∈ due (foldr (fun t a => Z.min (fst t) a) d0 timers) ((d0, c0) :: timers)) as Hs.
  { unfold due. apply list_elem_of_In, List.in_map, List.filter_In. split; [by apply list_elem_of_In|].
    by apply Z.eqb_eq. }
  rewrite Hd in Hs. by apply elem_of_nil in Hs.
Qed.

Lemma wake_not_idle d s a st m : wake_with d s a st m <> Idle.
Proof.
  unfold wake_with. destruct (m_code m !! d) as [[|o k]|]; try done. destruct (waits_on o s); [|done].
  by destruct (a o (m_tasks m)) as [[] ?].
Qed.

Lemma fire_idle m : fire order which m = Idle -> m_timers m = [].
Proof.
  unfold fire. destruct (earliest (m_timers m)) as [d|] eqn:Ee.
  - pose proof (due_nonempty _ _ Ee). destruct (due d (m_timers m)); [done|].
    by intros Hs%wake_not_idle.
  - by destruct (m_timers m) as [|[]].
Qed.

(** Who is left when nothing is left to do. *)
Lemma idle_waits m c o k :
  machine_ok m -> m_stack m = [] -> m_timers m = [] -> m_code m !! c = Some (At o k) ->
  match o with
  | OSleep _ => False
  | OAwaitFuture f => exists fu, m_futures m !! f = Some fu /\ Future_done fu = false
  | ORead ch => exists x, m_channels m !! ch = Some x /\ Channel_empty x = true
  | _ => True
  end.
Proof.
  intros (_ & Hob & He) Hst Ht Hc. specialize (He c o k Hc). destruct o; try done; simpl in He.
  - rewrite Ht in He. by apply elem_of_nil in He.
  - destruct He as (fu & Hf & Hin). exists fu. split; [done|].
    destruct (ob_future _ Hob f fu Hf) as (_ & _ & Hd). destruct (Future_done fu); [|done].
    destruct (Hd eq_refl) as [Hr|Hw]; [rewrite Hst in Hr|rewrite Hw in Hin]; by apply elem_of_nil in Hr || apply elem_of_nil in Hin.
  - destruct He as (x & Hx & Hin). exists x. split; [done|].
    destruct (ob_channel _ Hob c0 x Hx) as [[_ [Hq|Hw]] _]; [by unfold Channel_empty; rewrite Hq|].
    unfold waiters in Hin. rewrite Hw in Hin. by apply elem_of_nil in Hin.
Qed.
End Steps.

(** ** Properties *)

(** C5: whatever coroutines a program runs -- tasks, sets of tasks, futures,
    channels and timers awaited in any combination -- a coroutine is resumed only
    while it is suspended, by what it awaits: no task that ends, no write to a
    channel, no future that gets its outcome and no timer resumes a coroutine that
    runs or that waits for something else. Futures, channels and timers forget
    nobody: when the event loop has nothing left to do, nobody sleeps, and who still
    awaits a future or a channel awaits one without an outcome, or an empty one. *)
Theorem resumed_where_they_wait (order : list nat -> list nat) (which : list coro -> nat) m :
  (forall l, order l ≡ₚ l) -> reachable order which m ->
  step order which m <> Broken /\
  (forall c s, registered m c s -> exists x, m_code m !! c = Some x /\ at_site x s) /\
  (forall c o k, m_code m !! c = Some (At o k) -> enlisted m c o) /\
  (m_stack m = [] -> step order which m = Idle -> forall c o k, m_code m !! c = Some (At o k) ->
     match o with
     | OSleep _ => False
     | OAwaitFuture f => exists fu, m_futures m !! f = Some fu /\ Future_done fu = false
     | ORead ch => exists x, m_channels m !! ch = Some x /\ Channel_empty x = true
     | _ => True
     end).
Proof.
  intros Ho Hr. pose proof (reachable_ok order which Ho m Hr) as Hm. pose proof Hm as (Hsch & _ & He).
  split; [by apply (step_ok order which Ho m Hm)|]. split; [apply (sch_registered _ Hsch)|].
  split; [exact He|]. intros Hst Hi c o k. apply idle_waits; try done.
  apply (fire_idle order which). unfold step in Hi. by rewrite Hst in Hi.
Qed.

(** A coroutine that reads a channel nobody writes to. *)
Lemma resumed_where_they_wait_witness :
  let m1 := call_detached (Do ONewChannel (fun _ => Do (ORead 1) CoReturn)) machine_new in
  exists m, step (fun l => l) (fun _ => 0%nat) m1 = Step m /\
    step (fun l => l) (fun _ => 0%nat) m <> Broken.
Proof.
  intros m1. destruct (step (fun l => l) (fun _ => 0%nat) m1) as [m| | | |] eqn:E; try discriminate E.
  exists m. split; [reflexivity|].
  apply (resumed_where_they_wait (fun l => l) (fun _ => 0%nat) m).
  - reflexivity.
  - eapply reach_step; [|exact E]. apply reach_call; [apply reach_new|reflexivity].
Defined.
