(* ===== verification/Exploration.v ===== *)
(** * Exhaustive exploration of the machine of coroutines

    Two choices of a run are left open: the order in which a set of tasks is
    iterated, and which of the timers that are due together fires first. A run is
    given them as functions of the whole state of the machine. [outcomes] lists
    what a step can do whatever the choice is, [finals] follows every one of them to
    its end, and [finals_sound] says that the runs under any choice end in one of
    the machines found: a computation then proves a property of all of them. *)
From stdpp Require Import tactics base list numbers strings gmap.
From S2P Require Import Prelude Channel Future Task Coroutines.

(** ** Decidable equality of machines at rest *)

#[export] Instance iterator_list_eq_dec {Coro} `{!EqDecision Coro} : EqDecision (AwaiterList.t Coro).
Proof. solve_decision. Defined.
#[export] Instance promise_value_eq_dec : EqDecision (@promise_value val).
Proof. solve_decision. Defined.
#[export] Instance task_eq_dec : EqDecision (@task val).
Proof. solve_decision. Defined.
#[export] Instance future_value_eq_dec : EqDecision (@future_value val).
Proof. solve_decision. Defined.
#[export] Instance future_eq_dec : EqDecision (@Future val coro).
Proof. solve_decision. Defined.
#[export] Instance channel_eq_dec : EqDecision (Channel val coro).
Proof. solve_decision. Defined.

(** Nothing is suspended and nothing is left to do. *)
Definition at_rest (m : machine) : bool :=
  bool_decide (m_code m = ∅) && bool_decide (m_timers m = []) &&
  match m_stack m with [] => true | _ => false end.

(** The rest of the state, all that tells machines at rest apart. *)
Definition rest_state (m : machine) :
    Z * gmap nat (@task val) * gmap nat (@Future val coro) * gmap nat (Channel val coro) * nat :=
  (m_now m, m_tasks m, m_futures m, m_channels m, m_next m).

Lemma at_rest_eq m m' : at_rest m = true -> at_rest m' = true -> rest_state m = rest_state m' -> m = m'.
Proof.
  destruct m as [? ? ? ? ? ? ? st], m' as [? ? ? ? ? ? ? st']. unfold at_rest, rest_state. cbn.
  rewrite !andb_true_iff, !bool_decide_eq_true.
  intros [[-> ->] Hst] [[-> ->] Hst'] [= -> -> -> -> ->]. by destruct st, st'.
Qed.

(** ** What a step can do *)

(** The set of tasks whose order a step asks for, if it does. *)
Definition asked (m : machine) : list nat :=
  match m_stack m with
  | Running _ (Do (OAwaitAny tasks) _) :: _ => tasks
  | Running c (CoReturn o) :: _ =>
      match m_tasks m !! c, promise_of o with
      | Some _, Some v =>
          match finish c v (m_tasks m) with
          | (Val (Some d), _) =>
              match m_code m !! d with Some (At (OAwaitAny tasks) _) => tasks | _ => [] end
          | _ => []
          end
      | _, _ => []
      end
  | _ => []
  end.

Definition due_now (m : machine) : list coro :=
  match earliest (m_timers m) with None => [] | Some d => due d (m_timers m) end.

Definition outcomes (m : machine) : list next :=
  match m_stack m with
  | [] => map (fun i => step id (fun _ => i) m) (seq 0 (S (length (due_now m))))
  | _ => map (fun tasks => step (fun _ => tasks) (fun _ => 0%nat) m) (permutations (asked m))
  end.

(** A step depends on the choices only through what it asks. *)
Lemma wake_with_ext order order' c p st m :
  match m_code m !! c with
  | Some (At (OAwaitAny tasks) _) => order tasks = order' tasks
  | _ => True
  end ->
  wake_with c (STask p) (await_resume order) st m = wake_with c (STask p) (await_resume order') st m.
Proof.
  unfold wake_with. destruct (m_code m !! c) as [[|[] k]|]; try done.
  intros E. unfold await_resume. by rewrite E.
Qed.

Lemma step_ext order order' which which' m :
  m_stack m <> [] -> order (asked m) = order' (asked m) -> step order which m = step order' which' m.
Proof.
  unfold asked, step. destruct (m_stack m) as [|[c [o|dflt body k|o k]|f] st]; [done| | | |done]; intros _ E.
  - unfold end_coroutine. destruct (m_tasks m !! c), (promise_of o) as [v|]; try done.
    destruct (finish c v (m_tasks m)) as [[[d|]| | |] h]; try done.
    apply wake_with_ext. cbn [m_code with_tasks]. by destruct (m_code m !! d) as [[|[] k]|].
  - done.
  - destruct o; try done. unfold run_op, task_op, await_any, await_resume. by rewrite E.
Qed.

Lemma fire_ext order which m :
  exists i, (i < S (length (due_now m)))%nat /\ fire order which m = fire id (fun _ => i) m.
Proof.
  unfold fire, due_now. destruct (earliest (m_timers m)) as [d|]; [|exists 0%nat; split; [lia|done]].
  destruct (due d (m_timers m)) as [|c cs]; [exists 0%nat; split; [lia|done]|].
  exists (min (which (c :: cs)) (length cs)). cbn [length]. split; [lia|].
  assert (nth (which (c :: cs)) cs c = nth (min (which (c :: cs)) (length cs)) cs c) as ->.
  { destruct (Nat.min_spec (which (c :: cs)) (length cs)) as [[? ->]|[? ->]]; [done|].
    by rewrite !nth_overflow by lia. }
  unfold wake_with. cbn [m_code with_now with_timers]. by destruct (m_code m !! _) as [[|[] k]|].
Qed.

(** Every step, whatever the choices, is among [outcomes]. *)
Lemma step_outcomes order which m :
  (forall tasks, order tasks ≡ₚ tasks) -> step order which m ∈ outcomes m.
Proof.
  intros Hperm. unfold outcomes. destruct (m_stack m) as [|x st] eqn:Est.
  - destruct (fire_ext order which m) as (i & Hi & E).
    apply list_elem_of_fmap. exists i. split; [by unfold step; rewrite Est|]. apply elem_of_seq. lia.
  - apply list_elem_of_fmap. exists (order (asked m)). split.
    + apply step_ext; [by rewrite Est|done].
    + by apply permutations_Permutation.
Qed.

(** ** Runs under a choice that may depend on the whole state *)

Section Run.
Context (order : machine -> list nat -> list nat) (which : machine -> list coro -> nat).

(** [base.run()] *)
Fixpoint base_run (fuel : nat) (m : machine) : out machine :=
  match fuel with
  | O => NoFuel
  | S fuel =>
      match step (order m) (which m) m with
      | Step m' => base_run fuel m'
      | Idle => Val m
      | Terminated e => Exn e
      | Undefined | Broken => Undef
      end
  end.
End Run.

(** ** The machines at rest in which the runs end *)

(** The union of what the branches find; [None] as soon as one of them fails. *)
Fixpoint add_new (ms acc : list machine) : list machine :=
  match ms with
  | [] => acc
  | m :: ms =>
      if existsb (fun m' => bool_decide (rest_state m = rest_state m')) acc then add_new ms acc
      else add_new ms (m :: acc)
  end.
Fixpoint branches {A} (f : A -> option (list machine)) (l : list A) : option (list machine) :=
  match l with
  | [] => Some []
  | x :: l =>
      match f x, branches f l with
      | Some ms, Some acc => Some (add_new ms acc)
      | _, _ => None
      end
  end.
Fixpoint finals (fuel : nat) (m : machine) : option (list machine) :=
  match fuel with
  | O => None
  | S fuel =>
      branches (fun n =>
        match n with
        | Step m' => finals fuel m'
        | Idle => if at_rest m then Some [m] else None
        | _ => None
        end) (outcomes m)
  end.

Lemma add_new_elem m ms : forall acc,
  Forall (fun m => at_rest m = true) ms -> Forall (fun m => at_rest m = true) acc ->
  m ∈ ms \/ m ∈ acc -> m ∈ add_new ms acc.
Proof.
  induction ms as [|m' ms IH]; intros acc Hms Hacc Hm; cbn [add_new].
  { destruct Hm as [Hm|]; [by apply elem_of_nil in Hm|done]. }
  apply Forall_cons in Hms as [Hm' Hms]. destruct (existsb _ acc) eqn:E.
  - apply IH; [done..|]. destruct Hm as [[->|]%elem_of_cons|]; [|by left|by right]. right.
    apply existsb_exists in E as (x & Hx & He). apply bool_decide_eq_true in He.
    apply list_elem_of_In in Hx. pose proof (proj1 (Forall_forall _ _) Hacc _ Hx) as Hr.
    by rewrite (at_rest_eq m' x).
  - apply IH; [done|by constructor|]. rewrite elem_of_cons in *. tauto.
Qed.
Lemma add_new_rest ms : forall acc,
  Forall (fun m => at_rest m = true) ms -> Forall (fun m => at_rest m = true) acc ->
  Forall (fun m => at_rest m = true) (add_new ms acc).
Proof.
  induction ms as [|m' ms IH]; intros acc Hms Hacc; cbn [add_new]; [done|].
  apply Forall_cons in Hms as [Hm' Hms]. destruct (existsb _ acc); apply IH; try done. by constructor.
Qed.

(** What every branch finds is found, and at rest. *)
Lemma branches_spec {A} (f : A -> option (list machine)) l acc :
  (forall x ms, x ∈ l -> f x = Some ms -> Forall (fun m => at_rest m = true) ms) ->
  branches f l = Some acc ->
  Forall (fun m => at_rest m = true) acc /\
  forall x, x ∈ l -> exists ms, f x = Some ms /\ forall m, m ∈ ms -> m ∈ acc.
Proof.
  revert acc. induction l as [|x l IH]; cbn [branches]; intros acc Hf.
  { intros [= <-]. split; [done|]. by intros x ?%elem_of_nil. }
  destruct (f x) as [ms|] eqn:Ex; [|done]. destruct (branches f l) as [acc'|]; [|done]. intros [= <-].
  destruct (IH acc') as [Hr Hl]; [intros; eapply Hf; [by apply list_elem_of_further|done]|done|].
  assert (Forall (fun m => at_rest m = true) ms) as Hms by (eapply Hf; [apply list_elem_of_here|done]).
  split; [by apply add_new_rest|]. intros y [->|Hy]%elem_of_cons.
  - exists ms. split; [done|]. intros m Hm. apply add_new_elem; auto.
  - destruct (Hl y Hy) as (ms' & E & H). exists ms'. split; [done|]. intros m Hm. apply add_new_elem; auto.
Qed.

Lemma finals_rest fuel : forall m ms, finals fuel m = Some ms -> Forall (fun m => at_rest m = true) ms.
Proof.
  induction fuel as [|fuel IH]; cbn [finals]; intros m ms; [done|]. intros H.
  apply (branches_spec _ _ _) in H; [by destruct H|].
  intros [m'| | | |] ms' _; [by apply IH| |done..].
  destruct (at_rest m) eqn:E; [|done]. intros [= <-]. by constructor.
Qed.

(** Whatever the choices are, a run with at least as much fuel ends in one of the
    machines found. *)
Lemma finals_sound order which :
  (forall m tasks, order m tasks ≡ₚ tasks) ->
  forall fuel fuel' m ms, (fuel <= fuel')%nat -> finals fuel m = Some ms ->
  exists m', base_run order which fuel' m = Val m' /\ m' ∈ ms.
Proof.
  intros Hperm. induction fuel as [|fuel IH]; intros [|fuel'] m ms Hle; cbn [finals base_run]; try done; [lia|].
  intros H. apply (branches_spec _ _ _) in H as [_ H].
  2: { intros [m'| | | |] ms' _; [by apply finals_rest| |done..].
       destruct (at_rest m) eqn:E; [|done]. intros [= <-]. by constructor. }
  destruct (H _ (step_outcomes (order m) (which m) m (Hperm m))) as (ms' & E & Hin).
  destruct (step (order m) (which m) m) as [m'| | | |]; try done.
  - destruct (IH fuel' m' ms' ltac:(lia) E) as (x & Hx & Hxs). eauto.
  - destruct (at_rest m); [|done]. injection E as <-. exists m. split; [done|].
    apply Hin. by apply list_elem_of_here.
Qed.
