(* ===== verification/ControlFlowTests.v ===== *)
(** * The control flow tests (src/src/Examples/ControlFlowTests.cc)

    The tests of tasks, futures and channels as programs of the machine of
    Coroutines.v, in which time passes only in the event loop. [test_all_network],
    which needs sockets, is in NetworkTest.v, and [main] in ControlFlowMain.v. *)
From stdpp Require Import tactics base list numbers strings gmap.
From S2P Require Import Prelude Text Channel Future Task Coroutines.

Section Tests.
(** What a failed [expect] of phosg throws. *)
Context (expectation_failed : exn).

Definition expect (b : bool) : co val :=
  if b then co_return VVoid else co_throw expectation_failed.
Definition expect_eq (v w : val) : co val := expect (bool_decide (v = w)).
Definition expect_of (m : co bool) : co val := let* b := m in expect b.

Definition now : co Z := as_int (do_op ONow).
Definition done (t : nat) : co bool := as_bool (do_op (ODone t)).
Definition has_result (f : nat) : co bool := as_bool (do_op (OHasResult f)).
Definition has_exception (f : nat) : co bool := as_bool (do_op (OHasException f)).
Definition set_result (f : nat) (v : val) : co val :=
  do_op (OSetFuture f "set_result called on done Future" (HasResult v)).
Definition set_exception (f : nat) (e : exn) : co val :=
  do_op (OSetFuture f "set_exception called on done Future" (HasException e)).
(** The tasks of [vector::emplace_back], in order. *)
Fixpoint emplace_all (dflt : val) (bodies : list (co val)) : co (list nat) :=
  match bodies with
  | [] => co_return []
  | b :: bodies =>
      let* t := call dflt b in
      let* ts := emplace_all dflt bodies in
      co_return (t :: ts)
  end.
(** [tasks[x]] *)
Definition task_at (tasks : list nat) (x : nat) : nat := nth x tasks 0%nat.

(** A block with a [Timer] in front; its destructor may throw, and ends the program
    when it does while another exception leaves the block. *)
Definition check_duration (low high start : Z) : co val :=
  let* t := now in
  let duration := u64 (t - start) in
  (if low =? 0 then co_return VVoid else expect (low <=? duration)) ;*
  (if high =? 0 then co_return VVoid else expect (duration <=? high)).
Definition timed (low high : Z) (body : co val) : co val :=
  let* start := now in
  let* v := co_try body (fun e => Some (
    co_try (check_duration low high start) (fun e' => Some (do_op (OTerminate e'))) ;*
    co_throw e)) in
  check_duration low high start ;*
  co_return v.

(** ** Tasks *)

Definition test_returns_fn1 : co val := co_return (VInt 5).
Definition test_returns_fn2 : co val :=
  let* ret := as_int (co_await_call (VInt 0) test_returns_fn1) in
  co_return (VInt (u64 (ret + 4))).
Definition test_returns : co val :=
  let* v := co_await_call (VInt 0) test_returns_fn2 in
  expect_eq v (VInt 9).

(** [test_exceptions_fn1] and [test_exceptions_fn2] are never called by the test. *)
Definition test_exceptions_fn1 : co val := co_throw (runtime_error (str "exc")).
Definition test_exceptions_fn2 : co val :=
  co_await_call (VInt 0) test_returns_fn1 ;* co_return VVoid.
Definition test_exceptions : co val :=
  co_try (co_await_call (VInt 0) test_returns_fn2) (fun e =>
    match e with
    | runtime_error what => Some (expect (negb (bool_decide (c_str what = str "exc"))))
    | _ => None
    end).

Definition test_timeouts : co val :=
  let* start := now in
  do_op (OSleep 1000000) ;*
  let* t := now in
  expect (1000000 <=? u64 (t - start)).

Definition sleep_task (usecs : Z) : co val := do_op (OSleep usecs).

Definition test_all_sleep : co val :=
  let* tasks := emplace_all VVoid [sleep_task 1000000; sleep_task 2000000; sleep_task 3000000] in
  timed 3000000 4000000 (co_await_call VVoid (all tasks)) ;*
  for_each tasks (fun t => expect_of (done t)) ;*
  do_op (OAwait (task_at tasks 0)) ;*
  do_op (OAwait (task_at tasks 1)) ;*
  do_op (OAwait (task_at tasks 2)).

Definition test_multi_sleep : co val :=
  let* t1 := call VVoid (sleep_task 1000000) in
  let* t2 := call VVoid (sleep_task 2000000) in
  let* t3 := call VVoid (sleep_task 3000000) in
  timed 3000000 4000000 (co_await_call VVoid (multi t1 [t2; t3])) ;*
  expect_of (done t1) ;*
  expect_of (done t2) ;*
  expect_of (done t3) ;*
  do_op (OAwait t1) ;*
  do_op (OAwait t2) ;*
  do_op (OAwait t3).

Definition test_all_sleep_exception_task (usecs : Z) : co val :=
  do_op (OSleep usecs) ;*
  (if usecs =? 1000000 then co_throw (runtime_error (str "oops")) else co_return VVoid).

Definition is_runtime_error (e : exn) : bool := match e with runtime_error _ => true | _ => false end.
Definition is_out_of_range (e : exn) : bool := match e with out_of_range _ => true | _ => false end.

Definition test_all_sleep_exception : co val :=
  let* tasks := emplace_all VVoid [test_all_sleep_exception_task 1000000;
    test_all_sleep_exception_task 2000000; test_all_sleep_exception_task 3000000] in
  timed 3000000 4000000 (co_await_call VVoid (all tasks)) ;*
  for_each tasks (fun t => expect_of (done t)) ;*
  co_try (do_op (OAwait (task_at tasks 0)) ;* expect false)
    (fun e => if is_runtime_error e then Some (co_return VVoid) else None) ;*
  do_op (OAwait (task_at tasks 1)) ;*
  do_op (OAwait (task_at tasks 2)).

(** What the test expects of the three tasks after each [any]. *)
Definition expect_done (tasks : list nat) (x : nat) (b : bool) : co val :=
  let* d := done (task_at tasks x) in expect (Bool.eqb d b).
Definition any_round (tasks : list nat) (low high : Z) (first : nat) (dones : list bool) : co val :=
  let* completed_task := timed low high (co_await_call (VPtr 0) (any (drop first tasks))) in
  expect_eq completed_task (VPtr (task_at tasks first)) ;*
  match completed_task with
  | VPtr p => expect_of (done p)
  | _ => co_undef
  end ;*
  expect_done tasks 0 (nth 0 dones false) ;*
  expect_done tasks 1 (nth 1 dones false) ;*
  expect_done tasks 2 (nth 2 dones false).
Definition test_any_sleep : co val :=
  let* tasks := emplace_all VVoid [sleep_task 1000000; sleep_task 2000000; sleep_task 3000000] in
  any_round tasks 1000000 2000000 0 [true; false; false] ;*
  any_round tasks 0 1000000 0 [true; false; false] ;*
  any_round tasks 0 2000000 1 [true; true; false] ;*
  any_round tasks 0 2000000 2 [true; true; true] ;*
  do_op (OAwait (task_at tasks 0)) ;*
  do_op (OAwait (task_at tasks 1)) ;*
  do_op (OAwait (task_at tasks 2)).

Definition test_all_limit_sleep : co val :=
  let* tasks := emplace_all VVoid [sleep_task 1000000; sleep_task 1000000; sleep_task 1000000;
    sleep_task 1000000; sleep_task 1000000] in
  timed 3000000 4000000 (co_await_call VVoid (all_limit tasks 2)) ;*
  for_each tasks (fun t => expect_of (done t)) ;*
  for_each (take 5 tasks) (fun t => do_op (OAwait t)).

(** ** Futures *)

Definition test_future_void_set (f : nat) : co val :=
  do_op (OSleep 1000000) ;* set_result f VVoid ;* co_return VVoid.
Definition test_future_void_await (f : nat) : co val :=
  do_op (OAwaitFuture f) ;* co_return VVoid.
Definition test_future_void_block (awaiters : nat) : co val :=
  let* f := as_ptr (do_op ONewFuture) in
  let* tasks := emplace_all VVoid
    (test_future_void_set f :: repeat (test_future_void_await f) awaiters) in
  timed 1000000 2000000 (co_await_call VVoid (all tasks)) ;*
  expect_of (has_result f).
Definition test_future_void : co val :=
  (let* f := as_ptr (do_op ONewFuture) in
   timed 1000000 2000000 (co_await_call VVoid (test_future_void_set f)) ;*
   expect_of (has_result f)) ;*
  test_future_void_block 1 ;*
  test_future_void_block 3.

Definition test_future_void_set_exc (f : nat) : co val :=
  do_op (OSleep 1000000) ;* set_exception f (out_of_range (str "nope")) ;* co_return VVoid.
Definition test_future_void_await_exc (f : nat) : co val :=
  co_try (do_op (OAwaitFuture f) ;*
          co_throw (logic_error (str "co_await f should have thrown but it did not")))
    (fun e => if is_out_of_range e then Some (co_return VVoid) else None) ;*
  co_return VVoid.
Definition test_future_void_exc_block (awaiters : nat) : co val :=
  let* f := as_ptr (do_op ONewFuture) in
  let* tasks := emplace_all VVoid
    (test_future_void_set_exc f :: repeat (test_future_void_await_exc f) awaiters) in
  timed 1000000 2000000 (co_await_call VVoid (all tasks)) ;*
  expect_of (has_exception f).
Definition test_future_void_exc : co val :=
  (let* f := as_ptr (do_op ONewFuture) in
   timed 1000000 2000000 (co_await_call VVoid (test_future_void_set_exc f)) ;*
   expect_of (has_exception f) ;*
   co_await_call VVoid (test_future_void_await_exc f)) ;*
  test_future_void_exc_block 1 ;*
  test_future_void_exc_block 3.

Definition test_future_set_value (f : nat) (value : Z) : co val :=
  do_op (OSleep 1000000) ;* set_result f (VInt value) ;* co_return (VInt value).
Definition test_future_await (f : nat) : co val := do_op (OAwaitFuture f).
Definition expect_future (f : nat) (value : Z) : co val :=
  let* v := do_op (OFutureResult f) in expect_eq v (VInt value).
Definition expect_result (t : nat) (value : Z) : co val :=
  let* v := do_op (OResult t) in expect_eq v (VInt value).
Definition expect_awaited (f : nat) (value : Z) : co val :=
  let* v := do_op (OAwaitFuture f) in expect_eq v (VInt value).
Definition test_future_value_block (awaiters : nat) (value : Z) : co val :=
  let* f := as_ptr (do_op ONewFuture) in
  let* tasks := emplace_all (VInt 0)
    (test_future_set_value f value :: repeat (test_future_await f) awaiters) in
  timed 1000000 2000000 (co_await_call VVoid (all tasks)) ;*
  expect_future f value ;*
  for_each tasks (fun t => expect_result t value) ;*
  expect_awaited f value.
(** [Future] and [DeferredFuture] alike: a [DeferredFuture] resumes its awaiters as
    a [Future] does, since [resume_awaiters] is not virtual. *)
Definition test_future_value : co val :=
  (let* f := as_ptr (do_op ONewFuture) in
   timed 1000000 2000000 (
     let* v := co_await_call (VInt 0) (test_future_set_value f 5) in expect_eq v (VInt 5)) ;*
   expect_future f 5 ;*
   expect_awaited f 5) ;*
  test_future_value_block 1 6 ;*
  test_future_value_block 3 7.
Definition test_deferred_future_value : co val := test_future_value.

(** ** Channels *)

Definition channel_empty (c : nat) : co bool := as_bool (do_op (OEmpty c)).
Definition test_channel_read_task (c : nat) : co val := do_op (ORead c).
Definition test_channel_write_task (c : nat) (usecs v : Z) : co val :=
  do_op (OSleep usecs) ;* do_op (OWrite c (VInt v)) ;* co_return (VInt v).
Definition test_channel : co val :=
  (let* c := as_ptr (do_op ONewChannel) in
   expect_of (channel_empty c) ;*
   do_op (OWrite c (VInt 5)) ;*
   (let* e := channel_empty c in expect (negb e)) ;*
   (let* v := do_op (ORead c) in expect_eq (VInt 5) v) ;*
   expect_of (channel_empty c)) ;*
  (let* c := as_ptr (do_op ONewChannel) in
   let* tasks := emplace_all (VInt 0) [test_channel_read_task c; test_channel_write_task c 500000 6] in
   timed 500000 1000000 (co_await_call VVoid (all tasks)) ;*
   expect_result (task_at tasks 0) 6 ;*
   expect_result (task_at tasks 1) 6 ;*
   expect_of (channel_empty c)) ;*
  (let* c := as_ptr (do_op ONewChannel) in
   let* tasks := emplace_all (VInt 0)
     [test_channel_read_task c; test_channel_read_task c; test_channel_read_task c; test_channel_read_task c;
      test_channel_write_task c 500000 7; test_channel_write_task c 1000000 8;
      test_channel_write_task c 1500000 9; test_channel_write_task c 2000000 10] in
   timed 2000000 3000000 (co_await_call VVoid (all tasks)) ;*
   for_each (zip tasks [7; 8; 9; 10; 7; 8; 9; 10]) (fun p => expect_result (fst p) (snd p)) ;*
   expect_of (channel_empty c)).
End Tests.
