(* ===== verification/AllSleeps.v ===== *)
(** * How long [all] takes

    [test_all_sleep] of ControlFlowTests.cc for tasks of any durations, with any
    order among timers that are due together. *)
From stdpp Require Import tactics base list numbers strings gmap relations.
From S2P Require Import Prelude Channel Future Task Coroutines CoroutineSafety ControlFlowTests.

(** The longest of the durations. *)
Definition longest (ds : list Z) : Z := foldr Z.max 0 ds.

(** [test_all_sleep] with these durations, and a [Timer] that admits the longest
    only. *)
Definition test_all_sleeps (expectation_failed : exn) (ds : list Z) : co val :=
  let* tasks := emplace_all VVoid (map sleep_task ds) in
  timed expectation_failed (longest ds) (longest ds) (co_await_call VVoid (all tasks)) ;*
  for_each tasks (fun t => expect_of expectation_failed (done t)).

Section Run.
Context (order : list nat -> list nat) (which : list coro -> nat).

Definition stepped (m m' : machine) : Prop := step order which m = Step m'.
Local Abbreviation steps := (rtc stepped).

Lemma stepped_l m m1 m' : step order which m = Step m1 -> steps m1 m' -> steps m m'.
Proof. intros H Hs. eapply rtc_l; [exact H|done]. Qed.

(** ** Calling and starting the tasks *)

Definition sleeper (d : Z) : prog := Do (OSleep d) CoReturn.
Definition fresh_task : @task val := task_new VVoid.
Definition started_task : @task val := set_started fresh_task.

(** Outside of these coroutines nothing changes. *)
Definition unchanged (ps : list nat) (m m' : machine) : Prop :=
  forall q, q ∉ ps -> m_tasks m' !! q = m_tasks m !! q /\ m_code m' !! q = m_code m !! q.

Lemma unchanged_trans ps m m1 m' : unchanged ps m m1 -> unchanged ps m1 m' -> unchanged ps m m'.
Proof. intros H1 H2 q Hq. destruct (H1 q Hq) as [<- <-]. by apply H2. Qed.
Lemma unchanged_weaken ps ps' m m' : ps ⊆ ps' -> unchanged ps m m' -> unchanged ps' m m'.
Proof. intros Hs H q Hq. apply H. intros Hin. by apply Hq, Hs. Qed.

Lemma call_sleepers c ds k st m :
  m_stack m = Running c (emplace_all VVoid (map sleep_task ds) k) :: st ->
  exists m', steps m m' /\ m_stack m' = Running c (k (Val (seq (m_next m) (length ds)))) :: st /\
    m_now m' = m_now m /\ m_timers m' = m_timers m /\ m_next m' = (m_next m + length ds)%nat /\
    unchanged (seq (m_next m) (length ds)) m m' /\
    (forall i d, ds !! i = Some d ->
       m_tasks m' !! (m_next m + i)%nat = Some fresh_task /\
       m_code m' !! (m_next m + i)%nat = Some (AtStart (sleeper d))).
Proof.
  revert k m. induction ds as [|d ds IH]; intros k m Hst.
  - exists m. simpl. rewrite Nat.add_0_r. by split_and!.
  - set (m1 := with_stack (Running c
        (emplace_all VVoid (map sleep_task ds) (fun o => match o with
           | Val ts => k (Val (m_next m :: ts)) | Exn e => k (Exn e) | Undef => k Undef | NoFuel => k NoFuel end)) :: st)
      (with_next (S (m_next m)) (with_tasks (<[m_next m := fresh_task]> (m_tasks m))
        (with_code (<[m_next m := AtStart (sleeper d)]> (m_code m)) m)))).
    assert (step order which m = Step m1) as H1 by (unfold step; by rewrite Hst).
    destruct (IH (fun o => match o with
           | Val ts => k (Val (m_next m :: ts)) | Exn e => k (Exn e) | Undef => k Undef | NoFuel => k NoFuel end)
        m1 eq_refl) as (m' & Hs & Hst' & Hn & Ht & Hx & Hu & Hall).
    exists m'. simpl in *. split_and!; try done.
    + by eapply stepped_l.
    + lia.
    + intros q Hq. apply not_elem_of_cons in Hq as [Hq1 Hq2]. destruct (Hu q Hq2) as [-> ->]. simpl.
      by rewrite !lookup_insert_ne by done.
    + intros [|i] d' Hi.
      * injection Hi as <-. rewrite Nat.add_0_r.
        destruct (Hu (m_next m)) as [-> ->]; [|simpl; by rewrite !lookup_insert_eq].
        intros Hin%elem_of_seq. lia.
      * replace (m_next m + S i)%nat with (S (m_next m) + i)%nat by lia. by apply Hall.
Qed.

(** The machine in which [p], just started, sleeps for [d]. *)
Definition start_sleeper (p : nat) (d : Z) (m : machine) : machine :=
  with_timers (m_timers m ++ [(m_now m + d, p)])
    (with_tasks (<[p := started_task]> (m_tasks m)) (with_code (<[p := At (OSleep d) CoReturn]> (m_code m)) m)).

Lemma start_steps a p d k st m :
  m_stack m = Running a (Do (OStart p) k) :: st ->
  m_tasks m !! p = Some fresh_task -> m_code m !! p = Some (AtStart (sleeper d)) ->
  steps m (with_stack (Running a (k (Val VVoid)) :: st) (start_sleeper p d m)).
Proof.
  intros Hst Ht Hc. eapply stepped_l.
  { unfold step. rewrite Hst. cbn [run_op task_op]. unfold start.
    rewrite (bind_Val _ _ _ _ _ (deref_eq _ _ _ t_started Ht)). simpl.
    rewrite (bind_Val _ _ _ _ _ (update_eq _ _ _ _ Ht)). simpl. unfold begin. simpl. by rewrite Hc. }
  eapply stepped_l; [reflexivity|]. unfold start_sleeper. simpl.
  unfold with_stack, suspend, with_code, with_timers, with_tasks. simpl.
  rewrite insert_delete_eq. apply rtc_refl.
Qed.

Definition sleepers (L : list (nat * Z)) (m : machine) : Prop :=
  forall p d, (p, d) ∈ L ->
    m_tasks m !! p = Some started_task /\ m_code m !! p = Some (At (OSleep d) CoReturn).

Lemma start_all a L kk st m :
  NoDup L.*1 ->
  m_stack m = Running a (for_each L.*1 (fun t => do_op (OStart t)) kk) :: st ->
  (forall p d, (p, d) ∈ L -> m_tasks m !! p = Some fresh_task /\ m_code m !! p = Some (AtStart (sleeper d))) ->
  exists m', steps m m' /\ m_stack m' = Running a (kk (Val VVoid)) :: st /\ m_now m' = m_now m /\
    m_timers m' = m_timers m ++ map (fun pd => (m_now m + snd pd, fst pd)) L /\
    unchanged L.*1 m m' /\ sleepers L m'.
Proof.
  revert m. induction L as [|[p d] L IH]; intros m Hnd Hst HL.
  - exists m. rewrite app_nil_r. split_and!; try done. by intros ? ? ?%elem_of_nil.
  - apply NoDup_cons in Hnd as [Hp Hnd]. simpl in *.
    destruct (HL p d) as [Ht Hc]; [by left|].
    set (m1 := with_stack (Running a (for_each L.*1 (fun t => do_op (OStart t)) kk) :: st) (start_sleeper p d m)).
    assert (steps m m1) as H1 by by apply (start_steps a p d _ st m Hst Ht Hc).
    destruct (IH m1 Hnd eq_refl) as (m' & Hs & Hst' & Hn & Htm & Hu & Hsl).
    { intros q e Hq. simpl. assert (p <> q) as Hne.
      { intros ->. apply Hp. apply list_elem_of_fmap. by exists (q, e). }
      rewrite !lookup_insert_ne by done. apply HL. by right. }
    exists m'. simpl in *. split_and!; try done.
    + by transitivity m1.
    + by rewrite Htm, <- app_assoc.
    + intros q Hq. apply not_elem_of_cons in Hq as [Hq1 Hq2]. destruct (Hu q Hq2) as [-> ->]. simpl.
      by rewrite !lookup_insert_ne by done.
    + intros q e [[= -> ->]|Hq]%elem_of_cons; [|by apply Hsl].
      destruct (Hu p Hp) as [-> ->]. simpl. by rewrite !lookup_insert_eq.
Qed.

(** ** Waiting for the tasks *)

(** The time at which the last of the timers fires, when it is [now]. *)
Definition last_time (now : Z) (timers : list (Z * nat)) : Z :=
  foldr (fun t a => Z.max (fst t) a) now timers.

Lemma last_time_perm now l l' : l ≡ₚ l' -> last_time now l = last_time now l'.
Proof. induction 1; simpl; lia. Qed.
Lemma last_time_max now d l : last_time (Z.max now d) l = Z.max d (last_time now l).
Proof. induction l; simpl; lia. Qed.

Definition without (c : nat) (timers : list (Z * nat)) : list (Z * nat) :=
  List.filter (fun t => negb (snd t =? c)%nat) timers.

Lemma without_perm d c timers :
  NoDup timers.*2 -> (d, c) ∈ timers -> timers ≡ₚ (d, c) :: without c timers.
Proof.
  induction timers as [|[e q] timers IH]; simpl; [by intros _ ?%elem_of_nil|].
  intros [Hq Hnd]%NoDup_cons [[= -> ->]|Hin]%elem_of_cons.
  - rewrite Nat.eqb_refl. simpl. f_equiv. clear IH. induction timers as [|[e' r] timers IH]; [done|]. simpl in *.
    apply not_elem_of_cons in Hq as [Hq1 Hq2]. apply NoDup_cons in Hnd as [_ Hnd].
    rewrite (proj2 (Nat.eqb_neq r q)) by done. simpl. f_equiv. by apply IH.
  - assert (q <> c) as Hne by (intros ->; apply Hq; apply list_elem_of_fmap; by exists (d, c)).
    rewrite (proj2 (Nat.eqb_neq q c)) by done. simpl. rewrite Permutation_swap. f_equiv. by apply IH.
Qed.

(** A timer fires: one that is due, and the rest keeps its last time. *)
Lemma fire_sleeper m :
  m_stack m = [] -> m_timers m <> [] -> NoDup (m_timers m).*2 ->
  (forall d c, (d, c) ∈ m_timers m -> exists e, m_code m !! c = Some (At (OSleep e) CoReturn)) ->
  exists d c, (d, c) ∈ m_timers m /\
    step order which m = Step (with_stack [Running c (CoReturn (Val VVoid))]
      (with_code (delete c (m_code m))
        (with_now (Z.max (m_now m) d) (with_timers (without c (m_timers m)) m)))).
Proof.
  intros Hst Hne Hnd Hcode. unfold step, fire. rewrite Hst.
  destruct (earliest (m_timers m)) as [d|] eqn:Ee; [|by destruct (m_timers m) as [|[]]].
  destruct (due d (m_timers m)) as [|c0 cs] eqn:Ed; [by destruct (due_nonempty _ _ Ee)|]. cbv zeta.
  fold (without (nth (which (c0 :: cs)) cs c0) (m_timers m)).
  assert (nth (which (c0 :: cs)) cs c0 ∈ due d (m_timers m)) as Hc.
  { rewrite Ed.
    destruct (nth_in_or_default (which (c0 :: cs)) cs c0) as [Hin| ->]; [right; by apply list_elem_of_In|by left]. }
  set (c := nth _ _ _) in *. clearbody c.
  assert ((d, c) ∈ m_timers m) as Hin.
  { unfold due in Hc. apply list_elem_of_In, List.in_map_iff in Hc as ([e q] & <- & Hin).
    apply List.filter_In in Hin as [Hin He]. apply Z.eqb_eq in He. simpl in *. subst e.
    by apply list_elem_of_In. }
  exists d, c. split; [done|]. destruct (Hcode d c Hin) as [e He]. unfold wake_with. simpl. by rewrite He.
Qed.

Section Waiting.
(** The coroutine of [all], its tasks, and what follows in it. *)
Context (a : coro) (ps : list nat) (kk : out val -> prog).
Hypothesis a_other : a ∉ ps.

Definition waits (ws : list nat) : prog := for_each ws (fun t => do_op (OWait t)) kk.
Definition then_waits (ws : list nat) (o : out val) : prog :=
  match o with Val _ => waits ws | Exn e => kk (Exn e) | Undef => kk Undef | NoFuel => kk NoFuel end.

Definition task_done (m : machine) (p : nat) : Prop :=
  exists t, m_tasks m !! p = Some t /\ t_done t = true /\ t_value t = PResult VVoid.
(** The tasks sleep or are done; [w] is the one that [a] waits for. *)
Record resting (w : option nat) (m : machine) : Prop := {
  rest_once : NoDup (m_timers m).*2;
  rest_sleep : forall d c, (d, c) ∈ m_timers m -> c ∈ ps /\
    m_tasks m !! c = Some (set_awaiting_coro (if decide (w = Some c) then Some a else None) started_task) /\
    exists e, m_code m !! c = Some (At (OSleep e) CoReturn);
  rest_done : forall p, p ∈ ps -> p ∈ (m_timers m).*2 \/ task_done m p
}.

(** What the waiting keeps. *)
Definition kept (m m' : machine) : Prop :=
  unchanged (a :: ps) m m' /\ m_tasks m' !! a = m_tasks m !! a /\
  last_time (m_now m') (m_timers m') = last_time (m_now m) (m_timers m) /\
  (forall p, p ∈ (m_timers m').*2 -> p ∈ (m_timers m).*2).

Lemma kept_refl m : kept m m.
Proof. by split_and!. Qed.
Lemma kept_trans m m1 m' : kept m m1 -> kept m1 m' -> kept m m'.
Proof.
  intros (H1 & H2 & H3 & H4) (H5 & H6 & H7 & H8).
  split_and!; [by eapply unchanged_trans|congruence|congruence|auto].
Qed.

(** A task wakes up and ends. *)
Definition ended (c : nat) (d : Z) (m : machine) : machine :=
  with_tasks (<[c := set_done (PResult VVoid) (default fresh_task (m_tasks m !! c))]> (m_tasks m))
    (with_code (delete c (m_code m)) (with_now (Z.max (m_now m) d) (with_timers (without c (m_timers m)) m))).

Lemma without_in c timers d q : (d, q) ∈ without c timers <-> (d, q) ∈ timers /\ q <> c.
Proof.
  unfold without. rewrite !list_elem_of_In, List.filter_In. simpl. by rewrite negb_true_iff, Nat.eqb_neq.
Qed.

Lemma ended_kept w c d m :
  resting w m -> (d, c) ∈ m_timers m -> kept m (ended c d m).
Proof.
  intros [Ho Hs Hd] Hin. destruct (Hs d c Hin) as (Hc & _). unfold kept, ended. simpl. split_and!.
  - intros q Hq. apply not_elem_of_cons in Hq as [_ Hq]. simpl. assert (c <> q) by (by intros ->).
    by rewrite lookup_insert_ne, lookup_delete_ne.
  - rewrite lookup_insert_ne; [done|]. by intros ->.
  - rewrite last_time_max. rewrite (last_time_perm _ _ _ (without_perm d c _ Ho Hin)). done.
  - intros p ([e q] & -> & [Hq _]%without_in)%list_elem_of_fmap. apply list_elem_of_fmap. by exists (e, q).
Qed.

Lemma ended_resting w c d m w' :
  resting w m -> (d, c) ∈ m_timers m -> (w' = w \/ w = Some c /\ w' = None) -> resting w' (ended c d m).
Proof.
  intros [Ho Hs Hd] Hin Hw. destruct (Hs d c Hin) as (_ & Hc & _). split; simpl.
  - by apply NoDup_snd_filter.
  - intros e q [Hq Hne]%without_in. destruct (Hs e q Hq) as (? & Ht & Hcode). split; [done|].
    rewrite lookup_insert_ne, lookup_delete_ne by done. split; [|done]. rewrite Ht.
    destruct Hw as [->|[-> ->]]; [done|]. do 2 f_equal. by rewrite decide_False by congruence.
  - intros p Hp. destruct (decide (p = c)) as [->|Hne].
    + right. eexists. unfold ended. simpl. split; [apply lookup_insert_eq|]. done.
    + destruct (Hd p Hp) as [Hin'|(t & Ht & Hdone)].
      * left. apply list_elem_of_fmap in Hin' as ([e q] & -> & Hq). apply list_elem_of_fmap.
        exists (e, q). split; [done|]. by apply without_in.
      * right. exists t. unfold ended. simpl. by rewrite lookup_insert_ne.
Qed.

(** The code of [a] and the stack do not matter. *)
Lemma resting_code w st code m :
  (forall q, q <> a -> code !! q = m_code m !! q) -> resting w m -> resting w (with_stack st (with_code code m)).
Proof.
  intros Hcode [Ho Hs Hd]. split; simpl; [done| |done]. intros d c Hin.
  destruct (Hs d c Hin) as (Hc & Ht & e & He). split; [done|]. split; [done|]. exists e.
  rewrite Hcode; [done|]. by intros ->.
Qed.
Lemma kept_code st code m m' :
  (forall q, q <> a -> code !! q = m_code m' !! q) -> kept m m' -> kept m (with_stack st (with_code code m')).
Proof.
  intros Hcode (Hu & Ha & Hl & Hsub). split_and!; [|done..]. intros q Hq. destruct (Hu q Hq) as [Ht Hc]. simpl.
  split; [done|]. rewrite Hcode; [done|]. intros ->. apply Hq. by left.
Qed.
Lemma delete_other (x : coro) (code : gmap coro suspended) q : q <> x -> delete x code !! q = code !! q.
Proof. intros. by rewrite lookup_delete_ne. Qed.
Lemma insert_other (x : coro) s (code : gmap coro suspended) q : q <> x -> <[x := s]> code !! q = code !! q.
Proof. intros. by rewrite lookup_insert_ne. Qed.

(** [a] is suspended in [wait()] of [w]: it is resumed when [w] ends. *)
Lemma wait_resumed n w ws m :
  length (m_timers m) = n -> m_stack m = [] -> resting (Some w) m -> w ∈ (m_timers m).*2 ->
  m_code m !! a = Some (At (OWait w) (then_waits ws)) ->
  exists m', steps m m' /\ m_stack m' = [Running a (waits ws)] /\ resting None m' /\
    (w ∉ (m_timers m').*2) /\ kept m m'.
Proof.
  revert m. induction n as [|n IH]; intros m Hlen Hst Hr Hw Ha.
  { apply nil_length_inv in Hlen. rewrite Hlen in Hw. by apply elem_of_nil in Hw. }
  destruct (fire_sleeper m Hst) as (d & c & Hin & Hfire).
  { intros Hnil. by rewrite Hnil in Hlen. }
  { apply Hr. }
  { intros d c Hin. apply (rest_sleep _ _ Hr d c Hin). }
  pose proof (ended_kept _ _ _ _ Hr Hin) as Hk.
  destruct (rest_sleep _ _ Hr d c Hin) as (Hc & Ht & _).
  assert (c <> a) as Hca by (by intros ->).
  assert (length (without c (m_timers m)) = n) as Hlen'.
  { pose proof (Permutation_length (without_perm d c _ (rest_once _ _ Hr) Hin)) as Hp. simpl in Hp. lia. }
  destruct (decide (Some w = Some c)) as [[= ->]|Hne].
  - exists (with_stack [Running a (waits ws)] (with_code (delete a (delete c (m_code m))) (ended c d m))).
    split_and!.
    + eapply stepped_l; [exact Hfire|]. eapply stepped_l; [|apply rtc_refl].
      unfold step. simpl. unfold end_coroutine. simpl. rewrite Ht. unfold finish, bind.
      rewrite (update_eq _ _ _ _ Ht), (deref_eq _ _ _ _ (lookup_insert_eq _ _ _)). simpl.
      unfold wake_with. simpl. rewrite lookup_delete_ne, Ha by done. simpl.
      rewrite bool_decide_eq_true_2 by done. simpl. unfold ended. by rewrite Ht.
    + done.
    + apply resting_code; [apply delete_other|]. eapply ended_resting; [done|done|by right].
    + intros ([e q] & -> & Hq%without_in)%list_elem_of_fmap. by destruct Hq.
    + apply kept_code; [apply delete_other|done].
  - set (m1 := with_stack [] (ended c d m)).
    destruct (IH m1) as (m' & Hs & Hst' & Hr' & Hw' & Hk').
    + done.
    + done.
    + assert (resting (Some w) (ended c d m)) as [H1 H2 H3] by (eapply ended_resting; [done|done|by left]).
      by split.
    + apply list_elem_of_fmap in Hw as ([e q] & -> & Hq). apply list_elem_of_fmap. exists (e, q).
      split; [done|]. apply without_in. split; [done|]. simpl in *. congruence.
    + simpl. by rewrite lookup_delete_ne.
    + exists m'. split_and!; try done.
      * eapply stepped_l; [exact Hfire|]. eapply stepped_l; [|exact Hs].
        unfold step. simpl. unfold end_coroutine. simpl. rewrite Ht. unfold finish, bind.
        rewrite (update_eq _ _ _ _ Ht), (deref_eq _ _ _ _ (lookup_insert_eq _ _ _)). simpl.
        unfold m1, ended. by rewrite Ht.
      * eapply kept_trans; [|exact Hk']. by destruct Hk.
Qed.

(** [a] goes through the rest of its tasks. *)
Lemma waits_run ws m :
  (forall w, w ∈ ws -> w ∈ ps) -> m_stack m = [Running a (waits ws)] -> resting None m ->
  exists m', steps m m' /\ m_stack m' = [Running a (kk (Val VVoid))] /\ resting None m' /\
    (forall w, w ∈ ws -> w ∉ (m_timers m').*2) /\ kept m m'.
Proof.
  revert m. induction ws as [|w ws IH]; intros m Hin Hst Hr.
  { exists m. split_and!; try done. by intros w ?%elem_of_nil. }
  destruct Hr as [Ho Hs Hd] eqn:Er. clear Er. pose proof (Build_resting None m Ho Hs Hd) as Hr'.
  assert (w ∈ ps) as Hw by (apply Hin; by left).
  destruct (decide (w ∈ (m_timers m).*2)) as [Hsl|Hsl].
  - apply list_elem_of_fmap in Hsl as Hsl'. destruct Hsl' as ([d q] & -> & Hq). simpl in *.
    destruct (Hs d q Hq) as (_ & Ht & e & He).
    set (m1 := with_stack [] (suspend a (OWait q) (then_waits ws)
      (with_tasks (<[q := set_awaiting_coro (Some a) started_task]> (m_tasks m)) m))).
    assert (step order which m = Step m1) as H1.
    { unfold step. rewrite Hst. cbn [waits for_each co_bind do_op run_op task_op]. unfold await_task.
      unfold AwaiterBase_await_ready, TaskBase_done. rewrite (deref_eq _ _ _ _ Ht). simpl.
      unfold AwaiterBase_await_suspend, link. rewrite (bind_Val _ _ _ _ _ (update_eq _ _ _ _ Ht)).
      rewrite (bind_Val _ _ _ _ _ (deref_eq _ _ _ _ (lookup_insert_eq _ _ _))). simpl. done. }
    assert (kept m m1) as Hk1.
    { split_and!; [|simpl; rewrite lookup_insert_ne; [done|by intros ->]|done|done].
      intros r Hrr. apply not_elem_of_cons in Hrr as [Hra Hrr]. simpl.
      rewrite !lookup_insert_ne; [done|congruence|by intros ->]. }
    destruct (wait_resumed (length (m_timers m)) q ws m1) as (m2 & Hs2 & Hst2 & Hr2 & Hw2 & Hk2).
    + done.
    + done.
    + split; simpl; [done| |].
      * intros d' c Hc. destruct (Hs d' c Hc) as (Hcp & Htc & ec & Hec). split; [done|].
        rewrite (lookup_insert_ne _ a) by (by intros ->). split; [|by exists ec].
        destruct (decide (Some q = Some c)) as [[= ->]|Hne]; [apply lookup_insert_eq|].
        rewrite lookup_insert_ne by congruence. done.
      * intros p Hp. destruct (decide (p = q)) as [->|Hne]; [by left|].
        destruct (Hd p Hp) as [?|(t & Htp & Hdone)]; [by left|right]. exists t. simpl.
        by rewrite lookup_insert_ne.
    + done.
    + apply lookup_insert_eq.
    + destruct (IH m2) as (m' & Hs' & Hst' & Hr'' & Hw' & Hk'); try done.
      { intros p Hp. apply Hin. by right. }
      exists m'. split_and!; try done.
      * eapply stepped_l; [exact H1|]. by transitivity m2.
      * intros p [->|Hp]%elem_of_cons; [|by apply Hw']. intros Hp. by apply Hw2, Hk'.
      * eapply kept_trans; [exact Hk1|]. by eapply kept_trans.
  - destruct (Hd w Hw) as [?|(t & Ht & Hdone & _)]; [done|].
    destruct (IH (with_stack [Running a (waits ws)] m)) as (m' & Hs' & Hst' & Hr'' & Hw' & Hk').
    + intros p Hp. apply Hin. by right.
    + done.
    + by split.
    + exists m'. split_and!; try done.
      * eapply stepped_l; [|exact Hs']. unfold step. rewrite Hst.
        cbn [waits for_each co_bind do_op run_op task_op]. unfold await_task.
        unfold AwaiterBase_await_ready, TaskBase_done. rewrite (deref_eq _ _ _ _ Ht), Hdone. done.
      * intros p [->|Hp]%elem_of_cons; [|by apply Hw']. intros Hp. by apply Hsl, Hk'.
Qed.
End Waiting.

(** ** The test *)

(** Steps of which only the stack matters. *)
Lemma expect_done_steps e c ts k m :
  (forall t, t ∈ ts -> exists x, m_tasks m !! t = Some x /\ t_done x = true) ->
  steps (with_stack [Running c (for_each ts (fun t => expect_of e (done t)) k)] m)
    (with_stack [Running c (k (Val VVoid))] m).
Proof.
  induction ts as [|t ts IH]; intros Hd; [apply rtc_refl|].
  destruct (Hd t) as (x & Hx & Hdone); [by left|].
  eapply stepped_l; [|apply IH; intros u Hu; apply Hd; by right].
  unfold step. simpl. unfold TaskBase_done. rewrite (deref_eq _ _ _ _ Hx), Hdone. done.
Qed.

Lemma check_duration_steps e c d start k m :
  0 <= d < 2 ^ 64 -> m_now m = start + d ->
  steps (with_stack [Running c (check_duration e d d start k)] m) (with_stack [Running c (k (Val VVoid))] m).
Proof.
  intros Hd Hn. assert (u64 (m_now m - start) = d) as Hu.
  { rewrite Hn. replace (start + d - start) with d by lia. by apply Z.mod_small. }
  eapply stepped_l; [reflexivity|]. unfold co_bind, co_return, expect. cbn -[u64 Z.leb Z.eqb].
  rewrite Hu, Z.leb_refl. destruct (d =? 0); apply rtc_refl.
Qed.

Lemma longest_last ds i : last_time 0 (map (fun pd => (0 + snd pd, fst pd)) (zip (seq i (length ds)) ds)) = longest ds.
Proof. revert i. induction ds as [|d ds IH]; intros i; simpl; [done|]. by rewrite IH. Qed.

(** The test up to the point where [all] runs: its caller awaits the task [a] of
    it, and checks what it expects when it is resumed. *)
Lemma enter_all e L ps m :
  m_stack m = [Running 0 ((timed e L L (co_await_call VVoid (all ps)) ;*
    for_each ps (fun t => expect_of e (done t))) CoReturn)] ->
  let a := m_next m in (0 < a)%nat ->
  exists K m', steps m m' /\ m_stack m' = [Running a (all ps CoReturn)] /\
    m_now m' = m_now m /\ m_timers m' = m_timers m /\
    m_tasks m' = <[a := set_awaiting_coro (Some 0%nat) started_task]> (m_tasks m) /\
    m_code m' !! 0%nat = Some (At (OAwait a) K) /\
    (forall q, q <> 0%nat -> q <> a -> m_code m' !! q = m_code m !! q) /\
    K (Val VVoid) = check_duration e L L (m_now m) (fun o => match o with
      | Val _ => for_each ps (fun t => expect_of e (done t)) CoReturn
      | Exn e => CoReturn (Exn e) | Undef => CoReturn Undef | NoFuel => CoReturn NoFuel end).
Proof.
  intros Hst a Ha. eexists _, _. split_and!.
  - eapply stepped_l; [unfold step; rewrite Hst; reflexivity|].
    eapply stepped_l; [reflexivity|].
    eapply stepped_l; [|apply rtc_refl].
    unfold step. simpl. fold a.
    unfold await_task, AwaiterBase_await_ready, AwaiterBase_await_suspend, TaskBase_done, link,
      update, bind, deref, begin. simpl.
    repeat (rewrite ?lookup_insert_eq; simpl).
    rewrite lookup_insert_ne, lookup_insert_eq by lia. reflexivity.
  - done.
  - done.
  - done.
  - simpl. rewrite !insert_insert_eq. done.
  - simpl. rewrite lookup_delete_ne by lia. apply lookup_insert_eq.
  - intros q H0 Hq. simpl. by rewrite lookup_delete_ne, !lookup_insert_ne by done.
  - reflexivity.
Qed.

(** The end of [all] resumes its caller. *)
Lemma leave_all a K m :
  m_stack m = [Running a (CoReturn (Val VVoid))] ->
  m_tasks m !! a = Some (set_awaiting_coro (Some 0%nat) started_task) ->
  m_code m !! 0%nat = Some (At (OAwait a) K) ->
  steps m (with_stack [Running 0 (K (Val VVoid))]
    (with_tasks (<[a := set_done (PResult VVoid) (set_awaiting_coro (Some 0%nat) started_task)]> (m_tasks m))
      (with_code (delete 0%nat (m_code m)) m))).
Proof.
  intros Hst Ht Hc. eapply stepped_l; [|apply rtc_refl]. unfold step. rewrite Hst. unfold end_coroutine. rewrite Ht.
  cbn [promise_of]. unfold finish, bind. rewrite (update_eq _ _ _ _ Ht), (deref_eq _ _ _ _ (lookup_insert_eq _ _ _)).
  simpl. unfold wake_with. simpl. rewrite Hc. simpl. rewrite bool_decide_eq_true_2 by done.
  unfold Task_result, deref, bind. rewrite lookup_insert_eq. done.
Qed.

Lemma zip_seq_fst i (ds : list Z) : (zip (seq i (length ds)) ds).*1 = seq i (length ds).
Proof. revert i. induction ds as [|d ds IH]; intros i; simpl; [done|]. by rewrite IH. Qed.
Lemma zip_seq_elem i (ds : list Z) p d :
  (p, d) ∈ zip (seq i (length ds)) ds -> exists j, p = (i + j)%nat /\ ds !! j = Some d.
Proof.
  revert i. induction ds as [|d' ds IH]; intros i; simpl; [by intros ?%elem_of_nil|].
  intros [[= -> ->]|Hin]%elem_of_cons; [exists 0%nat; split; [lia|done]|].
  destruct (IH (S i) Hin) as (j & -> & Hj). exists (S j). split; [lia|done].
Qed.
Lemma longest_nonneg ds : 0 <= longest ds.
Proof. induction ds; simpl; lia. Qed.

Lemma steps_all_sleeps e ds :
  longest ds < 2 ^ 64 ->
  exists m, steps (call_detached (test_all_sleeps e ds CoReturn) machine_new) m /\
    m_stack m = [] /\ m_timers m = [] /\ m_now m = longest ds.
Proof.
  intros Hmax. set (m0 := call_detached _ _). set (ps := seq 1 (length ds)). set (L := zip ps ds).
  assert (L.*1 = ps) as HL by apply zip_seq_fst.
  destruct (call_sleepers 0 ds _ [] m0 eq_refl) as (m1 & Hs1 & Hst1 & Hn1 & Ht1 & Hx1 & Hu1 & Hall1).
  change (m_next m0) with 1%nat in *. fold ps in Hst1, Hu1.
  destruct (enter_all e (longest ds) ps m1 Hst1) as (K & m2 & Hs2 & Hst2 & Hn2 & Ht2 & Htk2 & Hc2 & Hcq2 & HK);
    [rewrite Hx1; simpl; lia|].
  set (a := m_next m1) in *.
  assert ((a ∉ ps) /\ (0%nat ∉ ps) /\ a <> 0%nat) as (Haps & H0ps & Ha0).
  { split_and!; [intros Hin%elem_of_seq|intros Hin%elem_of_seq|]; unfold a in *; rewrite Hx1 in *; simpl in *; lia. }
  destruct (start_all a L (fun o => match o with
      | Val _ => waits CoReturn ps | Exn e => CoReturn (Exn e) | Undef => CoReturn Undef | NoFuel => CoReturn NoFuel
      end) [] m2) as (m3 & Hs3 & Hst3 & Hn3 & Ht3 & Hu3 & Hsl3).
  { rewrite HL. apply NoDup_seq. }
  { by rewrite HL. }
  { intros p d Hpd. destruct (zip_seq_elem 1 ds p d Hpd) as (j & -> & Hj).
    assert ((1 + j)%nat ∈ ps) as Hin by (rewrite <- HL; apply list_elem_of_fmap; by exists ((1 + j)%nat, d)).
    assert (a <> (1 + j)%nat) as Hne by congruence.
    rewrite Htk2, Hcq2, lookup_insert_ne by (done || lia). by apply Hall1. }
  rewrite HL in Hu3. rewrite Ht2, Ht1, Hn2, Hn1 in Ht3. simpl in Ht3.
  assert ((m_timers m3).*2 = ps) as Htp.
  { rewrite Ht3, <- HL, <- list_fmap_compose. done. }
  destruct (waits_run a ps CoReturn Haps ps m3) as (m4 & Hs4 & Hst4 & Hr4 & Hw4 & (Hu4 & Ha4 & Hl4 & _)); [done|done| |].
  { split.
    - rewrite Htp. apply NoDup_seq.
    - intros d c Hin. rewrite Ht3 in Hin. apply list_elem_of_fmap in Hin as ([p d'] & [= -> ->] & Hin).
      split; [rewrite <- HL; apply list_elem_of_fmap; by exists (p, d')|]. destruct (Hsl3 p d' Hin) as [Htp' Hcp'].
      simpl. split; [exact Htp'|by exists d'].
    - intros p Hp. left. by rewrite Htp. }
  assert (m_timers m4 = []) as Ht4.
  { destruct (m_timers m4) as [|[d c] l] eqn:E; [done|].
    destruct (rest_sleep _ _ _ _ Hr4 d c) as (Hc & _); [rewrite E; by left|]. exfalso. apply (Hw4 c Hc). by left. }
  assert (m_now m4 = longest ds) as Hn4.
  { rewrite Ht4, Ht3, Hn3, Hn2, Hn1 in Hl4. simpl in Hl4. rewrite Hl4. apply longest_last. }
  assert (m_tasks m4 !! a = Some (set_awaiting_coro (Some 0%nat) started_task)) as Hta.
  { rewrite Ha4. destruct (Hu3 a Haps) as [-> _]. rewrite Htk2. apply lookup_insert_eq. }
  assert (0%nat ∉ a :: ps) as H0 by (by apply not_elem_of_cons).
  destruct (Hu4 0%nat H0) as [Htk4 Hck4]. destruct (Hu3 0%nat H0ps) as [Htk3 Hck3]. destruct (Hu1 0%nat H0ps) as [Htk1 _].
  pose proof (leave_all a K m4 Hst4 Hta) as Hs5. rewrite Hck4, Hck3 in Hs5. specialize (Hs5 Hc2).
  set (m5 := with_tasks _ _) in Hs5. rewrite HK in Hs5.
  exists (with_stack [] m5). split; [|done].
  transitivity m1; [done|]. transitivity m2; [done|]. transitivity m3; [done|]. transitivity m4; [done|].
  etransitivity; [exact Hs5|]. etransitivity.
  { apply check_duration_steps; [pose proof (longest_nonneg ds); lia|]. simpl. rewrite Hn1, Hn4. simpl. lia. }
  etransitivity.
  { apply expect_done_steps. intros t Ht. simpl. rewrite lookup_insert_ne by (by intros ->).
    destruct (rest_done _ _ _ _ Hr4 t Ht) as [Hin|(x & ? & ? & _)]; [|by exists x].
    rewrite Ht4 in Hin. by apply elem_of_nil in Hin. }
  eapply stepped_l; [|apply rtc_refl]. unfold step. simpl. unfold end_coroutine. simpl.
  rewrite lookup_insert_ne, Htk4, Htk3, Htk2, lookup_insert_ne, Htk1 by done. done.
Qed.

(** Enough fuel reaches the end of a run. *)
Lemma steps_run m m' :
  steps m m' -> step order which m' = Idle ->
  exists n, forall fuel, (n < Pos.to_nat fuel)%nat -> run_steps order which fuel m = (Val Idle, m').
Proof.
  intros Hs Hi.
  assert (exists n, forall k, (n < k)%nat -> iter_nat (fun _ : unit => fun m : machine =>
    match step order which m with Step m' => (Val (inl tt), m') | x => (Val (inr x), m) end) k tt m =
    (Val (inr Idle), m')) as (n & Hn).
  { induction Hs as [m|m m1 m' H1 _ IH].
    - exists 0%nat. intros [|k] Hk; [lia|]. simpl. unfold bind. by rewrite Hi.
    - destruct (IH Hi) as (n & Hn). exists (S n). intros [|k] Hk; [lia|]. simpl. unfold bind at 1. rewrite H1.
      apply Hn. lia. }
  exists n. intros fuel Hf. unfold run_steps, loop, bind. by rewrite iter_pos_nat, Hn.
Qed.
End Run.

(** ** Properties *)

(** C6: [co_await all(tasks)] returns when the last of the tasks has returned, and at
    that moment: with tasks that sleep for any durations, under any choice among the
    timers that are due together, the test finds that exactly the longest duration
    has passed and that every task is done, and the run of the event loop ends at
    that time. *)
Theorem all_takes_the_longest (order : list nat -> list nat) (which : list coro -> nat)
    (expectation_failed : exn) (durations : list Z) :
  longest durations < 2 ^ 64 ->
  exists n, forall fuel, (n < Pos.to_nat fuel)%nat -> exists m,
    run_steps order which fuel (call_detached (test_all_sleeps expectation_failed durations CoReturn) machine_new) =
      (Val Idle, m) /\ m_now m = longest durations.
Proof.
  intros Hd. destruct (steps_all_sleeps order which expectation_failed durations Hd) as (m & Hs & Hst & Ht & Hn).
  destruct (steps_run order which _ m Hs) as (n & Hrun).
  { unfold step, fire. by rewrite Hst, Ht. }
  exists n. intros fuel Hf. exists m. by rewrite (Hrun fuel Hf).
Qed.

Lemma all_takes_the_longest_witness :
  exists n, forall fuel, (n < Pos.to_nat fuel)%nat -> exists m,
    run_steps (fun l => l) (fun _ => 0%nat) fuel
      (call_detached (test_all_sleeps bad_alloc [1000000; 3000000; 2000000] CoReturn) machine_new) =
      (Val Idle, m) /\ m_now m = 3000000.
Proof. apply (all_takes_the_longest (fun l => l) (fun _ => 0%nat) bad_alloc [1000000; 3000000; 2000000]). vm_compute. reflexivity. Defined.
