(* ===== verification/NetworkTest.v ===== *)
(** * The network test (src/src/Examples/ControlFlowTests.cc)

    [test_all_network]: two tasks, one at each end of a socket pair, under the
    event loop. What a task does between two of its awaits is a computation on its
    buffer and its end of the pair; the machine interleaves the callbacks of the
    two awaiters with the kernel, which moves bytes from one end to the other in
    pieces of any size. The callbacks are those of Buffer.v, over any libevent that
    keeps its contract. *)
From stdpp Require Import tactics base list numbers strings.
From S2P Require Import Prelude BufferApi Libevent Chunked Buffer.

Section Machine.
Context {L : Libevent} {view : sock -> net} {LS : LibeventSpec L view}.
(** The kernel appends bytes to what an end has received. *)
Context (arrive : bytes -> sock -> sock).
(** What a failed [expect_eq] of phosg throws. *)
Context (expectation_failed : exn).

(** ** One task *)

(** [static const string chunk_data(1024, '\0')] *)
Definition chunk_data : bytes := replicate 1024 Byte.x00.

Inductive awaiting := AwRead (aw : ReadAwaiter) | AwWrite (aw : WriteAwaiter).

(** The rest of an iteration, from the end of its [co_await] on. *)
Definition resumed (a : awaiting) : ST (bytes * sock) unit :=
  match a with
  | AwRead aw =>
      ReadExactlyAwaiter_await_resume aw ;;;
      let! d := on_fst (@remove_string libevent_buffer (zlen chunk_data)) in
      (if decide (chunk_data = d) then ret tt else throw expectation_failed) ;;;
      on_fst (@drain_all libevent_buffer)
  | AwWrite aw =>
      WriteAwaiter_await_resume aw ;;;
      on_fst (@drain_all libevent_buffer)
  end.

(** [n] iterations of the loop, up to the next suspension: where it suspends, and
    how many iterations come after that one. [should_read] is never changed. *)
Fixpoint iterations (should_read : bool) (n : nat) : ST (bytes * sock) (option (nat * awaiting)) :=
  match n with
  | O => ret None
  | S n =>
      if should_read then
        let aw := ReadAwaiter_ctor (s64 (zlen chunk_data)) in
        if ReadAwaiter_await_ready aw then resumed (AwRead aw) ;;; iterations should_read n
        else Event_add ;;; ret (Some (n, AwRead aw))
      else
        on_fst (@buf_add_reference libevent_buffer chunk_data) ;;;
        Event_add ;;; ret (Some (n, AwWrite (WriteAwaiter_ctor (-1))))
  end.

(** The callback of the event, which may resume the task. *)
Definition on_ready (should_read : bool) (rest : nat) (a : awaiting)
    : ST (bytes * sock) (option (nat * awaiting)) :=
  let! r := match a with
            | AwRead aw => let! r := ReadExactlyAwaiter_on_read_ready aw in ret (AwRead (fst r), snd r)
            | AwWrite aw => let! r := WriteAwaiter_on_write_ready aw in ret (AwWrite (fst r), snd r)
            end in
  match snd r with
  | Rearmed => ret (Some (rest, fst r))
  | Resumed => resumed (fst r) ;;; iterations should_read rest
  end.

(** A task between two events: suspended, with its buffer, or at its end. *)
Inductive task_frame :=
| Suspended (rest : nat) (buf : bytes) (a : awaiting)
| Returned (o : out unit).

Definition frame_of (o : out (option (nat * awaiting))) (buf : bytes) : task_frame :=
  match o with
  | Val (Some (rest, a)) => Suspended rest buf a
  | Val None => Returned (Val tt)
  | Exn e => Returned (Exn e)
  | Undef => Returned Undef
  | NoFuel => Returned NoFuel
  end.

(** ** The two ends *)

(** A task, its end of the pair, and how many of the bytes sent at the other end
    have arrived there. *)
Record endpoint := mkEnd { e_frame : task_frame; e_sock : sock; e_arrived : Z }.

Definition run_end (m : ST (bytes * sock) (option (nat * awaiting))) (buf : bytes) (w : sock)
    (arrived : Z) : endpoint :=
  let '(o, (buf', w')) := m (buf, w) in mkEnd (frame_of o buf') w' arrived.

Definition test_all_network_fn (num_iterations : nat) (read_first : bool) (w : sock) : endpoint :=
  run_end (let! buf := of_out Buffer_new in
           on_fst (put buf) ;;; iterations read_first num_iterations) [] w 0.

(** The kernel delivers at most [k] more bytes, or the event of the task fires: a
    descriptor is readable when something has arrived, and always writable. [None]:
    the step is not enabled. *)
Inductive happening := Arrive (k : Z) | Ready.

Definition end_step (h : happening) (this other : endpoint) : option endpoint :=
  match h with
  | Arrive k =>
      let d := ztake k (zdrop (e_arrived this) (tx (view (e_sock other)))) in
      if decide (d = []) then None
      else Some (mkEnd (e_frame this) (arrive d (e_sock this)) (e_arrived this + zlen d))
  | Ready =>
      match e_frame this with
      | Returned _ => None
      | Suspended rest buf a =>
          let should_read := match a with AwRead _ => true | AwWrite _ => false end in
          if should_read && bool_decide (rx (view (e_sock this)) = []) then None
          else Some (run_end (on_ready should_read rest a) buf (e_sock this) (e_arrived this))
      end
  end.

Definition ends_pair : Type := endpoint * endpoint.
Definition pair_step (l : bool * happening) (s : ends_pair) : option ends_pair :=
  let '(a, b) := s in
  if fst l then a' ← end_step (snd l) a b; Some (a', b) else b' ← end_step (snd l) b a; Some (a, b').
Fixpoint pair_run (ls : list (bool * happening)) (s : ends_pair) : option ends_pair :=
  match ls with
  | [] => Some s
  | l :: ls => s' ← pair_step l s; pair_run ls s'
  end.

(** [test_all_network]: both tasks are started, [all] waits for both, and then each
    is awaited, which throws what it has thrown; [None] while [all] waits. *)
Definition test_all_network_start (num_iterations : nat) (w1 w2 : sock) : ends_pair :=
  (test_all_network_fn num_iterations true w1, test_all_network_fn num_iterations false w2).
Definition test_all_network (s : ends_pair) : option (out unit) :=
  match e_frame (fst s), e_frame (snd s) with
  | Returned o1, Returned o2 => Some (fst ((of_out o1 ;;; of_out o2) tt))
  | _, _ => None
  end.

(** Some task has ended with a failure that libevent reported. *)
Definition pair_failed (s : ends_pair) : Prop :=
  exists a e, (a = fst s \/ a = snd s) /\ e_frame a = Returned (Exn e) /\ lib_failure e.

(** ** The bytes on their way *)

Definition zero (l : bytes) : Prop := Forall (fun c => c = Byte.x00) l.

Lemma zero_app l1 l2 : zero (l1 ++ l2) <-> zero l1 /\ zero l2.
Proof. apply Forall_app. Qed.
Lemma zero_take n l : zero l -> zero (ztake n l).
Proof. apply Forall_take. Qed.
Lemma zero_drop n l : zero l -> zero (zdrop n l).
Proof. apply Forall_drop. Qed.

Lemma zero_chunk l : zero l -> zlen l = zlen chunk_data -> l = chunk_data.
Proof.
  intros Hz Hl. unfold chunk_data in *. unfold zlen in Hl. rewrite length_replicate in Hl.
  assert (length l = 1024%nat) as <- by lia. clear Hl. unfold zero in Hz.
  induction Hz as [|c l -> Hz IH]; [done|]. simpl. by rewrite <- IH.
Qed.
Lemma chunk_zero : zero chunk_data.
Proof. by apply Forall_replicate. Qed.
Lemma chunk_size : zlen chunk_data = 1024.
Proof. done. Qed.

(** ** Where the tasks are

    [N] bytes in all; the reader has taken [r] of them, the writer has sent [t]. *)
#[local] Instance pair_buffer_laws : BufferLaws libevent_buffer := libevent_buffer_laws (view := view).

Section Tasks.
Context (N : Z).

Definition reader_at (r : Z) (f : task_frame) : Prop :=
  match f with
  | Suspended rest b a =>
      a = AwRead (mkReadAwaiter (zlen chunk_data) (zlen b) false false) /\ zero b /\
      zlen b < zlen chunk_data /\ r + (zlen chunk_data - zlen b) + zlen chunk_data * Z.of_nat rest = N
  | Returned o => o = Val tt /\ r = N
  end.

Definition writer_at (t : Z) (f : task_frame) : Prop :=
  match f with
  | Suspended rest b a => exists limit,
      a = AwWrite (mkWriteAwaiter limit (zlen chunk_data - zlen b) false) /\ zero b /\
      (limit = zlen chunk_data \/ limit = -1 /\ b = chunk_data) /\
      0 < zlen b <= zlen chunk_data /\ t + zlen b + zlen chunk_data * Z.of_nat rest = N
  | Returned o => o = Val tt /\ t = N
  end.

(** A computation of a task fails in libevent, or leaves the task where it should
    be and its end of the pair as it should be. *)
Definition leaves (P : task_frame -> Prop) (v : net)
    (r : out (option (nat * awaiting)) * (bytes * sock)) : Prop :=
  (exists e, fst r = Exn e /\ lib_failure e) \/
  (P (frame_of (fst r) (fst (snd r))) /\ view (snd (snd r)) = v).

Abbreviation near := (Rprod eq (fun w v => view w = v)).

Lemma leaves_bind {A} (m : ST (bytes * sock) A) k b w a b1 v1 P v :
  delivers lib_failure near m (b, w) (Val a) (b1, v1) ->
  (forall w1, view w1 = v1 -> leaves P v (k a (b1, w1))) -> leaves P v ((bind m k) (b, w)).
Proof.
  intros [[Ho [Hb Hv]]|(e & He & Hl)] Hk; unfold bind; destruct (m (b, w)) as [o [b' w']]; simpl in *; subst.
  - by apply Hk.
  - left. by exists e.
Qed.

Lemma Event_add_delivers b w : delivers lib_failure near Event_add (b, w) (Val tt) (b, view w).
Proof.
  unfold delivers. destruct (Event_add_law b w) as [He|(w' & -> & Hv)]; [by right|by left].
Qed.

Lemma drain_all_delivers b w :
  delivers lib_failure near (on_fst (@drain_all libevent_buffer)) (b, w) (Val tt) ([], view w).
Proof.
  eapply refines_delivers with (m' := on_fst (@drain_all spec_buffer)) (s' := (b, view w)); [|done| |done].
  - apply refines_on_fst, drain_all_refines.
  - unfold on_fst, focus, drain_all, bind. simpl. by rewrite spec_drain_all.
Qed.

Lemma read_finished b w :
  zero b -> zlen b = zlen chunk_data ->
  delivers lib_failure near
    (resumed (AwRead (mkReadAwaiter (zlen chunk_data) (zlen chunk_data) false false))) (b, w)
    (Val tt) ([], view w).
Proof.
  intros Hz Hl. apply zero_chunk in Hz as ->; [|done]. clear Hl.
  eapply refines_delivers with (s' := (chunk_data, view w)) (m' :=
    ret tt ;;; let! d := on_fst (@remove_string spec_buffer (zlen chunk_data)) in
    (if decide (chunk_data = d) then ret tt else throw expectation_failed) ;;;
    on_fst (@drain_all spec_buffer)); [|done| |done].
  - simpl resumed. unfold ReadExactlyAwaiter_await_resume. cbn [ra_err ra_eof].
    refine_auto; [apply remove_string_refines|apply drain_all_refines].
  - rewrite (bind_Val _ _ _ tt (chunk_data, view w)) by done.
    rewrite (bind_Val _ _ _ chunk_data ([], view w))
      by (apply on_fst_eq; by rewrite remove_string_all).
    rewrite decide_True by done. rewrite (bind_Val _ _ _ tt ([], view w)) by done.
    apply on_fst_eq. unfold drain_all. by rewrite (bind_Val _ _ _ 0 []) by done.
Qed.

Lemma read_iterations n w :
  leaves (reader_at (N - zlen chunk_data * Z.of_nat n)) (view w) (iterations true n ([], w)).
Proof.
  destruct n as [|n]; cbn [iterations]; [right; simpl; split; [split; [done|lia]|done]|].
  change (ReadAwaiter_ctor _) with (mkReadAwaiter (zlen chunk_data) 0 false false).
  unfold ReadAwaiter_await_ready. cbn [ra_limit ra_bytes_read].
  destruct (Z.leb_spec (zlen chunk_data) 0) as [H|_]; [by vm_compute in H|].
  eapply leaves_bind; [apply Event_add_delivers|]. intros w1 <-. right.
  split; [|done]. cbn [ret reader_at frame_of fst snd]. change (zlen (@nil byte)) with 0. change (zlen chunk_data) with 1024.
  split_and!; [done|by apply Forall_nil|lia..].
Qed.

Lemma write_iterations n w :
  leaves (writer_at (N - zlen chunk_data * Z.of_nat n)) (view w) (iterations false n ([], w)).
Proof.
  destruct n as [|n]; cbn [iterations]; [right; simpl; split; [split; [done|lia]|done]|].
  eapply leaves_bind with (b1 := chunk_data) (v1 := view w).
  { eapply refines_delivers with (s' := ([], view w)); [apply refines_on_fst, law_add_reference|done| |done].
    done. }
  intros w1 Hw1. eapply leaves_bind; [apply Event_add_delivers|]. intros w2 Hw2. right.
  split; [|by rewrite <- Hw1, <- Hw2]. cbn [ret writer_at frame_of fst snd]. exists (-1).
  rewrite Z.sub_diag. pose proof chunk_zero. change (zlen chunk_data) with 1024.
  split_and!; [done|done|by right|lia..].
Qed.

(** Each callback of the reader takes at least a byte of what has arrived. *)
Lemma read_ready r rest b a w :
  reader_at r (Suspended rest b a) -> rx (view w) <> [] -> zero (rx (view w)) ->
  exists k, 0 < k <= zlen (rx (view w)) /\
    leaves (reader_at (r + k)) (Net (zdrop k (rx (view w))) (tx (view w))) (on_ready true rest a (b, w)).
Proof.
  intros (-> & Hz & Hl & HN) Hne Hzr. pose proof (zlen_nonneg b). pose proof chunk_size as Hc.
  assert (0 < zlen (rx (view w))) as Hpos
    by (pose proof (zlen_nonneg (rx (view w))); destruct (decide (zlen (rx (view w)) = 0)) as [E|]; [by apply zlen_0 in E|lia]).
  unfold on_ready, ReadExactlyAwaiter_on_read_ready, bind at 1 2. cbn [ra_limit ra_bytes_read].
  unfold u64, s32. rewrite (Z.mod_small (_ - _)), sgn_small by lia.
  pose proof (evbuffer_read_spec w b (zlen chunk_data - zlen b) ltac:(lia)) as Hs.
  destruct (evbuffer_read w b (zlen chunk_data - zlen b)) as [[k b'] w'].
  destruct (Z.ltb_spec k 0).
  { exists 1. split; [lia|]. left. eexists. split; [done|lib_fail]. }
  destruct Hs as [?|[(_ & Hnil & _)|(Hk & Hk2 & -> & Hv)]]; [lia|done|].
  exists k. split; [lia|]. rewrite (Z.mod_small (zlen b + k)) by lia.
  destruct (Z.eqb_spec k 0); [lia|].
  assert (zlen (b ++ ztake k (rx (view w))) = zlen b + k) as Hl' by (rewrite zlen_app, zlen_ztake; lia).
  assert (zero (b ++ ztake k (rx (view w)))) as Hz' by (apply zero_app; split; [done|by apply zero_take]).
  rewrite <- Hv. clear Hzr Hpos. revert Hl' Hz'. generalize (b ++ ztake k (rx (view w))) as b1.
  intros b1 Hl' Hz'. destruct (Z.eqb_spec (zlen b + k) (zlen chunk_data)) as [E|E]; cbn [negb].
  - rewrite E in *. cbn [ret fst snd]. eapply leaves_bind; [by apply read_finished|].
    intros w1 Hw1. rewrite <- Hw1. replace (r + k) with (N - zlen chunk_data * Z.of_nat rest) by lia.
    apply read_iterations.
  - unfold bind. destruct (Event_add_law b1 w') as [[e [He HF]]|[w2 [-> Hv2]]].
    { destruct (Event_add _) as [[] ?]; simplify_eq/=. left. eauto. }
    right. cbn [ret fst snd reader_at frame_of]. rewrite Hl'. split; [|done]. split_and!; [done|done|lia..].
Qed.

(** Each callback of the writer sends at least a byte of its buffer. *)
Lemma write_ready t rest b a w :
  writer_at t (Suspended rest b a) ->
  exists d, 0 < zlen d /\ zero d /\
    leaves (writer_at (t + zlen d)) (Net (rx (view w)) (tx (view w) ++ d)) (on_ready false rest a (b, w)).
Proof.
  intros (limit & -> & Hz & Hlim & Hl & HN). pose proof chunk_size as Hc.
  unfold on_ready, WriteAwaiter_on_write_ready, bind at 1 2. cbn [wa_limit wa_bytes_written].
  rewrite evbuffer_get_length_spec.
  assert ((if limit <? 0 then s64 (zlen b) else limit) = zlen chunk_data) as ->.
  { destruct Hlim as [->|[-> ->]]; [by destruct (Z.ltb_spec (zlen chunk_data) 0); [lia|]|done]. }
  pose proof (evbuffer_write_atmost_spec w b (zlen chunk_data)) as Hs.
  ospecialize (Hs _ _); [intros ->; by destruct Hl|lia|].
  destruct (evbuffer_write_atmost w b (zlen chunk_data)) as [[k b'] w'].
  destruct (Z.ltb_spec k 0).
  { exists [Byte.x00]. split_and!; [done|by repeat constructor|]. left. eexists. split; [done|lib_fail]. }
  destruct Hs as [?|(Hk & -> & Hv)]; [lia|].
  exists (ztake k b). assert (zlen (ztake k b) = k) as Hd by (rewrite zlen_ztake; lia).
  split; [lia|]. split; [by apply zero_take|]. rewrite <- Hv, Hd.
  assert (zlen (zdrop k b) = zlen b - k) as Hl' by (rewrite zlen_zdrop; lia).
  pose proof (zero_drop k b Hz) as Hz'. revert Hl' Hz'. generalize (zdrop k b) as b1. intros b1 Hl' Hz'.
  unfold u64, s64. rewrite (Z.mod_small (_ + k)), sgn_small by lia.
  destruct (Z.eqb_spec (zlen chunk_data - zlen b + k) (zlen chunk_data)) as [E|E]; cbn [negb].
  - cbn [ret fst snd]. eapply leaves_bind with (b1 := []) (v1 := view w').
    { unfold resumed, WriteAwaiter_await_resume. cbn [wa_err]. apply drain_all_delivers. }
    intros w1 <-. replace (t + k) with (N - zlen chunk_data * Z.of_nat rest) by lia.
    apply write_iterations.
  - unfold bind. destruct (Event_add_law b1 w') as [[e [He HF]]|[w2 [-> Hv2]]].
    { destruct (Event_add _) as [[] ?]; simplify_eq/=. left. eauto. }
    right. cbn [ret fst snd writer_at frame_of]. split; [|done]. exists (zlen chunk_data).
    replace (zlen chunk_data - zlen b + k) with (zlen chunk_data - zlen b1) by lia.
    split_and!; [done|done|by left|lia..].
Qed.
End Tasks.

(** ** The machine *)

(** The reader has taken [r] bytes and [a] have arrived, of [t] that were sent;
    nothing goes the other way. *)
Record going (N r a t : Z) (s : ends_pair) : Prop := {
  g_reader : reader_at N r (e_frame (fst s));
  g_writer : writer_at N t (e_frame (snd s));
  g_arrived : e_arrived (fst s) = a;
  g_none : e_arrived (snd s) = 0;
  g_view1 : exists l, view (e_sock (fst s)) = Net l [] /\ zero l /\ zlen l = a - r;
  g_view2 : exists l, view (e_sock (snd s)) = Net [] l /\ zero l /\ zlen l = t;
  g_range : 0 <= r <= a /\ a <= t <= N
}.

Context (arrive_spec : forall d w, view (arrive d w) = Net (rx (view w) ++ d) (tx (view w))).

Lemma writer_le N t f : writer_at N t f -> t <= N.
Proof.
  destruct f as [rest b a|o]; simpl; [|lia]. intros (limit & _ & _ & _ & Hl & HN).
  rewrite chunk_size in HN. lia.
Qed.

Lemma run_end_failed m b w a e :
  fst (m (b, w)) = Exn e -> e_frame (run_end m b w a) = Returned (Exn e).
Proof. unfold run_end. by destruct (m (b, w)) as [o [b' w']]; simpl; intros ->. Qed.

Lemma run_end_leaves P v m b w a :
  leaves P v (m (b, w)) ->
  (exists e, e_frame (run_end m b w a) = Returned (Exn e) /\ lib_failure e) \/
  (P (e_frame (run_end m b w a)) /\ view (e_sock (run_end m b w a)) = v /\ e_arrived (run_end m b w a) = a).
Proof.
  intros [(e & He & Hl)|[HP Hv]]; [left; exists e; by rewrite (run_end_failed m b w a e)|right].
  unfold run_end. by destruct (m (b, w)) as [o [b' w']].
Qed.

Lemma pair_step_going N r a t l s s' :
  going N r a t s -> pair_step l s = Some s' ->
  pair_failed s' \/ exists r' a' t', going N r' a' t' s' /\ r + a + t < r' + a' + t'.
Proof.
  destruct l as [side h], s as [x y]. intros [Hr Ht Ha Hn (l1 & Hv1 & Hz1 & Hl1) (l2 & Hv2 & Hz2 & Hl2) Hg].
  unfold pair_step. cbn [fst snd] in *. destruct side, h as [k|]; cbn [end_step].
  - rewrite Hv2, Ha. cbn [tx]. destruct (decide _) as [|Hne]; [done|]. intros [= <-]. right.
    set (d := ztake k (zdrop a l2)) in *. pose proof (zlen_nonneg d).
    assert (zlen d <> 0) by (intros E; by apply zlen_0 in E).
    assert (zlen d <= zlen (zdrop a l2)) as Hd.
    { pose proof (ztake_zdrop k (zdrop a l2)) as E. apply (f_equal zlen) in E. rewrite zlen_app in E.
      pose proof (zlen_nonneg (zdrop k (zdrop a l2))). unfold d in *. lia. }
    rewrite zlen_zdrop in Hd by lia. exists r, (a + zlen d), t. split; [|lia]. split; cbn; [done..| |by eexists|lia].
    exists (l1 ++ d). rewrite arrive_spec, Hv1. split; [done|]. rewrite zlen_app. split; [|lia].
    apply zero_app. split; [done|]. by apply zero_take, zero_drop.
  - destruct (e_frame x) as [rest b aw|o] eqn:Ef; [|done]. pose proof Hr as Hr'. destruct Hr' as (-> & _).
    cbn [andb]. destruct (bool_decide_reflect (rx (view (e_sock x)) = [])) as [|Hne]; [done|].
    intros [= <-]. destruct (read_ready N r rest b _ (e_sock x) Hr Hne) as (k & Hk & Hlv); [by rewrite Hv1|].
    apply run_end_leaves with (a := e_arrived x) in Hlv as [(e & He & Hf)|(Hr' & Hv' & Ha')].
    { left. eexists _, e. split_and!; [by left|done|done]. }
    rewrite Hv1 in Hk, Hv'. cbn [rx tx] in Hk, Hv'. right. exists (r + k), a, t. split; [|lia].
    split; cbn [fst snd]; [done|done|by rewrite Ha'|done| |by eexists|lia].
    exists (zdrop k l1). rewrite Hv'. split; [done|]. rewrite zlen_zdrop by lia. split; [by apply zero_drop|lia].
  - rewrite Hv1, Hn. cbn [tx]. by rewrite decide_True by (unfold zdrop, ztake; by rewrite drop_nil, take_nil).
  - destruct (e_frame y) as [rest b aw|o] eqn:Ef; [|done]. pose proof Ht as Ht'. destruct Ht' as (limit & -> & _).
    cbn [andb]. intros [= <-]. destruct (write_ready N t rest b _ (e_sock y) Ht) as (d & Hd & Hzd & Hlv).
    apply run_end_leaves with (a := e_arrived y) in Hlv as [(e & He & Hf)|(Ht' & Hv' & Ha')].
    { left. eexists _, e. split_and!; [by right|done|done]. }
    right. exists r, a, (t + zlen d). split; [|lia]. pose proof (writer_le _ _ _ Ht').
    split; cbn [fst snd]; [done|done|done|by rewrite Ha'|by eexists| |lia].
    exists (l2 ++ d). rewrite Hv', Hv2. split; [done|]. rewrite zlen_app. split; [by apply zero_app|lia].
Qed.

Lemma pair_step_failed l s s' : pair_failed s -> pair_step l s = Some s' -> pair_failed s'.
Proof.
  assert (forall h x y x' e, e_frame x = Returned (Exn e) -> end_step h x y = Some x' ->
    e_frame x' = Returned (Exn e)) as Hend.
  { intros [k|] x y x' e He; simpl; [|by rewrite He]. destruct (decide _); [done|]. by intros [= <-]. }
  destruct l as [side h], s as [x y]. intros (z & e & Hz & He & Hl). unfold pair_step. cbn [fst snd] in *.
  destruct side; cbn [mbind option_bind]; [destruct (end_step h x y) eqn:E|destruct (end_step h y x) eqn:E];
    intros; simplify_eq/=; (destruct Hz as [->| ->];
      [eexists _, e; split; [by left|]|eexists _, e; split; [by right|]]); split; eauto.
Qed.

Lemma pair_step_enabled N r a t s :
  going N r a t s ->
  test_all_network s = Some (Val tt) \/
  test_all_network s = None /\ exists l s', pair_step l s = Some s'.
Proof.
  destruct s as [x y]. intros [Hr Ht Ha Hn (l1 & Hv1 & Hz1 & Hl1) (l2 & Hv2 & Hz2 & Hl2) Hg].
  unfold test_all_network, pair_step. cbn [fst snd] in *. pose proof chunk_size as Hc.
  destruct (e_frame y) as [rest b aw|o] eqn:Ey.
  { right. split; [by destruct (e_frame x)|]. destruct Ht as (limit & -> & _).
    exists (false, Ready). cbn. rewrite Ey. by eexists. }
  destruct Ht as [-> ->]. destruct (e_frame x) as [rest b aw|o] eqn:Ex; [|destruct Hr as [-> ->]; by left].
  right. split; [done|]. destruct Hr as (-> & Hzb & Hl & HN). rewrite Hc in *.
  destruct (decide (a = N)) as [->|].
  - exists (true, Ready). cbn. rewrite Ex. rewrite bool_decide_eq_false_2; [by eexists|].
    rewrite Hv1. cbn [rx]. intros ->. change (zlen (@nil byte)) with 0 in Hl1. lia.
  - exists (true, Arrive (N - a)). cbn. rewrite Hv2, Ha. cbn [tx]. rewrite decide_False; [by eexists|].
    rewrite ztake_all by (rewrite zlen_zdrop by lia; lia). intros E. apply (f_equal zlen) in E.
    rewrite zlen_zdrop in E by lia. change (zlen (@nil byte)) with 0 in E. lia.
Qed.

Lemma fn_start num_iterations read_first w :
  let x := test_all_network_fn num_iterations read_first w in
  (exists e, e_frame x = Returned (Exn e) /\ lib_failure e) \/
  ((if read_first then reader_at else writer_at) (zlen chunk_data * Z.of_nat num_iterations) 0 (e_frame x) /\
   view (e_sock x) = view w /\ e_arrived x = 0).
Proof.
  apply run_end_leaves. eapply leaves_bind with (b1 := []) (v1 := view w) (a := []).
  - pose proof evbuffer_new_spec as Hnew. unfold of_out, Buffer_new, delivers.
    destruct evbuffer_new as [b|]; [rewrite (Hnew b) by done; by left|right; eexists; split; [done|lib_fail]].
  - intros w1 <-. rewrite (bind_Val _ _ _ tt ([], w1)) by done.
    rewrite <- (Z.sub_diag (zlen chunk_data * Z.of_nat num_iterations)).
    destruct read_first; [apply read_iterations|apply write_iterations].
Qed.

Lemma pair_run_failed ls : forall s s', pair_failed s -> pair_run ls s = Some s' -> pair_failed s'.
Proof.
  induction ls as [|l ls IH]; intros s s' Hf; simpl; [by intros [= <-]|].
  destruct (pair_step l s) as [s1|] eqn:E; [|done]. apply IH. by eapply pair_step_failed.
Qed.

Lemma pair_run_going N ls : forall r a t s s', going N r a t s -> pair_run ls s = Some s' ->
  pair_failed s' \/ exists r' a' t', going N r' a' t' s' /\ r + a + t + Z.of_nat (length ls) <= r' + a' + t'.
Proof.
  induction ls as [|l ls IH]; intros r a t s s' Hg; simpl; [intros [= <-]|].
  { right. exists r, a, t. split; [done|lia]. }
  destruct (pair_step l s) as [s1|] eqn:E; [|done]. intros Hrun.
  destruct (pair_step_going N r a t l s s1 Hg E) as [Hf|(r1 & a1 & t1 & Hg1 & Hlt)].
  { left. by eapply pair_run_failed. }
  destruct (IH _ _ _ _ _ Hg1 Hrun) as [?|(r' & a' & t' & Hg' & Hle)]; [by left|right].
  exists r', a', t'. split; [done|lia].
Qed.

Lemma network_run num_iterations ls w1 w2 s :
  view w1 = Net [] [] -> view w2 = Net [] [] ->
  pair_run ls (test_all_network_start num_iterations w1 w2) = Some s ->
  pair_failed s \/
  exists r a t, going (zlen chunk_data * Z.of_nat num_iterations) r a t s /\ Z.of_nat (length ls) <= r + a + t.
Proof.
  intros Hv1 Hv2. set (N := zlen chunk_data * Z.of_nat num_iterations). intros Hrun.
  destruct (fn_start num_iterations true w1) as [(e & He & Hl)|(Hr & Hw1 & Ha)].
  { left. eapply pair_run_failed; [|done]. eexists _, e. split; [by left|done]. }
  destruct (fn_start num_iterations false w2) as [(e & He & Hl)|(Ht & Hw2 & Hb)].
  { left. eapply pair_run_failed; [|done]. eexists _, e. split; [by right|done]. }
  assert (going N 0 0 0 (test_all_network_start num_iterations w1 w2)) as Hg.
  { split; cbn [fst snd test_all_network_start]; [done..| | |].
    - exists []. rewrite Hw1, Hv1. split_and!; [done|by apply Forall_nil|done].
    - exists []. rewrite Hw2, Hv2. split_and!; [done|by apply Forall_nil|done].
    - unfold N. rewrite chunk_size. lia. }
  by destruct (pair_run_going _ _ _ _ _ _ _ Hg Hrun) as [?|(r & a & t & Hg' & Hle)]; [left|right; exists r, a, t].
Qed.

(** C8: the network test: whatever libevent does within its contract, however the
    kernel cuts what it delivers and whichever event fires first, the two tasks make
    at most three steps for each byte that crosses; while one of them is not done
    some step can be made; and when both are, neither has thrown: every chunk has
    arrived as it was sent. Only a failure that libevent reports ends a task
    otherwise. *)
Theorem network_test_ends num_iterations ls w1 w2 s :
  view w1 = Net [] [] -> view w2 = Net [] [] ->
  pair_run ls (test_all_network_start num_iterations w1 w2) = Some s ->
  pair_failed s \/
  (Z.of_nat (length ls) <= 3 * (zlen chunk_data * Z.of_nat num_iterations) /\
   (test_all_network s = Some (Val tt) \/
    test_all_network s = None /\ exists l s', pair_step l s = Some s')).
Proof.
  intros Hv1 Hv2 Hrun.
  destruct (network_run _ _ _ _ _ Hv1 Hv2 Hrun) as [?|(r & a & t & Hg' & Hle)]; [by left|right].
  split; [destruct Hg'; lia|by eapply pair_step_enabled].
Qed.
End Machine.

Lemma network_test_ends_witness :
  let arrive := fun d (w : net) => Net (rx w ++ d) (tx w) in
  let ls := [(false, Ready); (true, Arrive 100); (true, Ready); (false, Ready); (true, Arrive 9999); (true, Ready)] in
  let s := @test_all_network_start (chunked 600) (runtime_error (str "expectation failed")) 1 (Net [] []) (Net [] []) in
  let s' := default s (@pair_run (chunked 600) (fun w => w) arrive (runtime_error (str "expectation failed")) ls s) in
  @pair_failed (chunked 600) s' \/
  (Z.of_nat (length ls) <= 3 * (zlen chunk_data * 1) /\
   (@test_all_network (chunked 600) s' = Some (Val tt) \/
    @test_all_network (chunked 600) s' = None /\ exists l s'',
      @pair_step (chunked 600) (fun w => w) arrive (runtime_error (str "expectation failed")) l s' = Some s'')).
Proof.
  intros arrive ls s s'.
  apply (network_test_ends (LS := chunked_spec 600) arrive (runtime_error (str "expectation failed"))
    (fun d w => eq_refl) 1 ls (Net [] []) (Net [] [])); [reflexivity..|].
  vm_compute. reflexivity.
Defined.

(** With two reads of what the kernel delivers in two parts, the test is over. *)
Example network_test_run :
  let arrive := fun d (w : net) => Net (rx w ++ d) (tx w) in
  let e := runtime_error (str "expectation failed") in
  (s ← @pair_run (chunked 600) (fun w => w) arrive e
     [(false, Ready); (true, Arrive 100); (true, Ready); (false, Ready); (true, Arrive 9999); (true, Ready); (true, Ready)]
     (@test_all_network_start (chunked 600) e 1 (Net [] []) (Net [] []));
   @test_all_network (chunked 600) s) = Some (Val tt).
Proof. vm_compute. reflexivity. Qed.
