(* ===== verification/ControlFlowMain.v ===== *)
(** * main of the control flow tests (src/src/Examples/ControlFlowTests.cc)

    The list of the tests and the loop that runs them: each one of those of
    ControlFlowTests.v on the machine of coroutines, and the network test of
    NetworkTest.v on its machine, in the order of [main]. *)
From stdpp Require Import tactics base list numbers strings gmap.
From S2P Require Import Prelude BufferApi Libevent Chunked Buffer Text Channel Future Task Coroutines Exploration ControlFlowTests NetworkTest.

(** A test: a coroutine that waits for timers, or the two ends of a socket pair. *)
Inductive test_fn := OnTimers (body : co val) | OnSockets (num_iterations : nat).

Definition test_cases (expectation_failed : exn) : list (string * test_fn) :=
  let on_timers test := OnTimers (test expectation_failed) in
  [("test_returns"%string, on_timers test_returns);
   ("test_exceptions"%string, on_timers test_exceptions);
   ("test_timeouts"%string, on_timers test_timeouts);
   ("test_multi_sleep"%string, on_timers test_multi_sleep);
   ("test_all_sleep"%string, on_timers test_all_sleep);
   ("test_all_sleep_exception"%string, on_timers test_all_sleep_exception);
   ("test_all_network"%string, OnSockets 5);
   ("test_any_sleep"%string, on_timers test_any_sleep);
   ("test_all_limit_sleep"%string, on_timers test_all_limit_sleep);
   ("test_future_void"%string, on_timers test_future_void);
   ("test_future_void_exc"%string, on_timers test_future_void_exc);
   ("test_future_value"%string, on_timers test_future_value);
   ("test_deferred_future_value"%string, on_timers test_deferred_future_value);
   ("test_channel"%string, on_timers test_channel)].

Lemma socket_cases expectation_failed :
  Forall (fun p => match snd p with OnSockets n => n = 5%nat | OnTimers _ => True end) (test_cases expectation_failed).
Proof. unfold test_cases. repeat constructor. Qed.

Section Main.
Context {L : Libevent} {view : sock -> net} {LS : LibeventSpec L view}.
Context (arrive : bytes -> sock -> sock) (expectation_failed : exn).
(** The choices of the machine of coroutines, and what happens to the sockets. *)
Context (order : machine -> list nat -> list nat) (which : machine -> list coro -> nat).
Context (ls : list (bool * happening)) (fds : sock * sock).

(** [test_case.fn(base); base.run()], with the fuel for a run of the loop. The
    network test leaves the machine of coroutines as it is: its time is not on the
    clock of the timers, of which none is pending. [NoFuel]: the sockets wait for
    what does not happen. *)
Definition run_test (fuel : nat) (test : test_fn) (m : machine) : out machine :=
  match test with
  | OnTimers body => base_run order which fuel (call_detached (body CoReturn) m)
  | OnSockets num_iterations =>
      match s ← pair_run (view := view) arrive expectation_failed ls
                  (test_all_network_start expectation_failed num_iterations (fst fds) (snd fds));
            test_all_network s with
      | Some (Val _) => Val m
      | Some (Exn e) => Exn e
      | Some Undef => Undef
      | Some NoFuel | None => NoFuel
      end
  end.

Fixpoint run_tests (fuel : nat) (tests : list (string * test_fn)) (m : machine) : out machine :=
  match tests with
  | [] => Val m
  | (_, test) :: tests =>
      match run_test fuel test m with
      | Val m' => run_tests fuel tests m'
      | o => o
      end
  end.

(** ** All the ends of the tests that wait for timers *)

Fixpoint all_finals (fuel : nat) (tests : list (string * test_fn)) (ms : list machine) : option (list machine) :=
  match tests with
  | [] => Some ms
  | (_, OnTimers body) :: tests =>
      match branches (fun m => finals fuel (call_detached (body CoReturn) m)) ms with
      | Some ms' => all_finals fuel tests ms'
      | None => None
      end
  | (_, OnSockets _) :: tests => all_finals fuel tests ms
  end.

(** Nothing can happen when both ends have returned and every byte has arrived. *)
Definition ended (this other : endpoint) : Prop :=
  (exists o, e_frame this = Returned o) /\ zdrop (e_arrived this) (tx (view (e_sock other))) = [].
Lemma nothing_happens a b : ended a b -> ended b a ->
  forall l, pair_step (view := view) arrive expectation_failed l (a, b) = None.
Proof.
  assert (forall h x y, ended x y -> end_step (view := view) arrive expectation_failed h x y = None) as H.
  { intros [k|] x y [[o Ho] Hd]; cbn [end_step]; [|by rewrite Ho].
    rewrite Hd. by rewrite decide_True by (unfold ztake; by rewrite take_nil). }
  intros Ha Hb [[] h]; cbn [pair_step fst snd]; by rewrite H.
Qed.

Context (order_perm : forall m tasks, order m tasks ≡ₚ tasks).

Lemma all_finals_sound fuel fuel' tests : forall ms ms' m,
  (fuel <= fuel')%nat -> all_finals fuel tests ms = Some ms' -> m ∈ ms ->
  (forall name n m, (name, OnSockets n) ∈ tests -> run_test fuel' (OnSockets n) m = Val m) ->
  exists m', run_tests fuel' tests m = Val m' /\ m' ∈ ms'.
Proof.
  induction tests as [|[name [body|n]] tests IH]; cbn [all_finals run_tests]; intros ms ms' m Hf Ha Hm Hn.
  - injection Ha as <-. eauto.
  - destruct (branches _ ms) as [ms1|] eqn:E; [|done].
    apply branches_spec in E as [_ E]; [|intros; by eapply finals_rest].
    destruct (E m Hm) as (msm & Em & Hin).
    destruct (finals_sound order which order_perm _ fuel' _ _ Hf Em) as (m1 & Hrun & Hm1).
    cbn [run_test]. rewrite Hrun. eapply IH; eauto. intros. eapply Hn. by apply list_elem_of_further.
  - rewrite (Hn name) by apply list_elem_of_here. eapply IH; eauto.
    intros. eapply Hn. by apply list_elem_of_further.
Qed.

Lemma all_finals_tests :
  exists m, all_finals 1000 (test_cases expectation_failed) [machine_new] = Some [m] /\
    m_now m = 30500000 /\ m_code m = ∅ /\ m_timers m = [].
Proof. eexists. split; [vm_compute; reflexivity|]. split_and!; reflexivity. Qed.

Context (arrive_spec : forall d w, view (arrive d w) = Net (rx (view w) ++ d) (tx (view w))).

(** C7: the tests pass: whatever [expect] would throw, in whatever order a set of
    tasks is iterated each time it is, whichever of the timers that are due together
    fires first, and whatever libevent and the kernel do with the sockets of the
    network test until nothing can happen any more, every test ends, no exception
    leaves it, no coroutine stays suspended, and the tests with timers take 30.5
    seconds together. Only a failure that libevent reports in the network test is left
    out. The choices may depend on the whole state of the machine. *)
Theorem control_flow_tests_pass fuel s :
  view (fst fds) = Net [] [] -> view (snd fds) = Net [] [] ->
  pair_run (view := view) arrive expectation_failed ls
    (test_all_network_start expectation_failed 5 (fst fds) (snd fds)) = Some s ->
  (forall l, pair_step (view := view) arrive expectation_failed l s = None) ->
  (1000 <= fuel)%nat ->
  pair_failed s \/
  exists m, run_tests fuel (test_cases expectation_failed) machine_new = Val m /\
    m_now m = 30500000 /\ m_code m = ∅ /\ m_timers m = [].
Proof.
  intros Hv1 Hv2 Hrun Hmax Hf.
  destruct (network_run arrive expectation_failed arrive_spec _ _ _ _ _ Hv1 Hv2 Hrun) as [?|(r & a & t & Hg & _)];
    [by left|right].
  destruct all_finals_tests as (m & Ha & Hm).
  destruct (all_finals_sound 1000 fuel (test_cases expectation_failed) _ _ machine_new Hf Ha) as (m' & Hm' & Hin).
  - by apply list_elem_of_here.
  - intros name n m0 Hin. assert (n = 5%nat) as ->.
    { by apply (proj1 (Forall_forall _ _) (socket_cases expectation_failed)) in Hin. }
    cbn [run_test]. rewrite Hrun. cbn [mbind option_bind].
    destruct (pair_step_enabled arrive expectation_failed _ _ _ _ _ Hg) as [->|[_ (l & s' & Hl)]]; [done|].
    by rewrite Hmax in Hl.
  - apply list_elem_of_singleton in Hin as ->. eauto.
Qed.
End Main.

(** The choices of the witness: sets are iterated backwards when the clock shows a
    whole number of seconds, and the last of the timers that are due fires first;
    the kernel delivers a chunk at a time, in two parts. *)
Definition some_order (m : machine) (tasks : list nat) : list nat :=
  if m_now m mod 1000000 =? 0 then rev tasks else tasks.
Definition last_due (_ : machine) (due : list coro) : nat := pred (length due).
Definition deliver (d : bytes) (w : net) : net := Net (rx w ++ d) (tx w).
Definition chunk_by_chunk : list (bool * happening) :=
  concat (repeat [(false, Ready); (true, Arrive 600); (true, Ready); (false, Ready); (true, Arrive 9999); (true, Ready)] 5).

Lemma some_order_perm m tasks : some_order m tasks ≡ₚ tasks.
Proof. unfold some_order. destruct (_ =? _); [by rewrite <- Permutation_rev|done]. Qed.

Lemma control_flow_tests_pass_witness :
  let e := runtime_error (str "failed") in
  let s0 := test_all_network_start (L := chunked 600) e 5 (Net [] []) (Net [] []) in
  let s := default s0 (pair_run (L := chunked 600) (view := fun w => w) deliver e chunk_by_chunk s0) in
  pair_failed (L := chunked 600) s \/
  exists m, run_tests (L := chunked 600) (view := fun w => w) deliver e some_order last_due chunk_by_chunk
      (Net [] [], Net [] []) 1000 (test_cases e) machine_new = Val m /\
    m_now m = 30500000 /\ m_code m = ∅ /\ m_timers m = [].
Proof.
  intros e s0 s.
  apply (control_flow_tests_pass (LS := chunked_spec 600) deliver e some_order last_due chunk_by_chunk
    (Net [] [], Net [] []) some_order_perm (fun d w => eq_refl) 1000 s).
  - reflexivity.
  - reflexivity.
  - vm_compute. reflexivity.
  - apply (nothing_happens (L := chunked 600) (view := fun w => w) deliver e (fst s) (snd s));
      (split; [eexists; vm_compute; reflexivity|vm_compute; reflexivity]).
  - reflexivity.
Defined.
