(* ===== verification/EventBase.v ===== *)
(** * The event base and its awaiters (src/src/Base.cc, Event.cc)

    The awaiters that call the kernel on a nonblocking descriptor: [read],
    [write], [recvfrom], [accept], and the plain event. The kernel is not part of
    the repository; what it does is a sequence of answers, one for each system
    call, and then either silence (the descriptor is not ready) or, for ever, the
    same answer, as a stream that has ended gives. A callback re-arms its event,
    resumes the coroutine, or does neither, and then nothing will ever resume it.
    An exception out of a callback leaves through the event loop. *)
From stdpp Require Import tactics base list numbers strings.
From S2P Require Import Prelude.

(** ** System calls *)

(** A nonnegative result, [EWOULDBLOCK] or [EAGAIN], or another error. *)
Inductive sysret (A : Type) : Type := Ok (a : A) | Again | Failed.
Arguments Ok {A} a.
Arguments Again {A}.
Arguments Failed {A}.

Record kernel (A : Type) := mkKernel {
  k_answers : list (sysret A);    (* what the next calls answer *)
  k_forever : option A;           (* what every later one answers, if any *)
  k_adds : list bool              (* whether the next [event_add] fails *)
}.
Arguments mkKernel {A} _ _ _.
Arguments k_answers {A} _.
Arguments k_forever {A} _.
Arguments k_adds {A} _.

Definition set_answers {A} (l : list (sysret A)) (k : kernel A) : kernel A :=
  mkKernel l (k_forever k) (k_adds k).

(** A call from a callback comes when the descriptor is ready, so it waits for an
    answer; one from [await_ready] does not wait. *)
Definition syscall {A} (ready : bool) : ST (kernel A) (sysret A) := fun k =>
  match k_answers k with
  | a :: l => (Val a, set_answers l k)
  | [] =>
      match k_forever k with
      | Some a => (Val (Ok a), k)
      | None => if ready then (NoFuel, k) else (Val Again, k)
      end
  end.

(** [::read] of a stream: what it has, up to [n] bytes; the rest stays. Nothing is
    read for no bytes. *)
Definition sys_read (ready : bool) (n : Z) : ST (kernel bytes) (sysret bytes) :=
  if n =? 0 then ret (Ok []) else
  let! r := syscall ready in
  match r with
  | Ok d =>
      if zlen d <=? n then ret r
      else modify (fun k => set_answers (Ok (zdrop n d) :: k_answers k) k) ;;; ret (Ok (ztake n d))
  | _ => ret r
  end.
(** The bytes of a datagram and the address of its sender. *)
Definition datagram : Type := bytes * bytes.
(** [::recvfrom] of a datagram: what does not fit is lost. *)
Definition sys_recvfrom (ready : bool) (n : Z) : ST (kernel datagram) (sysret datagram) :=
  let! r := syscall ready in
  ret (match r with Ok (d, addr) => Ok (ztake n d, addr) | r => r end).
(** [::write]: the kernel takes at most what it has room for. *)
Definition sys_write (ready : bool) (data : bytes) : ST (bytes * kernel Z) (sysret Z) :=
  let! r := on_snd (syscall ready) in
  match r with
  | Ok room =>
      let n := Z.min (Z.max 0 room) (zlen data) in
      on_fst (modify (fun sent => sent ++ ztake n data)) ;;; ret (Ok n)
  | _ => ret r
  end.

(** [Event::add()]. *)
Definition event_add_failed : exn := runtime_error (str "event_add failed").
Definition Event_add {A} : ST (kernel A) unit := fun k =>
  match k_adds k with
  | true :: l => (Exn event_add_failed, mkKernel (k_answers k) (k_forever k) l)
  | false :: l => (Val tt, mkKernel (k_answers k) (k_forever k) l)
  | [] => (Val tt, k)
  end.

(** ** Waiting *)

Inductive callback : Type := Rearmed | Resumed | Lost.
(** The coroutine is resumed, or never. *)
Inductive wait (A : Type) : Type := Awaited (a : A) | Never.
Arguments Awaited {A} a.
Arguments Never {A}.

(** The callbacks from [await_suspend] on: one for each time the descriptor is
    ready while the event is pending. *)
Definition drive {S A Aw} (add : ST S unit) (cb : Aw -> ST S (Aw * callback))
    (resume : Aw -> ST S A) (fuel : positive) (aw : Aw) : ST S (wait A) :=
  add ;;;
  let! r := loop (fun aw =>
      let! r := cb aw in
      match r with
      | (aw', Rearmed) => ret (inl aw')
      | (aw', Resumed) => ret (inr (Awaited aw'))
      | (_, Lost) => ret (inr Never)
      end) fuel aw in
  match r with
  | Awaited aw' => let! a := resume aw' in ret (Awaited a)
  | Never => ret Never
  end.

Definition failed_to_read : exn := runtime_error (str "failed to read from fd").
Definition failed_to_write : exn := runtime_error (str "failed to write to fd").
Definition end_of_stream : exn := runtime_error (str "end of stream").
Definition zero_length : exn := runtime_error (str "zero-length message").
Definition accept_failed : exn := runtime_error (str "accept() failed").

(** ** read

    State: the memory that the data pointer points into, and the stream. *)

Record ReadAwaiter := mkRead {
  ra_data : Z;       (* offset of the data pointer *)
  ra_size : Z;
  ra_err : bool;
  ra_eof : bool
}.

Definition ReadAwaiter_ctor (size : Z) : ReadAwaiter := mkRead 0 size false false.

(** What the kernel stores through the pointer. *)
Definition poke (off : Z) (d : bytes) (mem : bytes) : bytes :=
  ztake off mem ++ d ++ zdrop (off + zlen d) mem.

Definition ReadAwaiter_await_ready (aw : ReadAwaiter)
    : ST (bytes * kernel bytes) (ReadAwaiter * bool) :=
  let! r := on_snd (sys_read false (ra_size aw)) in
  match r with
  | Again => ret (aw, false)
  | Failed => throw failed_to_read
  | Ok d =>
      on_fst (modify (poke (ra_data aw) d)) ;;;
      if zlen d <? ra_size aw then
        ret (mkRead (ra_data aw + zlen d) (u64 (ra_size aw - zlen d)) (ra_err aw) (ra_eof aw), false)
      else ret (mkRead (ra_data aw) 0 (ra_err aw) (ra_eof aw), true)
  end.

Definition ReadAwaiter_await_resume (aw : ReadAwaiter) : ST (bytes * kernel bytes) unit :=
  if ra_err aw then throw failed_to_read
  else if ra_eof aw then throw end_of_stream
  else ret tt.

Definition on_read_ready (aw : ReadAwaiter) : ST (bytes * kernel bytes) (ReadAwaiter * callback) :=
  let! r := on_snd (sys_read true (ra_size aw)) in
  match r with
  | Again => on_snd Event_add ;;; ret (aw, Rearmed)
  | Failed => ret (mkRead (ra_data aw) (ra_size aw) true (ra_eof aw), Resumed)
  | Ok d =>
      on_fst (modify (poke (ra_data aw) d)) ;;;
      if zlen d <? ra_size aw then
        let aw' := mkRead (ra_data aw + zlen d) (u64 (ra_size aw - zlen d)) (ra_err aw) (ra_eof aw) in
        on_snd Event_add ;;; ret (aw', Rearmed)
      else ret (mkRead (ra_data aw) 0 (ra_err aw) (ra_eof aw), Resumed)
  end.

Definition co_await_read (fuel : positive) (aw : ReadAwaiter)
    : ST (bytes * kernel bytes) (wait unit) :=
  let! r := ReadAwaiter_await_ready aw in
  let '(aw', ready) := r in
  if (ready : bool) then let! a := ReadAwaiter_await_resume aw' in ret (Awaited a)
  else drive (on_snd Event_add) on_read_ready ReadAwaiter_await_resume fuel aw'.

(** [read(fd, size)] into a string. *)
Definition Base_read (fuel : positive) (size : Z) : ST (kernel bytes) (wait bytes) :=
  with_local (repeat Byte.x00 (Z.to_nat size)) (
    let! w := co_await_read fuel (ReadAwaiter_ctor size) in
    match w with
    | Awaited _ => let! ret_ := on_fst get in ret (Awaited ret_)
    | Never => ret Never
    end).

(** ** write

    State: what the kernel was given, and the kernel. *)

Record WriteAwaiter := mkWrite { wa_data : bytes; wa_size : Z; wa_err : bool }.

Definition WriteAwaiter_ctor (data : bytes) (size : Z) : WriteAwaiter := mkWrite data size false.

Definition WriteAwaiter_await_ready (aw : WriteAwaiter)
    : ST (bytes * kernel Z) (WriteAwaiter * bool) :=
  let! r := sys_write false (ztake (wa_size aw) (wa_data aw)) in
  match r with
  | Again => ret (aw, false)
  | Failed => throw failed_to_write
  | Ok n =>
      if n <? wa_size aw then
        ret (mkWrite (zdrop n (wa_data aw)) (u64 (wa_size aw - n)) (wa_err aw), false)
      else ret (mkWrite (wa_data aw) 0 (wa_err aw), true)
  end.

Definition WriteAwaiter_await_resume (aw : WriteAwaiter) : ST (bytes * kernel Z) unit :=
  if wa_err aw then throw failed_to_write else ret tt.

Definition on_write_ready (aw : WriteAwaiter) : ST (bytes * kernel Z) (WriteAwaiter * callback) :=
  let! r := sys_write true (ztake (wa_size aw) (wa_data aw)) in
  match r with
  | Again => on_snd Event_add ;;; ret (aw, Rearmed)
  | Failed => ret (mkWrite (wa_data aw) (wa_size aw) true, Resumed)
  | Ok n =>
      if n <? wa_size aw then
        let aw' := mkWrite (zdrop n (wa_data aw)) (u64 (wa_size aw - n)) (wa_err aw) in
        on_snd Event_add ;;; ret (aw', Rearmed)
      else ret (mkWrite (wa_data aw) 0 (wa_err aw), Resumed)
  end.

Definition Base_write (fuel : positive) (data : bytes) : ST (bytes * kernel Z) (wait unit) :=
  let! r := WriteAwaiter_await_ready (WriteAwaiter_ctor data (zlen data)) in
  let '(aw, ready) := r in
  if (ready : bool) then let! a := WriteAwaiter_await_resume aw in ret (Awaited a)
  else drive (on_snd Event_add) on_write_ready WriteAwaiter_await_resume fuel aw.

(** ** recvfrom

    The size of [res.data] while nothing has been received is left out; no address
    stands for one that has not been written. *)

Record RecvFromResult := mkRecv { rr_data : bytes; rr_data_available : Z; rr_addr : bytes }.
Record RecvFromAwaiter := mkRecvFrom { rf_max_size : Z; rf_res : RecvFromResult; rf_err : bool }.

Definition RecvFromAwaiter_ctor (max_size : Z) : RecvFromAwaiter :=
  mkRecvFrom max_size (mkRecv [] 0 []) false.

(** [res.data.resize(max_size)], the call, and [resize] to what was read. *)
Definition recv_result (max_size : Z) (d addr : bytes) : RecvFromResult :=
  let data := d ++ repeat Byte.x00 (Z.to_nat (max_size - zlen d)) in
  let data_available := zlen d in
  mkRecv (if data_available <? zlen data then ztake (zlen d) data else data) data_available addr.

Definition RecvFromAwaiter_await_ready (aw : RecvFromAwaiter)
    : ST (kernel datagram) (RecvFromAwaiter * bool) :=
  let! r := sys_recvfrom false (rf_max_size aw) in
  match r with
  | Again => ret (aw, false)
  | Failed => throw failed_to_read
  | Ok ([], _) => throw zero_length
  | Ok (d, addr) => ret (mkRecvFrom (rf_max_size aw) (recv_result (rf_max_size aw) d addr) (rf_err aw), true)
  end.

Definition RecvFromAwaiter_await_resume (aw : RecvFromAwaiter) : ST (kernel datagram) RecvFromResult :=
  if rf_err aw then throw failed_to_read else ret (rf_res aw).

Definition on_datagram_ready (aw : RecvFromAwaiter)
    : ST (kernel datagram) (RecvFromAwaiter * callback) :=
  let! r := sys_recvfrom true (rf_max_size aw) in
  match r with
  | Again => Event_add ;;; ret (aw, Rearmed)
  | Failed => ret (mkRecvFrom (rf_max_size aw) (rf_res aw) true, Resumed)
  | Ok ([], _) => ret (mkRecvFrom (rf_max_size aw) (rf_res aw) true, Lost)
  | Ok (d, addr) => ret (mkRecvFrom (rf_max_size aw) (recv_result (rf_max_size aw) d addr) (rf_err aw), Resumed)
  end.

Definition Base_recvfrom (fuel : positive) (max_size : Z)
    : ST (kernel datagram) (wait RecvFromResult) :=
  let! r := RecvFromAwaiter_await_ready (RecvFromAwaiter_ctor max_size) in
  let '(aw, ready) := r in
  if (ready : bool) then let! a := RecvFromAwaiter_await_resume aw in ret (Awaited a)
  else drive Event_add on_datagram_ready RecvFromAwaiter_await_resume fuel aw.

(** ** accept *)

Record AcceptAwaiter := mkAccept { aa_accepted_fd : Z; aa_err : bool }.

Definition AcceptAwaiter_ctor : AcceptAwaiter := mkAccept (-1) false.
Definition AcceptAwaiter_await_ready (aw : AcceptAwaiter) : bool := false.

Definition AcceptAwaiter_await_resume (aw : AcceptAwaiter) : ST (kernel Z) Z :=
  if aa_err aw then throw accept_failed else ret (aa_accepted_fd aw).

Definition on_accept_ready (aw : AcceptAwaiter) : ST (kernel Z) (AcceptAwaiter * callback) :=
  let! r := syscall true in
  match r with
  | Failed => ret (mkAccept (-1) true, Lost)
  | Again => Event_add ;;; ret (mkAccept (-1) (aa_err aw), Rearmed)
  | Ok fd => ret (mkAccept fd (aa_err aw), Resumed)
  end.

Definition Base_accept (fuel : positive) : ST (kernel Z) (wait Z) :=
  if AcceptAwaiter_await_ready AcceptAwaiter_ctor then
    let! a := AcceptAwaiter_await_resume AcceptAwaiter_ctor in ret (Awaited a)
  else drive Event_add on_accept_ready AcceptAwaiter_await_resume fuel AcceptAwaiter_ctor.

(** ** Plain events: [EventAwaiter], [TimeoutAwaiter] and [connect] *)

(** The event fires when its descriptor is ready or its time has come. *)
Definition on_trigger (aw : unit) : ST (kernel unit) (unit * callback) :=
  syscall true ;;; ret (aw, Resumed).
Definition EventAwaiter_co_await : ST (kernel unit) (wait unit) :=
  drive Event_add on_trigger (fun _ => ret tt) 1 tt.

(** [::connect] is phosg's: a descriptor, or an exception. *)
Definition Base_connect (phosg_connect : out Z) : ST (kernel unit) (wait Z) :=
  let! fd := of_out phosg_connect in
  let! w := EventAwaiter_co_await in
  ret (match w with Awaited _ => Awaited fd | Never => Never end).

Section ServeRound.
Context {A B X : Type} (wait_next : ST (kernel A) (wait B)) (log : B -> X).
(** A round of a coroutine that waits for ever again; its state is a log of what
    the waits have given it, and the kernel. *)
Definition serve_round (_ : unit) : ST (list X * kernel A) (unit + wait unit) :=
  let! r := on_snd wait_next in
  match r with
  | Awaited b => on_fst (modify (fun l => l ++ [log b])) ;;; ret (inl tt)
  | Never => ret (inr Never)
  end.
End ServeRound.

(** ** read, as a function of the kernel's answers *)

Lemma poke_nil off mem : 0 <= off -> poke off [] mem = mem.
Proof. intros. unfold poke. by rewrite zlen_nil, Z.add_0_r, app_nil_l, ztake_zdrop. Qed.

Lemma zlen_poke off d mem : 0 <= off -> off + zlen d <= zlen mem -> zlen (poke off d mem) = zlen mem.
Proof.
  intros. pose proof (zlen_nonneg d). unfold poke. rewrite !zlen_app, zlen_ztake, zlen_zdrop by lia. lia.
Qed.

Lemma ztake_poke off d mem :
  0 <= off -> off + zlen d <= zlen mem -> ztake (off + zlen d) (poke off d mem) = ztake off mem ++ d.
Proof.
  intros. pose proof (zlen_nonneg d). unfold poke. rewrite app_assoc. apply ztake_app.
  rewrite zlen_app, zlen_ztake by lia. lia.
Qed.

(** What [n] more bytes come to: the bytes, or a failure, with the answers left;
    nothing while the answers do not reach that far. *)
Fixpoint read_outcome (n : Z) (l : list (sysret bytes))
    : option (option bytes * list (sysret bytes)) :=
  match l with
  | [] => None
  | Again :: l => read_outcome n l
  | Failed :: l => Some (None, l)
  | Ok d :: l =>
      if zlen d <? n then
        match read_outcome (n - zlen d) l with
        | Some (Some d', l') => Some (Some (d ++ d'), l')
        | r => r
        end
      else if zlen d <=? n then Some (Some d, l) else Some (Some (ztake n d), Ok (zdrop n d) :: l)
  end.

Section Read.
(** A stream that falls silent, or ends, after its answers. *)
Context (eof : option bytes) (Heof : eof = None \/ eof = Some []).
Abbreviation stream l := (mkKernel l eof []).

(** One round of the loop of [drive]. *)
Definition round (aw : ReadAwaiter) : ST (bytes * kernel bytes) (ReadAwaiter + wait ReadAwaiter) :=
  let! r := on_read_ready aw in
  match r with
  | (aw', Rearmed) => ret (inl aw')
  | (aw', Resumed) => ret (inr (Awaited aw'))
  | (_, Lost) => ret (inr Never)
  end.

Lemma sys_read_ok ready n d l :
  0 < n ->
  sys_read ready n (stream (Ok d :: l)) =
  (Val (Ok (ztake n d)), stream (if zlen d <=? n then l else Ok (zdrop n d) :: l)).
Proof.
  intros Hn. unfold sys_read. destruct (Z.eqb_spec n 0); [lia|].
  rewrite (bind_Val _ _ _ (Ok d) (stream l)) by done.
  destruct (Z.leb_spec (zlen d) n); [by rewrite ztake_all|done].
Qed.

Lemma sys_read_again ready n l :
  0 < n -> sys_read ready n (stream (Again :: l)) = (Val Again, stream l).
Proof. intros Hn. unfold sys_read. by destruct (Z.eqb_spec n 0); [lia|]. Qed.

Lemma sys_read_failed ready n l :
  0 < n -> sys_read ready n (stream (Failed :: l)) = (Val Failed, stream l).
Proof. intros Hn. unfold sys_read. by destruct (Z.eqb_spec n 0); [lia|]. Qed.

Lemma u64_shrink n k : 0 <= k < n -> n < 2 ^ 63 -> u64 (n - k) = n - k.
Proof. intros. unfold u64. rewrite Z.mod_small; lia. Qed.

Abbreviation reading off n := (mkRead off n false false).

Lemma round_ok off n d l mem :
  0 < n < 2 ^ 63 ->
  round (reading off n) (mem, stream (Ok d :: l)) =
  if zlen d <? n then
    (Val (inl (reading (off + zlen d) (n - zlen d))), (poke off d mem, stream l))
  else
    (Val (inr (Awaited (reading off 0))),
     (poke off (ztake n d) mem, stream (if zlen d <=? n then l else Ok (zdrop n d) :: l))).
Proof.
  intros Hn. pose proof (zlen_nonneg d). unfold round, on_read_ready, bind. cbn [ra_size ra_data ra_err ra_eof].
  rewrite (on_snd_eq _ _ _ _ _ (sys_read_ok _ _ _ _ (proj1 Hn))). rewrite zlen_ztake by lia.
  destruct (Z.ltb_spec (zlen d) n); destruct (Z.ltb_spec (Z.min n (zlen d)) n); try lia; [|done].
  destruct (Z.leb_spec (zlen d) n); [|lia]. rewrite ztake_all by lia. cbn.
  rewrite Z.min_r, u64_shrink by lia. done.
Qed.

Lemma round_again off n l mem :
  0 < n -> round (reading off n) (mem, stream (Again :: l)) =
  (Val (inl (reading off n)), (mem, stream l)).
Proof.
  intros Hn. unfold round, on_read_ready, bind. cbn [ra_size ra_data ra_err ra_eof].
  by rewrite (on_snd_eq _ _ _ _ _ (sys_read_again _ _ _ Hn)).
Qed.

Lemma round_failed off n l mem :
  0 < n -> round (reading off n) (mem, stream (Failed :: l)) =
  (Val (inr (Awaited (mkRead off n true false))), (mem, stream l)).
Proof.
  intros Hn. unfold round, on_read_ready, bind. cbn [ra_size ra_data ra_err ra_eof].
  by rewrite (on_snd_eq _ _ _ _ _ (sys_read_failed _ _ _ Hn)).
Qed.

Lemma sys_read_end n :
  0 < n -> sys_read true n (stream []) =
  (match eof with Some _ => Val (Ok []) | None => NoFuel end, stream []).
Proof.
  intros Hn. unfold sys_read. destruct (Z.eqb_spec n 0); [lia|].
  destruct Heof as [->| ->]; [done|].
  rewrite (bind_Val _ _ _ (Ok []) (mkKernel [] (Some []) [])) by done. cbv iota.
  destruct (Z.leb_spec (zlen (@nil byte)) n) as [|Hc]; [done|rewrite zlen_nil in Hc; lia].
Qed.

(** Once the answers are used up no round ends the wait, however many there are. *)
Lemma rounds_end m off n mem :
  0 < n < 2 ^ 63 -> 0 <= off ->
  match fst (iter_nat round m (reading off n) (mem, stream [])) with
  | Val (inl _) | NoFuel => True
  | _ => False
  end.
Proof.
  intros Hn Hoff. induction m as [|m IH]; [done|]. simpl. unfold bind.
  assert (round (reading off n) (mem, stream []) = (NoFuel, (mem, stream [])) \/
          round (reading off n) (mem, stream []) = (Val (inl (reading off n)), (mem, stream [])))
    as [->| ->]; [|done|exact IH].
  unfold round, on_read_ready, bind. cbn [ra_size ra_data ra_err ra_eof].
  rewrite (on_snd_eq _ _ _ _ _ (sys_read_end n (proj1 Hn))).
  destruct Heof as [->| ->]; [by left|right]. rewrite zlen_nil.
  destruct (Z.ltb_spec 0 n); [|lia]. cbn. rewrite poke_nil by done.
  by rewrite Z.add_0_r, u64_shrink, Z.sub_0_r by lia.
Qed.

Lemma rounds_outcome l : forall m off n mem,
  0 < n < 2 ^ 63 -> 0 <= off -> zlen mem = off + n ->
  match read_outcome n l with
  | Some (r, l') =>
      (length l <= m)%nat -> exists (aw : ReadAwaiter) (mem' : bytes),
        iter_nat round m (reading off n) (mem, stream l) =
          (Val (inr (Awaited aw)), (mem', stream l')) /\
        match r with
        | Some d => aw = reading (ra_data aw) 0 /\ mem' = ztake off mem ++ d
        | None => ra_err aw = true
        end
  | None =>
      match fst (iter_nat round m (reading off n) (mem, stream l)) with
      | Val (inl _) | NoFuel => True
      | _ => False
      end
  end.
Proof.
  induction l as [|a l IH]; intros m off n mem Hn Hoff Hmem; [by apply rounds_end|].
  destruct m as [|m].
  { destruct (read_outcome n (a :: l)) as [[r l']|]; [|done]. intros Hm. simpl in Hm. lia. }
  destruct a as [d| |]; cbn [read_outcome iter_nat].
  - pose proof (zlen_nonneg d). unfold bind. rewrite round_ok by done.
    destruct (Z.ltb_spec (zlen d) n) as [Hlt|Hge].
    + specialize (IH m (off + zlen d) (n - zlen d) (poke off d mem)).
      rewrite zlen_poke in IH by lia. specialize (IH ltac:(lia) ltac:(lia) ltac:(lia)).
      destruct (read_outcome (n - zlen d) l) as [[[d'|] l']|]; [| |exact IH];
        intros Hm; (destruct IH as (aw & mem' & Hit & Hr); [simpl in Hm; lia|]);
        exists aw, mem'; split; try done.
      destruct Hr as [Haw ->]. split; [done|]. by rewrite ztake_poke, app_assoc by lia.
    + assert (zlen (ztake n d) = n) as Hlen by (rewrite zlen_ztake; lia).
      assert (poke off (ztake n d) mem = ztake off mem ++ ztake n d) as Hpoke.
      { rewrite <- ztake_poke by lia. symmetry. apply ztake_all. rewrite zlen_poke; lia. }
      rewrite Hpoke. destruct (Z.leb_spec (zlen d) n); intros _;
        eexists _, _; (split; [reflexivity|]); (split; [done|]); [by rewrite (ztake_all n d) by lia|done].
  - unfold bind. rewrite round_again by lia. specialize (IH m off n mem Hn Hoff Hmem).
    destruct (read_outcome n l) as [[r l']|]; [|exact IH].
    intros Hm. apply IH. simpl in Hm. lia.
  - unfold bind. rewrite round_failed by lia. intros _. by eexists _, _.
Qed.

(** The wait from [await_suspend] on. *)
Lemma drive_read p off n mem l :
  0 < n < 2 ^ 63 -> 0 <= off -> zlen mem = off + n ->
  let r := drive (on_snd Event_add) on_read_ready ReadAwaiter_await_resume p (reading off n)
             (mem, stream l) in
  match read_outcome n l with
  | Some (Some d, l') =>
      (length l <= Pos.to_nat p)%nat -> r = (Val (Awaited tt), (ztake off mem ++ d, stream l'))
  | Some (None, l') =>
      (length l <= Pos.to_nat p)%nat -> exists mem', r = (Exn failed_to_read, (mem', stream l'))
  | None => fst r = NoFuel
  end.
Proof.
  intros Hn Hoff Hmem r. unfold r, drive.
  rewrite (bind_Val _ _ _ tt (mem, stream l)) by done. unfold loop.
  pose proof (rounds_outcome l (Pos.to_nat p) off n mem Hn Hoff Hmem) as Hr. fold round.
  unfold bind. rewrite iter_pos_nat.
  destruct (read_outcome n l) as [[[d|] l']|].
  - intros Hp. destruct (Hr Hp) as (aw & mem' & -> & -> & ->). done.
  - intros Hp. destruct (Hr Hp) as (aw & mem' & -> & He). exists mem'. cbn.
    unfold ReadAwaiter_await_resume. by rewrite He.
  - by destruct (iter_nat round _ _ _) as [[[aw|w]| | |] s].
Qed.
Lemma ready_ok n d l mem :
  0 < n < 2 ^ 63 ->
  ReadAwaiter_await_ready (reading 0 n) (mem, stream (Ok d :: l)) =
  if zlen d <? n then
    (Val (reading (zlen d) (n - zlen d), false), (poke 0 d mem, stream l))
  else
    (Val (reading 0 0, true),
     (poke 0 (ztake n d) mem, stream (if zlen d <=? n then l else Ok (zdrop n d) :: l))).
Proof.
  intros Hn. pose proof (zlen_nonneg d). unfold ReadAwaiter_await_ready, bind.
  cbn [ra_size ra_data ra_err ra_eof].
  rewrite (on_snd_eq _ _ _ _ _ (sys_read_ok _ _ _ _ (proj1 Hn))). rewrite zlen_ztake by lia.
  destruct (Z.ltb_spec (zlen d) n); destruct (Z.ltb_spec (Z.min n (zlen d)) n); try lia; [|done].
  destruct (Z.leb_spec (zlen d) n); [|lia]. rewrite ztake_all by lia. cbn.
  rewrite Z.min_r, u64_shrink by lia. done.
Qed.

Lemma ready_end n mem :
  0 < n < 2 ^ 63 ->
  ReadAwaiter_await_ready (reading 0 n) (mem, stream []) = (Val (reading 0 n, false), (mem, stream [])).
Proof.
  intros Hn. unfold ReadAwaiter_await_ready, bind. cbn [ra_size ra_data ra_err ra_eof].
  assert (sys_read false n (stream []) =
    (Val match eof with Some _ => Ok [] | None => Again end, stream [])) as Hr.
  { unfold sys_read. destruct (Z.eqb_spec n 0); [lia|].
    destruct Heof as [->| ->]; [done|].
    rewrite (bind_Val _ _ _ (Ok []) (mkKernel [] (Some []) [])) by done. cbv iota.
    destruct (Z.leb_spec (zlen (@nil Byte.byte)) n) as [|Hc]; [done|rewrite zlen_nil in Hc; lia]. }
  rewrite (on_snd_eq _ _ _ _ _ Hr). destruct Heof as [->| ->]; [done|]. cbv beta iota.
  change (zlen (@nil Byte.byte)) with 0.
  destruct (Z.ltb_spec 0 n); [|lia]. cbn. rewrite poke_nil by done.
  by rewrite u64_shrink, Z.sub_0_r by lia.
Qed.

Lemma co_await_read_spec p n mem l :
  0 < n < 2 ^ 63 -> zlen mem = n ->
  let r := co_await_read p (ReadAwaiter_ctor n) (mem, stream l) in
  match read_outcome n l with
  | Some (Some d, l') =>
      (length l <= Pos.to_nat p)%nat -> r = (Val (Awaited tt), (d, stream l'))
  | Some (None, l') =>
      (length l <= Pos.to_nat p)%nat -> exists mem', r = (Exn failed_to_read, (mem', stream l'))
  | None => fst r = NoFuel
  end.
Proof.
  intros Hn Hmem r. subst r. unfold co_await_read, ReadAwaiter_ctor.
  destruct l as [|[d| |] l].
  - rewrite (bind_Val _ _ _ _ _ (ready_end n mem Hn)).
    by apply (drive_read p 0 n mem []).
  - pose proof (zlen_nonneg d). pose proof (ready_ok n d l mem Hn) as Hr. cbn [read_outcome].
    destruct (Z.ltb_spec (zlen d) n).
    + rewrite (bind_Val _ _ _ _ _ Hr). cbv iota.
      assert (zlen (poke 0 d mem) = zlen d + (n - zlen d)) as Hl by (rewrite zlen_poke; lia).
      pose proof (drive_read p (zlen d) (n - zlen d) (poke 0 d mem) l ltac:(lia) ltac:(lia) Hl) as Hd.
      pose proof (ztake_poke 0 d mem ltac:(lia) ltac:(lia)) as Ht. rewrite Z.add_0_l, ztake_0 in Ht.
      rewrite Ht in Hd.
      destruct (read_outcome (n - zlen d) l) as [[[d'|] l']|]; [| |exact Hd];
        intros Hp; apply Hd; simpl in Hp; lia.
    + rewrite (bind_Val _ _ _ _ _ Hr). cbv iota.
      assert (poke 0 (ztake n d) mem = ztake n d) as ->.
      { assert (zlen (ztake n d) = n) as Hl by (rewrite zlen_ztake; lia). unfold poke.
        rewrite Hl, ztake_0, zdrop_all by lia. by rewrite app_nil_r. }
      destruct (Z.leb_spec (zlen d) n); intros _; [|done]. by rewrite (ztake_all n d) by lia.
  - assert (ReadAwaiter_await_ready (reading 0 n) (mem, stream (Again :: l)) =
      (Val (reading 0 n, false), (mem, stream l))) as Hr.
    { unfold ReadAwaiter_await_ready, bind. cbn [ra_size].
      by rewrite (on_snd_eq _ _ _ _ _ (sys_read_again _ _ _ (proj1 Hn))). }
    rewrite (bind_Val _ _ _ _ _ Hr). cbv iota. cbn [read_outcome].
    pose proof (drive_read p 0 n mem l Hn (Z.le_refl 0) Hmem) as Hd. rewrite ztake_0 in Hd.
    destruct (read_outcome n l) as [[[d'|] l']|]; [| |exact Hd];
      intros Hp; apply Hd; simpl in Hp; lia.
  - intros _. exists mem. apply bind_Exn. unfold ReadAwaiter_await_ready, bind. cbn [ra_size].
    by rewrite (on_snd_eq _ _ _ _ _ (sys_read_failed _ _ _ (proj1 Hn))).
Qed.
End Read.

(** The bytes of the stream that the answers bring. *)
Definition stream_data (l : list (sysret bytes)) : bytes :=
  concat (map (fun a => match a with Ok d => d | _ => [] end) l).

Lemma read_outcome_exact n l d l' :
  0 <= n -> read_outcome n l = Some (Some d, l') -> zlen d = n /\ d ++ stream_data l' = stream_data l.
Proof.
  revert n d. induction l as [|[d0| |] l IH]; intros n d Hn; cbn [read_outcome]; try done.
  - destruct (Z.ltb_spec (zlen d0) n) as [Hlt|Hge].
    + destruct (read_outcome (n - zlen d0) l) as [[[d'|] l1]|] eqn:E; [|done|done]. intros [= <- <-].
      destruct (IH (n - zlen d0) d') as [Hd Hs]; [lia|done|]. rewrite zlen_app. split; [lia|].
      unfold stream_data in *. cbn. by rewrite <- app_assoc, Hs.
    + destruct (Z.leb_spec (zlen d0) n); intros [= <- <-]; [split; [lia|done]|].
      rewrite zlen_ztake by lia. split; [lia|]. unfold stream_data. cbn.
      by rewrite app_assoc, ztake_zdrop.
  - by apply IH.
Qed.

Lemma read_outcome_short n l :
  Failed ∉ l -> zlen (stream_data l) < n -> read_outcome n l = None.
Proof.
  revert n. induction l as [|[d| |] l IH]; intros n Hf Hn; cbn [read_outcome]; [done| | |].
  - unfold stream_data in Hn. cbn in Hn. fold (stream_data l) in Hn. rewrite zlen_app in Hn.
    pose proof (zlen_nonneg (stream_data l)). destruct (Z.ltb_spec (zlen d) n); [|lia].
    rewrite IH; [done| |lia]. intros Hin. apply Hf. by right.
  - apply IH; [|exact Hn]. intros Hin. apply Hf. by right.
  - exfalso. apply Hf. by left.
Qed.

Lemma base_read_spec eof fuel size l :
  eof = None \/ eof = Some [] -> 0 < size < 2 ^ 63 ->
  let r := Base_read fuel size (mkKernel l eof []) in
  match read_outcome size l with
  | Some (Some d, l') =>
      (length l <= Pos.to_nat fuel)%nat -> r = (Val (Awaited d), mkKernel l' eof [])
  | Some (None, l') =>
      (length l <= Pos.to_nat fuel)%nat -> r = (Exn failed_to_read, mkKernel l' eof [])
  | None => fst r = NoFuel
  end.
Proof.
  intros Heof Hn r. subst r. unfold Base_read, with_local.
  set (mem := repeat _ _). assert (zlen mem = size) as Hmem by (unfold zlen, mem; rewrite repeat_length; lia).
  pose proof (co_await_read_spec eof Heof fuel size mem l Hn Hmem) as Hc. cbv zeta in Hc.
  unfold bind. destruct (read_outcome size l) as [[[d|] l']|].
  - intros Hf. by rewrite (Hc Hf).
  - intros Hf. by destruct (Hc Hf) as [mem' ->].
  - by destruct (co_await_read _ _ _) as [[w| | |] [m k]].
Qed.

(** ** write, recvfrom and accept as functions of the kernel's answers *)

(** A loop over answers of which each takes one round. [next] says what a round
    does with an answer: it goes on, or ends the wait. *)
Section Answers.
Context {A S T Aw B : Type} (mk : S -> list (sysret A) -> T) (body : Aw -> ST T (Aw + B)).
Context (next : Aw -> S -> sysret A -> (Aw + B) * S).
Context (Hnext : forall aw s a l,
  body aw (mk s (a :: l)) = (Val (fst (next aw s a)), mk (snd (next aw s a)) l)).
Context (Hend : forall aw s, body aw (mk s []) = (NoFuel, mk s [])).

Fixpoint answers_outcome (aw : Aw) (s : S) (l : list (sysret A)) : option (B * S * list (sysret A)) :=
  match l with
  | [] => None
  | a :: l =>
      match next aw s a with
      | (inl aw', s') => answers_outcome aw' s' l
      | (inr b, s') => Some (b, s', l)
      end
  end.

Lemma iter_answers l : forall m aw s,
  match answers_outcome aw s l with
  | Some (b, s', l') =>
      (length l <= m)%nat -> iter_nat body m aw (mk s l) = (Val (inr b), mk s' l')
  | None =>
      match fst (iter_nat body m aw (mk s l)) with Val (inl _) | NoFuel => True | _ => False end
  end.
Proof.
  induction l as [|a l IH]; intros m aw s; cbn [answers_outcome].
  - destruct m; [done|]. cbn [iter_nat]. unfold bind. by rewrite Hend.
  - destruct m as [|m].
    { destruct (next aw s a) as [[aw'|b] s']; [|intros Hm; simpl in Hm; lia].
      destruct (answers_outcome aw' s' l) as [[[b s1] l']|]; [intros Hm; simpl in Hm; lia|done]. }
    cbn [iter_nat]. unfold bind. rewrite Hnext. destruct (next aw s a) as [[aw'|b] s']; [|done]. cbn.
    specialize (IH m aw' s'). destruct (answers_outcome aw' s' l) as [[[b s1] l']|]; [|exact IH].
    intros Hm. apply IH. lia.
Qed.

Lemma loop_answers p aw s l :
  match answers_outcome aw s l with
  | Some (b, s', l') => (length l <= Pos.to_nat p)%nat -> loop body p aw (mk s l) = (Val b, mk s' l')
  | None => fst (loop body p aw (mk s l)) = NoFuel
  end.
Proof.
  pose proof (iter_answers l (Pos.to_nat p) aw s) as H. unfold loop, bind. rewrite iter_pos_nat.
  destruct (answers_outcome aw s l) as [[[b s'] l']|].
  - intros Hp. by rewrite (H Hp).
  - by destruct (iter_nat body _ _ _) as [[[aw'|b]| | |] s'].
Qed.
End Answers.

(** What a wait for [n] more bytes to be written comes to: whether it succeeds,
    how many bytes are left, and the answers left. *)
Fixpoint write_outcome (n : Z) (l : list (sysret Z)) : option (bool * Z * list (sysret Z)) :=
  match l with
  | [] => None
  | Again :: l => write_outcome n l
  | Failed :: l => Some (false, n, l)
  | Ok room :: l =>
      let k := Z.min (Z.max 0 room) n in
      if k <? n then write_outcome (n - k) l else Some (true, 0, l)
  end.

(** What [recvfrom] comes to; an empty datagram is told from a failure only when
    it is the first answer. *)
Fixpoint recv_outcome (max_size : Z) (first : bool) (l : list (sysret datagram))
    : option (out (wait RecvFromResult) * list (sysret datagram)) :=
  match l with
  | [] => None
  | Again :: l => recv_outcome max_size false l
  | Failed :: l => Some (Exn failed_to_read, l)
  | Ok (d, addr) :: l =>
      let d := ztake max_size d in
      Some (if decide (d = []) then (if first then Exn zero_length else Val Never)
            else Val (Awaited (mkRecv d (zlen d) addr)), l)
  end.

Fixpoint accept_outcome (l : list (sysret Z)) : option (wait Z * list (sysret Z)) :=
  match l with
  | [] => None
  | Again :: l => accept_outcome l
  | Failed :: l => Some (Never, l)
  | Ok fd :: l => Some (Awaited fd, l)
  end.

Abbreviation quietly l := (mkKernel l None []).

(** [accept] *)

Definition accept_next (aw : AcceptAwaiter) (_ : unit) (a : sysret Z)
    : (AcceptAwaiter + wait AcceptAwaiter) * unit :=
  (match a with
   | Ok fd => inr (Awaited (mkAccept fd (aa_err aw)))
   | Again => inl (mkAccept (-1) (aa_err aw))
   | Failed => inr Never
   end, tt).

Lemma accept_answers l aw :
  aa_err aw = false ->
  match accept_outcome l with
  | Some (w, l') => exists r, answers_outcome accept_next aw tt l = Some (r, tt, l') /\
      match w with
      | Awaited fd => r = Awaited (mkAccept fd false)
      | Never => r = Never
      end
  | None => answers_outcome accept_next aw tt l = None
  end.
Proof.
  revert aw. induction l as [|[fd| |] l IH]; intros aw Haw; cbn; [done| | |].
  - eexists. split; [done|]. by rewrite Haw.
  - by apply (IH (mkAccept (-1) (aa_err aw))).
  - by eexists.
Qed.

Lemma base_accept_spec fuel l :
  let r := Base_accept fuel (quietly l) in
  match accept_outcome l with
  | Some (w, l') => (length l <= Pos.to_nat fuel)%nat -> r = (Val w, quietly l')
  | None => fst r = NoFuel
  end.
Proof.
  intros r. subst r. unfold Base_accept, drive. cbn [AcceptAwaiter_await_ready].
  erewrite bind_Val by done. set (body := fun aw => _).
  pose proof (loop_answers (fun (_ : unit) l => quietly l) body accept_next) as H.
  specialize (H ltac:(by intros [fd err] [] [?| |] ?) ltac:(done) fuel AcceptAwaiter_ctor tt l).
  pose proof (accept_answers l AcceptAwaiter_ctor eq_refl) as Ha.
  destruct (accept_outcome l) as [[w l']|].
  - destruct Ha as (r & Ha & Hr). rewrite Ha in H. intros Hf.
    rewrite (bind_Val _ _ _ _ _ (H Hf)). by destruct w; subst r.
  - rewrite Ha in H. unfold bind. by destruct (loop _ _ _ _) as [[w| | |] k].
Qed.

(** [recvfrom] *)

Definition recv_next (aw : RecvFromAwaiter) (_ : unit) (a : sysret datagram)
    : (RecvFromAwaiter + wait RecvFromAwaiter) * unit :=
  (match a with
   | Again => inl aw
   | Failed => inr (Awaited (mkRecvFrom (rf_max_size aw) (rf_res aw) true))
   | Ok (d, addr) =>
       match ztake (rf_max_size aw) d with
       | [] => inr Never
       | d' => inr (Awaited (mkRecvFrom (rf_max_size aw) (recv_result (rf_max_size aw) d' addr) (rf_err aw)))
       end
   end, tt).

Lemma recv_result_exact n d addr : zlen d <= n -> recv_result n d addr = mkRecv d (zlen d) addr.
Proof.
  intros Hd. unfold recv_result. set (pad := repeat _ _).
  destruct (Z.ltb_spec (zlen d) (zlen (d ++ pad))) as [|Hge].
  - by rewrite ztake_app.
  - rewrite zlen_app in Hge. pose proof (zlen_nonneg pad). rewrite (zlen_0 pad) by lia. by rewrite app_nil_r.
Qed.

Lemma recv_wait_spec fuel n l :
  0 <= n ->
  let r := drive Event_add on_datagram_ready RecvFromAwaiter_await_resume fuel
             (RecvFromAwaiter_ctor n) (quietly l) in
  match recv_outcome n false l with
  | Some (o, l') => (length l <= Pos.to_nat fuel)%nat -> r = (o, quietly l')
  | None => fst r = NoFuel
  end.
Proof.
  intros Hn r. subst r. unfold drive. erewrite bind_Val by done. set (body := fun aw => _).
  pose proof (loop_answers (fun (_ : unit) l => quietly l) body recv_next) as H.
  specialize (H ltac:(intros aw [] [[d addr]| |] k; try done; unfold body, on_datagram_ready, bind, recv_next;
    cbn; by destruct (ztake (rf_max_size aw) d)) ltac:(done) fuel (RecvFromAwaiter_ctor n) tt l).
  assert (match recv_outcome n false l with
    | Some (o, l') => exists w, answers_outcome recv_next (RecvFromAwaiter_ctor n) tt l = Some (w, tt, l') /\
        forall k, (match w with
          | Awaited aw' => let! a := RecvFromAwaiter_await_resume aw' in ret (Awaited a)
          | Never => ret Never end) k = (o, k)
    | None => answers_outcome recv_next (RecvFromAwaiter_ctor n) tt l = None
    end) as Ha.
  { clear H. induction l as [|[[d addr]| |] l IH]; cbn [recv_outcome answers_outcome recv_next]; [done| |exact IH|].
    - cbn. pose proof (zlen_ztake n d Hn) as Hl. destruct (ztake n d) as [|b d'].
      + by exists Never.
      + eexists. split; [done|]. intros k. rewrite recv_result_exact by lia. done.
    - eexists. split; done. }
  destruct (recv_outcome n false l) as [[o l']|].
  - destruct Ha as (w & Ha & Hr). rewrite Ha in H. intros Hf.
    rewrite (bind_Val _ _ _ _ _ (H Hf)). apply Hr.
  - rewrite Ha in H. unfold bind. by destruct (loop _ _ _ _) as [[w| | |] k].
Qed.

Lemma base_recvfrom_spec fuel n l :
  0 <= n ->
  let r := Base_recvfrom fuel n (quietly l) in
  match recv_outcome n true l with
  | Some (o, l') => (length l <= Pos.to_nat fuel)%nat -> r = (o, quietly l')
  | None => fst r = NoFuel
  end.
Proof.
  intros Hn r. subst r. unfold Base_recvfrom.
  destruct l as [|[[d addr]| |] l]; cbn [recv_outcome].
  - pose proof (recv_wait_spec fuel n [] Hn) as H. exact H.
  - intros _. unfold RecvFromAwaiter_await_ready, bind. cbn.
    pose proof (zlen_ztake n d Hn) as Hl. destruct (ztake n d) as [|b d']; [done|].
    rewrite decide_False by done. cbn. by rewrite recv_result_exact by lia.
  - pose proof (recv_wait_spec fuel n l Hn) as H. cbv zeta in H.
    destruct (recv_outcome n false l) as [[o l']|]; [|exact H].
    intros Hf. apply H. simpl in Hf. lia.
  - done.
Qed.

(** [write] *)

Abbreviation taking sent l := (sent, quietly l).

Definition write_next (aw : WriteAwaiter) (sent : bytes) (a : sysret Z)
    : (WriteAwaiter + wait WriteAwaiter) * bytes :=
  match a with
  | Again => (inl aw, sent)
  | Failed => (inr (Awaited (mkWrite (wa_data aw) (wa_size aw) true)), sent)
  | Ok room =>
      let data := ztake (wa_size aw) (wa_data aw) in
      let k := Z.min (Z.max 0 room) (zlen data) in
      (if k <? wa_size aw then
         inl (mkWrite (zdrop k (wa_data aw)) (u64 (wa_size aw - k)) (wa_err aw))
       else inr (Awaited (mkWrite (wa_data aw) 0 (wa_err aw))), sent ++ ztake k data)
  end.

Lemma write_outcome_unsent n l ok unsent l' :
  0 <= n -> write_outcome n l = Some (ok, unsent, l') ->
  0 <= unsent <= n /\ (ok = true -> unsent = 0).
Proof.
  revert n. induction l as [|[room| |] l IH]; intros n Hn; cbn [write_outcome]; [done| | |].
  - destruct (Z.ltb_spec (Z.min (Z.max 0 room) n) n).
    + intros E. apply IH in E; [|lia]. split; [lia|]. by apply E.
    + intros [= <- <- <-]. lia.
  - by apply IH.
  - intros [= <- <- <-]. split; [lia|done].
Qed.

Lemma write_answers l data sent :
  zlen data < 2 ^ 63 ->
  match write_outcome (zlen data) l with
  | Some (ok, unsent, l') => exists aw,
      answers_outcome write_next (mkWrite data (zlen data) false) sent l =
        Some (Awaited aw, sent ++ ztake (zlen data - unsent) data, l') /\ wa_err aw = negb ok
  | None => answers_outcome write_next (mkWrite data (zlen data) false) sent l = None
  end.
Proof.
  revert data sent. induction l as [|[room| |] l IH]; intros data sent Hd;
    cbn [write_outcome answers_outcome]; [done| | |].
  - cbn. rewrite (ztake_all (zlen data)) by lia. pose proof (zlen_nonneg data).
    set (k := Z.min (Z.max 0 room) (zlen data)). destruct (Z.ltb_spec k (zlen data)).
    + rewrite u64_shrink by lia. assert (zlen (zdrop k data) = zlen data - k) as Hk
        by (rewrite zlen_zdrop; lia).
      specialize (IH (zdrop k data) (sent ++ ztake k data)). rewrite Hk in IH. specialize (IH ltac:(lia)).
      destruct (write_outcome (zlen data - k) l) as [[[ok unsent] l']|] eqn:E; [|exact IH].
      destruct IH as (aw & -> & Haw). exists aw. split; [|done]. do 2 f_equal. f_equal.
      rewrite <- app_assoc. f_equal. apply write_outcome_unsent in E; [|lia].
      rewrite ztake_ztake_add by lia. f_equal. lia.
    + exists (mkWrite data 0 false). split; [|done]. do 2 f_equal. f_equal. f_equal. f_equal. lia.
  - by apply IH.
  - exists (mkWrite data (zlen data) true). split; [|done].
    by rewrite Z.sub_diag, ztake_0, app_nil_r.
Qed.

Lemma write_wait_spec fuel data sent l :
  zlen data < 2 ^ 63 ->
  let r := drive (on_snd Event_add) on_write_ready WriteAwaiter_await_resume fuel
             (mkWrite data (zlen data) false) (taking sent l) in
  match write_outcome (zlen data) l with
  | Some (ok, unsent, l') => (length l <= Pos.to_nat fuel)%nat ->
      r = ((if (ok : bool) then Val (Awaited tt) else Exn failed_to_write),
           taking (sent ++ ztake (zlen data - unsent) data) l')
  | None => fst r = NoFuel
  end.
Proof.
  intros Hd r. subst r. unfold drive. rewrite (bind_Val _ _ _ tt (taking sent l)) by done.
  set (body := fun aw => _).
  pose proof (loop_answers (fun s l => taking s l) body write_next) as H.
  specialize (H ltac:(intros aw s [room| |] k; try done; unfold body, on_write_ready, bind, write_next;
    cbn; destruct (Z.ltb _ _); reflexivity) ltac:(intros; reflexivity) fuel (mkWrite data (zlen data) false) sent l).
  pose proof (write_answers l data sent Hd) as Ha.
  destruct (write_outcome (zlen data) l) as [[[ok unsent] l']|].
  - destruct Ha as (aw & Ha & Herr). rewrite Ha in H. intros Hf.
    rewrite (bind_Val _ _ _ _ _ (H Hf)). unfold WriteAwaiter_await_resume, bind. rewrite Herr.
    by destruct ok.
  - rewrite Ha in H. unfold bind. by destruct (loop _ _ _ _) as [[w| | |] k].
Qed.

Lemma base_write_spec fuel data l :
  zlen data < 2 ^ 63 ->
  let r := Base_write fuel data (taking [] l) in
  match write_outcome (zlen data) l with
  | Some (ok, unsent, l') => (length l <= Pos.to_nat fuel)%nat ->
      r = ((if (ok : bool) then Val (Awaited tt) else Exn failed_to_write),
           taking (ztake (zlen data - unsent) data) l')
  | None => fst r = NoFuel
  end.
Proof.
  intros Hd r. subst r. unfold Base_write, WriteAwaiter_ctor. pose proof (zlen_nonneg data).
  destruct l as [|[room| |] l]; cbn [write_outcome].
  - exact (write_wait_spec fuel data [] [] Hd).
  - unfold WriteAwaiter_await_ready. cbn [wa_size wa_data wa_err]. rewrite (ztake_all (zlen data)) by lia.
    set (k := Z.min (Z.max 0 room) (zlen data)). destruct (Z.ltb_spec k (zlen data)).
    + rewrite (bind_Val _ _ _ (mkWrite (zdrop k data) (zlen (zdrop k data)) false, false)
        (taking (ztake k data) l)).
      2: { unfold bind. cbn. fold k. destruct (Z.ltb_spec k (zlen data)); [|lia].
           rewrite u64_shrink, zlen_zdrop by lia. rewrite Z.min_l by lia. done. }
      cbv iota. pose proof (write_wait_spec fuel (zdrop k data) (ztake k data) l) as Hw.
      assert (zlen (zdrop k data) = zlen data - k) as Hk by (rewrite zlen_zdrop; lia).
      rewrite Hk in Hw |- *. specialize (Hw ltac:(lia)). cbv zeta in Hw.
      destruct (write_outcome (zlen data - k) l) as [[[ok unsent] l']|] eqn:E; [|exact Hw].
      intros Hf. rewrite Hw by (simpl in Hf; lia). do 2 f_equal.
      apply write_outcome_unsent in E; [|lia]. rewrite ztake_ztake_add by lia. f_equal. lia.
    + intros _. rewrite (bind_Val _ _ _ (mkWrite data 0 false, true) (taking (ztake k data) l)).
      2: { unfold bind. cbn. fold k. by destruct (Z.ltb_spec k (zlen data)); [lia|]. }
      cbn. do 2 f_equal. f_equal. lia.
  - pose proof (write_wait_spec fuel data [] l Hd) as Hw. cbv zeta in Hw.
    destruct (write_outcome (zlen data) l) as [[[ok unsent] l']|]; [|exact Hw].
    intros Hf. apply Hw. simpl in Hf. lia.
  - intros _. rewrite Z.sub_diag, ztake_0. done.
Qed.

(** ** A coroutine that waits again and again

    [scan] says what all the answers of the kernel put into its log, and how it
    ends, if it does. *)

Section Serve.
Context {A B X : Type} (wait_next : ST (kernel A) (wait B)) (log : B -> X).
Context (scan : list (sysret A) -> list X * option (out (wait unit))).

(** The answers that make one round. *)
Definition serves (l : list (sysret A)) : Prop :=
  match wait_next (mkKernel l None []), scan l with
  | (Val (Awaited b), k), (xs, e) => exists l', k = mkKernel l' None [] /\
      (length l' < length l)%nat /\ xs = log b :: fst (scan l') /\ e = snd (scan l')
  | (Val Never, k), (xs, e) => xs = [] /\ e = Some (Val Never)
  | (Exn ex, k), (xs, e) => xs = [] /\ e = Some (Exn ex)
  | (NoFuel, k), (xs, e) => xs = [] /\ e = None
  | (Undef, k), _ => False
  end.

Lemma serve_loop fuel n l :
  (forall l, (length l <= n)%nat -> serves l) -> (length l <= n)%nat -> (n < Pos.to_nat fuel)%nat ->
  let r := loop (serve_round wait_next log) fuel tt ([], mkKernel l None []) in
  fst r = default NoFuel (snd (scan l)) /\ fst (snd r) = fst (scan l).
Proof.
  intros Hs Hl Hf. cbv zeta. destruct (scan l) as [xs e] eqn:E.
  apply (loop_rule (serve_round wait_next log)
    (fun _ s => exists l, (length l <= n)%nat /\ snd s = mkKernel l None [] /\
       fst s ++ fst (scan l) = xs /\ snd (scan l) = e)
    (fun _ s => length (k_answers (snd s))) (fun o s => o = default NoFuel e /\ fst s = xs));
    [|exists l; by rewrite E|simpl; lia].
  intros [] [seen k] (l1 & Hl1 & Hk & Hxs & He). cbn [fst snd] in Hk, Hxs. subst k. pose proof (Hs l1 Hl1) as H.
  unfold serves in H. destruct (scan l1) as [xs1 e1] eqn:E1. cbn [fst snd] in Hxs, He.
  unfold serve_round, bind at 1, on_snd, focus. cbn [fst snd].
  destruct (wait_next (mkKernel l1 None [])) as [[[b|]|ex| |] k1]; cbn.
  - destruct H as (l' & -> & Hlt & -> & ->). split; [|done].
    exists l'. split; [lia|]. split; [done|]. by rewrite <- app_assoc.
  - destruct H as [-> ->]. by rewrite <- Hxs, <- He, app_nil_r.
  - destruct H as [-> ->]. by rewrite <- Hxs, <- He, app_nil_r.
  - done.
  - destruct H as [-> ->]. by rewrite <- Hxs, <- He, app_nil_r.
Qed.
End Serve.

(** ** Properties *)

(** C12: [read(fd, size)] over any answers of the kernel: once [size] bytes have
    come, however they are cut and however often the descriptor was not ready, it
    answers exactly the next [size] bytes of the stream and leaves the rest; a
    failing call makes it throw; and as long as neither has happened it waits. *)
Theorem base_read_outcome eof fuel size l :
  eof = None \/ eof = Some [] -> 0 < size < 2 ^ 63 -> (length l <= Pos.to_nat fuel)%nat ->
  let r := Base_read fuel size (mkKernel l eof []) in
  match read_outcome size l with
  | Some (Some d, l') => r = (Val (Awaited d), mkKernel l' eof []) /\
      zlen d = size /\ d ++ stream_data l' = stream_data l
  | Some (None, l') => r = (Exn failed_to_read, mkKernel l' eof [])
  | None => fst r = NoFuel
  end.
Proof.
  intros Heof Hn Hf r. pose proof (base_read_spec eof fuel size l Heof Hn) as H. cbv zeta in H.
  destruct (read_outcome size l) as [[[d|] l']|] eqn:E; [|by apply H|exact H].
  split; [by apply H|]. apply (read_outcome_exact size l); [lia|done].
Qed.

(** C39: at the end of a stream with fewer bytes than it was asked for
    [read(fd, size)] goes on for ever: no number of callbacks ends the wait, and
    "end of stream" is never thrown. *)
Theorem base_read_spins_at_eof size l :
  0 < size < 2 ^ 63 -> Failed ∉ l -> zlen (stream_data l) < size ->
  forall fuel, fst (Base_read fuel size (mkKernel l (Some []) [])) = NoFuel.
Proof.
  intros Hn Hf Hl fuel.
  pose proof (base_read_spec (Some []) fuel size l (or_intror eq_refl) Hn) as H. cbv zeta in H.
  by rewrite (read_outcome_short size l Hf Hl) in H.
Qed.

(** C13: [write(fd, data)] over any answers of the kernel: it succeeds once all
    of [data] has been handed over, in order and nothing twice; a failing call
    makes it throw with a prefix handed over; until then it waits. *)
Theorem base_write_outcome fuel data l :
  zlen data < 2 ^ 63 -> (length l <= Pos.to_nat fuel)%nat ->
  let r := Base_write fuel data ([], mkKernel l None []) in
  match write_outcome (zlen data) l with
  | Some (true, _, l') => r = (Val (Awaited tt), (data, mkKernel l' None []))
  | Some (false, unsent, l') => 0 <= unsent <= zlen data /\
      r = (Exn failed_to_write, (ztake (zlen data - unsent) data, mkKernel l' None []))
  | None => fst r = NoFuel
  end.
Proof.
  intros Hd Hf r. pose proof (base_write_spec fuel data l Hd) as H. cbv zeta in H.
  pose proof (zlen_nonneg data).
  destruct (write_outcome (zlen data) l) as [[[ok unsent] l']|] eqn:E; [|exact H].
  apply write_outcome_unsent in E as [Hu Hok]; [|done].
  destruct ok; [|split; [done|by apply H]].
  fold r in H. rewrite (H Hf), (Hok eq_refl), Z.sub_0_r. by rewrite ztake_all.
Qed.

(** [recvfrom] over any answers of the kernel: it answers the first datagram,
    cut to [max_size] bytes, of which [data_available] is always the number
    received; an empty one throws when it is there already, but when it arrives
    while the coroutine waits, the coroutine is never resumed. *)
Theorem base_recvfrom_loses_empty fuel max_size l :
  0 <= max_size -> (length l <= Pos.to_nat fuel)%nat ->
  let r := Base_recvfrom fuel max_size (mkKernel l None []) in
  match recv_outcome max_size true l with
  | Some (o, l') => r = (o, mkKernel l' None [])
  | None => fst r = NoFuel
  end.
Proof.
  intros Hn Hf r. pose proof (base_recvfrom_spec fuel max_size l Hn) as H. cbv zeta in H.
  destruct (recv_outcome max_size true l) as [[o l']|]; [by apply H|exact H].
Qed.

(** [accept] over any answers of the kernel: it answers the first
    connection, and is never resumed once a call fails, so its exception is never
    thrown. *)
Theorem base_accept_loses_errors fuel l :
  (length l <= Pos.to_nat fuel)%nat ->
  let r := Base_accept fuel (mkKernel l None []) in
  fst r <> Exn accept_failed /\
  match accept_outcome l with
  | Some (w, l') => r = (Val w, mkKernel l' None [])
  | None => fst r = NoFuel
  end.
Proof.
  intros Hf r. pose proof (base_accept_spec fuel l) as H. fold r in H. cbv zeta in H.
  destruct (accept_outcome l) as [[w l']|].
  - by rewrite (H Hf).
  - by rewrite H.
Qed.

(** ** Witnesses *)

Lemma base_read_outcome_witness :
  Base_read 4 5 (mkKernel [Ok (str "ab"); Again; Ok (str "cdef")] None []) =
  (Val (Awaited (str "abcde")), mkKernel [Ok (str "f")] None []).
Proof.
  exact (proj1 (base_read_outcome None 4 5 [Ok (str "ab"); Again; Ok (str "cdef")]
    (or_introl eq_refl) ltac:(lia) ltac:(simpl; lia))).
Defined.

Lemma base_read_spins_at_eof_witness :
  fst (Base_read 1000 5 (mkKernel [Ok (str "ab")] (Some []) [])) = NoFuel.
Proof.
  apply (base_read_spins_at_eof 5 [Ok (str "ab")]); [lia| |reflexivity].
  intros [?|[]%elem_of_nil]%elem_of_cons. discriminate.
Defined.

Lemma base_write_outcome_witness :
  Base_write 4 (str "hello") ([], mkKernel [Ok 2; Again; Ok 9] None []) =
  (Val (Awaited tt), (str "hello", mkKernel [] None [])).
Proof. apply (base_write_outcome 4 (str "hello") [Ok 2; Again; Ok 9]); [reflexivity|simpl; lia]. Defined.

Lemma base_recvfrom_loses_empty_witness :
  Base_recvfrom 4 1500 (mkKernel [Again; Ok ([], str "peer")] None []) = (Val Never, mkKernel [] None []).
Proof. apply (base_recvfrom_loses_empty 4 1500 [Again; Ok ([], str "peer")]); [lia|simpl; lia]. Defined.

Lemma base_accept_loses_errors_witness :
  Base_accept 4 (mkKernel [Again; Failed] None []) = (Val Never, mkKernel [] None []).
Proof. apply (base_accept_loses_errors 4 [Again; Failed]). simpl; lia. Defined.
