(* ===== verification/EchoServer.v ===== *)
(** * The echo server (src/src/Examples/EchoServer.cc)

    One connection of the server: the composition of [Buffer::read_atmost],
    [Buffer::write] and the event loop, over any libevent that keeps its
    contract; and the loop that accepts connections, over the answers of the
    kernel. *)
From stdpp Require Import tactics base list numbers strings.
From S2P Require Import Prelude BufferApi Libevent Chunked Buffer.
From S2P Require EventBase.

Section Echo.
Context {L : Libevent}.

(** One round: whatever has arrived is sent back. An empty buffer means that the
    stream has ended. *)
Definition echo_round (_ : unit) : ST (bytes * sock) (unit + unit) :=
  Buffer_read_atmost 0x400 ;;;
  let! length := on_fst Buffer_get_length in
  if length =? 0 then ret (inr tt)
  else
    Buffer_write (-1) ;;;
    on_fst Buffer_drain_all ;;;
    ret (inl tt).

(** The descriptor is closed afterwards. *)
Definition handle_server_connection (fuel : positive) : ST sock unit :=
  let! buf := of_out Buffer_new in
  with_local buf (loop echo_round fuel tt).
End Echo.

(** [run_server] and [main]: [listen] of phosg answers a descriptor or throws, and
    each connection accepted is handed to [handle_server_connection], which runs on
    its own; the log is of their descriptors. *)
Definition run_server (listen : out Z) (fuel rounds : positive)
    : ST (list Z * EventBase.kernel Z) (EventBase.wait unit) :=
  of_out listen ;;;
  loop (EventBase.serve_round (EventBase.Base_accept fuel) (fun fd => fd)) rounds tt.

(** The connections among the answers to [accept], up to the first failure, and
    whether there is one. *)
Fixpoint accepted (l : list (EventBase.sysret Z)) : list Z * bool :=
  match l with
  | [] => ([], false)
  | EventBase.Again :: l => accepted l
  | EventBase.Failed :: _ => ([], true)
  | EventBase.Ok fd :: l => (fd :: fst (accepted l), snd (accepted l))
  end.

Section EchoLaws.
Context {L : Libevent} {view : sock -> net} {LS : LibeventSpec L view}.

(** [read_atmost] brings at least a byte, or the end of the stream. *)
Lemma read_atmost_law n b w :
  0 < n < 2 ^ 31 ->
  ends (view := view) (fun o b' v' => exists k, o = Val k /\
      ((k = 0 /\ rx (view w) = [] /\ b' = b /\ v' = view w) \/
       (0 < k <= n /\ k <= zlen (rx (view w)) /\ b' = b ++ ztake k (rx (view w)) /\
        v' = Net (zdrop k (rx (view w))) (tx (view w)))))
    (fst (Buffer_read_atmost n (b, w))) (snd (Buffer_read_atmost n (b, w))).
Proof.
  intros Hn. unfold Buffer_read_atmost, co_await_ReadAtMost, ReadAwaiter_await_ready, ReadAwaiter_ctor.
  unfold u64. rewrite Z.mod_small by lia. cbn [ra_limit ra_bytes_read].
  destruct (Z.leb_spec n 0); [lia|].
  unfold drive, loop. cbn [iter_pos]. unfold bind.
  destruct (Event_add_law (view := view) b w) as [[e [He HF]]|[w1 [-> Hv]]].
  { destruct (Event_add (b, w)) as [[]]; simplify_eq/=. left. eauto. }
  unfold ReadAtMostAwaiter_on_read_ready. cbn [ra_limit].
  unfold s32. rewrite sgn_small by lia.
  pose proof (evbuffer_read_spec w1 b n ltac:(lia)) as Hs.
  destruct (evbuffer_read w1 b n) as [[rc b2] w2]. rewrite Hv in Hs. cbn.
  unfold ReadAtMostAwaiter_await_resume. cbn [ra_err].
  destruct (Z.ltb_spec rc 0).
  { left. eexists. split; [done|lib_fail]. }
  right. destruct Hs as [?|[(-> & Hrx & -> & Hv')|(Hrc & Hrc2 & -> & Hv')]]; [lia| |]; cbn.
  - exists 0. split; [done|]. left. done.
  - exists rc. unfold u64. rewrite Z.mod_small by lia. split; [done|]. right. split_and!; done || lia.
Qed.

Lemma drain_all_empty (w : sock) :
  (exists e, fst (on_fst Buffer_drain_all (@nil byte, w)) = Exn e /\ lib_failure e) \/
  on_fst Buffer_drain_all ([], w) = (Val tt, ([], w)).
Proof.
  unfold on_fst, focus, Buffer_drain_all, Buffer_get_length, bind, gets. cbn.
  rewrite evbuffer_get_length_spec. change (zlen (@nil byte)) with 0. unfold Buffer_drain.
  destruct (evbuffer_drain_spec [] 0 (Z.le_refl 0)) as [Hf|Heq].
  - left. destruct (evbuffer_drain [] 0) as [rc b]. cbn in Hf. rewrite decide_True by done.
    eexists. split; [done|lib_fail].
  - right. by rewrite Heq.
Qed.

(** A round either ends the loop at the end of the stream, or sends what it read. *)
Lemma echo_round_law w :
  match echo_round tt ([], w) with
  | (Val (inr _), (b', w')) => b' = [] /\ rx (view w) = [] /\ view w' = view w
  | (Val (inl _), (b', w')) => b' = [] /\
      exists k, 0 < k <= zlen (rx (view w)) /\
        view w' = Net (zdrop k (rx (view w))) (tx (view w) ++ ztake k (rx (view w)))
  | (Exn e, _) => lib_failure e
  | _ => False
  end.
Proof.
  pose proof (read_atmost_law 0x400 [] w ltac:(lia)) as Hr. unfold echo_round.
  destruct (Buffer_read_atmost 0x400 ([], w)) as [o [b1 w1]] eqn:E. simpl fst in Hr. simpl snd in Hr.
  destruct Hr as [(e & -> & He)|(k & -> & [(-> & Hrx & Hb & Hv)|(Hk & Hk2 & Hb & Hv)])].
  - by rewrite (bind_Exn _ _ _ _ _ E).
  - simpl in Hb. subst b1. rewrite (bind_Val _ _ _ _ _ E).
    rewrite (bind_Val _ _ _ 0 ([], w1))
      by (unfold on_fst, focus, Buffer_get_length, gets; simpl; by rewrite evbuffer_get_length_spec).
    done.
  - simpl in Hb. rewrite (bind_Val _ _ _ _ _ E). set (d := ztake k (rx (view w))) in *. subst b1.
    assert (zlen d = k) as Hd by (unfold d; rewrite zlen_ztake; lia).
    rewrite (bind_Val _ _ _ k (d, w1))
      by (unfold on_fst, focus, Buffer_get_length, gets; simpl; by rewrite evbuffer_get_length_spec, Hd).
    destruct (Z.eqb_spec k 0); [lia|].
    destruct (Buffer_write_delivers (view := view) d w1) as [[Ho [Hb Hw]]|(e & He & Hf)]; [lia| |];
      destruct (Buffer_write (-1) (d, w1)) as [o2 [b2 w2]] eqn:E2; simpl in *; subst o2.
    + subst b2. rewrite (bind_Val _ _ _ _ _ E2).
      destruct (drain_all_empty w2) as [(e & He & Hf)|Hdr].
      * destruct (on_fst Buffer_drain_all ([], w2)) as [o3 s3] eqn:E3. simpl in He. subst o3.
        by rewrite (bind_Exn _ _ _ _ _ E3).
      * rewrite (bind_Val _ _ _ _ _ Hdr). split; [done|]. exists k. split; [lia|].
        by rewrite Hw, Hv.
    + by rewrite (bind_Exn _ _ _ _ _ E2).
Qed.

Lemma echo_loop_law fuel w :
  (length (rx (view w)) < Pos.to_nat fuel)%nat ->
  let r := loop echo_round fuel tt ([], w) in
  (exists e, fst r = Exn e /\ lib_failure e) \/
  (fst r = Val tt /\ view (snd (snd r)) = Net [] (tx (view w) ++ rx (view w))).
Proof.
  intros Hf. set (all := tx (view w) ++ rx (view w)). cbv zeta.
  apply (loop_rule echo_round
    (fun _ st => fst st = [] /\ tx (view (snd st)) ++ rx (view (snd st)) = all)
    (fun _ st => length (rx (view (snd st))))
    (fun o st => (exists e, o = Exn e /\ lib_failure e) \/
                 (o = Val tt /\ view (snd st) = Net [] all))); [|done|done].
  clearbody all. clear Hf w. intros [] [b w] [Hb Hall]. simpl in *. subst b.
  pose proof (echo_round_law w) as Hr.
  destruct (echo_round tt ([], w)) as [[[[]|[]]|e| |] [b' w']]; try done.
  - destruct Hr as (-> & k & Hk & Hv). simpl. rewrite Hv. simpl. split.
    + split; [done|]. by rewrite <- app_assoc, ztake_zdrop.
    + pose proof (zlen_zdrop k (rx (view w)) ltac:(lia)) as Hl. unfold zlen in *. lia.
  - destruct Hr as (-> & Hrx & Hv). right. split; [done|]. simpl. rewrite Hv, <- Hall, Hrx, app_nil_r.
    destruct (view w). simpl in *. by rewrite Hrx.
  - left. by exists e.
Qed.
End EchoLaws.

(** C22: the echo server sends back exactly the bytes it receives, in order, and
    ends when the peer closes its side: over any libevent that keeps its
    contract, however the kernel cuts reads and writes, unless libevent reports a
    failure. Each round moves a byte, so one more round than there are bytes is
    enough. *)
Theorem echo_server_echoes {L : Libevent} {view} {LS : LibeventSpec L view} fuel w :
  (length (rx (view w)) < Pos.to_nat fuel)%nat ->
  delivers lib_failure (fun w v => view w = v) (handle_server_connection fuel) w (Val tt)
    (Net [] (tx (view w) ++ rx (view w))).
Proof.
  intros Hf. pose proof (echo_loop_law fuel w Hf) as Hl. cbv zeta in Hl.
  unfold delivers, handle_server_connection, Buffer_new. pose proof evbuffer_new_spec as Hnew.
  destruct evbuffer_new as [b|]; [rewrite (Hnew b) by done|right; eexists; split; [done|lib_fail]].
  rewrite (bind_Val _ _ _ [] w) by done. unfold with_local.
  destruct (loop echo_round fuel tt ([], w)) as [o [b' w']]. simpl in Hl.
  destruct Hl as [(e & -> & He)|[-> Hv]]; [right; by exists e|left; by split].
Qed.

Lemma echo_server_echoes_witness :
  delivers lib_failure (fun w v => w = v) (@handle_server_connection (chunked 3) 20)
    (Net (str "hello, world") []) (Val tt) (Net [] (str "hello, world")).
Proof.
  apply (echo_server_echoes (LS := chunked_spec 3) 20 (Net (str "hello, world") [])).
  vm_compute. lia.
Defined.

Lemma accepted_outcome l :
  match EventBase.accept_outcome l with
  | Some (EventBase.Awaited fd, l') => (length l' < length l)%nat /\
      accepted l = (fd :: fst (accepted l'), snd (accepted l'))
  | Some (EventBase.Never, _) => accepted l = ([], true)
  | None => accepted l = ([], false)
  end.
Proof.
  induction l as [|[fd| |] l IH]; simpl; [done|split; [lia|done]| |done].
  destruct (EventBase.accept_outcome l) as [[[fd|] l']|]; [|done..]. destruct IH. split; [lia|done].
Qed.

(** The server hands every connection to its coroutine, in order, until a call to
    [accept] fails; the loop is never resumed after that, although the listening
    socket may have further connections. *)
Theorem run_server_accepts fd fuel rounds l :
  (length l <= Pos.to_nat fuel)%nat -> (length l < Pos.to_nat rounds)%nat ->
  let r := run_server (Val fd) fuel rounds ([], EventBase.mkKernel l None []) in
  fst (snd r) = fst (accepted l) /\
  fst r = (if snd (accepted l) then Val EventBase.Never else NoFuel).
Proof.
  intros Hf Hr. cbv zeta. unfold run_server.
  rewrite (bind_Val _ _ _ fd ([], EventBase.mkKernel l None [])) by done.
  destruct (EventBase.serve_loop (EventBase.Base_accept fuel) (fun fd => fd)
    (fun l => (fst (accepted l), if snd (accepted l) then Some (Val EventBase.Never) else None))
    rounds (length l) l) as [H1 H2]; [|done..|].
  - intros l1 Hl1. unfold EventBase.serves.
    pose proof (EventBase.base_accept_spec fuel l1) as H. cbv zeta in H.
    specialize (accepted_outcome l1) as Ho.
    destruct (EventBase.accept_outcome l1) as [[[fd1|] l2]|].
    + rewrite H by lia. destruct Ho as [Hlt Ha]. exists l2. rewrite Ha. by split_and!.
    + rewrite H by lia. by rewrite Ho.
    + destruct (EventBase.Base_accept fuel _) as [o k]. simpl in H. subst o. by rewrite Ho.
  - split; [done|]. rewrite H1. simpl. by destruct (snd (accepted l)).
Qed.

Lemma run_server_accepts_witness :
  let l := [EventBase.Ok 4; EventBase.Again; EventBase.Ok 5; EventBase.Failed; EventBase.Ok 6] in
  let r := run_server (Val 3) 9 9 ([], EventBase.mkKernel l None []) in
  fst (snd r) = [4; 5] /\ fst r = Val EventBase.Never.
Proof.
  intros l r. destruct (run_server_accepts 3 9 9 l) as [H1 H2]; [simpl; lia..|].
  split; [exact H1|exact H2].
Defined.
