(* ===== verification/UdpEchoServer.v ===== *)
(** * The UDP echo server (src/src/Examples/UDPEchoServer.cc)

    A coroutine that awaits [Base::recvfrom] and sends every datagram back, over
    the answers of the kernel (EventBase.v). *)
From stdpp Require Import tactics base list numbers strings.
From S2P Require Import Prelude EventBase.

(** [run], and with it [main]: what [sendto] answers is ignored, so the log is of
    the datagrams given to it, each with the address it goes to. *)
Definition run (listen : out Z) (fuel rounds : positive)
    : ST (list datagram * kernel datagram) (wait unit) :=
  of_out listen ;;;
  loop (serve_round (Base_recvfrom fuel 0x1000)
          (fun recv_result => (rr_data recv_result, rr_addr recv_result))) rounds tt.

(** The datagrams among the answers to [recvfrom], up to the first that is empty or
    a failure, and how the coroutine ends. [first]: nothing has been answered
    since the last datagram, not even that there is none. *)
Fixpoint echoed (first : bool) (l : list (sysret datagram))
    : list datagram * option (out (wait unit)) :=
  match l with
  | [] => ([], None)
  | Again :: l => echoed false l
  | Failed :: _ => ([], Some (Exn failed_to_read))
  | Ok ([], _) :: _ => ([], Some (if first then Exn zero_length else Val Never))
  | Ok (d, addr) :: l => ((ztake 0x1000 d, addr) :: fst (echoed true l), snd (echoed true l))
  end.

Lemma echoed_outcome l : forall first,
  match recv_outcome 0x1000 first l with
  | Some (Val (Awaited r), l') => (length l' < length l)%nat /\
      echoed first l = ((rr_data r, rr_addr r) :: fst (echoed true l'), snd (echoed true l'))
  | Some (Val Never, _) => echoed first l = ([], Some (Val Never))
  | Some (Exn e, _) => echoed first l = ([], Some (Exn e))
  | Some _ => False
  | None => echoed first l = ([], None)
  end.
Proof.
  induction l as [|[[[|b d] addr]| |] l IH]; intros first; cbn [recv_outcome echoed]; [done| | | |done].
  - by destruct first.
  - assert (ztake 0x1000 (b :: d) <> []) as Hne.
    { intros H%(f_equal zlen). rewrite zlen_ztake in H by lia. change (zlen []) with 0 in H.
      rewrite zlen_cons in H. pose proof (zlen_nonneg d). lia. }
    rewrite decide_False by done. cbn. split; [lia|done].
  - specialize (IH false). destruct (recv_outcome 0x1000 false l) as [[[[r|]| | |] l']|]; try done.
    destruct IH. split; [simpl; lia|done].
Qed.

(** C21: the UDP echo server sends every datagram back to the address it came from,
    in order and cut to 4096 bytes, until the first that is empty or a call that
    fails. One empty datagram, from anyone, ends it: it throws out of the
    coroutine, which terminates the process, when the datagram is there before the
    server waits, and is never resumed when it comes later. *)
Theorem udp_server_echoes fd fuel rounds l :
  (length l <= Pos.to_nat fuel)%nat -> (length l < Pos.to_nat rounds)%nat ->
  let r := run (Val fd) fuel rounds ([], mkKernel l None []) in
  fst (snd r) = fst (echoed true l) /\ fst r = default NoFuel (snd (echoed true l)).
Proof.
  intros Hf Hr. cbv zeta. unfold run. rewrite (bind_Val _ _ _ fd ([], mkKernel l None [])) by done.
  destruct (serve_loop (Base_recvfrom fuel 0x1000)
    (fun recv_result => (rr_data recv_result, rr_addr recv_result)) (echoed true)
    rounds (length l) l) as [H1 H2]; [|done..|done].
  intros l1 Hl1. unfold serves. pose proof (base_recvfrom_spec fuel 0x1000 l1 ltac:(lia)) as H.
  cbv zeta in H. pose proof (echoed_outcome l1 true) as Ho.
  destruct (recv_outcome 0x1000 true l1) as [[[[r|]|e| |] l2]|]; try done.
  - rewrite H by lia. destruct Ho as [Hlt ->]. exists l2. by split_and!.
  - rewrite H by lia. by rewrite Ho.
  - rewrite H by lia. by rewrite Ho.
  - destruct (Base_recvfrom fuel _ _) as [o k]. simpl in H. subst o. by rewrite Ho.
Qed.

Lemma udp_server_echoes_witness :
  let l := [Ok (str "one", str "a"); Again; Ok (str "two", str "b"); Again; Ok ([], str "c");
            Ok (str "three", str "a")] in
  let r := run (Val 3) 9 9 ([], mkKernel l None []) in
  fst (snd r) = [(str "one", str "a"); (str "two", str "b")] /\ fst r = Val Never.
Proof.
  intros l r. destruct (udp_server_echoes 3 9 9 l) as [H1 H2]; [simpl; lia..|].
  split; [exact H1|exact H2].
Defined.
