(* ===== verification/StringReader.v ===== *)
(** * The string reader of phosg that the binlog parser reads with

    [ReaderOps] lists the methods of phosg's [StringReader] that the code calls:
    a cursor in a string. [spec_reader] is the contract the code relies on, and
    [ReaderLaws] says that an implementation keeps it. The contract determines
    nothing for a [read] or [skip] past the end of the string. [BoundedReader] asks
    for less within it and for something at its end: a [get] is whole, and a [read]
    answers at most what it was asked for. *)
From stdpp Require Import tactics base list numbers strings.
From S2P Require Import Prelude.

Class ReaderOps (Rd : Type) := {
  sr_new : bytes -> Rd;                 (* StringReader(data) *)
  sr_size : Rd -> Z;
  sr_where : Rd -> Z;
  sr_eof : Rd -> bool;
  sr_get : Z -> ST Rd bytes;            (* a fixed-size get: get<T>, get_u8, ... *)
  sr_read : Z -> ST Rd bytes;           (* read(size) *)
  sr_skip : Z -> ST Rd unit;            (* skip(size) *)
  sr_get_cstr : ST Rd bytes             (* up to and over the next NUL *)
}.

(** The integer gets named after their width and byte order. *)
Section Gets.
Context {Rd : Type} {O : ReaderOps Rd}.
Definition get_u8 : ST Rd Z := let! d := sr_get 1 in ret (le_decode d).
Definition get_u16l : ST Rd Z := let! d := sr_get 2 in ret (le_decode d).
Definition get_u16b : ST Rd Z := let! d := sr_get 2 in ret (be_decode d).
Definition get_u24l : ST Rd Z := let! d := sr_get 3 in ret (le_decode d).
Definition get_u24b : ST Rd Z := let! d := sr_get 3 in ret (be_decode d).
Definition get_u32l : ST Rd Z := let! d := sr_get 4 in ret (le_decode d).
Definition get_u32b : ST Rd Z := let! d := sr_get 4 in ret (be_decode d).
Definition get_u48l : ST Rd Z := let! d := sr_get 6 in ret (le_decode d).
Definition get_u64l : ST Rd Z := let! d := sr_get 8 in ret (le_decode d).
End Gets.

(** ** The contract *)

(** The bytes already read and the bytes still to read. *)
Record rdr := Rdr { sr_done : Z; sr_rest : bytes }.

(** What a fixed-size get throws when too little is left. *)
Definition reader_underflow : exn := out_of_range (str "end of string").

Definition spec_get (n : Z) : ST rdr bytes := fun r =>
  if zlen (sr_rest r) <? n then (Exn reader_underflow, r)
  else (Val (ztake n (sr_rest r)), Rdr (sr_done r + n) (zdrop n (sr_rest r))).

Definition spec_sr_read (n : Z) : ST rdr bytes := fun r =>
  if zlen (sr_rest r) <? n then (Undef, r)
  else (Val (ztake n (sr_rest r)), Rdr (sr_done r + n) (zdrop n (sr_rest r))).

Definition spec_skip (n : Z) : ST rdr unit := fun r =>
  if zlen (sr_rest r) <? n then (Undef, r)
  else (Val tt, Rdr (sr_done r + n) (zdrop n (sr_rest r))).

Definition spec_get_cstr : ST rdr bytes := fun r =>
  match split_nul (sr_rest r) with
  | Some (h, t) => (Val h, Rdr (sr_done r + zlen h + 1) t)
  | None => (Undef, r)
  end.

Definition spec_reader : ReaderOps rdr := {|
  sr_new d := Rdr 0 d;
  sr_size r := sr_done r + zlen (sr_rest r);
  sr_where := sr_done;
  sr_eof r := bool_decide (sr_rest r = []);
  sr_get := spec_get;
  sr_read := spec_sr_read;
  sr_skip := spec_skip;
  sr_get_cstr := spec_get_cstr
|}.

(** The reader adds no failures of its own. *)
Definition no_failure (e : exn) : Prop := False.

Class ReaderLaws {Rd} (O : ReaderOps Rd) (R : Rd -> rdr -> Prop) : Prop := {
  law_sr_new d : R (@sr_new _ O d) (Rdr 0 d);
  law_sr_size r s : R r s -> @sr_size _ O r = @sr_size _ spec_reader s;
  law_sr_where r s : R r s -> @sr_where _ O r = @sr_where _ spec_reader s;
  law_sr_eof r s : R r s -> @sr_eof _ O r = @sr_eof _ spec_reader s;
  law_sr_get n : refines no_failure R (@sr_get _ O n) (spec_get n);
  law_sr_read n : refines no_failure R (@sr_read _ O n) (spec_sr_read n);
  law_sr_skip n : refines no_failure R (@sr_skip _ O n) (spec_skip n);
  law_sr_get_cstr : refines no_failure R (@sr_get_cstr _ O) spec_get_cstr
}.

#[export] Instance spec_reader_laws : ReaderLaws spec_reader eq.
Proof. split; try done; try (intros; by subst); intros ???; intros; subst; by right; right. Qed.

#[export] Hint Resolve law_sr_get law_sr_read law_sr_skip law_sr_get_cstr : refine.

Section ReaderGets.
Context {Rd : Type} {O : ReaderOps Rd} {R : Rd -> rdr -> Prop} {L : ReaderLaws O R}.

Lemma sr_eof_refines : refines no_failure R (gets (@sr_eof _ O)) (gets (@sr_eof _ spec_reader)).
Proof. apply refines_gets. intros s s' H. by apply law_sr_eof. Qed.

Lemma sr_where_refines : refines no_failure R (gets (@sr_where _ O)) (gets (@sr_where _ spec_reader)).
Proof. apply refines_gets. intros s s' H. by apply law_sr_where. Qed.

(** A reader that is a local variable. *)
Lemma refines_with_reader {S S' A} (Q : S -> S' -> Prop) d (m : ST (Rd * S) A) m' :
  refines no_failure (Rprod R Q) m m' ->
  refines no_failure Q (with_local (@sr_new _ O d) m) (with_local (@sr_new _ spec_reader d) m').
Proof. apply refines_with_local_rel, law_sr_new. Qed.
End ReaderGets.

#[export] Hint Resolve sr_eof_refines sr_where_refines : refine.

Ltac get_refines := unfold get_u8, get_u16l, get_u16b, get_u24l, get_u24b, get_u32l, get_u32b,
  get_u48l, get_u64l; refine_auto.

(** ** Computing with the contract *)

Lemma spec_get_app n d r k :
  zlen d = n -> spec_get n (Rdr k (d ++ r)) = (Val d, Rdr (k + n) r).
Proof.
  intros Hn. unfold spec_get. simpl. rewrite zlen_app. pose proof (zlen_nonneg r).
  destruct (Z.ltb_spec (zlen d + zlen r) n); [lia|]. by rewrite ztake_app, zdrop_app.
Qed.

Lemma spec_sr_read_app n d r k :
  zlen d = n -> spec_sr_read n (Rdr k (d ++ r)) = (Val d, Rdr (k + n) r).
Proof.
  intros Hn. unfold spec_sr_read. simpl. rewrite zlen_app. pose proof (zlen_nonneg r).
  destruct (Z.ltb_spec (zlen d + zlen r) n); [lia|]. by rewrite ztake_app, zdrop_app.
Qed.

Lemma spec_skip_app n d r k :
  zlen d = n -> spec_skip n (Rdr k (d ++ r)) = (Val tt, Rdr (k + n) r).
Proof.
  intros Hn. unfold spec_skip. simpl. rewrite zlen_app. pose proof (zlen_nonneg r).
  destruct (Z.ltb_spec (zlen d + zlen r) n); [lia|]. by rewrite zdrop_app.
Qed.

(** ** Readers that answer what is left

    What does not depend on where a string ends is stated for every reader whose
    fixed-size gets answer that many bytes, whose [read] answers at most as many
    bytes as it is asked for, and which complain with [std::out_of_range] alone. *)
Definition underflow_error (e : exn) : Prop := exists what, e = out_of_range what.

Class BoundedReader {Rd} (O : ReaderOps Rd) : Prop := {
  br_get n s :
    match fst (@sr_get _ O n s) with
    | Val d => 0 <= n -> zlen d = n
    | Exn e => underflow_error e
    | Undef => True
    | NoFuel => False
    end;
  br_read n s :
    match fst (@sr_read _ O n s) with
    | Val d => 0 <= n -> zlen d <= n
    | Exn e => underflow_error e
    | Undef => True
    | NoFuel => False
    end
}.

#[export] Instance spec_reader_bounded : BoundedReader spec_reader.
Proof.
  split; intros n s; cbn; unfold spec_get, spec_sr_read; destruct (Z.ltb_spec (zlen (sr_rest s)) n); cbn;
    [by eexists|intros Hn; rewrite zlen_ztake; lia|done|intros Hn; rewrite zlen_ztake; lia].
Qed.

(** One that is always defined: at the end of the string [read] answers what is
    left, and the others throw. *)
Definition clamping_reader : ReaderOps rdr := {|
  sr_new d := Rdr 0 d;
  sr_size r := sr_done r + zlen (sr_rest r);
  sr_where := sr_done;
  sr_eof r := bool_decide (sr_rest r = []);
  sr_get := spec_get;
  sr_read n r :=
    if zlen (sr_rest r) <? n then (Val (sr_rest r), Rdr (sr_done r + zlen (sr_rest r)) [])
    else spec_sr_read n r;
  sr_skip n r :=
    if zlen (sr_rest r) <? n then (Exn reader_underflow, Rdr (sr_done r + zlen (sr_rest r)) [])
    else spec_skip n r;
  sr_get_cstr r :=
    match split_nul (sr_rest r) with
    | Some _ => spec_get_cstr r
    | None => (Exn reader_underflow, Rdr (sr_done r + zlen (sr_rest r)) [])
    end
|}.

#[export] Instance clamping_reader_laws : ReaderLaws clamping_reader eq.
Proof.
  split; cbn; try done; try (intros; by subst).
  - intros n s ? <-. by right; right.
  - intros n s ? <-. unfold spec_sr_read. destruct (_ <? _) eqn:E; [by left|by right; right].
  - intros n s ? <-. unfold spec_skip. destruct (_ <? _) eqn:E; [by left|by right; right].
  - intros s ? <-. unfold spec_get_cstr. destruct (split_nul _) as [[]|]; [by right; right|by left].
Qed.

#[export] Instance clamping_reader_bounded : BoundedReader clamping_reader.
Proof.
  split; intros n s; cbn; unfold spec_get, spec_sr_read; destruct (Z.ltb_spec (zlen (sr_rest s)) n); cbn;
    [by eexists|intros Hn; rewrite zlen_ztake; lia|intros; lia|intros Hn; rewrite zlen_ztake; lia].
Qed.
