(* ===== verification/ProtocolBuffer.v ===== *)
(** * MySQL wire primitives (src/src/Protocols/MySQL/ProtocolBuffer.cc)

    The length-encoded integers and the strings of the MySQL protocol, written to
    and read from a [Buffer] or read with the string reader, and the framing of
    commands on the connection. *)
From stdpp Require Import tactics base list numbers strings.
From S2P Require Import Prelude BufferApi Libevent Buffer Chunked StringReader.

Definition attempted_nonempty : exn :=
  logic_error (str "attempted to read command into non-empty buffer").
Definition varint_FB : exn := runtime_error (str "length-encoded int is invalid (0xFB)").
Definition varint_FF : exn := runtime_error (str "length-encoded int is invalid (0xFF)").

Section ProtocolBuffer.
Context {O : BufferOps}.

(** ** Integers *)

Definition remove_u24l : ST bytes Z := let! d := buf_remove 3 in ret (le_decode d).
Definition remove_u48l : ST bytes Z := let! d := buf_remove 6 in ret (le_decode d).
Definition add_u24l (v : Z) : ST bytes unit := buf_add (le_encode 3 v).
Definition add_u48l (v : Z) : ST bytes unit := buf_add (le_encode 6 v).

Definition remove_varint : ST bytes Z :=
  let! v := remove_u8 in
  if v <? 0xFB then ret v
  else if v =? 0xFB then throw varint_FB
  else if v =? 0xFC then remove_u16l
  else if v =? 0xFD then remove_u24l
  else if v =? 0xFE then remove_u64l
  else if v =? 0xFF then throw varint_FF
  else ret v.

Definition add_varint (v : Z) : ST bytes unit :=
  if v <=? 0xFA then add_u8 v
  else if v <=? 0xFFFF then add_u8 0xFC ;;; add_u16l v
  else if v <=? 0xFFFFFF then add_u8 0xFD ;;; add_u24l v
  else add_u8 0xFE ;;; add_u64l v.

(** ** Strings *)

Definition remove_string0 : ST bytes bytes := buf_readln_nul.
Definition remove_var_string : ST bytes bytes :=
  let! n := remove_varint in remove_string n.
Definition remove_string_eof : ST bytes bytes :=
  let! n := buf_get_length in remove_string n.
Definition add_string0 (s : bytes) : ST bytes unit := buf_add (s ++ [Byte.x00]).
Definition add_var_string (s : bytes) : ST bytes unit :=
  add_varint (zlen s) ;;; buf_add s.

(** The [for] loop takes eight at a time; the bits of the rest follow. *)
Definition add_zeroes (count : Z) : ST bytes unit :=
  let! count := loop (fun count =>
      if 8 <=? count then add_u64l 0 ;;; ret (inl (count - 8)) else ret (inr count))
    (Z.to_pos (count / 8 + 1)) count in
  (if decide (Z.land count 4 <> 0) then add_u32l 0 else ret tt) ;;;
  (if decide (Z.land count 2 <> 0) then add_u16l 0 else ret tt) ;;;
  (if decide (Z.land count 1 <> 0) then add_u8 0 else ret tt).

(** ** Commands *)

Context {W : Type} {SO : SocketOps W}.

(** Returns the sequence number. *)
Definition read_command : ST (bytes * W) Z :=
  let! len := on_fst buf_get_length in
  (if negb (len =? 0) then throw attempted_nonempty else ret tt) ;;;
  buf_read_to 4 ;;;
  let! command_length := on_fst remove_u24l in
  let! command_seq := on_fst remove_u8 in
  buf_read_to command_length ;;;
  ret command_seq.

(** The local [send_buf] comes first in the state of the body. *)
Definition write_command (seq : Z) : ST (bytes * W) unit :=
  let! send_buf := of_out buf_new in
  with_local send_buf (
    let! len := on_snd (on_fst buf_get_length) in
    on_fst (add_u24l (u32 len)) ;;;
    on_fst (add_u8 seq) ;;;
    on_12 buf_add_buffer ;;;
    on_13 buf_write).
End ProtocolBuffer.

(** ** ProtocolStringReader *)

(** [std::vector<bool>::max_size()]. *)
Definition vector_bool_max_size : Z := 2 ^ 63 - 64.

Section ProtocolStringReader.
Context {Rd : Type} {O : ReaderOps Rd}.

Definition get_varint : ST Rd Z :=
  let! v := get_u8 in
  if v <? 0xFB then ret v
  else if v =? 0xFB then throw varint_FB
  else if v =? 0xFC then get_u16l
  else if v =? 0xFD then get_u24l
  else if v =? 0xFE then get_u64l
  else if v =? 0xFF then throw varint_FF
  else ret v.

Definition get_string0 : ST Rd bytes := sr_get_cstr.
Definition get_var_string : ST Rd bytes := let! n := get_varint in sr_read n.
Definition get_string_eof : ST Rd bytes :=
  let! n := gets (fun r => sr_size r - sr_where r) in sr_read n.

(** [(data[x >> 3] >> (x & 7)) & 1], with [char] signed; no value past the end. *)
Definition bit_at (data : bytes) (x : Z) : option bool :=
  match data !! Z.to_nat (Z.shiftr x 3) with
  | Some b => Some (negb (Z.land (Z.shiftr (s8 (byte_val b)) (Z.land x 7)) 1 =? 0))
  | None => None
  end.

Definition get_bitmask (num_bits : Z) : ST Rd (list bool) :=
  let! data := sr_read (u64 (num_bits + 7) / 8) in
  if vector_bool_max_size <? num_bits then throw (length_error (str "vector"))
  else
    match mapM (fun x => bit_at data (Z.of_nat x)) (seq 0 (Z.to_nat num_bits)) with
    | Some bits => ret bits
    | None => undef
    end.
End ProtocolStringReader.

(** ** Any lawful buffer, connection and reader refine the abstract ones *)

Section Refinement.
Context {O : BufferOps} {L : BufferLaws O}.

Lemma remove_u24l_refines : refines lib_failure eq (@remove_u24l O) (@remove_u24l spec_buffer).
Proof. unfold remove_u24l. refine_auto. Qed.

Lemma remove_u48l_refines : refines lib_failure eq (@remove_u48l O) (@remove_u48l spec_buffer).
Proof. unfold remove_u48l. refine_auto. Qed.

Lemma add_u24l_refines v : refines lib_failure eq (@add_u24l O v) (@add_u24l spec_buffer v).
Proof. unfold add_u24l. refine_auto. Qed.

Hint Resolve remove_u24l_refines add_u24l_refines : refine.

Lemma remove_varint_refines : refines lib_failure eq (@remove_varint O) (@remove_varint spec_buffer).
Proof. unfold remove_varint. refine_auto. Qed.

Lemma add_varint_refines v : refines lib_failure eq (@add_varint O v) (@add_varint spec_buffer v).
Proof. unfold add_varint. refine_auto. Qed.

Hint Resolve remove_varint_refines add_varint_refines : refine.

Lemma remove_string0_refines : refines lib_failure eq (@remove_string0 O) (@remove_string0 spec_buffer).
Proof. unfold remove_string0. refine_auto. Qed.

Lemma remove_var_string_refines :
  refines lib_failure eq (@remove_var_string O) (@remove_var_string spec_buffer).
Proof. unfold remove_var_string. refine_auto. Qed.

Lemma remove_string_eof_refines :
  refines lib_failure eq (@remove_string_eof O) (@remove_string_eof spec_buffer).
Proof. unfold remove_string_eof. refine_auto. Qed.

Lemma add_string0_refines s : refines lib_failure eq (@add_string0 O s) (@add_string0 spec_buffer s).
Proof. unfold add_string0. refine_auto. Qed.

Lemma add_var_string_refines s :
  refines lib_failure eq (@add_var_string O s) (@add_var_string spec_buffer s).
Proof. unfold add_var_string. refine_auto. Qed.

Lemma add_zeroes_refines n : refines lib_failure eq (@add_zeroes O n) (@add_zeroes spec_buffer n).
Proof. unfold add_zeroes. refine_auto. Qed.

Context {W : Type} {SO : SocketOps W} {R : W -> net -> Prop} {SL : SocketLaws SO R}.

Lemma add_buffer_refines :
  refines lib_failure (Rprod eq eq) (@buf_add_buffer O) (@buf_add_buffer spec_buffer).
Proof. apply refines_eq_prod, law_add_buffer. Qed.

Hint Resolve add_buffer_refines : refine.

Lemma read_command_refines :
  refines lib_failure (Rprod eq R) (@read_command O W SO) (@read_command spec_buffer net spec_socket).
Proof. unfold read_command. refine_auto. Qed.

Lemma write_command_refines seq :
  refines lib_failure (Rprod eq R)
    (@write_command O W SO seq) (@write_command spec_buffer net spec_socket seq).
Proof. unfold write_command. refine_auto. Qed.
End Refinement.

#[export] Hint Resolve remove_u24l_refines remove_u48l_refines add_u24l_refines
  remove_varint_refines add_varint_refines remove_string0_refines remove_var_string_refines
  remove_string_eof_refines add_string0_refines add_var_string_refines add_zeroes_refines
  add_buffer_refines read_command_refines write_command_refines : refine.

Section ReaderRefinement.
Context {Rd : Type} {O : ReaderOps Rd} {R : Rd -> rdr -> Prop} {L : ReaderLaws O R}.

Lemma get_varint_refines : refines no_failure R (@get_varint Rd O) (@get_varint rdr spec_reader).
Proof. unfold get_varint. get_refines. Qed.

Hint Resolve get_varint_refines : refine.

Lemma get_var_string_refines :
  refines no_failure R (@get_var_string Rd O) (@get_var_string rdr spec_reader).
Proof. unfold get_var_string. refine_auto. Qed.

Lemma get_string_eof_refines :
  refines no_failure R (@get_string_eof Rd O) (@get_string_eof rdr spec_reader).
Proof.
  unfold get_string_eof. refine_auto. apply refines_gets.
  intros s s' HR. by rewrite (law_sr_size s s' HR), (law_sr_where s s' HR).
Qed.

Lemma get_bitmask_refines n :
  refines no_failure R (@get_bitmask Rd O n) (@get_bitmask rdr spec_reader n).
Proof. unfold get_bitmask. refine_auto. Qed.
End ReaderRefinement.

#[export] Hint Resolve get_varint_refines get_var_string_refines get_string_eof_refines
  get_bitmask_refines : refine.

(** ** What the abstract machine computes *)

(** The shortest length-encoded integer for [v]. *)
Definition varint_bytes (v : Z) : bytes :=
  if v <=? 0xFA then le_encode 1 v
  else if v <=? 0xFFFF then Byte.xfc :: le_encode 2 v
  else if v <=? 0xFFFFFF then Byte.xfd :: le_encode 3 v
  else Byte.xfe :: le_encode 8 v.

(** A command on the wire. *)
Definition frame (seq : Z) (p : bytes) : bytes := le_encode 3 (zlen p) ++ le_encode 1 seq ++ p.

Section Spec.

(** What [remove_varint] makes of any bytes: the width that the first byte
    announces, and the value that many bytes hold. *)
Definition varint_width (c : Z) : Z :=
  if c =? 0xFC then 2 else if c =? 0xFD then 3 else if c =? 0xFE then 8 else 0.
Definition varint_parse (b : bytes) : out Z * bytes :=
  match b with
  | [] => (Exn not_enough_data, [])
  | c :: t =>
      let c := byte_val c in
      if c =? 0xFB then (Exn varint_FB, t)
      else if c =? 0xFF then (Exn varint_FF, t)
      else if c <? 0xFB then (Val c, t)
      else if zlen t <? varint_width c then (Exn not_enough_data, [])
      else (Val (le_decode (ztake (varint_width c) t)), zdrop (varint_width c) t)
  end.

Lemma remove_u8_spec v r :
  0 <= v < 256 -> @remove_u8 spec_buffer (le_encode 1 v ++ r) = (Val v, r).
Proof.
  intros. unfold remove_u8. erewrite bind_Val by (apply (spec_remove_le 1 v r); lia).
  by rewrite le_decode_encode_small by lia.
Qed.

Lemma remove_u16l_spec v r :
  0 <= v < 2 ^ 16 -> @remove_u16l spec_buffer (le_encode 2 v ++ r) = (Val v, r).
Proof.
  intros. unfold remove_u16l. erewrite bind_Val by (apply (spec_remove_le 2 v r); lia).
  by rewrite le_decode_encode_small by lia.
Qed.

Lemma remove_u24l_spec v r :
  0 <= v < 2 ^ 24 -> @remove_u24l spec_buffer (le_encode 3 v ++ r) = (Val v, r).
Proof.
  intros. unfold remove_u24l. erewrite bind_Val by (apply (spec_remove_le 3 v r); lia).
  by rewrite le_decode_encode_small by lia.
Qed.

Lemma remove_u32l_spec v r :
  0 <= v < 2 ^ 32 -> @remove_u32l spec_buffer (le_encode 4 v ++ r) = (Val v, r).
Proof.
  intros. unfold remove_u32l. erewrite bind_Val by (apply (spec_remove_le 4 v r); lia).
  by rewrite le_decode_encode_small by lia.
Qed.

Lemma remove_u64l_spec v r :
  0 <= v < 2 ^ 64 -> @remove_u64l spec_buffer (le_encode 8 v ++ r) = (Val v, r).
Proof.
  intros. unfold remove_u64l. erewrite bind_Val by (apply (spec_remove_le 8 v r); lia).
  by rewrite le_decode_encode_small by lia.
Qed.

Lemma add_varint_spec v b : @add_varint spec_buffer v b = (Val tt, b ++ varint_bytes v).
Proof.
  unfold add_varint, varint_bytes, add_u8, add_u16l, add_u24l, add_u64l, add_T. simpl.
  unfold spec_add, modify.
  repeat case_match; unfold bind; simpl; rewrite <- ?app_assoc; done.
Qed.

Lemma remove_varint_spec v r :
  0 <= v < 2 ^ 64 -> @remove_varint spec_buffer (varint_bytes v ++ r) = (Val v, r).
Proof.
  intros Hv. unfold varint_bytes.
  destruct (Z.leb_spec v 0xFA); [|destruct (Z.leb_spec v 0xFFFF); [|destruct (Z.leb_spec v 0xFFFFFF)]];
    unfold remove_varint.
  - erewrite bind_Val by (apply remove_u8_spec; lia). by destruct (Z.ltb_spec v 0xFB); [|lia].
  - erewrite bind_Val by (apply (remove_u8_spec 0xFC); lia). apply remove_u16l_spec. lia.
  - erewrite bind_Val by (apply (remove_u8_spec 0xFD); lia). apply remove_u24l_spec. lia.
  - erewrite bind_Val by (apply (remove_u8_spec 0xFE); lia). apply remove_u64l_spec. lia.
Qed.

Lemma remove_var_string_spec s r :
  zlen s < 2 ^ 31 ->
  @remove_var_string spec_buffer (varint_bytes (zlen s) ++ s ++ r) = (Val s, r).
Proof.
  intros Hs. pose proof (zlen_nonneg s). unfold remove_var_string.
  erewrite bind_Val by (apply remove_varint_spec; lia).
  unfold remove_string, string_max_size. destruct (Z.ltb_spec (2 ^ 63 - 1) (zlen s)); [lia|].
  by apply spec_remove_app.
Qed.

Lemma add_var_string_spec s b :
  @add_var_string spec_buffer s b = (Val tt, b ++ varint_bytes (zlen s) ++ s).
Proof.
  unfold add_var_string. erewrite bind_Val by apply add_varint_spec.
  simpl. unfold spec_add, modify. by rewrite <- app_assoc.
Qed.

Lemma remove_string_eof_spec b :
  zlen b < 2 ^ 31 -> @remove_string_eof spec_buffer b = (Val b, []).
Proof.
  intros Hb. unfold remove_string_eof. erewrite bind_Val by done.
  unfold remove_string, string_max_size. destruct (Z.ltb_spec (2 ^ 63 - 1) (zlen b)); [lia|].
  rewrite <- (app_nil_r b) at 2. by apply spec_remove_app.
Qed.

Lemma write_command_spec seq p w :
  zlen p < 2 ^ 32 ->
  @write_command spec_buffer net spec_socket seq (p, w) =
    (Val tt, ([], Net (rx w) (tx w ++ frame seq p))).
Proof.
  intros Hp. pose proof (zlen_nonneg p). unfold write_command, bind, with_local, of_out. simpl.
  unfold bind, on_13, focus, spec_write. simpl. unfold u32. rewrite Z.mod_small by lia.
  rewrite !zlen_cons. zcases. done.
Qed.

Lemma read_command_spec seq len p r t :
  0 <= seq < 256 -> zlen p = len -> len < 2 ^ 24 ->
  @read_command spec_buffer net spec_socket
    ([], Net (le_encode 3 len ++ le_encode 1 seq ++ p ++ r) t) = (Val seq, (p, Net r t)).
Proof.
  intros Hs <- Hp. pose proof (zlen_nonneg p). unfold read_command.
  erewrite bind_Val by (by apply on_fst_eq).
  erewrite bind_Val by done.
  assert (forall r, le_encode 3 (zlen p) ++ le_encode 1 seq ++ r =
            (le_encode 3 (zlen p) ++ le_encode 1 seq) ++ r) as -> by (intros; by rewrite app_assoc).
  erewrite bind_Val by (by apply spec_read_to_app).
  erewrite bind_Val by (apply on_fst_eq; rewrite app_nil_l; apply remove_u24l_spec; lia).
  erewrite bind_Val by (apply on_fst_eq; rewrite <- (app_nil_r (le_encode 1 seq));
                        apply remove_u8_spec; lia).
  erewrite bind_Val by (apply spec_read_to_app; [by rewrite zlen_nil|lia]).
  done.
Qed.
End Spec.

Section Varint.

Lemma spec_remove_cons c t : zlen t < 2 ^ 31 - 1 -> spec_remove 1 (c :: t) = (Val [c], t).
Proof. intros. change (c :: t) with ([c] ++ t). by apply spec_remove_app. Qed.

Lemma spec_remove_cases n b :
  0 <= n -> zlen b < 2 ^ 31 ->
  spec_remove n b = if zlen b <? n then (Exn not_enough_data, []) else (Val (ztake n b), zdrop n b).
Proof. intros. unfold spec_remove. pose proof (zlen_nonneg b). by zcases. Qed.

Lemma remove_varint_parse b :
  zlen b < 2 ^ 31 -> @remove_varint spec_buffer b = varint_parse b.
Proof.
  intros Hb. unfold remove_varint, remove_u8, remove_u16l, remove_u24l, remove_u64l, remove_T, bind.
  simpl. destruct b as [|c t]; [done|]. rewrite zlen_cons in Hb.
  rewrite spec_remove_cons by lia. cbn [le_decode ret]. unfold varint_parse, varint_width.
  rewrite Z.mul_0_r, Z.add_0_r. pose proof (byte_val_range c).
  destruct (Z.ltb_spec (byte_val c) 0xFB); destruct (Z.eqb_spec (byte_val c) 0xFB); try lia; [|done|].
  { by destruct (Z.eqb_spec (byte_val c) 0xFF); [lia|]. }
  destruct (Z.eqb_spec (byte_val c) 0xFC) as [->|];
    [|destruct (Z.eqb_spec (byte_val c) 0xFD) as [->|];
    [|destruct (Z.eqb_spec (byte_val c) 0xFE) as [->|]]]; simpl;
    try (rewrite spec_remove_cases by lia; by destruct (_ <? _)).
  destruct (Z.eqb_spec (byte_val c) 0xFF); [done|lia].
Qed.

Lemma get_varint_parse k b v r :
  varint_parse b = (Val v, r) ->
  @get_varint rdr spec_reader (Rdr k b) = (Val v, Rdr (k + (zlen b - zlen r)) r).
Proof.
  destruct b as [|c t]; [done|]. unfold varint_parse, varint_width, get_varint, get_u8, get_u16l,
    get_u24l, get_u64l, bind. simpl. unfold spec_get. simpl. pose proof (zlen_nonneg t).
  rewrite zlen_cons. destruct (Z.ltb_spec (1 + zlen t) 1); [lia|].
  change (c :: t) with ([c] ++ t). rewrite ztake_app, zdrop_app by done. cbn [le_decode ret].
  rewrite Z.mul_0_r, Z.add_0_r. pose proof (byte_val_range c).
  destruct (Z.ltb_spec (byte_val c) 0xFB); destruct (Z.eqb_spec (byte_val c) 0xFB); try lia; try done.
  { destruct (Z.eqb_spec (byte_val c) 0xFF); [lia|]. intros [= <- <-]. repeat f_equal. lia. }
  destruct (Z.eqb_spec (byte_val c) 0xFC) as [->|];
    [|destruct (Z.eqb_spec (byte_val c) 0xFD) as [->|];
    [|destruct (Z.eqb_spec (byte_val c) 0xFE) as [->|]]]; simpl;
    try (match goal with |- context [zlen t <? ?n] => destruct (Z.ltb_spec (zlen t) n) end;
         intros [=]; subst; rewrite zlen_zdrop by lia; unfold ret; do 2 f_equal; lia).
  destruct (Z.eqb_spec (byte_val c) 0xFF); [done|lia].
Qed.
End Varint.

(** The loop and the tail of [add_zeroes]. *)
Section Zeroes.

Lemma repeat_plus {A} (x : A) n m : repeat x (n + m) = repeat x n ++ repeat x m.
Proof. induction n as [|n IH]; [done|]. simpl. by rewrite IH. Qed.

Lemma add_zeroes_tail count b :
  0 <= count < 8 ->
  ((if decide (Z.land count 4 <> 0) then @add_u32l spec_buffer 0 else ret tt) ;;;
   (if decide (Z.land count 2 <> 0) then @add_u16l spec_buffer 0 else ret tt) ;;;
   (if decide (Z.land count 1 <> 0) then @add_u8 spec_buffer 0 else ret tt)) b =
  (Val tt, b ++ repeat Byte.x00 (Z.to_nat count)).
Proof.
  intros Hc.
  assert (count = 0 \/ count = 1 \/ count = 2 \/ count = 3 \/
          count = 4 \/ count = 5 \/ count = 6 \/ count = 7) as Hcases by lia.
  destruct Hcases as [->|[->|[->|[->|[->|[->|[->| ->]]]]]]];
    unfold bind, ret, add_u32l, add_u16l, add_u8, add_T; simpl; unfold spec_add, modify;
    repeat case_decide; try done; rewrite <- ?app_assoc; by rewrite ?app_nil_r.
Qed.

Lemma add_zeroes_spec count b :
  0 <= count ->
  @add_zeroes spec_buffer count b = (Val tt, b ++ repeat Byte.x00 (Z.to_nat count)).
Proof.
  intros Hc. unfold add_zeroes.
  set (body := fun _ => _ : ST bytes (Z + Z)).
  pose proof (loop_rule body
    (fun c s => 0 <= c <= count /\ s = b ++ repeat Byte.x00 (Z.to_nat (count - c)))
    (fun c _ => Z.to_nat (c / 8))
    (fun o s => exists c, o = Val c /\ 0 <= c < 8 /\ c <= count /\
       s = b ++ repeat Byte.x00 (Z.to_nat (count - c)))) as Hl.
  ospecialize (Hl _).
  { intros c s [Hr ->]. unfold body. destruct (Z.leb_spec 8 c).
    - unfold bind, add_u64l, add_T, ret, buf_add, spec_buffer, spec_add, modify.
      rewrite le_encode_0. repeat split; try lia.
      + rewrite <- app_assoc, <- repeat_plus. do 2 f_equal. lia.
      + replace (c / 8) with ((c - 8) / 8 + 1)
          by (rewrite <- Z.div_add by lia; f_equal; lia).
        pose proof (Z.div_pos (c - 8) 8). lia.
    - unfold ret. eexists. repeat split; eauto; lia. }
  specialize (Hl (Z.to_pos (count / 8 + 1)) count b).
  ospecialize (Hl _ _).
  { split; [lia|]. rewrite Z.sub_diag. by rewrite app_nil_r. }
  { pose proof (Z.div_pos count 8). lia. }
  destruct Hl as (c & Ho & Hc8 & Hle & Hs).
  assert (loop body (Z.to_pos (count / 8 + 1)) count b =
    (Val c, b ++ repeat Byte.x00 (Z.to_nat (count - c)))) as Hloop
    by (rewrite <- Hs, <- Ho; apply surjective_pairing).
  rewrite (bind_Val _ _ _ _ _ Hloop). rewrite add_zeroes_tail by done. rewrite <- app_assoc, <- repeat_plus. do 3 f_equal. lia.
Qed.
End Zeroes.

(** Bitmasks: bit [x] of the mask is bit [x] of the little-endian integer. *)
Section Bitmask.

Lemma byte_bit b i :
  0 <= i < 8 ->
  negb (Z.land (Z.shiftr (s8 (byte_val b)) i) 1 =? 0) = Z.testbit (byte_val b) i.
Proof.
  intros Hi.
  assert (i = 0 \/ i = 1 \/ i = 2 \/ i = 3 \/ i = 4 \/ i = 5 \/ i = 6 \/ i = 7) as Hc by lia.
  destruct Hc as [->|[->|[->|[->|[->|[->|[->| ->]]]]]]]; by destruct b.
Qed.

Lemma testbit_le_decode_hd b l x :
  0 <= x < 8 -> Z.testbit (le_decode (b :: l)) x = Z.testbit (byte_val b) x.
Proof.
  intros Hx. cbn [le_decode]. rewrite <- (Z.mod_pow2_bits_low _ 8) by lia.
  change (2 ^ 8) with 256. rewrite Z.mul_comm, Z.mod_add, Z.mod_small by (try apply byte_val_range; lia).
  done.
Qed.

Lemma testbit_le_decode_tl b l x :
  8 <= x -> Z.testbit (le_decode (b :: l)) x = Z.testbit (le_decode l) (x - 8).
Proof.
  intros Hx. cbn [le_decode]. replace x with ((x - 8) + 8) at 1 by lia.
  rewrite <- Z.div_pow2_bits by lia. change (2 ^ 8) with 256.
  rewrite Z.mul_comm, Z.div_add, Z.div_small by (try apply byte_val_range; lia). done.
Qed.

Lemma bit_at_cons b data x :
  8 <= x -> bit_at (b :: data) x = bit_at data (x - 8).
Proof.
  intros Hx. unfold bit_at. rewrite !Z.shiftr_div_pow2, !(Z.land_ones _ 3) by lia.
  change (2 ^ 3) with 8.
  assert (x / 8 = (x - 8) / 8 + 1) as -> by (rewrite <- Z.div_add by lia; f_equal; lia).
  assert (x mod 8 = (x - 8) mod 8) as -> by (rewrite <- (Z.mod_add (x - 8) 1) by lia; f_equal; lia).
  pose proof (Z.div_pos (x - 8) 8).
  by replace (Z.to_nat ((x - 8) / 8 + 1)) with (S (Z.to_nat ((x - 8) / 8))) by lia.
Qed.

Lemma bit_at_testbit data x :
  0 <= x < 8 * zlen data -> bit_at data x = Some (Z.testbit (le_decode data) x).
Proof.
  revert x. induction data as [|b data IH]; intros x Hx; [unfold zlen in Hx; simpl in Hx; lia|].
  rewrite zlen_cons in Hx. destruct (Z.ltb_spec x 8).
  - rewrite testbit_le_decode_hd by lia. unfold bit_at.
    rewrite Z.shiftr_div_pow2, (Z.land_ones _ 3) by lia. change (2 ^ 3) with 8.
    rewrite Z.div_small, Z.mod_small by lia. simpl. by rewrite byte_bit by lia.
  - rewrite bit_at_cons, testbit_le_decode_tl by lia. apply IH. lia.
Qed.

Lemma mapM_fmap {A B} (f : A -> option B) g l :
  (forall x, x ∈ l -> f x = Some (g x)) -> mapM f l = Some (map g l).
Proof.
  induction l as [|x l IH]; intros H; [done|]. simpl.
  rewrite H by apply list_elem_of_here. simpl. rewrite IH; [done|].
  intros y Hy. apply H. by apply list_elem_of_further.
Qed.

Lemma get_bitmask_spec n d r k :
  0 <= n <= vector_bool_max_size -> zlen d = (n + 7) / 8 ->
  @get_bitmask rdr spec_reader n (Rdr k (d ++ r)) =
    (Val (map (fun x => Z.testbit (le_decode d) (Z.of_nat x)) (seq 0 (Z.to_nat n))),
     Rdr (k + zlen d) r).
Proof.
  unfold vector_bool_max_size. intros Hn Hd. unfold get_bitmask.
  unfold u64. rewrite Z.mod_small by lia. rewrite <- Hd.
  erewrite bind_Val by by apply spec_sr_read_app.
  unfold vector_bool_max_size. destruct (Z.ltb_spec (2 ^ 63 - 64) n); [lia|].
  erewrite mapM_fmap; [done|]. intros x Hx. apply bit_at_testbit.
  apply elem_of_seq in Hx.
  pose proof (Z.mul_div_le (n + 7) 8). pose proof (Z.mod_pos_bound (n + 7) 8).
  pose proof (Z.div_mod (n + 7) 8). lia.
Qed.
End Bitmask.

(** Reading what an endpoint wrote. *)
Section Wire.

Lemma read_command_frame seq p r t :
  0 <= seq < 256 -> zlen p < 2 ^ 31 ->
  @read_command spec_buffer net spec_socket ([], Net (frame seq p ++ r) t) =
    (Val seq, (ztake (zlen p mod 2 ^ 24) p, Net (zdrop (zlen p mod 2 ^ 24) p ++ r) t)).
Proof.
  intros Hs Hp. pose proof (zlen_nonneg p). unfold frame.
  pose proof (Z.mod_pos_bound (zlen p) (2 ^ 24) ltac:(lia)) as Hm.
  assert (le_encode 3 (zlen p) = le_encode 3 (zlen p mod 2 ^ 24)) as ->.
  { rewrite <- (le_encode_decode (le_encode 3 (zlen p))).
    by rewrite length_le_encode, le_decode_encode. }
  rewrite <- (ztake_zdrop (zlen p mod 2 ^ 24) p) at 2. rewrite <- !app_assoc.
  apply read_command_spec; [done| |lia].
  rewrite zlen_ztake by lia. pose proof (Z.mod_le (zlen p) (2 ^ 24)). lia.
Qed.

Lemma read_command_nonempty b w :
  b <> [] ->
  @read_command spec_buffer net spec_socket (b, w) = (Exn attempted_nonempty, (b, w)).
Proof.
  intros Hb. unfold read_command, bind, on_fst, focus. simpl.
  destruct (Z.eqb_spec (zlen b) 0) as [Hz|]; [|done]. by apply zlen_0 in Hz.
Qed.

Lemma read_command_short d t :
  zlen d < 4 ->
  @read_command spec_buffer net spec_socket ([], Net d t) = (Exn end_of_stream, (d, Net [] t)).
Proof.
  intros Hd. unfold read_command. erewrite bind_Val by by apply on_fst_eq.
  erewrite bind_Val by done. apply bind_Exn. simpl. unfold spec_read_to, spec_read.
  change (zlen (@nil byte)) with 0. cbn [rx]. by zcases.
Qed.
End Wire.

(** ** Properties, for every lawful buffer, connection and reader *)


Section Properties.
Context {O : BufferOps} {L : BufferLaws O}.

(** C27: a length-encoded integer survives the wire: [add_varint] appends the
    shortest encoding of any 64-bit value to the buffer, and [remove_varint] takes
    exactly those bytes off the front and answers the value. *)
Theorem varint_round_trip v b r :
  0 <= v < 2 ^ 64 ->
  delivers lib_failure eq (add_varint v) b (Val tt) (b ++ varint_bytes v) /\
  delivers lib_failure eq remove_varint (varint_bytes v ++ r) (Val v) r.
Proof.
  intros Hv. split.
  - eapply refines_delivers; [apply add_varint_refines|done|apply add_varint_spec|done].
  - eapply refines_delivers; [apply remove_varint_refines|done|by apply remove_varint_spec|done].
Qed.

(** [remove_varint] on any buffer: an empty buffer and a first byte that
    announces more bytes than there are throw "not enough data" (and the bytes
    are gone), the first bytes 0xFB and 0xFF throw their own errors, and every
    other buffer gives the value its prefix encodes. *)
Theorem remove_varint_total b :
  zlen b < 2 ^ 31 ->
  delivers lib_failure eq remove_varint b (fst (varint_parse b)) (snd (varint_parse b)).
Proof.
  intros Hb. eapply refines_delivers; [apply remove_varint_refines|done| |].
  - rewrite remove_varint_parse by done. by destruct (varint_parse b).
  - unfold varint_parse. destruct b; repeat case_match; done.
Qed.

(** [add_zeroes] appends exactly [count] zero bytes, by eights and then by
    the bits of the rest, and its loop ends. *)
Theorem add_zeroes_count count b :
  0 <= count < 2 ^ 64 ->
  delivers lib_failure eq (add_zeroes count) b (Val tt) (b ++ repeat Byte.x00 (Z.to_nat count)).
Proof.
  intros Hc. eapply refines_delivers; [apply add_zeroes_refines|done|apply add_zeroes_spec; lia|done].
Qed.

Context {W : Type} {SO : SocketOps W} {R : W -> net -> Prop} {SL : SocketLaws SO R}.

(** [write_command] sends the payload behind a four-byte header and empties
    the buffer; [read_command] on the bytes sent answers the sequence number and
    the payload modulo the 24 bits of the length field: the whole payload below
    2^24 bytes, and otherwise only a prefix, leaving the rest of the payload on
    the connection to be taken for the next header. *)
Theorem command_round_trip seq p w v w' r t :
  0 <= seq < 256 -> zlen p < 2 ^ 31 -> R w v -> R w' (Net (frame seq p ++ r) t) ->
  let n := zlen p mod 2 ^ 24 in
  delivers lib_failure (Rprod eq R) (write_command seq) (p, w) (Val tt)
    ([], Net (rx v) (tx v ++ frame seq p)) /\
  delivers lib_failure (Rprod eq R) read_command ([], w') (Val seq)
    (ztake n p, Net (zdrop n p ++ r) t) /\
  (zlen p < 2 ^ 24 -> ztake n p = p /\ zdrop n p = []).
Proof.
  intros Hs Hp Hw Hw' n. pose proof (zlen_nonneg p). split_and!.
  - eapply refines_delivers with (s' := (p, v)); [apply write_command_refines|by split| |done].
    apply write_command_spec. lia.
  - eapply refines_delivers with (s' := ([], Net (frame seq p ++ r) t));
      [apply read_command_refines|by split| |done].
    by apply read_command_frame.
  - intros Hp'. unfold n. rewrite Z.mod_small by lia. by rewrite ztake_all, zdrop_all by lia.
Qed.
End Properties.

Section ReaderProperties.
Context {Rd : Type} {O : ReaderOps Rd} {R : Rd -> rdr -> Prop} {RL : ReaderLaws O R}.

(** The two decoders of the code agree: on bytes from which
    [ProtocolBuffer::remove_varint] takes a value, [ProtocolStringReader::get_varint]
    answers the same value and advances by the same number of bytes. *)
Theorem get_varint_agrees b v rest k r :
  zlen b < 2 ^ 31 -> @remove_varint spec_buffer b = (Val v, rest) -> R r (Rdr k b) ->
  delivers no_failure R get_varint r (Val v) (Rdr (k + (zlen b - zlen rest)) rest).
Proof.
  intros Hb Hv HR. rewrite remove_varint_parse in Hv by done.
  eapply refines_delivers; [apply get_varint_refines|done| |done].
  by apply get_varint_parse.
Qed.

(** [get_bitmask] reads [(n + 7) / 8] bytes and answers [n] bits, bit [x]
    being bit [x] of the bytes taken as a little-endian integer, although the
    code shifts signed [char]s. *)
Theorem get_bitmask_testbit n d rest k r :
  0 <= n <= vector_bool_max_size -> zlen d = (n + 7) / 8 -> R r (Rdr k (d ++ rest)) ->
  delivers no_failure R (get_bitmask n) r
    (Val (map (fun x => Z.testbit (le_decode d) (Z.of_nat x)) (seq 0 (Z.to_nat n))))
    (Rdr (k + zlen d) rest).
Proof.
  intros Hn Hd HR. eapply refines_delivers; [apply get_bitmask_refines|done| |done].
  by apply get_bitmask_spec.
Qed.
End ReaderProperties.

(** ** Witnesses, over a libevent that moves two bytes at a time *)

Lemma varint_round_trip_witness :
  0 <= 70000 < 2 ^ 64 /\
  delivers lib_failure eq (@remove_varint (@libevent_buffer (chunked 2)))
    (varint_bytes 70000 ++ [Byte.x61]) (Val 70000) [Byte.x61].
Proof.
  split; [lia|].
  apply (varint_round_trip (O := @libevent_buffer (chunked 2)) 70000 [] [Byte.x61]). lia.
Defined.

Lemma remove_varint_total_witness :
  delivers lib_failure eq (@remove_varint (@libevent_buffer (chunked 2)))
    [Byte.xfc; Byte.x01] (Exn not_enough_data) [].
Proof.
  apply (remove_varint_total (O := @libevent_buffer (chunked 2)) [Byte.xfc; Byte.x01]). reflexivity.
Defined.

Lemma add_zeroes_count_witness :
  delivers lib_failure eq (@add_zeroes (@libevent_buffer (chunked 2)) 23)
    [Byte.x61] (Val tt) ([Byte.x61] ++ repeat Byte.x00 23).
Proof.
  apply (add_zeroes_count (O := @libevent_buffer (chunked 2)) 23 [Byte.x61]). lia.
Defined.

Lemma command_round_trip_witness :
  let p := str "SELECT 1" in
  delivers lib_failure (Rprod eq (fun w v => w = v))
    (@read_command (@libevent_buffer (chunked 2)) _ (@libevent_socket (chunked 2)))
    ([], Net (frame 3 p ++ [Byte.x61]) []) (Val 3) (p, Net [Byte.x61] []).
Proof.
  intros p.
  apply (command_round_trip (O := @libevent_buffer (chunked 2)) (SO := @libevent_socket (chunked 2))
    3 p (Net [] []) (Net [] []) (Net (frame 3 p ++ [Byte.x61]) []) [Byte.x61] []);
    [lia|reflexivity|done|done].
Defined.

Lemma get_varint_agrees_witness :
  @get_varint rdr spec_reader (Rdr 5 [Byte.xfc; Byte.x01; Byte.x02; Byte.x61]) =
    (Val 0x201, Rdr 8 [Byte.x61]) /\
  delivers no_failure eq (@get_varint rdr spec_reader)
    (Rdr 5 [Byte.xfc; Byte.x01; Byte.x02; Byte.x61]) (Val 0x201) (Rdr 8 [Byte.x61]).
Proof.
  split; [reflexivity|].
  apply (get_varint_agrees (O := spec_reader) [Byte.xfc; Byte.x01; Byte.x02; Byte.x61] 0x201
    [Byte.x61] 5); [reflexivity|reflexivity|done].
Defined.

Lemma get_bitmask_testbit_witness :
  delivers no_failure eq (@get_bitmask rdr spec_reader 10) (Rdr 0 [Byte.x81; Byte.x02; Byte.x61])
    (Val [true; false; false; false; false; false; false; true; false; true]) (Rdr 2 [Byte.x61]).
Proof.
  apply (get_bitmask_testbit (O := spec_reader) 10 [Byte.x81; Byte.x02] [Byte.x61] 0);
    [by vm_compute|reflexivity|done].
Defined.
