(* ===== verification/MySQLTypes.v ===== *)
(** * MySQL types (src/src/Protocols/MySQL/Types.hh, Types.cc)

    The protocol's enumerations, the cell values with their printed forms, and
    result sets. Floating-point cells are kept as the bits on the wire; their
    printed form and phosg's [escape_quotes] are parameters. *)
From stdpp Require Import tactics base list numbers strings.
From S2P Require Import Prelude Text.

(** ** Flags and commands *)

Definition CONNECT_WITH_DB : Z := 0x00000008.
Definition LONG_PASSWORD : Z := 0x00000001.
Definition FOUND_ROWS : Z := 0x00000002.
Definition LONG_FLAG : Z := 0x00000004.
Definition PROTOCOL_41 : Z := 0x00000200.
Definition TRANSACTIONS : Z := 0x00002000.
Definition SECURE_CONNECTION : Z := 0x00008000.
Definition MULTI_STATEMENTS : Z := 0x00010000.
Definition MULTI_RESULTS : Z := 0x00020000.
Definition PS_MULTI_RESULTS : Z := 0x00040000.
Definition PLUGIN_AUTH : Z := 0x00080000.
Definition PLUGIN_AUTH_LENENC_CLIENT_DATA : Z := 0x00200000.
Definition DEPRECATE_EOF : Z := 0x01000000.

Definition MORE_RESULTS_EXIST : Z := 0x0008.

Inductive Command : Type :=
| C_SLEEP | C_QUIT | C_INIT_DB | C_QUERY | C_FIELD_LIST | C_CREATE_DB | C_DROP_DB | C_REFRESH
| C_SHUTDOWN | C_STATISTICS | C_PROCESS_INFO | C_CONNECT | C_PROCESS_KILL | C_DEBUG | C_PING
| C_TIME | C_DELAYED_INSERT | C_CHANGE_USER | C_BINLOG_DUMP | C_TABLE_DUMP | C_CONNECT_OUT
| C_REGISTER_SLAVE | C_STMT_PREPARE | C_STMT_EXECUTE | C_STMT_SEND_LONG_DATA | C_STMT_CLOSE
| C_STMT_RESET | C_SET_OPTION | C_STMT_FETCH | C_DAEMON | C_BINLOG_DUMP_GTID
| C_RESET_CONNECTION.

Definition Command_val (c : Command) : Z :=
  match c with
  | C_SLEEP => 0x00 | C_QUIT => 0x01 | C_INIT_DB => 0x02 | C_QUERY => 0x03
  | C_FIELD_LIST => 0x04 | C_CREATE_DB => 0x05 | C_DROP_DB => 0x06 | C_REFRESH => 0x07
  | C_SHUTDOWN => 0x08 | C_STATISTICS => 0x09 | C_PROCESS_INFO => 0x0A | C_CONNECT => 0x0B
  | C_PROCESS_KILL => 0x0C | C_DEBUG => 0x0D | C_PING => 0x0E | C_TIME => 0x0F
  | C_DELAYED_INSERT => 0x10 | C_CHANGE_USER => 0x11 | C_BINLOG_DUMP => 0x12
  | C_TABLE_DUMP => 0x13 | C_CONNECT_OUT => 0x14 | C_REGISTER_SLAVE => 0x15
  | C_STMT_PREPARE => 0x16 | C_STMT_EXECUTE => 0x17 | C_STMT_SEND_LONG_DATA => 0x18
  | C_STMT_CLOSE => 0x19 | C_STMT_RESET => 0x1A | C_SET_OPTION => 0x1B | C_STMT_FETCH => 0x1C
  | C_DAEMON => 0x1D | C_BINLOG_DUMP_GTID => 0x1E | C_RESET_CONNECTION => 0x1F
  end.

(** ** Column types *)

Inductive ColumnType : Type :=
| T_DECIMAL | T_TINYINT | T_SMALLINT | T_INT | T_FLOAT | T_DOUBLE | T_NULL | T_TIMESTAMP
| T_BIGINT | T_MEDIUMINT | T_DATE | T_TIME | T_DATETIME | T_YEAR | T_NEWDATE | T_VARCHAR
| T_BIT | T_TIMESTAMP2 | T_DATETIME2 | T_TIME2
| T_BOOL | T_JSON | T_NEWDECIMAL | T_ENUM | T_SET | T_TINYBLOB | T_MEDIUMBLOB | T_LONGBLOB
| T_BLOB | T_VAR_STRING | T_STRING | T_GEOMETRY.

#[export] Instance ColumnType_eq_dec : EqDecision ColumnType.
Proof. solve_decision. Defined.

Definition ColumnType_val (t : ColumnType) : Z :=
  match t with
  | T_DECIMAL => 0x00 | T_TINYINT => 0x01 | T_SMALLINT => 0x02 | T_INT => 0x03
  | T_FLOAT => 0x04 | T_DOUBLE => 0x05 | T_NULL => 0x06 | T_TIMESTAMP => 0x07
  | T_BIGINT => 0x08 | T_MEDIUMINT => 0x09 | T_DATE => 0x0A | T_TIME => 0x0B
  | T_DATETIME => 0x0C | T_YEAR => 0x0D | T_NEWDATE => 0x0E | T_VARCHAR => 0x0F
  | T_BIT => 0x10 | T_TIMESTAMP2 => 0x11 | T_DATETIME2 => 0x12 | T_TIME2 => 0x13
  | T_BOOL => 0xF4 | T_JSON => 0xF5 | T_NEWDECIMAL => 0xF6 | T_ENUM => 0xF7 | T_SET => 0xF8
  | T_TINYBLOB => 0xF9 | T_MEDIUMBLOB => 0xFA | T_LONGBLOB => 0xFB | T_BLOB => 0xFC
  | T_VAR_STRING => 0xFD | T_STRING => 0xFE | T_GEOMETRY => 0xFF
  end.

Definition all_column_types : list ColumnType :=
  [T_DECIMAL; T_TINYINT; T_SMALLINT; T_INT; T_FLOAT; T_DOUBLE; T_NULL; T_TIMESTAMP;
   T_BIGINT; T_MEDIUMINT; T_DATE; T_TIME; T_DATETIME; T_YEAR; T_NEWDATE; T_VARCHAR;
   T_BIT; T_TIMESTAMP2; T_DATETIME2; T_TIME2;
   T_BOOL; T_JSON; T_NEWDECIMAL; T_ENUM; T_SET; T_TINYBLOB; T_MEDIUMBLOB; T_LONGBLOB;
   T_BLOB; T_VAR_STRING; T_STRING; T_GEOMETRY].

(** The enumerator a [switch] on a byte selects, if any. *)
Definition ColumnType_of (z : Z) : option ColumnType :=
  find (fun t => ColumnType_val t =? z) all_column_types.

Definition low_types : list string :=
  ["T_DECIMAL"; "T_TINYINT"; "T_SMALLINT"; "T_INT"; "T_FLOAT"; "T_DOUBLE"; "T_NULL";
   "T_TIMESTAMP"; "T_BIGINT"; "T_MEDIUMINT"; "T_DATE"; "T_TIME"; "T_DATETIME"; "T_YEAR";
   "T_NEWDATE"; "T_VARCHAR"; "T_BIT"; "T_TIMESTAMP2"; "T_DATETIME2"; "T_TIME2"]%string.
Definition high_types : list string :=
  ["T_BOOL"; "T_JSON"; "T_NEWDECIMAL"; "T_ENUM"; "T_SET"; "T_TINYBLOB"; "T_MEDIUMBLOB";
   "T_LONGBLOB"; "T_BLOB"; "T_VAR_STRING"; "T_STRING"; "T_GEOMETRY"]%string.

(** [at] throws past the end, and the handler rethrows with the type in hex. *)
Definition name_for_column_type (type : Z) : out bytes :=
  match (if 0xF4 <=? type then high_types !! Z.to_nat (type - 0xF4)
         else low_types !! Z.to_nat type) with
  | Some s => Val (str s)
  | None => Exn (runtime_error (hex0 2 type))
  end.

(** ** Dates and times *)

Record DateTimeValue := mkDateTime {
  dt_years : Z; dt_months : Z; dt_days : Z; dt_hours : Z; dt_minutes : Z; dt_seconds : Z;
  dt_usecs : Z
}.
Record TimeValue := mkTime {
  tv_is_negative : bool; tv_hours : Z; tv_minutes : Z; tv_seconds : Z; tv_usecs : Z
}.

(** The loop that scales [usecs] by the digits that are missing; [uint32_t]
    arithmetic wraps. *)
Fixpoint scale10 (n : nat) (usecs : Z) : Z :=
  match n with
  | O => usecs
  | S n => scale10 n (u32 (usecs * 10))
  end.

Definition datetime_format : list directive :=
  [UInt 16; Lit Byte.x2d; UInt 8; Lit Byte.x2d; UInt 8; Space; UInt 8; Lit Byte.x3a; UInt 8;
   Lit Byte.x3a; UInt 8; Lit Byte.x2e; UInt 32].

Definition DateTimeValue_parse (s : bytes) : out DateTimeValue :=
  match sscanf datetime_format (c_str s) with
  | Val vs =>
      let field i := nth i vs 0 in
      Val (mkDateTime (field 0%nat) (field 1%nat) (field 2%nat) (field 3%nat) (field 4%nat)
             (field 5%nat) (scale10 (26 - length s) (field 6%nat)))
  | Exn e => Exn e
  | Undef => Undef
  | NoFuel => NoFuel
  end.

Definition DateTimeValue_str (v : DateTimeValue) : bytes :=
  dec0 4 (dt_years v) ++ Byte.x2d :: dec0 2 (dt_months v) ++ Byte.x2d :: dec0 2 (dt_days v) ++
  Byte.x20 :: dec0 2 (dt_hours v) ++ Byte.x3a :: dec0 2 (dt_minutes v) ++
  Byte.x3a :: dec0 2 (dt_seconds v) ++ Byte.x2e :: dec0 6 (dt_usecs v).

Definition time_format : list directive :=
  [UInt 32; Lit Byte.x3a; UInt 8; Lit Byte.x3a; UInt 8; Lit Byte.x2e; UInt 32].

(** [str.find(c)]: what follows the first [c]. *)
Fixpoint after (c : byte) (s : bytes) : option bytes :=
  match s with
  | [] => None
  | b :: s => if decide (b = c) then Some s else after c s
  end.

(** The fraction is scanned again behind the first dot and scaled to six digits. *)
Definition TimeValue_parse (s : bytes) : out TimeValue :=
  let neg := match s with b :: _ => bool_decide (b = Byte.x2d) | [] => false end in
  match sscanf time_format (c_str (if neg then tail s else s)) with
  | Val vs =>
      let field i := nth i vs 0 in
      let res usecs := Val (mkTime neg (field 0%nat) (field 1%nat) (field 2%nat) usecs) in
      match after Byte.x2e s with
      | None => res (field 3%nat)
      | Some frac =>
          match sscanf [UInt 32] (c_str frac) with
          | Val us => res (scale10 (6 - length frac) (nth 0 us (field 3%nat)))
          | Exn e => Exn e
          | Undef => Undef
          | NoFuel => NoFuel
          end
      end
  | Exn e => Exn e
  | Undef => Undef
  | NoFuel => NoFuel
  end.

Definition TimeValue_str (v : TimeValue) : bytes :=
  (if tv_is_negative v then [Byte.x2d] else []) ++
  dec0 2 (tv_hours v) ++ Byte.x3a :: dec0 2 (tv_minutes v) ++ Byte.x3a :: dec0 2 (tv_seconds v) ++
  Byte.x2e :: dec0 6 (tv_usecs v).

(** ** Values and result sets *)

(** [VFloat] and [VDouble] hold the IEEE bits. *)
Inductive Value : Type :=
| VUint (v : Z)
| VInt (v : Z)
| VFloat (bits : Z)
| VDouble (bits : Z)
| VNull
| VDateTime (v : DateTimeValue)
| VTime (v : TimeValue)
| VString (s : bytes).

Record ColumnDefinition := mkColumn {
  cd_catalog_name : bytes; cd_database_name : bytes; cd_table_name : bytes;
  cd_original_table_name : bytes; cd_column_name : bytes; cd_original_column_name : bytes;
  cd_charset : Z; cd_max_value_length : Z; cd_type : Z; cd_flags : Z; cd_decimals : Z
}.

(** A row as a dictionary is an association list in the order of the map's
    iteration; [RowVecs] and [RowDicts] are the alternatives of the variant. *)
Inductive ResultRows : Type :=
| RowVecs (rows : list (list Value))
| RowDicts (rows : list (list (bytes * Value))).

Record ResultSet := mkResultSet {
  rs_columns : list ColumnDefinition;
  rs_rows : ResultRows;
  rs_affected_rows : Z;
  rs_insert_id : Z;
  rs_status_flags : Z;
  rs_warning_count : Z
}.

Definition rows_vecs (rs : ResultSet) : out (list (list Value)) :=
  match rs_rows rs with RowVecs v => Val v | RowDicts _ => Exn bad_variant_access end.
Definition rows_dicts (rs : ResultSet) : out (list (list (bytes * Value))) :=
  match rs_rows rs with RowDicts v => Val v | RowVecs _ => Exn bad_variant_access end.

Section Print.
Context (fmt_g fmt_lg : Z -> bytes) (escape_quotes : bytes -> bytes).

(** The ["%s"] conversions print a [c_str()]. *)
Definition format_cell_value (cell : Value) : bytes :=
  match cell with
  | VUint v => str "(uint64) " ++ dec v
  | VInt v => str "(int64) " ++ dec_signed v
  | VFloat b => str "(float) " ++ fmt_g b
  | VDouble b => str "(double) " ++ fmt_lg b
  | VNull => str "(null)"
  | VDateTime v => str "(datetime) " ++ c_str (DateTimeValue_str v)
  | VTime v => str "(time) " ++ c_str (TimeValue_str v)
  | VString s => str "(string) " ++ Byte.x22 :: c_str (escape_quotes s) ++ [Byte.x22]
  end.

Definition newline : bytes := [Byte.x0a].

(** The names of a column in [ResultSet::print]. *)
Definition print_column_name (c : ColumnDefinition) : bytes :=
  if decide (cd_table_name c = []) then cd_column_name c
  else
    let name := cd_table_name c ++ str "." ++ cd_column_name c in
    if decide (cd_database_name c = []) then name
    else cd_database_name c ++ str "." ++ name.

Definition print_from_str (c : ColumnDefinition) : bytes :=
  if decide (cd_original_column_name c <> [] /\ cd_original_table_name c <> []) then
    str "from " ++ cd_original_table_name c ++ str "." ++ cd_original_column_name c ++ str "; "
  else if decide (cd_original_table_name c <> []) then
    str "from " ++ cd_original_table_name c ++ str "." ++ cd_column_name c ++ str "; "
  else if decide (cd_original_column_name c <> []) then
    str "from " ++ cd_original_column_name c ++ str "; "
  else [].

Definition print_column (c : ColumnDefinition) : bytes :=
  str "    " ++ c_str (print_column_name c) ++ str " (" ++ c_str (print_from_str c) ++
  str "charset 0x" ++ hex0 4 (cd_charset c) ++ str "; type " ++ hex0 2 (u8 (cd_type c)) ++
  str "; flags " ++ hex0 4 (cd_flags c) ++ str ")" ++ newline.

(** The cells of a row against the columns; [row.at(i)] throws when the row is
    too short. What was printed before stays printed. *)
Fixpoint print_cells (cols : list ColumnDefinition) (row : list Value) : ST bytes unit :=
  match cols with
  | [] => ret tt
  | c :: cols =>
      match row with
      | [] => throw (out_of_range [])
      | cell :: row =>
          modify (fun o => o ++ str "    " ++ c_str (cd_column_name c) ++ str " = " ++
                           c_str (format_cell_value cell) ++ newline) ;;;
          print_cells cols row
      end
  end.

Fixpoint print_rows (cols : list ColumnDefinition) (rows : list (list Value)) : ST bytes unit :=
  match rows with
  | [] => ret tt
  | row :: rows =>
      modify (fun o => o ++ str "  Row (vector):" ++ newline) ;;;
      print_cells cols row ;;;
      print_rows cols rows
  end.

Definition print_dict (row : list (bytes * Value)) : bytes :=
  str "  Row (dict):" ++ newline ++
  concat (map (fun '(k, v) => str "    " ++ c_str k ++ str " = " ++
                              c_str (format_cell_value v) ++ newline) row).

(** [ResultSet::print]: the state is what the stream has received. *)
Definition ResultSet_print (rs : ResultSet) : ST bytes unit :=
  modify (fun o => o ++
    str "ResultSet:" ++ newline ++ str "  Metadata:" ++ newline ++
    str "    affected_rows: " ++ dec (rs_affected_rows rs) ++ newline ++
    str "    insert_id: " ++ dec (rs_insert_id rs) ++ newline ++
    str "    status_flags: 0x" ++ hex0 4 (rs_status_flags rs) ++ newline ++
    str "    warning_count: " ++ dec (rs_warning_count rs) ++ newline ++
    str "  Columns:" ++ newline ++ concat (map print_column (rs_columns rs))) ;;;
  match rs_rows rs with
  | RowDicts rows => modify (fun o => o ++ concat (map print_dict rows))
  | RowVecs rows => print_rows (rs_columns rs) rows
  end.
End Print.

(** ** Printed dates and times scan back *)

Lemma after_app c l r : c ∉ l -> after c (l ++ c :: r) = Some r.
Proof.
  induction l as [|b l IH]; intros Hn; cbn [app after].
  - by rewrite decide_True.
  - apply not_elem_of_cons in Hn as [? ?]. rewrite decide_False by done. by apply IH.
Qed.

(** The fields at their widths. *)
Definition datetime_wf (v : DateTimeValue) : Prop :=
  0 <= dt_years v < 2 ^ 16 /\ 0 <= dt_months v < 2 ^ 8 /\ 0 <= dt_days v < 2 ^ 8 /\
  0 <= dt_hours v < 2 ^ 8 /\ 0 <= dt_minutes v < 2 ^ 8 /\ 0 <= dt_seconds v < 2 ^ 8 /\
  0 <= dt_usecs v < 2 ^ 32.
Definition time_wf (v : TimeValue) : Prop :=
  0 <= tv_hours v < 2 ^ 32 /\ 0 <= tv_minutes v < 2 ^ 8 /\ 0 <= tv_seconds v < 2 ^ 8 /\
  0 <= tv_usecs v < 2 ^ 32.

(** The text of a date with the fraction [f] printed in [k] digits. *)
Definition datetime_text (v : DateTimeValue) (k : nat) (f : Z) : bytes :=
  dec0 4 (dt_years v) ++ Byte.x2d :: dec0 2 (dt_months v) ++ Byte.x2d :: dec0 2 (dt_days v) ++
  Byte.x20 :: dec0 2 (dt_hours v) ++ Byte.x3a :: dec0 2 (dt_minutes v) ++
  Byte.x3a :: dec0 2 (dt_seconds v) ++ Byte.x2e :: dec0 k f.

Lemma not_in_cons_app {b c : byte} {l r} : b ∉ l -> b <> c -> b ∉ r -> b ∉ l ++ c :: r.
Proof. rewrite elem_of_app, elem_of_cons. tauto. Qed.

Lemma datetime_text_no_nul v k f : datetime_wf v -> 0 <= f -> Byte.x00 ∉ datetime_text v k f.
Proof.
  intros (? & ? & ? & ? & ? & ? & ?) ?. unfold datetime_text.
  repeat (apply not_in_cons_app; [apply dec0_not_in; [lia|done]|done|]). by apply dec0_not_in.
Qed.

Lemma datetime_text_scan v k f :
  datetime_wf v -> 0 <= f < 2 ^ 32 ->
  sscanf datetime_format (datetime_text v k f) =
    Val [dt_years v; dt_months v; dt_days v; dt_hours v; dt_minutes v; dt_seconds v; f].
Proof.
  intros (? & ? & ? & ? & ? & ? & ?) Hf. unfold datetime_format, datetime_text.
  do 2 (apply sscanf_UInt; [done|done|]; rewrite sscanf_Lit).
  apply sscanf_UInt; [done|done|]. rewrite sscanf_Space by lia.
  do 3 (apply sscanf_UInt; [done|done|]; rewrite sscanf_Lit).
  rewrite <- (app_nil_r (dec0 k f)). by apply sscanf_UInt.
Qed.

Lemma length_datetime_text v k f : (20 + k <= length (datetime_text v k f))%nat.
Proof.
  unfold datetime_text. repeat (rewrite length_app; cbn [length]).
  pose proof (length_dec0 4 (dt_years v)). pose proof (length_dec0 2 (dt_months v)).
  pose proof (length_dec0 2 (dt_days v)). pose proof (length_dec0 2 (dt_hours v)).
  pose proof (length_dec0 2 (dt_minutes v)). pose proof (length_dec0 2 (dt_seconds v)).
  pose proof (length_dec0 k f). lia.
Qed.

Lemma scale10_spec n f : 0 <= f -> f * 10 ^ Z.of_nat n < 2 ^ 32 -> scale10 n f = f * 10 ^ Z.of_nat n.
Proof.
  revert f. induction n as [|n IH]; intros f Hf Hb; cbn [scale10]; [lia|].
  rewrite Nat2Z.inj_succ, Z.pow_succ_r in * by lia.
  assert (1 <= 10 ^ Z.of_nat n) by (pose proof (Z.pow_pos_nonneg 10 (Z.of_nat n)); lia).
  assert (u32 (f * 10) = f * 10) as -> by (unfold u32; apply Z.mod_small; nia).
  rewrite IH by nia. lia.
Qed.

Lemma time_scan v r :
  time_wf v -> starts_digit r = false -> r = [] ->
  sscanf time_format (dec0 2 (tv_hours v) ++ Byte.x3a :: dec0 2 (tv_minutes v) ++ Byte.x3a ::
    dec0 2 (tv_seconds v) ++ Byte.x2e :: dec0 6 (tv_usecs v) ++ r) =
    Val [tv_hours v; tv_minutes v; tv_seconds v; tv_usecs v].
Proof.
  intros (? & ? & ? & ?) Hr ->. unfold time_format.
  do 3 (apply sscanf_UInt; [done|done|]; rewrite sscanf_Lit). by apply sscanf_UInt.
Qed.

Lemma datetime_parse_text v k f :
  datetime_wf v -> 0 <= f < 2 ^ 32 ->
  DateTimeValue_parse (datetime_text v k f) =
    Val (mkDateTime (dt_years v) (dt_months v) (dt_days v) (dt_hours v) (dt_minutes v)
      (dt_seconds v) (scale10 (26 - length (datetime_text v k f)) f)).
Proof.
  intros Hv Hf. unfold DateTimeValue_parse.
  rewrite c_str_no_nul by (apply datetime_text_no_nul; [done|lia]).
  by rewrite datetime_text_scan.
Qed.

(** ** Properties *)

(** The text [DateTimeValue::str] prints is read back by the constructor as
    the same value, whatever the seven fields hold within their widths (a year
    above 9999 or microseconds above 999999 print more digits, and are still
    read back). *)
Theorem DateTimeValue_round_trip v :
  datetime_wf v -> DateTimeValue_parse (DateTimeValue_str v) = Val v.
Proof.
  intros Hv. change (DateTimeValue_str v) with (datetime_text v 6 (dt_usecs v)).
  rewrite datetime_parse_text by (try done; apply Hv).
  pose proof (length_datetime_text v 6 (dt_usecs v)).
  replace (26 - length _)%nat with 0%nat by lia. by destruct v.
Qed.

(** A date whose fraction has [k] digits, one to six, is read with the
    fraction scaled to microseconds: the digits that are missing are made up for
    by as many factors of ten. *)
Theorem DateTimeValue_fraction v k f :
  datetime_wf v -> dt_years v < 10000 -> dt_months v < 100 -> dt_days v < 100 ->
  dt_hours v < 100 -> dt_minutes v < 100 -> dt_seconds v < 100 ->
  (1 <= k <= 6)%nat -> 0 <= f < 10 ^ Z.of_nat k ->
  DateTimeValue_parse (datetime_text v k f) =
    Val (mkDateTime (dt_years v) (dt_months v) (dt_days v) (dt_hours v) (dt_minutes v)
      (dt_seconds v) (f * 10 ^ (6 - Z.of_nat k))).
Proof.
  intros Hv Hy Hmo Hd Hh Hmi Hs Hk Hf.
  assert (10 ^ Z.of_nat k * 10 ^ (6 - Z.of_nat k) = 1000000) as Hp.
  { rewrite <- Z.pow_add_r by lia. by replace (_ + _) with 6 by lia. }
  pose proof (Z.pow_pos_nonneg 10 (6 - Z.of_nat k) ltac:(lia) ltac:(lia)).
  rewrite datetime_parse_text by (done || nia).
  assert (length (datetime_text v k f) = 20 + k)%nat as ->.
  { destruct Hv as (? & ? & ? & ? & ? & ? & ?).
    unfold datetime_text. repeat (rewrite length_app; cbn [length]).
    rewrite (length_dec0_eq 4), !(length_dec0_eq 2), (length_dec0_eq k) by (done || lia). lia. }
  rewrite scale10_spec; replace (Z.of_nat (26 - (20 + k))) with (6 - Z.of_nat k) by lia;
    [done|lia|nia].
Qed.

(** The text [TimeValue::str] prints is read back by the constructor as the
    same value, sign included, whatever the fields hold within their widths. *)
Theorem TimeValue_round_trip v : time_wf v -> TimeValue_parse (TimeValue_str v) = Val v.
Proof.
  intros Hv. pose proof Hv as (? & ? & ? & ?). unfold TimeValue_parse, TimeValue_str.
  set (body := dec0 2 (tv_hours v) ++ _).
  assert (Byte.x00 ∉ body) as Hnul.
  { subst body. repeat (apply not_in_cons_app; [apply dec0_not_in; [lia|done]|done|]).
    by apply dec0_not_in; [lia|]. }
  assert (sscanf time_format body = Val [tv_hours v; tv_minutes v; tv_seconds v; tv_usecs v]) as Hsc.
  { subst body. rewrite <- (app_nil_r (dec0 6 _)). by apply time_scan. }
  assert (after Byte.x2e body = Some (dec0 6 (tv_usecs v))) as Haf.
  { subst body. 
    replace (dec0 2 (tv_hours v) ++ _) with ((dec0 2 (tv_hours v) ++ Byte.x3a ::
      dec0 2 (tv_minutes v) ++ Byte.x3a :: dec0 2 (tv_seconds v)) ++ Byte.x2e :: dec0 6 (tv_usecs v))
      by (by rewrite <- !app_assoc; cbn [app]; rewrite <- app_assoc).
    apply after_app.
    repeat (apply not_in_cons_app; [apply dec0_not_in; [lia|done]|done|]).
    by apply dec0_not_in; [lia|]. }
  assert (exists d l, body = digit d :: l /\ 0 <= d < 10) as (d & l & Hb & Hd).
  { subst body. destruct (dec0_head 2 (tv_hours v)) as (d & l & -> & ?); [lia|]. cbn [app]. eauto. }
  assert (bool_decide (digit d = Byte.x2d) = false) as Hneg.
  { apply bool_decide_eq_false. intros Heq. pose proof (is_digit_digit d Hd) as Hi.
    by rewrite Heq in Hi. }
  assert (sscanf [UInt 32] (c_str (dec0 6 (tv_usecs v))) = Val [tv_usecs v]) as Hus.
  { rewrite c_str_no_nul by (by apply dec0_not_in; [lia|]).
    rewrite <- (app_nil_r (dec0 6 _)). by apply sscanf_UInt. }
  pose proof (length_dec0 6 (tv_usecs v)) as Hlen.
  destruct (tv_is_negative v) eqn:Hn; cbn [app].
  - rewrite bool_decide_eq_true_2 by done. cbn [tail].
    rewrite c_str_no_nul, Hsc by done. cbn [after]. rewrite decide_False by done.
    rewrite Haf, Hus. replace (6 - _)%nat with 0%nat by lia. destruct v. by simpl in *; subst.
  - rewrite Hb, Hneg, <- Hb, c_str_no_nul, Hsc, Haf, Hus by done.
    replace (6 - _)%nat with 0%nat by lia. destruct v. by simpl in *; subst.
Qed.

(** The name of an enumerator. *)
Definition ColumnType_name (t : ColumnType) : string :=
  match t with
  | T_DECIMAL => "T_DECIMAL" | T_TINYINT => "T_TINYINT" | T_SMALLINT => "T_SMALLINT"
  | T_INT => "T_INT" | T_FLOAT => "T_FLOAT" | T_DOUBLE => "T_DOUBLE" | T_NULL => "T_NULL"
  | T_TIMESTAMP => "T_TIMESTAMP" | T_BIGINT => "T_BIGINT" | T_MEDIUMINT => "T_MEDIUMINT"
  | T_DATE => "T_DATE" | T_TIME => "T_TIME" | T_DATETIME => "T_DATETIME" | T_YEAR => "T_YEAR"
  | T_NEWDATE => "T_NEWDATE" | T_VARCHAR => "T_VARCHAR" | T_BIT => "T_BIT"
  | T_TIMESTAMP2 => "T_TIMESTAMP2" | T_DATETIME2 => "T_DATETIME2" | T_TIME2 => "T_TIME2"
  | T_BOOL => "T_BOOL" | T_JSON => "T_JSON" | T_NEWDECIMAL => "T_NEWDECIMAL"
  | T_ENUM => "T_ENUM" | T_SET => "T_SET" | T_TINYBLOB => "T_TINYBLOB"
  | T_MEDIUMBLOB => "T_MEDIUMBLOB" | T_LONGBLOB => "T_LONGBLOB" | T_BLOB => "T_BLOB"
  | T_VAR_STRING => "T_VAR_STRING" | T_STRING => "T_STRING" | T_GEOMETRY => "T_GEOMETRY"
  end.

Lemma ColumnType_of_val t : ColumnType_of (ColumnType_val t) = Some t.
Proof. by destruct t. Qed.

Lemma ColumnType_of_Some z t : ColumnType_of z = Some t -> ColumnType_val t = z.
Proof. unfold ColumnType_of. intros H. apply find_some in H as [_ H]. lia. Qed.

(** The two name tables cover exactly the enumeration: a type byte that is an
    enumerator's value gets that enumerator's name, and every other byte throws
    its hexadecimal form. *)
Theorem name_for_column_type_exact (b : byte) :
  name_for_column_type (byte_val b) =
    match ColumnType_of (byte_val b) with
    | Some t => Val (str (ColumnType_name t))
    | None => Exn (runtime_error (hex0 2 (byte_val b)))
    end.
Proof. by destruct b. Qed.

Lemma DateTimeValue_round_trip_witness :
  let v := mkDateTime 2021 3 14 15 9 26 535897 in
  DateTimeValue_str v = str "2021-03-14 15:09:26.535897" /\
  DateTimeValue_parse (DateTimeValue_str v) = Val v.
Proof.
  split; [reflexivity|]. apply DateTimeValue_round_trip.
  repeat split; reflexivity || discriminate.
Defined.

Lemma DateTimeValue_fraction_witness :
  let v := mkDateTime 2021 3 14 15 9 26 0 in
  datetime_text v 2 53 = str "2021-03-14 15:09:26.53" /\
  DateTimeValue_parse (datetime_text v 2 53) = Val (mkDateTime 2021 3 14 15 9 26 530000).
Proof.
  split; [reflexivity|]. apply (DateTimeValue_fraction (mkDateTime 2021 3 14 15 9 26 0) 2 53);
    try reflexivity; [repeat split; reflexivity || discriminate|lia|lia].
Defined.

Lemma TimeValue_round_trip_witness :
  let v := mkTime true 838 59 58 7 in
  TimeValue_str v = str "-838:59:58.000007" /\ TimeValue_parse (TimeValue_str v) = Val v.
Proof.
  split; [reflexivity|]. apply TimeValue_round_trip. repeat split; reflexivity || discriminate.
Defined.
