(* ===== verification/Binlog.v ===== *)
(** * The binlog parser (src/src/Protocols/MySQL/BinlogProcessor.hh, .cc)

    Cells, rows and events. The reader of a parse is a local variable in front of
    the processor's state, so the state of a parsing function is the pair of both.
    The map from table ids to table descriptions is a [gmap]. *)
From stdpp Require Import tactics base list numbers strings gmap.
From S2P Require Import Prelude BufferApi StringReader ProtocolBuffer Text MySQLTypes.

(** ** Data *)

Inductive BinlogEventType : Type :=
| UNKNOWN_EVENT | START_EVENT_V3 | QUERY_EVENT | STOP_EVENT | ROTATE_EVENT | INTVAR_EVENT
| LOAD_EVENT | SLAVE_EVENT | CREATE_FILE_EVENT | APPEND_BLOCK_EVENT | EXEC_LOAD_EVENT
| DELETE_FILE_EVENT | NEW_LOAD_EVENT | RAND_EVENT | USER_VAR_EVENT | FORMAT_DESCRIPTION_EVENT
| XID_EVENT | BEGIN_LOAD_QUERY_EVENT | EXECUTE_LOAD_QUERY_EVENT | TABLE_MAP_EVENT
| WRITE_ROWS_EVENTv0 | UPDATE_ROWS_EVENTv0 | DELETE_ROWS_EVENTv0 | WRITE_ROWS_EVENTv1
| UPDATE_ROWS_EVENTv1 | DELETE_ROWS_EVENTv1 | INCIDENT_EVENT | HEARTBEAT_EVENT
| IGNORABLE_EVENT | ROWS_QUERY_EVENT | WRITE_ROWS_EVENTv2 | UPDATE_ROWS_EVENTv2
| DELETE_ROWS_EVENTv2 | GTID_EVENT | ANONYMOUS_GTID_EVENT | PREVIOUS_GTIDS_EVENT
| TRANSACTION_CONTEXT_EVENT | VIEW_CHANGE_EVENT | XA_PREPARE_LOG_EVENT
| PARTIAL_UPDATE_ROWS_EVENT | TRANSACTION_PAYLOAD_EVENT.

#[export] Instance BinlogEventType_eq_dec : EqDecision BinlogEventType.
Proof. solve_decision. Defined.

(** The enumerators in order; each one's value is its index. *)
Definition all_event_types : list BinlogEventType :=
  [UNKNOWN_EVENT; START_EVENT_V3; QUERY_EVENT; STOP_EVENT; ROTATE_EVENT; INTVAR_EVENT;
   LOAD_EVENT; SLAVE_EVENT; CREATE_FILE_EVENT; APPEND_BLOCK_EVENT; EXEC_LOAD_EVENT;
   DELETE_FILE_EVENT; NEW_LOAD_EVENT; RAND_EVENT; USER_VAR_EVENT; FORMAT_DESCRIPTION_EVENT;
   XID_EVENT; BEGIN_LOAD_QUERY_EVENT; EXECUTE_LOAD_QUERY_EVENT; TABLE_MAP_EVENT;
   WRITE_ROWS_EVENTv0; UPDATE_ROWS_EVENTv0; DELETE_ROWS_EVENTv0; WRITE_ROWS_EVENTv1;
   UPDATE_ROWS_EVENTv1; DELETE_ROWS_EVENTv1; INCIDENT_EVENT; HEARTBEAT_EVENT;
   IGNORABLE_EVENT; ROWS_QUERY_EVENT; WRITE_ROWS_EVENTv2; UPDATE_ROWS_EVENTv2;
   DELETE_ROWS_EVENTv2; GTID_EVENT; ANONYMOUS_GTID_EVENT; PREVIOUS_GTIDS_EVENT;
   TRANSACTION_CONTEXT_EVENT; VIEW_CHANGE_EVENT; XA_PREPARE_LOG_EVENT;
   PARTIAL_UPDATE_ROWS_EVENT; TRANSACTION_PAYLOAD_EVENT].

(** The enumerator a byte compares equal to, if any. *)
Definition event_type_of (z : Z) : option BinlogEventType := all_event_types !! Z.to_nat z.

Definition event_names : list string :=
  ["UNKNOWN_EVENT"; "START_EVENT_V3"; "QUERY_EVENT"; "STOP_EVENT"; "ROTATE_EVENT";
   "INTVAR_EVENT"; "LOAD_EVENT"; "SLAVE_EVENT"; "CREATE_FILE_EVENT"; "APPEND_BLOCK_EVENT";
   "EXEC_LOAD_EVENT"; "DELETE_FILE_EVENT"; "NEW_LOAD_EVENT"; "RAND_EVENT"; "USER_VAR_EVENT";
   "FORMAT_DESCRIPTION_EVENT"; "XID_EVENT"; "BEGIN_LOAD_QUERY_EVENT";
   "EXECUTE_LOAD_QUERY_EVENT"; "TABLE_MAP_EVENT"; "WRITE_ROWS_EVENTv0";
   "UPDATE_ROWS_EVENTv0"; "DELETE_ROWS_EVENTv0"; "WRITE_ROWS_EVENTv1";
   "UPDATE_ROWS_EVENTv1"; "DELETE_ROWS_EVENTv1"; "INCIDENT_EVENT"; "HEARTBEAT_EVENT";
   "IGNORABLE_EVENT"; "ROWS_QUERY_EVENT"; "WRITE_ROWS_EVENTv2"; "UPDATE_ROWS_EVENTv2";
   "DELETE_ROWS_EVENTv2"; "GTID_EVENT"; "ANONYMOUS_GTID_EVENT"; "PREVIOUS_GTIDS_EVENT";
   "TRANSACTION_CONTEXT_EVENT"; "VIEW_CHANGE_EVENT"; "XA_PREPARE_LOG_EVENT";
   "PARTIAL_UPDATE_ROWS_EVENT"; "TRANSACTION_PAYLOAD_EVENT"]%string.

Definition name_for_binlog_event_type (type : Z) : bytes :=
  match event_names !! Z.to_nat type with
  | Some s => str s
  | None => str "<INVALID_EVENT_TYPE>"
  end.

Record ColumnInfo := mkColumnInfo { ci_type : Z; ci_type_meta : bytes; ci_nullable : bool }.

Record BinlogTableInfo := mkTableInfo {
  ti_database_name : bytes; ti_table_name : bytes; ti_columns : list ColumnInfo
}.

Record BinlogEventHeader := mkHeader {
  eh_timestamp : Z; eh_type : Z; eh_server_id : Z; eh_length : Z; eh_end_position : Z; eh_flags : Z
}.

(** [ti] is the pointer, which may be null. *)
Record BinlogTableMapEvent := mkTableMapEvent {
  tme_header : BinlogEventHeader; tme_table_id : Z; tme_flags : Z; tme_ti : option BinlogTableInfo
}.

Inductive WriteType : Type := INSERT | UPDATE | DELETE.

(** [emplace_back()] makes one with zero counts. *)
Record RowChange := mkRowChange {
  rc_pre_bytes : Z; rc_post_bytes : Z; rc_pre : list Value; rc_post : list Value
}.

Record BinlogRowsEvent := mkRowsEvent {
  re_header : BinlogEventHeader; re_write_type : WriteType; re_table_id : Z;
  re_ti : BinlogTableInfo; re_flags : Z; re_extra_data : bytes; re_rows : list RowChange
}.

Record BinlogQueryEvent := mkQueryEvent {
  qe_header : BinlogEventHeader; qe_conn_id : Z; qe_exec_time_secs : Z; qe_database_name : bytes;
  qe_error_code : Z; qe_status_vars : bytes; qe_query : bytes
}.
Record BinlogRotateEvent := mkRotateEvent {
  roe_header : BinlogEventHeader; roe_next_filename : bytes; roe_next_position : Z
}.
Record BinlogXidEvent := mkXidEvent { xe_header : BinlogEventHeader; xe_xid : Z }.
Record BinlogFormatDescriptionEvent := mkFormatEvent {
  fe_header : BinlogEventHeader; fe_version : Z; fe_server_version : bytes; fe_timestamp : Z;
  fe_header_length : Z; fe_event_header_lengths : bytes
}.

(** The fields of [BinlogProcessor]. *)
Record BinlogProcessor := mkProcessor {
  bp_filename : bytes; bp_position : Z; bp_table_map : gmap Z BinlogTableInfo
}.

Definition BinlogProcessor_new : BinlogProcessor :=
  mkProcessor (str "<missing-filename>") 4 ∅.

Definition set_position (p : Z) (b : BinlogProcessor) : BinlogProcessor :=
  mkProcessor (bp_filename b) p (bp_table_map b).

(** ** Errors *)

Definition invalid_options : bytes := str "invalid type options".
Definition bad_column_type : exn := runtime_error (str "unimplemented or invalid column type").
Definition bad_precision : exn := runtime_error (str "invalid time-like precision specifier").
Definition bad_meta_length : exn := runtime_error (str "invalid blob-type meta-length").
Definition bad_null : exn := runtime_error (str "found null value in non-nullable column").
Definition header_too_small : exn := runtime_error (str "binlog event too small for header").
(** What [unordered_map::at] throws is up to the library. *)
Definition map_at_miss : exn := out_of_range (str "_Map_base::at").

(** ** Headers *)

Definition BinlogEventHeader_size : Z := 19.

(** The packed struct at the start of [d]. *)
Definition decode_header (d : bytes) : BinlogEventHeader :=
  let field o n := le_decode (ztake n (zdrop o d)) in
  mkHeader (field 0 4) (field 4 1) (field 5 4) (field 9 4) (field 13 4) (field 17 2).

Definition encode_header (h : BinlogEventHeader) : bytes :=
  le_encode 4 (eh_timestamp h) ++ le_encode 1 (eh_type h) ++ le_encode 4 (eh_server_id h) ++
  le_encode 4 (eh_length h) ++ le_encode 4 (eh_end_position h) ++ le_encode 2 (eh_flags h).

Definition get_event_header (data : bytes) : out BinlogEventHeader :=
  if zlen data <? BinlogEventHeader_size then Exn header_too_small else Val (decode_header data).

(** ** Cells *)

Section Cells.
Context {Rd : Type} {O : ReaderOps Rd}.

Definition read_datetime_fractional_part (precision : Z) : ST Rd Z :=
  if precision =? 0 then ret 0
  else if (precision =? 1) || (precision =? 2) then let! v := get_u8 in ret (v * 10000)
  else if (precision =? 3) || (precision =? 4) then let! v := get_u16b in ret (v * 100)
  else if (precision =? 5) || (precision =? 6) then get_u24b
  else throw bad_precision.

(** Byte [i] of the metadata, as the [unsigned char] value. *)
Definition meta (ci : ColumnInfo) (i : nat) : Z := byte_val (nth i (ci_type_meta ci) Byte.x00).

Definition read_blob (ci : ColumnInfo) : ST Rd Value :=
  if negb (zlen (ci_type_meta ci) =? 1) then throw (runtime_error invalid_options)
  else
    let! size :=
      if meta ci 0 =? 1 then get_u8
      else if meta ci 0 =? 2 then get_u16l
      else if meta ci 0 =? 3 then get_u24l
      else if meta ci 0 =? 4 then get_u32l
      else throw bad_meta_length in
    let! s := sr_read size in
    ret (VString s).

(** The second metadata byte is a [char] that becomes a [size_t]. *)
Definition read_string (ci : ColumnInfo) : ST Rd Value :=
  if negb (zlen (ci_type_meta ci) =? 2) then throw (runtime_error invalid_options)
  else
    let subtype := meta ci 0 in
    let! s :=
      if (subtype =? ColumnType_val T_SET) || (subtype =? ColumnType_val T_ENUM)
      then sr_read (u64 (s8 (meta ci 1)))
      else
        let max_display_width :=
          u16 (Z.lxor (Z.land (Z.shiftl (u16 (s8 (meta ci 0))) 4) 0x300) 0x300 + meta ci 1) in
        if 255 <? max_display_width then let! n := get_u16l in sr_read n
        else let! n := get_u8 in sr_read n in
    ret (VString s).

Definition read_varchar (ci : ColumnInfo) : ST Rd Value :=
  if negb (zlen (ci_type_meta ci) =? 2) then throw (runtime_error invalid_options)
  else
    let! s :=
      if 255 <? le_decode (ci_type_meta ci) then let! n := get_u16l in sr_read n
      else let! n := get_u8 in sr_read n in
    ret (VString s).

(** The fractional part is read, and printed to stderr, but not used. *)
Definition read_timestamp2 (ci : ColumnInfo) : ST Rd Value :=
  let! v := get_u32l in
  if negb (zlen (ci_type_meta ci) =? 1) then throw (logic_error invalid_options)
  else if meta ci 0 =? 0 then ret (VUint v)
  else
    let! _ := sr_read (u64 (Z.quot (s8 (meta ci 0) + 1) 2)) in
    ret (VUint v).

(** The fields of a DATETIME2 word. *)
Definition datetime2_fields (z usecs : Z) : DateTimeValue :=
  mkDateTime (u16 (u64 (Z.shiftr z 22 - 131073) / 13)) (u8 (u64 (Z.shiftr z 22 + 7) mod 13))
    (Z.land (Z.shiftr z 17) 0x1F) (Z.land (Z.shiftr z 12) 0x1F) (Z.land (Z.shiftr z 6) 0x3F)
    (Z.land z 0x3F) usecs.

Definition read_datetime2 (ci : ColumnInfo) : ST Rd Value :=
  if negb (zlen (ci_type_meta ci) =? 1) then throw (logic_error invalid_options)
  else
    let! hi := get_u32b in
    let! lo := get_u8 in
    let z := Z.lor (u64 (Z.shiftl hi 8)) lo in
    let! usecs := read_datetime_fractional_part (meta ci 0) in
    ret (VDateTime (datetime2_fields z usecs)).

(** The fields of a TIME2 word; [z] is a [uint32_t]. *)
Definition time2_fields (z usecs : Z) : TimeValue :=
  let neg := Z.land z 0x800000 =? 0 in
  let z := if neg then u32 (Z.lxor z 0xFFFFFFFF + 1) else z in
  mkTime neg (Z.land (Z.shiftr z 12) 0x3FF) (Z.land (Z.shiftr z 6) 0x3F) (Z.land z 0x3F) usecs.

Definition read_time2 (ci : ColumnInfo) : ST Rd Value :=
  if negb (zlen (ci_type_meta ci) =? 1) then throw (logic_error invalid_options)
  else
    let! z := get_u24b in
    let! usecs := read_datetime_fractional_part (meta ci 0) in
    ret (VTime (time2_fields z usecs)).

Definition read_cell_data (ci : ColumnInfo) : ST Rd Value :=
  match ColumnType_of (ci_type ci) with
  | Some T_NULL => ret VNull
  | Some T_TINYINT => let! v := get_u8 in ret (VUint v)
  | Some T_SMALLINT => let! v := get_u16l in ret (VUint v)
  | Some T_MEDIUMINT => let! v := get_u24l in ret (VUint v)
  | Some T_INT => let! v := get_u32l in ret (VUint v)
  | Some T_BIGINT => let! v := get_u64l in ret (VUint v)
  | Some T_FLOAT => let! v := get_u32l in ret (VFloat v)
  | Some T_DOUBLE => let! v := get_u64l in ret (VDouble v)
  | Some T_TINYBLOB | Some T_MEDIUMBLOB | Some T_LONGBLOB | Some T_BLOB | Some T_GEOMETRY
  | Some T_JSON => read_blob ci
  | Some T_YEAR => let! v := get_u8 in ret (VUint v)
  | Some T_ENUM | Some T_SET | Some T_STRING => read_string ci
  | Some T_VARCHAR => read_varchar ci
  | Some T_TIMESTAMP => let! v := get_u32l in ret (VUint (u64 (v * 1000000)))
  | Some T_TIMESTAMP2 => read_timestamp2 ci
  | Some T_DATETIME2 => read_datetime2 ci
  | Some T_TIME2 => read_time2 ci
  | _ => throw bad_column_type
  end.

(** ** Rows *)

Fixpoint read_cells (columns : list ColumnInfo) (nulls : list bool) : ST Rd (list Value) :=
  match columns, nulls with
  | [], _ => ret []
  | ci :: columns, is_null :: nulls =>
      let! v :=
        if (is_null : bool) then
          if ci_nullable ci then ret VNull else throw bad_null
        else read_cell_data ci in
      let! row := read_cells columns nulls in
      ret (v :: row)
  | _ :: _, [] => undef
  end.

Definition read_row_data (ti : BinlogTableInfo) : ST Rd (list Value) :=
  let! columns_null := get_bitmask (zlen (ti_columns ti)) in
  let! row := read_cells (ti_columns ti) columns_null in
  if negb (zlen row =? zlen (ti_columns ti)) then
    throw (runtime_error (str "row1 length does not match column count"))
  else ret row.
End Cells.

Definition metadata_bytes_for_column_type (type : Z) : out Z :=
  match ColumnType_of type with
  | Some T_NULL =>
      Exn (logic_error (str "T_NULL cannot be specified in a place where metadata is needed"))
  | Some T_DATE | Some T_DATETIME | Some T_TIME | Some T_TIMESTAMP | Some T_TINYINT
  | Some T_SMALLINT | Some T_MEDIUMINT | Some T_INT | Some T_BIGINT | Some T_YEAR
  | Some T_BOOL | Some T_VAR_STRING | Some T_NEWDATE => Val 0
  | Some T_TINYBLOB | Some T_BLOB | Some T_MEDIUMBLOB | Some T_LONGBLOB | Some T_FLOAT
  | Some T_DOUBLE | Some T_GEOMETRY | Some T_JSON | Some T_TIMESTAMP2 | Some T_TIME2
  | Some T_DATETIME2 => Val 1
  | Some T_STRING | Some T_VARCHAR | Some T_DECIMAL | Some T_NEWDECIMAL | Some T_ENUM
  | Some T_SET | Some T_BIT => Val 2
  | None => Exn bad_column_type
  end.

(** ** Events *)

Section Events.
Context {Rd : Type} {O : ReaderOps Rd}.

Definition get_header : ST Rd BinlogEventHeader :=
  let! d := sr_get BinlogEventHeader_size in ret (decode_header d).

Definition set_state (f : BinlogProcessor -> BinlogProcessor) : ST (Rd * BinlogProcessor) unit :=
  on_snd (modify f).

(** [column_types], one byte at a time. *)
Definition read_column_types (num_columns : Z) : ST Rd bytes :=
  loop (fun '(x, column_types) =>
      if x <? num_columns then
        let! t := get_u8 in ret (inl (x + 1, column_types ++ [byte_of t]))
      else ret (inr column_types))
    (Z.to_pos (num_columns + 1)) (0, []).

(** The loop over the columns, on the reader of the metadata. *)
Fixpoint read_columns (types : bytes) (nullable : list bool) : ST Rd (list ColumnInfo) :=
  match types, nullable with
  | [], _ => ret []
  | t :: types, n :: nullable =>
      let! size := of_out (metadata_bytes_for_column_type (byte_val t)) in
      let! type_meta := sr_read size in
      let! columns := read_columns types nullable in
      ret (mkColumnInfo (byte_val t) type_meta n :: columns)
  | _ :: _, [] => undef
  end.

(** [parse_table_map_event] fills a new table description, but not [ev.ti]. *)
Definition read_table_info : ST Rd (BinlogTableMapEvent * BinlogTableInfo) :=
  let! header := get_header in
  (if decide (event_type_of (eh_type header) <> Some TABLE_MAP_EVENT)
   then throw (logic_error (str "event is not a table map event")) else ret tt) ;;;
  let! table_id := get_u48l in
  let! flags := get_u16l in
  let! n := get_u8 in
  let! database_name := sr_read n in
  sr_skip 1 ;;;
  let! n := get_u8 in
  let! table_name := sr_read n in
  sr_skip 1 ;;;
  let! num_columns := get_varint in
  (if vector_bool_max_size <? num_columns then throw (length_error (str "vector")) else ret tt) ;;;
  let! column_types := read_column_types num_columns in
  let! column_type_metas := get_var_string in
  let! columns_nullable := get_bitmask num_columns in
  let! columns := with_local (sr_new column_type_metas) (on_fst (
    let! columns := read_columns column_types columns_nullable in
    let! eof := gets sr_eof in
    if negb eof then throw (runtime_error (str "not all column type_meta was parsed"))
    else ret columns)) in
  ret (mkTableMapEvent header table_id flags None, mkTableInfo database_name table_name columns).

Definition parse_table_map_event (data : bytes) : ST BinlogProcessor BinlogTableMapEvent :=
  with_local (sr_new data) (
    let! r := on_fst read_table_info in
    let '(ev, ti) := r in
    set_state (fun b => mkProcessor (bp_filename b) (bp_position b)
      (<[tme_table_id ev := ti]> (bp_table_map b))) ;;;
    set_state (set_position (eh_end_position (tme_header ev))) ;;;
    ret ev).

(** The write type, whether the event is of version 2, whether it has a preimage. *)
Definition rows_kind (t : option BinlogEventType) : option (WriteType * bool * bool) :=
  match t with
  | Some WRITE_ROWS_EVENTv0 | Some WRITE_ROWS_EVENTv1 => Some (INSERT, false, false)
  | Some WRITE_ROWS_EVENTv2 => Some (INSERT, true, false)
  | Some UPDATE_ROWS_EVENTv0 => Some (UPDATE, false, false)
  | Some UPDATE_ROWS_EVENTv1 => Some (UPDATE, false, true)
  | Some UPDATE_ROWS_EVENTv2 => Some (UPDATE, true, true)
  | Some DELETE_ROWS_EVENTv0 | Some DELETE_ROWS_EVENTv1 => Some (DELETE, false, false)
  | Some DELETE_ROWS_EVENTv2 => Some (DELETE, true, false)
  | _ => None
  end.

Definition row_bytes (start : Z) : ST Rd Z := gets (fun r => u64 (sr_where r - start)).

Definition read_row_change (wt : WriteType) (has_preimage : bool) (ti : BinlogTableInfo)
    : ST Rd RowChange :=
  let! start := gets sr_where in
  match wt with
  | INSERT =>
      let! post := read_row_data ti in
      let! n := row_bytes start in
      ret (mkRowChange 0 n [] post)
  | UPDATE =>
      let! p :=
        if has_preimage then
          let! pre := read_row_data ti in
          let! n := row_bytes start in
          let! start := gets sr_where in
          ret (n, pre, start)
        else ret (0, [], start) in
      let '(pre_bytes, pre, start) := p in
      let! post := read_row_data ti in
      let! n := row_bytes start in
      ret (mkRowChange pre_bytes n pre post)
  | DELETE =>
      let! pre := read_row_data ti in
      let! n := row_bytes start in
      ret (mkRowChange n 0 pre [])
  end.

(** [while (!r.eof())]. *)
Definition read_rows (fuel : positive) (wt : WriteType) (has_preimage : bool)
    (ti : BinlogTableInfo) : ST Rd (list RowChange) :=
  loop (fun rows =>
      let! eof := gets sr_eof in
      if eof then ret (inr rows)
      else
        let! rc := read_row_change wt has_preimage ti in
        ret (inl (rows ++ [rc])))
    fuel [].

(** The column masks, one or two of them. *)
Definition check_present (num_columns : Z) : ST Rd unit :=
  let! present := get_bitmask num_columns in
  if forallb (fun p => p) present then ret tt
  else throw (runtime_error (str "one or more columns not present in row event")).

(** A row of at least one column takes at least a byte, so one more repetition
    than there are bytes is enough. *)
Definition rows_fuel (data : bytes) : positive := Z.to_pos (zlen data + 1).

Definition read_rows_event (data : bytes) : ST (Rd * BinlogProcessor) BinlogRowsEvent :=
  let! header := on_fst get_header in
  match rows_kind (event_type_of (eh_type header)) with
  | None => throw (logic_error (str "event is not a rows event"))
  | Some (wt, is_v2, has_preimage) =>
      let! table_id := on_fst get_u48l in
      (if table_id =? 0xFFFFFF
       then throw (logic_error (str "table map free during row events not supported"))
       else ret tt) ;;;
      let! ti := on_snd (gets (fun b => bp_table_map b !! table_id)) in
      match ti with
      | None => throw map_at_miss
      | Some ti =>
          let! flags := on_fst get_u16l in
          let! extra_data :=
            if (is_v2 : bool) then on_fst (let! n := get_u16l in sr_read (u64 (n - 2))) else ret [] in
          let! num_columns := on_fst get_varint in
          (if negb (num_columns =? zlen (ti_columns ti)) then
             throw (runtime_error (str "row event column count does not match table info from table map"))
           else ret tt) ;;;
          on_fst (check_present num_columns) ;;;
          (if (has_preimage : bool) then on_fst (check_present num_columns) else ret tt) ;;;
          let! rows := on_fst (read_rows (rows_fuel data) wt has_preimage ti) in
          set_state (set_position (eh_end_position header)) ;;;
          ret (mkRowsEvent header wt table_id ti flags extra_data rows)
      end
  end.

Definition parse_rows_event (data : bytes) : ST BinlogProcessor BinlogRowsEvent :=
  with_local (sr_new data) (read_rows_event data).

Definition parse_query_event (data : bytes) : ST BinlogProcessor BinlogQueryEvent :=
  with_local (sr_new data) (
    let! header := on_fst get_header in
    (if decide (event_type_of (eh_type header) <> Some QUERY_EVENT)
     then throw (logic_error (str "event is not a query event")) else ret tt) ;;;
    let! conn_id := on_fst get_u32l in
    let! exec_time_secs := on_fst get_u32l in
    let! database_name_length := on_fst get_u8 in
    let! error_code := on_fst get_u16l in
    let! status_vars := on_fst (let! n := get_u16l in sr_read n) in
    let! database_name := on_fst (sr_read database_name_length) in
    on_fst (sr_skip 1) ;;;
    let! query := on_fst get_string_eof in
    set_state (set_position (eh_end_position header)) ;;;
    ret (mkQueryEvent header conn_id exec_time_secs database_name error_code status_vars query)).

Definition parse_rotate_event (data : bytes) : ST BinlogProcessor BinlogRotateEvent :=
  with_local (sr_new data) (
    let! header := on_fst get_header in
    (if decide (event_type_of (eh_type header) <> Some ROTATE_EVENT)
     then throw (logic_error (str "event is not a rotate event")) else ret tt) ;;;
    let! next_position := on_fst get_u64l in
    let! next_filename := on_fst get_string_eof in
    set_state (fun b => mkProcessor next_filename (bp_position b) (bp_table_map b)) ;;;
    set_state (set_position next_position) ;;;
    ret (mkRotateEvent header next_filename next_position)).

Definition parse_xid_event (data : bytes) : ST BinlogProcessor BinlogXidEvent :=
  with_local (sr_new data) (
    let! header := on_fst get_header in
    (if decide (event_type_of (eh_type header) <> Some XID_EVENT)
     then throw (logic_error (str "event is not an xid event")) else ret tt) ;;;
    let! xid := on_fst get_u64l in
    set_state (set_position (eh_end_position header)) ;;;
    ret (mkXidEvent header xid)).

Definition expected_header_lengths : list Z :=
  [0x00; 0x0D; 0x00; 0x08; 0x00; 0x00; 0x00; 0x00; 0x04; 0x00; 0x04; 0x00; 0x00; 0x00; 0x61;
   0x00; 0x04; 0x1A; 0x08; 0x00; 0x00; 0x00; 0x08; 0x08; 0x08; 0x02; 0x00; 0x00; 0x00; 0x0A;
   0x0A; 0x0A; 0x2A; 0x2A; 0x00; 0x12; 0x34; 0x00; 0x0A; 0x28].

(** [memcmp] of the shorter length. *)
Definition header_lengths_ok (d : bytes) : bool :=
  forallb (fun '(a, b) => byte_val a =? b) (zip d expected_header_lengths).

(** The event's type is not checked. *)
Definition parse_format_description_event (data : bytes)
    : ST BinlogProcessor BinlogFormatDescriptionEvent :=
  with_local (sr_new data) (
    let! header := on_fst get_header in
    let! version := on_fst get_u16l in
    (if negb (version =? 4) then throw (runtime_error (str "binlog version is not 4"))
     else ret tt) ;;;
    let! server_version := on_fst (sr_read 50) in
    let server_version := c_str server_version in
    let! timestamp := on_fst get_u32l in
    let! header_length := on_fst get_u8 in
    (if negb (header_length =? 0x13)
     then throw (runtime_error (str "incorrect header length for FORMAT_DESCRIPTION_EVENT"))
     else ret tt) ;;;
    let! event_header_lengths := on_fst get_string_eof in
    (if negb (header_lengths_ok event_header_lengths)
     then throw (runtime_error
       (str "header lengths in FORMAT_DESCRIPTION_EVENT do not match expectations"))
     else ret tt) ;;;
    set_state (set_position (eh_end_position header)) ;;;
    ret (mkFormatEvent header version server_version timestamp header_length event_header_lengths)).

Definition parse_unknown_event (data : bytes) : ST BinlogProcessor BinlogEventHeader :=
  if zlen data <? BinlogEventHeader_size then throw header_too_small
  else
    let header := decode_header data in
    modify (set_position (eh_end_position header)) ;;;
    ret header.
End Events.

(** ** Any lawful reader refines the contract *)

Ltac reader_refines :=
  repeat first [refine_step | apply refines_with_reader].

Section Refinement.
Context {Rd : Type} {O : ReaderOps Rd} {R : Rd -> rdr -> Prop} {L : ReaderLaws O R}.

Lemma get_ints_refine :
  refines no_failure R (@get_u8 Rd O) (@get_u8 rdr spec_reader) /\
  refines no_failure R (@get_u16l Rd O) (@get_u16l rdr spec_reader) /\
  refines no_failure R (@get_u16b Rd O) (@get_u16b rdr spec_reader) /\
  refines no_failure R (@get_u24l Rd O) (@get_u24l rdr spec_reader) /\
  refines no_failure R (@get_u24b Rd O) (@get_u24b rdr spec_reader) /\
  refines no_failure R (@get_u32l Rd O) (@get_u32l rdr spec_reader) /\
  refines no_failure R (@get_u32b Rd O) (@get_u32b rdr spec_reader) /\
  refines no_failure R (@get_u48l Rd O) (@get_u48l rdr spec_reader) /\
  refines no_failure R (@get_u64l Rd O) (@get_u64l rdr spec_reader).
Proof. split_and!; get_refines. Qed.

Local Ltac ints := destruct get_ints_refine as (? & ? & ? & ? & ? & ? & ? & ? & ?).

Lemma read_cell_data_refines ci :
  refines no_failure R (@read_cell_data Rd O ci) (@read_cell_data rdr spec_reader ci).
Proof.
  ints. unfold read_cell_data, read_blob, read_string, read_varchar, read_timestamp2,
    read_datetime2, read_time2, read_datetime_fractional_part. reader_refines.
Qed.

Hint Resolve read_cell_data_refines : refine.

Lemma read_cells_refines cols nulls :
  refines no_failure R (@read_cells Rd O cols nulls) (@read_cells rdr spec_reader cols nulls).
Proof.
  revert nulls. induction cols as [|ci cols IH]; intros nulls; simpl; [reader_refines|].
  destruct nulls; reader_refines.
Qed.

Hint Resolve read_cells_refines : refine.

Lemma read_row_data_refines ti :
  refines no_failure R (@read_row_data Rd O ti) (@read_row_data rdr spec_reader ti).
Proof. unfold read_row_data. reader_refines. Qed.

Lemma get_header_refines : refines no_failure R (@get_header Rd O) (@get_header rdr spec_reader).
Proof. unfold get_header. reader_refines. Qed.

Lemma set_state_refines f :
  refines no_failure (Rprod R eq) (@set_state Rd f) (@set_state rdr f).
Proof. unfold set_state. reader_refines. Qed.

Hint Resolve read_row_data_refines get_header_refines set_state_refines : refine.

Lemma read_columns_refines types nullable :
  refines no_failure R (@read_columns Rd O types nullable) (@read_columns rdr spec_reader types nullable).
Proof.
  revert nullable. induction types as [|t types IH]; intros nullable; simpl; [reader_refines|].
  destruct nullable; reader_refines.
Qed.

Hint Resolve read_columns_refines : refine.

Lemma read_column_types_refines n :
  refines no_failure R (@read_column_types Rd O n) (@read_column_types rdr spec_reader n).
Proof. ints. unfold read_column_types. reader_refines. Qed.

Hint Resolve read_column_types_refines : refine.

Lemma read_table_info_refines :
  refines no_failure R (@read_table_info Rd O) (@read_table_info rdr spec_reader).
Proof. ints. unfold read_table_info. reader_refines. Qed.

Hint Resolve read_table_info_refines : refine.

Lemma parse_table_map_event_refines data :
  refines no_failure eq (@parse_table_map_event Rd O data) (@parse_table_map_event rdr spec_reader data).
Proof. unfold parse_table_map_event. reader_refines. Qed.

Lemma row_bytes_refines start :
  refines no_failure R (@row_bytes Rd O start) (@row_bytes rdr spec_reader start).
Proof.
  apply refines_gets. intros s s' H. by rewrite (law_sr_where s s' H).
Qed.

Hint Resolve row_bytes_refines : refine.

Lemma read_rows_refines fuel wt p ti :
  refines no_failure R (@read_rows Rd O fuel wt p ti) (@read_rows rdr spec_reader fuel wt p ti).
Proof. unfold read_rows, read_row_change. reader_refines. Qed.

Lemma check_present_refines n :
  refines no_failure R (@check_present Rd O n) (@check_present rdr spec_reader n).
Proof. unfold check_present. reader_refines. Qed.

Hint Resolve read_rows_refines check_present_refines : refine.

Lemma read_rows_event_refines data :
  refines no_failure (Rprod R eq) (@read_rows_event Rd O data) (@read_rows_event rdr spec_reader data).
Proof. ints. unfold read_rows_event. reader_refines. Qed.

Hint Resolve read_rows_event_refines : refine.

Lemma parse_rows_event_refines data :
  refines no_failure eq (@parse_rows_event Rd O data) (@parse_rows_event rdr spec_reader data).
Proof. unfold parse_rows_event. reader_refines. Qed.

Lemma parse_query_event_refines data :
  refines no_failure eq (@parse_query_event Rd O data) (@parse_query_event rdr spec_reader data).
Proof. ints. unfold parse_query_event. reader_refines. Qed.

Lemma parse_rotate_event_refines data :
  refines no_failure eq (@parse_rotate_event Rd O data) (@parse_rotate_event rdr spec_reader data).
Proof. ints. unfold parse_rotate_event. reader_refines. Qed.

Lemma parse_xid_event_refines data :
  refines no_failure eq (@parse_xid_event Rd O data) (@parse_xid_event rdr spec_reader data).
Proof. ints. unfold parse_xid_event. reader_refines. Qed.

Lemma parse_format_description_event_refines data :
  refines no_failure eq (@parse_format_description_event Rd O data)
    (@parse_format_description_event rdr spec_reader data).
Proof. ints. unfold parse_format_description_event. reader_refines. Qed.
End Refinement.

(** ** Dates and times in rows *)

Section Times.

(** The words MySQL stores for a DATETIME2 (40 bits) and a TIME2 (24 bits). *)
Definition datetime2_word (v : DateTimeValue) : Z :=
  (131072 + 13 * dt_years v + dt_months v) * 2 ^ 22 + dt_days v * 2 ^ 17 + dt_hours v * 2 ^ 12 +
  dt_minutes v * 2 ^ 6 + dt_seconds v.
Definition time2_word (v : TimeValue) : Z :=
  let t := tv_hours v * 2 ^ 12 + tv_minutes v * 2 ^ 6 + tv_seconds v in
  if tv_is_negative v then 0x800000 - t else 0x800000 + t.

(** The fraction at a precision, and what is left of the microseconds. *)
Definition frac_bytes (p : nat) (usecs : Z) : bytes :=
  match p with
  | 0%nat => []
  | 1%nat | 2%nat => le_encode 1 (usecs / 10000)
  | 3%nat | 4%nat => be_encode 2 (usecs / 100)
  | _ => be_encode 3 usecs
  end.
Definition frac_usecs (p : nat) (usecs : Z) : Z :=
  match p with
  | 0%nat => 0
  | 1%nat | 2%nat => usecs / 10000 * 10000
  | 3%nat | 4%nat => usecs / 100 * 100
  | _ => usecs
  end.

Definition datetime2_ok (v : DateTimeValue) : Prop :=
  0 <= dt_years v <= 9999 /\ 1 <= dt_months v <= 12 /\ 0 <= dt_days v < 32 /\
  0 <= dt_hours v < 32 /\ 0 <= dt_minutes v < 64 /\ 0 <= dt_seconds v < 64 /\
  0 <= dt_usecs v < 1000000.
Definition time2_ok (v : TimeValue) : Prop :=
  0 <= tv_hours v < 1024 /\ 0 <= tv_minutes v < 64 /\ 0 <= tv_seconds v < 64 /\
  0 <= tv_usecs v < 1000000.

Lemma shiftr_field a b k : 0 <= k -> 0 <= b < 2 ^ k -> Z.shiftr (a * 2 ^ k + b) k = a.
Proof.
  intros Hk Hb. rewrite Z.shiftr_div_pow2, Z.add_comm, Z.div_add by lia.
  rewrite Z.div_small by lia. lia.
Qed.

Lemma land_field a b k : 0 <= k -> 0 <= b < 2 ^ k -> Z.land (a * 2 ^ k + b) (Z.ones k) = b.
Proof.
  intros Hk Hb. rewrite Z.land_ones, Z.add_comm, Z.mod_add by lia. by apply Z.mod_small.
Qed.

(** Hours, minutes and seconds below the rest of a word. *)
Lemma hms_fields a h m s kh :
  0 <= kh -> 0 <= h < 2 ^ kh -> 0 <= m < 64 -> 0 <= s < 64 ->
  let z := a * 2 ^ (kh + 12) + h * 2 ^ 12 + m * 2 ^ 6 + s in
  Z.shiftr z (kh + 12) = a /\ Z.land (Z.shiftr z 12) (Z.ones kh) = h /\
  Z.land (Z.shiftr z 6) (Z.ones 6) = m /\ Z.land z (Z.ones 6) = s.
Proof.
  intros Hk Hh Hm Hs z. unfold z. rewrite Z.pow_add_r by lia. split_and!.
  - rewrite <- Z.pow_add_r by lia. rewrite <- !Z.add_assoc. apply shiftr_field; [lia|].
    rewrite Z.pow_add_r by lia. nia.
  - replace (_ + s) with ((a * 2 ^ kh + h) * 2 ^ 12 + (m * 2 ^ 6 + s)) by lia.
    rewrite shiftr_field by lia. by apply land_field.
  - replace (_ + s) with ((a * 2 ^ kh * 2 ^ 6 + h * 2 ^ 6 + m) * 2 ^ 6 + s) by lia.
    rewrite shiftr_field by lia. rewrite <- Z.mul_add_distr_r. by apply land_field.
  - replace (_ + s) with ((a * 2 ^ kh * 2 ^ 6 + h * 2 ^ 6 + m) * 2 ^ 6 + s) by lia.
    by apply land_field.
Qed.

Lemma datetime2_fields_word v u :
  datetime2_ok v ->
  datetime2_fields (datetime2_word v) u =
    mkDateTime (dt_years v) (dt_months v) (dt_days v) (dt_hours v) (dt_minutes v) (dt_seconds v) u.
Proof.
  intros (Hy & Hmo & Hd & Hh & Hmi & Hs & _). unfold datetime2_fields.
  set (ym := 131072 + 13 * dt_years v + dt_months v).
  assert (datetime2_word v = (ym * 2 ^ 5 + dt_days v) * 2 ^ (5 + 12) + dt_hours v * 2 ^ 12 +
    dt_minutes v * 2 ^ 6 + dt_seconds v) as Hw by (unfold datetime2_word; fold ym; lia).
  destruct (hms_fields (ym * 2 ^ 5 + dt_days v) (dt_hours v) (dt_minutes v) (dt_seconds v) 5)
    as (H1 & H2 & H3 & H4); try lia.
  rewrite <- Hw in *. change (5 + 12) with 17 in *.
  assert (Z.shiftr (datetime2_word v) 22 = ym) as H5.
  { change 22 with (17 + 5). rewrite <- Z.shiftr_shiftr, H1 by lia. apply shiftr_field; lia. }
  change 0x1F with (Z.ones 5). change 0x3F with (Z.ones 6).
  rewrite H1, H2, H3, H4, H5, land_field by lia. unfold u64, u16, u8.
  rewrite (Z.mod_small (ym - 131073)), (Z.mod_small (ym + 7)) by lia.
  f_equal; rewrite Z.mod_small.
  - replace (ym - 131073) with (dt_months v - 1 + dt_years v * 13) by lia.
    rewrite Z.div_add, Z.div_small by lia. lia.
  - replace (ym - 131073) with (dt_months v - 1 + dt_years v * 13) by lia.
    rewrite Z.div_add, Z.div_small by lia. lia.
  - replace (ym + 7) with (dt_months v + (10083 + dt_years v) * 13) by lia.
    rewrite Z.mod_add, Z.mod_small by lia. lia.
  - pose proof (Z.mod_pos_bound (ym + 7) 13). lia.
Qed.

Lemma time2_fields_word v u :
  time2_ok v -> (tv_is_negative v = true -> 0 < tv_hours v + tv_minutes v + tv_seconds v) ->
  time2_fields (time2_word v) u =
    mkTime (tv_is_negative v) (tv_hours v) (tv_minutes v) (tv_seconds v) u.
Proof.
  intros (Hh & Hm & Hs & _) Hneg. unfold time2_fields, time2_word.
  set (t := _ + tv_seconds v).
  assert (0 <= t < 2 ^ 22) as Ht by (unfold t; nia).
  change 0x3FF with (Z.ones 10). change 0x3F with (Z.ones 6). change 0x800000 with (2 ^ 23).
  destruct (tv_is_negative v) eqn:En; rewrite land_pow2_eqb by lia.
  - specialize (Hneg eq_refl). assert (0 < t) by (unfold t; nia).
    rewrite (testbit_above _ 23) by lia. cbn [negb].
    change 0xFFFFFFFF with (Z.ones 32). rewrite lxor_ones by lia.
    assert (u32 (Z.ones 32 - (2 ^ 23 - t) + 1) = 1022 * 2 ^ (10 + 12) + t) as ->.
    { change (Z.ones 32) with (2 ^ 32 - 1). unfold u32. rewrite Z.mod_small by lia. lia. }
    unfold t. rewrite !Z.add_assoc.
    destruct (hms_fields 1022 (tv_hours v) (tv_minutes v) (tv_seconds v) 10)
      as (_ & -> & -> & ->); try lia. done.
  - replace (2 ^ 23 + t) with (2 * 2 ^ (10 + 12) + t) by lia.
    replace (Z.testbit _ 23) with true; cbn [negb].
    + unfold t. rewrite !Z.add_assoc.
      destruct (hms_fields 2 (tv_hours v) (tv_minutes v) (tv_seconds v) 10)
        as (_ & -> & -> & ->); try lia. done.
    + symmetry. apply Z.testbit_true; [lia|]. change (10 + 12) with 22.
      rewrite <- Z.shiftr_div_pow2 by lia. change 23 with (22 + 1).
      rewrite <- Z.shiftr_shiftr, shiftr_field by lia. done.
Qed.
End Times.

(** ** Reading them from a row *)

Section Reading.

Lemma get_be n v r k :
  0 <= v < 2 ^ (8 * Z.of_nat n) ->
  (let! d := spec_get (Z.of_nat n) in ret (be_decode d)) (Rdr k (be_encode n v ++ r)) =
    (Val v, Rdr (k + Z.of_nat n) r).
Proof.
  intros Hv. erewrite bind_Val by (apply spec_get_app, zlen_be_encode).
  by rewrite be_decode_encode_small.
Qed.

Lemma get_le n v r k :
  0 <= v < 2 ^ (8 * Z.of_nat n) ->
  (let! d := spec_get (Z.of_nat n) in ret (le_decode d)) (Rdr k (le_encode n v ++ r)) =
    (Val v, Rdr (k + Z.of_nat n) r).
Proof.
  intros Hv. erewrite bind_Val by (apply spec_get_app, zlen_le_encode).
  by rewrite le_decode_encode_small.
Qed.

Lemma read_fraction_spec p usecs r k :
  (p <= 6)%nat -> 0 <= usecs < 1000000 ->
  @read_datetime_fractional_part rdr spec_reader (Z.of_nat p) (Rdr k (frac_bytes p usecs ++ r)) =
    (Val (frac_usecs p usecs), Rdr (k + zlen (frac_bytes p usecs)) r).
Proof.
  intros Hp Hu. unfold read_datetime_fractional_part.
  assert (0 <= usecs / 10000 < 100 /\ 0 <= usecs / 100 < 10000) as [H1 H2].
  { repeat split; try (apply Z.div_pos; lia); apply Z.div_lt_upper_bound; lia. }
  destruct p as [|[|[|[|[|[|[|p]]]]]]]; [..|lia];
    repeat match goal with
    | |- context [Z.of_nat ?n =? ?b] =>
        let c := eval vm_compute in (Z.of_nat n =? b) in change (Z.of_nat n =? b) with c
    end; cbn [frac_bytes frac_usecs orb].
  - change (zlen (@nil byte)) with 0. by rewrite Z.add_0_r.
  - erewrite bind_Val by (apply (get_le 1); lia). by rewrite zlen_le_encode.
  - erewrite bind_Val by (apply (get_le 1); lia). by rewrite zlen_le_encode.
  - erewrite bind_Val by (apply (get_be 2); lia). by rewrite zlen_be_encode.
  - erewrite bind_Val by (apply (get_be 2); lia). by rewrite zlen_be_encode.
  - rewrite zlen_be_encode. apply (get_be 3). lia.
  - rewrite zlen_be_encode. apply (get_be 3). lia.
Qed.

Lemma meta_byte p t nullable :
  (p < 256)%nat -> meta (mkColumnInfo t [byte_of (Z.of_nat p)] nullable) 0 = Z.of_nat p.
Proof. intros Hp. unfold meta. simpl. rewrite byte_val_of, Z.mod_small; lia. Qed.

Lemma be_encode_5 w : be_encode 5 w = be_encode 4 (w / 256) ++ le_encode 1 w.
Proof. done. Qed.

Lemma datetime2_word_range v : datetime2_ok v -> 0 <= datetime2_word v < 2 ^ 40.
Proof.
  intros (Hy & Hmo & Hd & Hh & Hmi & Hs & _). unfold datetime2_word. nia.
Qed.

Lemma read_datetime2_spec v p nullable r k :
  datetime2_ok v -> (p <= 6)%nat ->
  let f := frac_bytes p (dt_usecs v) in
  @read_cell_data rdr spec_reader
    (mkColumnInfo (ColumnType_val T_DATETIME2) [byte_of (Z.of_nat p)] nullable)
    (Rdr k (be_encode 5 (datetime2_word v) ++ f ++ r)) =
  (Val (VDateTime (mkDateTime (dt_years v) (dt_months v) (dt_days v) (dt_hours v) (dt_minutes v)
     (dt_seconds v) (frac_usecs p (dt_usecs v)))), Rdr (k + 5 + zlen f) r).
Proof.
  intros Hv Hp f. unfold read_cell_data. cbn [ci_type]. rewrite ColumnType_of_val.
  unfold read_datetime2. cbn [ci_type_meta]. change (zlen [_] =? 1) with true. cbn [negb].
  pose proof (datetime2_word_range v Hv) as Hw. set (w := datetime2_word v) in *.
  assert (0 <= w / 256 < 2 ^ 32) by (split; [apply Z.div_pos; lia|apply Z.div_lt_upper_bound; lia]).
  rewrite be_encode_5, <- app_assoc.
  erewrite bind_Val by (apply (get_be 4); lia).
  assert (le_encode 1 w = le_encode 1 (w mod 256)) as ->.
  { cbn [le_encode]. f_equal. rewrite <- (byte_of_mod (w mod 256) (w / 256)). f_equal.
    pose proof (Z.div_mod w 256). lia. }
  pose proof (Z.mod_pos_bound w 256 ltac:(lia)).
  erewrite bind_Val by (apply (get_le 1); lia).
  rewrite meta_byte by lia. erewrite bind_Val by (apply read_fraction_spec; [done|apply Hv]).
  assert (Z.lor (u64 (Z.shiftl (w / 256) 8)) (w mod 256) = w) as ->.
  { unfold u64. rewrite Z.mod_small by (rewrite Z.shiftl_mul_pow2; lia).
    rewrite lor_shiftl_add by lia. change (2 ^ 8) with 256. pose proof (Z.div_mod w 256). lia. }
  unfold w. rewrite datetime2_fields_word by done. fold f. unfold ret. do 2 f_equal. lia.
Qed.

Lemma read_time2_spec v p nullable r k :
  time2_ok v -> (p <= 6)%nat ->
  (tv_is_negative v = true -> 0 < tv_hours v + tv_minutes v + tv_seconds v) ->
  let f := frac_bytes p (tv_usecs v) in
  @read_cell_data rdr spec_reader
    (mkColumnInfo (ColumnType_val T_TIME2) [byte_of (Z.of_nat p)] nullable)
    (Rdr k (be_encode 3 (time2_word v) ++ f ++ r)) =
  (Val (VTime (mkTime (tv_is_negative v) (tv_hours v) (tv_minutes v) (tv_seconds v)
     (frac_usecs p (tv_usecs v)))), Rdr (k + 3 + zlen f) r).
Proof.
  intros Hv Hp Hneg f. unfold read_cell_data. cbn [ci_type]. rewrite ColumnType_of_val.
  unfold read_time2. cbn [ci_type_meta]. change (zlen [_] =? 1) with true. cbn [negb].
  assert (0 <= time2_word v < 2 ^ 24) as Hw.
  { destruct Hv as (? & ? & ? & _). unfold time2_word. destruct (tv_is_negative v); nia. }
  erewrite bind_Val by (apply (get_be 3); lia).
  rewrite meta_byte by lia. erewrite bind_Val by (apply read_fraction_spec; [done|apply Hv]).
  by rewrite time2_fields_word by done.
Qed.
End Reading.

(** ** Failed parses leave the processor alone *)

Section Safety.
Context {Rd : Type} {O : ReaderOps Rd}.

(** [m] does not touch the processor; [m] changes it only when it succeeds. *)
Definition reads {A} (m : ST (Rd * BinlogProcessor) A) : Prop :=
  forall s, snd (snd (m s)) = snd s.
Definition safe {A} (m : ST (Rd * BinlogProcessor) A) : Prop :=
  forall s, (exists a, fst (m s) = Val a) \/ snd (snd (m s)) = snd s.

Lemma reads_on_fst {A} (m : ST Rd A) : reads (on_fst m).
Proof. intros [r b]. unfold on_fst, focus. simpl. by destruct (m r). Qed.

Lemma reads_gets {A} (f : BinlogProcessor -> A) : reads (on_snd (gets f)).
Proof. by intros [r b]. Qed.

Lemma reads_ret {A} (a : A) : reads (ret a).
Proof. by intros s. Qed.

Lemma reads_throw {A} e : reads (@throw _ A e).
Proof. by intros s. Qed.

Lemma safe_reads {A} (m : ST (Rd * BinlogProcessor) A) : reads m -> safe m.
Proof. intros Hm s. right. apply Hm. Qed.

Lemma safe_bind {A B} (m : ST (Rd * BinlogProcessor) A) (k : A -> ST (Rd * BinlogProcessor) B) :
  reads m -> (forall a, safe (k a)) -> safe (bind m k).
Proof.
  intros Hm Hk s. specialize (Hm s). unfold bind. destruct (m s) as [[a| | |] s']; simpl in *;
    try by right.
  rewrite <- Hm. apply Hk.
Qed.

Lemma safe_set_state {B} f (k : unit -> ST (Rd * BinlogProcessor) B) :
  (forall u s, exists b, fst (k u s) = Val b) -> safe (bind (set_state f) k).
Proof. intros Hk [r b]. left. apply (Hk tt). Qed.

Lemma safe_with_local {A} x (m : ST (Rd * BinlogProcessor) A) b :
  safe m -> (exists a, fst (with_local x m b) = Val a) \/ snd (with_local x m b) = b.
Proof.
  intros Hm. specialize (Hm (x, b)). unfold with_local. by destruct (m (x, b)) as [o [r b']].
Qed.
End Safety.

Ltac safe_auto :=
  repeat lazymatch goal with
  | |- safe (bind (set_state _) _) => apply safe_set_state; intros; eexists; reflexivity
  | |- safe (bind _ _) => apply safe_bind; [|intros ?]
  | |- safe (match ?x with _ => _ end) => destruct x
  | |- reads (match ?x with _ => _ end) => destruct x
  | |- safe _ => apply safe_reads
  | |- reads (on_fst _) => apply reads_on_fst
  | |- reads (on_snd (gets _)) => apply reads_gets
  | |- reads (ret _) => apply reads_ret
  | |- reads (throw _) => apply reads_throw
  end.

(** The operations that change the processor; the outcome is all they differ in. *)
Inductive parse_op : Type :=
| OpTableMap | OpRows | OpQuery | OpRotate | OpXid | OpFormat | OpUnknown.

Definition discard {S A} (m : ST S A) : ST S unit := m ;;; ret tt.

Definition run_op {Rd} {O : ReaderOps Rd} (op : parse_op) (data : bytes) : ST BinlogProcessor unit :=
  match op with
  | OpTableMap => discard (parse_table_map_event data)
  | OpRows => discard (parse_rows_event data)
  | OpQuery => discard (parse_query_event data)
  | OpRotate => discard (parse_rotate_event data)
  | OpXid => discard (parse_xid_event data)
  | OpFormat => discard (parse_format_description_event data)
  | OpUnknown => discard (parse_unknown_event data)
  end.

Lemma discard_keeps {S A} (m : ST S A) (s : S) :
  (exists a, fst (m s) = Val a) \/ snd (m s) = s ->
  fst (discard m s) = Val tt \/ snd (discard m s) = s.
Proof.
  unfold discard, bind. destruct (m s) as [[a| | |] s']; simpl; [by left|..];
    intros [[a Ha]|?]; done || by right.
Qed.

Lemma run_op_keeps {Rd} {O : ReaderOps Rd} op data b :
  fst (run_op op data b) = Val tt \/ snd (run_op op data b) = b.
Proof.
  destruct op; apply discard_keeps; try (apply safe_with_local; try unfold read_rows_event; safe_auto).
  unfold parse_unknown_event. destruct (_ <? _); [by right|]. left. by eexists.
Qed.

(** ** The invariant of the table map *)

(** The values a computation can return. *)
Definition post {S A} (m : ST S A) (Q : A -> Prop) : Prop :=
  forall s a s', m s = (Val a, s') -> Q a.

Lemma post_bind {S A B} (m : ST S A) (k : A -> ST S B) P Q :
  post m P -> (forall a, P a -> post (k a) Q) -> post (bind m k) Q.
Proof.
  intros Hm Hk s b s'. unfold bind. destruct (m s) as [[a| | |] s1] eqn:E; try done.
  apply Hk. by apply (Hm s a s1).
Qed.

Lemma post_true {S A} (m : ST S A) : post m (fun _ => True).
Proof. done. Qed.

Lemma post_ret {S A} (a : A) (Q : A -> Prop) : Q a -> post (@ret S A a) Q.
Proof. by intros H s ? s' [= <- <-]. Qed.

Lemma post_throw {S A} e (Q : A -> Prop) : post (@throw S A e) Q.
Proof. done. Qed.

Lemma post_local_on_fst {S T A} (x : T) (m : ST T A) Q :
  post m Q -> post (@with_local S T A x (on_fst m)) Q.
Proof.
  intros Hm s a s'. unfold with_local, on_fst, focus. simpl.
  destruct (m x) as [o t] eqn:E. intros [= -> ->]. by apply (Hm x a t).
Qed.

Lemma metadata_bytes_range t n : metadata_bytes_for_column_type t = Val n -> 0 <= n <= 2.
Proof. unfold metadata_bytes_for_column_type. destruct (ColumnType_of t) as [[]|]; intros [= <-]; lia. Qed.

Section Invariant.

Context {Rd : Type} {O : ReaderOps Rd}.
(** How the bytes that [read] answers relate to those it is asked for. *)
Context (P : Z -> Z -> Prop).

(** A column's metadata has the length its type calls for, up to [P]. *)
Definition meta_length (ci : ColumnInfo) : Prop :=
  exists n, metadata_bytes_for_column_type (ci_type ci) = Val n /\ P (zlen (ci_type_meta ci)) n.
Definition wf_table (ti : BinlogTableInfo) : Prop := Forall meta_length (ti_columns ti).
Definition wf_processor (b : BinlogProcessor) : Prop :=
  map_Forall (fun _ ti => wf_table ti) (bp_table_map b).

Context (read_post : forall n, 0 <= n -> post (@sr_read Rd O n) (fun d => P (zlen d) n)).

Lemma read_columns_post types nullable :
  post (@read_columns Rd O types nullable) (Forall meta_length).
Proof.
  revert nullable. induction types as [|t types IH]; intros nullable; simpl.
  { apply post_ret. constructor. }
  destruct nullable as [|n nullable]; [done|].
  apply post_bind with (P := fun n => metadata_bytes_for_column_type (byte_val t) = Val n).
  { intros s a s' [= <- <-]. done. }
  intros size Hsize. apply post_bind with (P := fun d => P (zlen d) size).
  { apply read_post. apply metadata_bytes_range in Hsize. lia. }
  intros d Hd. apply (post_bind _ _ _ _ (IH nullable)). intros cols Hcols.
  apply post_ret. constructor; [by exists size|done].
Qed.

Lemma read_table_info_post :
  post (@read_table_info Rd O) (fun p => wf_table (snd p)).
Proof.
  unfold read_table_info. do 15 (apply (post_bind _ _ _ _ (post_true _)); intros ? _).
  apply post_bind with (P := Forall meta_length).
  { apply post_local_on_fst. apply (post_bind _ _ _ _ (read_columns_post _ _)). intros cols Hcols.
    apply (post_bind _ _ _ _ (post_true _)). intros eof _.
    destruct (negb eof); [apply post_throw|by apply post_ret]. }
  intros cols Hcols. by apply post_ret.
Qed.

Lemma table_map_step data b :
  wf_processor b -> wf_processor (snd (@parse_table_map_event Rd O data b)).
Proof.
  intros Hb. unfold parse_table_map_event, with_local, bind, on_fst, focus. simpl.
  destruct (read_table_info _) as [[[ev ti]| | |] r] eqn:E; try done.
  apply read_table_info_post in E. simpl. unfold wf_processor, set_position. simpl.
  by apply map_Forall_insert_2.
Qed.
End Invariant.

Section SameMap.

(** The other operations never touch the map. *)
Definition same_map {Rd A} (m : ST (Rd * BinlogProcessor) A) : Prop :=
  forall s, bp_table_map (snd (snd (m s))) = bp_table_map (snd s).

Lemma same_map_bind {Rd A B} (m : ST (Rd * BinlogProcessor) A) (k : A -> ST (Rd * BinlogProcessor) B) :
  same_map m -> (forall a, same_map (k a)) -> same_map (bind m k).
Proof.
  intros Hm Hk s. specialize (Hm s). unfold bind.
  destruct (m s) as [[a| | |] s']; simpl in *; try done. rewrite <- Hm. apply Hk.
Qed.

Lemma same_map_reads {Rd A} (m : ST (Rd * BinlogProcessor) A) : reads m -> same_map m.
Proof. intros Hm s. by rewrite Hm. Qed.

Lemma same_map_local {Rd A} x (m : ST (Rd * BinlogProcessor) A) b :
  same_map m -> bp_table_map (snd (discard (with_local x m) b)) = bp_table_map b.
Proof.
  intros Hm. specialize (Hm (x, b)). unfold discard, bind, with_local.
  by destruct (m (x, b)) as [[] [r b']].
Qed.
End SameMap.

Ltac same_map_auto :=
  repeat lazymatch goal with
  | |- same_map (bind _ _) => apply same_map_bind; [|intros ?]
  | |- same_map (set_state _) => by intros [? ?]
  | |- same_map (match ?x with _ => _ end) => destruct x
  | |- same_map _ => apply same_map_reads; safe_auto
  end.

Lemma run_op_wf {Rd} {O : ReaderOps Rd} (P : Z -> Z -> Prop) op data b :
  (forall n, 0 <= n -> post (@sr_read Rd O n) (fun d => P (zlen d) n)) ->
  wf_processor P b -> wf_processor P (snd (@run_op Rd O op data b)).
Proof.
  intros Hread Hb. destruct op; cbn [run_op].
  { apply (table_map_step P Hread data) in Hb. unfold discard, bind. by destruct (parse_table_map_event _ _) as [[]]. }
  1-5: unfold wf_processor, parse_rows_event, parse_query_event, parse_rotate_event, parse_xid_event,
         parse_format_description_event;
       rewrite same_map_local; [done|]; try unfold read_rows_event; same_map_auto.
  unfold discard, parse_unknown_event, bind. by destruct (_ <? _).
Qed.

Lemma bounded_read_post {Rd} {O : ReaderOps Rd} {B : BoundedReader O} n :
  0 <= n -> post (@sr_read Rd O n) (fun d => zlen d <= n).
Proof. intros Hn s d s' E. pose proof (br_read n s) as H. rewrite E in H. by apply H. Qed.

Lemma spec_sr_read_post n : 0 <= n -> post (spec_sr_read n) (fun d => zlen d = n).
Proof.
  intros Hn s a s'. unfold spec_sr_read. destruct (Z.ltb_spec (zlen (sr_rest s)) n); [done|].
  intros [= <- <-]. rewrite zlen_ztake; lia.
Qed.

(** ** Cells of columns by their metadata *)

Section Avoids.
Context {Rd : Type} {O : ReaderOps Rd} {B : BoundedReader O}.

(** The complaint about the type options; [m] never fails with it; [m] answers
    nothing. *)
Definition options_error (e : exn) : Prop :=
  e = runtime_error invalid_options \/ e = logic_error invalid_options.
Definition avoids {A} (m : ST Rd A) : Prop :=
  forall s e, fst (m s) = Exn e -> ~ options_error e.
Definition never {A} (m : ST Rd A) : Prop := forall s a, fst (m s) <> Val a.

Lemma avoids_bind {A B'} (m : ST Rd A) (k : A -> ST Rd B') :
  avoids m -> (forall a, avoids (k a)) -> avoids (bind m k).
Proof.
  intros Hm Hk s e. specialize (Hm s). unfold bind.
  destruct (m s) as [[a|e'| |] s'] eqn:E; simpl in *; try done; [apply Hk|].
  intros [= ->]. by apply Hm.
Qed.

Lemma avoids_ret {A} (a : A) : avoids (ret a).
Proof. done. Qed.

Lemma avoids_throw {A} e : ~ options_error e -> avoids (@throw Rd A e).
Proof. by intros He s e' [= <-]. Qed.

Lemma avoids_get n : avoids (@sr_get Rd O n).
Proof.
  intros s e He. pose proof (br_get n s) as H. rewrite He in H. destruct H as [what ->]. by intros [?|?].
Qed.

Lemma avoids_read n : avoids (@sr_read Rd O n).
Proof.
  intros s e He. pose proof (br_read n s) as H. rewrite He in H. destruct H as [what ->]. by intros [?|?].
Qed.

Lemma full_meta_cell ci : meta_length eq ci -> avoids (@read_cell_data Rd O ci).
Proof.
  unfold meta_length, metadata_bytes_for_column_type, read_cell_data, read_blob, read_string,
    read_varchar, read_timestamp2, read_datetime2, read_time2, read_datetime_fractional_part,
    get_u8, get_u16l, get_u16b, get_u24l, get_u24b, get_u32l, get_u32b, get_u64l.
  intros (n & Hn & Hlen). revert Hn.
  destruct (ColumnType_of (ci_type ci)) as [[]|]; intros [= <-]; try rewrite Hlen;
    cbn [Z.eqb Pos.eqb negb];
    repeat lazymatch goal with
    | |- avoids (bind _ _) => apply avoids_bind; [|intros ?]
    | |- avoids (if ?c then _ else _) => destruct c
    | |- avoids (ret _) => apply avoids_ret
    | |- avoids (throw _) => apply avoids_throw; by intros [?|?]
    | |- avoids (sr_get _) => apply avoids_get
    | |- avoids (sr_read _) => apply avoids_read
    end.
Qed.

(** The two types that are stored with metadata that their cells do not need. *)
Definition reads_no_meta (ci : ColumnInfo) : Prop :=
  ColumnType_of (ci_type ci) = Some T_FLOAT \/ ColumnType_of (ci_type ci) = Some T_DOUBLE.

Lemma short_meta_cell ci : meta_length Z.lt ci -> ~ reads_no_meta ci -> never (@read_cell_data Rd O ci).
Proof.
  unfold meta_length, metadata_bytes_for_column_type, read_cell_data, read_blob, read_string,
    read_varchar, read_timestamp2, read_datetime2, read_time2, get_u32l, reads_no_meta.
  intros (n & Hn & Hlen) Hno s a. revert Hn. pose proof (zlen_nonneg (ci_type_meta ci)).
  destruct (ColumnType_of (ci_type ci)) as [[]|]; intros [= <-]; try lia; try done;
    try (destruct Hno; by auto);
    rewrite ?(proj2 (Z.eqb_neq (zlen (ci_type_meta ci)) 1)), ?(proj2 (Z.eqb_neq (zlen (ci_type_meta ci)) 2)) by lia;
    try done.
  unfold bind. destruct (sr_get 4 s) as [[d| | |] s']; done.
Qed.
End Avoids.

(** ** The loop over the rows *)

Section Rows.

(** [m] ends, and never moves the reader backwards; [m] moves it forward. *)
Definition shrinks {A} (m : ST rdr A) : Prop :=
  forall s, fst (m s) <> NoFuel /\
    (length (sr_rest (snd (m s))) <= length (sr_rest s))%nat.
Definition shrinks1 {A} (m : ST rdr A) : Prop :=
  forall s, fst (m s) <> NoFuel /\
    (length (sr_rest (snd (m s))) <= length (sr_rest s))%nat /\
    (forall a, fst (m s) = Val a -> (length (sr_rest (snd (m s))) < length (sr_rest s))%nat).

Lemma shrinks_bind {A B} (m : ST rdr A) (k : A -> ST rdr B) :
  shrinks m -> (forall a, shrinks (k a)) -> shrinks (bind m k).
Proof.
  intros Hm Hk s. destruct (Hm s) as [H1 H2]. unfold bind.
  destruct (m s) as [[a| | |] s']; simpl in *; try done.
  destruct (Hk a s'). split; [done|lia].
Qed.

Lemma shrinks1_bind {A B} (m : ST rdr A) (k : A -> ST rdr B) :
  shrinks1 m -> (forall a, shrinks (k a)) -> shrinks1 (bind m k).
Proof.
  intros Hm Hk s. destruct (Hm s) as (H1 & H2 & H3). unfold bind.
  destruct (m s) as [[a| | |] s']; simpl in *; try done.
  destruct (Hk a s'). specialize (H3 a eq_refl). split_and!; [done|lia|intros; lia].
Qed.

Lemma shrinks1_bind_r {A B} (m : ST rdr A) (k : A -> ST rdr B) :
  shrinks m -> (forall a, shrinks1 (k a)) -> shrinks1 (bind m k).
Proof.
  intros Hm Hk s. destruct (Hm s) as [H1 H2]. unfold bind.
  destruct (m s) as [[a| | |] s']; simpl in *; try done.
  destruct (Hk a s') as (? & ? & H3). split_and!; [done|lia|]. intros b Hb. specialize (H3 b Hb). lia.
Qed.

Lemma shrinks1_weaken {A} (m : ST rdr A) : shrinks1 m -> shrinks m.
Proof. intros Hm s. by destruct (Hm s) as (? & ? & _). Qed.

Lemma shrinks_ret {A} (a : A) : shrinks (ret a).
Proof. by split. Qed.

Lemma shrinks_throw {A} e : shrinks (@throw rdr A e).
Proof. by split. Qed.

Lemma shrinks_undef {A} : shrinks (@undef rdr A).
Proof. by split. Qed.

Lemma shrinks_gets {A} (f : rdr -> A) : shrinks (gets f).
Proof. by split. Qed.

Lemma shrinks_get n : shrinks (spec_get n).
Proof.
  intros s. unfold spec_get. destruct (_ <? _); simpl; [by split|].
  split; [done|]. unfold zdrop. rewrite length_drop. lia.
Qed.

Lemma shrinks_read n : shrinks (spec_sr_read n).
Proof.
  intros s. unfold spec_sr_read. destruct (_ <? _); simpl; [by split|].
  split; [done|]. unfold zdrop. rewrite length_drop. lia.
Qed.

Lemma shrinks1_read n : 1 <= n -> shrinks1 (spec_sr_read n).
Proof.
  intros Hn s. unfold spec_sr_read. destruct (Z.ltb_spec (zlen (sr_rest s)) n); simpl; [by split|].
  unfold zdrop, zlen in *. rewrite length_drop. split_and!; [done|lia|intros; lia].
Qed.

Ltac shrinks_auto :=
  repeat lazymatch goal with
  | |- shrinks (bind _ _) => apply shrinks_bind; [|intros ?]
  | |- shrinks (match ?c with _ => _ end) => destruct c
  | |- shrinks (ret _) => apply shrinks_ret
  | |- shrinks (throw _) => apply shrinks_throw
  | |- shrinks undef => apply shrinks_undef
  | |- shrinks (gets _) => apply shrinks_gets
  | |- shrinks (sr_get _) => apply shrinks_get
  | |- shrinks (sr_read _) => apply shrinks_read
  end.

Lemma read_cell_data_shrinks ci : shrinks (@read_cell_data rdr spec_reader ci).
Proof.
  unfold read_cell_data, read_blob, read_string, read_varchar, read_timestamp2, read_datetime2,
    read_time2, read_datetime_fractional_part, get_u8, get_u16l, get_u16b, get_u24l, get_u24b,
    get_u32l, get_u32b, get_u64l. shrinks_auto.
Qed.

Lemma read_cells_shrinks cols nulls : shrinks (@read_cells rdr spec_reader cols nulls).
Proof.
  revert nulls. induction cols as [|ci cols IH]; intros nulls; simpl; [shrinks_auto|].
  destruct nulls as [|n nulls]; [shrinks_auto|].
  apply shrinks_bind; [destruct n; [shrinks_auto|apply read_cell_data_shrinks]|].
  intros v. apply shrinks_bind; [apply IH|intros; shrinks_auto].
Qed.

(** Rows of at least one column start with at least one byte of null bits. *)
Lemma read_row_data_shrinks ti :
  1 <= zlen (ti_columns ti) < 2 ^ 63 -> shrinks1 (@read_row_data rdr spec_reader ti).
Proof.
  intros Hn. unfold read_row_data, get_bitmask. apply shrinks1_bind.
  - apply shrinks1_bind; [|intros; shrinks_auto]. apply shrinks1_read.
    unfold u64. rewrite Z.mod_small by lia. apply Z.div_le_lower_bound; lia.
  - intros nulls. apply shrinks_bind; [apply read_cells_shrinks|intros; shrinks_auto].
Qed.

Lemma read_row_change_shrinks wt p ti :
  1 <= zlen (ti_columns ti) < 2 ^ 63 -> shrinks1 (@read_row_change rdr spec_reader wt p ti).
Proof.
  intros Hn. pose proof (read_row_data_shrinks ti Hn) as Hr.
  unfold read_row_change, row_bytes. apply shrinks1_bind_r; [shrinks_auto|intros start].
  destruct wt.
  1, 3: apply shrinks1_bind; [done|intros; shrinks_auto].
  apply shrinks1_bind_r.
  - destruct p; [|shrinks_auto].
    apply shrinks_bind; [by apply shrinks1_weaken|intros; shrinks_auto].
  - intros [[pb pre] st]. apply shrinks1_bind; [done|intros; shrinks_auto].
Qed.

Lemma read_rows_ends fuel wt p ti s :
  1 <= zlen (ti_columns ti) < 2 ^ 63 -> zlen (sr_rest s) < Z.pos fuel ->
  fst (@read_rows rdr spec_reader fuel wt p ti s) <> NoFuel.
Proof.
  intros Hn Hf. unfold read_rows.
  refine (loop_rule _ (fun _ _ => True) (fun _ s => length (sr_rest s))
            (fun o _ => o <> NoFuel) _ fuel [] s I _); [|unfold zlen in Hf; lia].
  intros rows s' _. unfold bind, gets. destruct (sr_eof s'); [done|].
  destruct (read_row_change_shrinks wt p ti Hn s') as (H1 & H2 & H3).
  destruct (read_row_change wt p ti s') as [[rc|e| |] s'']; simpl in *; try done.
  split; [done|]. by apply (H3 rc).
Qed.

Lemma spec_sr_read_0 r : spec_sr_read 0 r = (Val [], r).
Proof.
  destruct r as [k l]. unfold spec_sr_read. cbn [sr_rest sr_done].
  destruct (Z.ltb_spec (zlen l) 0); [pose proof (zlen_nonneg l); lia|].
  by rewrite ztake_0, zdrop_0, Z.add_0_r.
Qed.

(** A row without columns takes no bytes. *)
Lemma read_row_data_no_columns ti r :
  ti_columns ti = [] -> @read_row_data rdr spec_reader ti r = (Val [], r).
Proof.
  intros Hc. unfold read_row_data, get_bitmask. rewrite Hc.
  change (u64 (zlen (@nil ColumnInfo) + 7) / 8) with 0. unfold bind.
  change (@sr_read rdr spec_reader 0) with (spec_sr_read 0). by rewrite spec_sr_read_0.
Qed.

Lemma read_row_change_no_columns wt p ti r :
  ti_columns ti = [] -> exists rc, @read_row_change rdr spec_reader wt p ti r = (Val rc, r).
Proof.
  intros Hc. pose proof (read_row_data_no_columns ti r Hc) as Hr.
  unfold read_row_change, bind, row_bytes, gets, ret.
  destruct wt, p; rewrite ?Hr; eauto.
Qed.

Lemma read_rows_no_columns fuel wt p ti k c l :
  ti_columns ti = [] ->
  fst (@read_rows rdr spec_reader fuel wt p ti (Rdr k (c :: l))) = NoFuel.
Proof.
  intros Hc. unfold read_rows, loop.
  set (body := fun rows => _). unfold bind at 1. rewrite iter_pos_nat.
  assert (forall n rows, exists rows',
    iter_nat body n rows (Rdr k (c :: l)) = (Val (inl rows'), Rdr k (c :: l))) as Hi.
  { induction n as [|n IH]; intros rows; [by eexists|]. simpl. unfold bind at 1.
    destruct (read_row_change_no_columns wt p ti (Rdr k (c :: l)) Hc) as [rc Hrc].
    assert (body rows (Rdr k (c :: l)) = (Val (inl (rows ++ [rc])), Rdr k (c :: l))) as ->.
    { unfold body, bind, gets. simpl. by rewrite Hrc. }
    apply IH. }
  destruct (Hi (Pos.to_nat fuel) []) as [rows' ->]. done.
Qed.
End Rows.

(** ** A whole rows event *)

Section RowsEvent.
Context (n : nat) (b : BinlogProcessor).

(** With at most [n] bytes left, [m] ends; and when it succeeds at most [n] bytes
    are left, the processor is still [b], and the value satisfies [Q]. *)
Definition fits {A} (Q : A -> Prop) (m : ST (rdr * BinlogProcessor) A) : Prop :=
  forall r, (length (sr_rest r) <= n)%nat ->
    fst (m (r, b)) <> NoFuel /\
    (forall a, fst (m (r, b)) = Val a ->
       (length (sr_rest (fst (snd (m (r, b))))) <= n)%nat /\ snd (snd (m (r, b))) = b /\ Q a).
Definition ends_within {A} (m : ST (rdr * BinlogProcessor) A) : Prop :=
  forall r, (length (sr_rest r) <= n)%nat -> fst (m (r, b)) <> NoFuel.

Lemma ends_bind {A B} Q (m : ST (rdr * BinlogProcessor) A) (k : A -> ST (rdr * BinlogProcessor) B) :
  fits Q m -> (forall a, Q a -> ends_within (k a)) -> ends_within (bind m k).
Proof.
  intros Hm Hk r Hr. destruct (Hm r Hr) as [H1 H2]. unfold bind.
  destruct (m (r, b)) as [[a| | |] [r' b']]; simpl in *; try done.
  destruct (H2 a eq_refl) as (Hr' & -> & HQ). by apply Hk.
Qed.

Lemma fits_on_fst {A} (m : ST rdr A) : shrinks m -> fits (fun _ => True) (on_fst m).
Proof.
  intros Hm r Hr. destruct (Hm r) as [H1 H2]. unfold on_fst, focus. simpl.
  destruct (m r) as [o r']. simpl in *. split; [done|]. intros a _. repeat split. lia.
Qed.

Lemma fits_ret {A} (a : A) : fits (fun _ => True) (ret a).
Proof. by intros r Hr. Qed.

Lemma fits_throw {A} e : fits (fun _ : A => True) (throw e).
Proof. by intros r Hr. Qed.

Lemma fits_table id :
  fits (fun o => o = bp_table_map b !! id) (on_snd (gets (fun b => bp_table_map b !! id))).
Proof. intros r Hr. split; [done|]. by intros a [= <-]. Qed.
End RowsEvent.

Section RowsEventEnds.

Lemma shrinks_get_header : shrinks (@get_header rdr spec_reader).
Proof. unfold get_header. apply shrinks_bind; [apply shrinks_get|intros; apply shrinks_ret]. Qed.

Lemma shrinks_int k f : shrinks (let! d := spec_get k in ret (f d : Z)).
Proof. apply shrinks_bind; [apply shrinks_get|intros; apply shrinks_ret]. Qed.

Lemma shrinks_get_varint : shrinks (@get_varint rdr spec_reader).
Proof.
  unfold get_varint, get_u8. apply shrinks_bind; [apply shrinks_int|intros v].
  repeat case_match; first [apply shrinks_ret | apply shrinks_throw | apply shrinks_int].
Qed.

Lemma shrinks_check_present k : shrinks (@check_present rdr spec_reader k).
Proof.
  unfold check_present, get_bitmask.
  repeat (apply shrinks_bind; [|intros ?]); repeat case_match;
    first [apply shrinks_read | apply shrinks_throw | apply shrinks_ret | apply shrinks_undef].
Qed.

Lemma read_rows_event_ends data b :
  map_Forall (fun _ ti => 1 <= zlen (ti_columns ti) < 2 ^ 63) (bp_table_map b) ->
  fst (@read_rows_event rdr spec_reader data (Rdr 0 data, b)) <> NoFuel.
Proof.
  intros Hb. assert (ends_within (length data) b (@read_rows_event rdr spec_reader data)) as He;
    [|by apply He].
  unfold read_rows_event.
  apply (ends_bind _ _ _ _ _ (fits_on_fst _ _ _ shrinks_get_header)). intros header _.
  destruct (rows_kind _) as [[[wt v2] pre]|]; [|done].
  apply (ends_bind _ _ _ _ _ (fits_on_fst _ _ _ (shrinks_int _ _))). intros id _.
  apply (ends_bind _ _ (fun _ => True)). { destruct (_ =? _); [apply fits_throw|apply fits_ret]. }
  intros _ _. apply (ends_bind _ _ _ _ _ (fits_table _ _ id)). intros [ti|] Hti; [|done].
  symmetry in Hti. specialize (Hb _ _ Hti).
  apply (ends_bind _ _ _ _ _ (fits_on_fst _ _ _ (shrinks_int _ _))). intros flags _.
  apply (ends_bind _ _ (fun _ => True)).
  { destruct v2; [|apply fits_ret]. apply fits_on_fst.
    apply shrinks_bind; [apply shrinks_int|intros; apply shrinks_read]. }
  intros extra _. apply (ends_bind _ _ _ _ _ (fits_on_fst _ _ _ shrinks_get_varint)). intros nc _.
  apply (ends_bind _ _ (fun _ => True)). { destruct (negb _); [apply fits_throw|apply fits_ret]. }
  intros _ _. apply (ends_bind _ _ _ _ _ (fits_on_fst _ _ _ (shrinks_check_present nc))). intros _ _.
  apply (ends_bind _ _ (fun _ => True)).
  { destruct pre; [apply fits_on_fst, shrinks_check_present|apply fits_ret]. }
  intros _ _ r Hr. pose proof (read_rows_ends (rows_fuel data) wt pre ti r Hb) as Hrows.
  unfold bind at 1, on_fst, focus. cbn [fst]. unfold rows_fuel, zlen in *.
  destruct (read_rows _ wt pre ti r) as [[rows| | |] r'] eqn:E; simpl; try done.
  exfalso. apply Hrows; [lia|done].
Qed.
End RowsEventEnds.

(** ** Properties *)

Section Properties.
Context {Rd : Type} {O : ReaderOps Rd} {R : Rd -> rdr -> Prop} {L : ReaderLaws O R}.

(** A DATETIME2 cell is decoded to the date that was stored: from the 40-bit
    word of any date with a real month, followed by its fraction at any precision
    from 0 to 6, [read_cell_data] answers that date, with the microseconds the
    precision keeps, and takes exactly those bytes. *)
Theorem datetime2_cell v p nullable rest k r :
  datetime2_ok v -> (p <= 6)%nat ->
  let f := frac_bytes p (dt_usecs v) in
  R r (Rdr k (be_encode 5 (datetime2_word v) ++ f ++ rest)) ->
  delivers no_failure R
    (read_cell_data (mkColumnInfo (ColumnType_val T_DATETIME2) [byte_of (Z.of_nat p)] nullable)) r
    (Val (VDateTime (mkDateTime (dt_years v) (dt_months v) (dt_days v) (dt_hours v)
       (dt_minutes v) (dt_seconds v) (frac_usecs p (dt_usecs v)))))
    (Rdr (k + 5 + zlen f) rest).
Proof.
  intros Hv Hp f HR. eapply refines_delivers; [apply read_cell_data_refines|done| |done].
  by apply read_datetime2_spec.
Qed.

(** A TIME2 cell without a fraction is decoded to the time that was stored,
    negative times (kept in complement) included; for nonnegative times so is the
    fraction at any precision. *)
Theorem time2_cell v p nullable rest k r :
  time2_ok v -> (p <= 6)%nat ->
  (tv_is_negative v = true -> p = 0%nat /\ 0 < tv_hours v + tv_minutes v + tv_seconds v) ->
  let f := frac_bytes p (tv_usecs v) in
  R r (Rdr k (be_encode 3 (time2_word v) ++ f ++ rest)) ->
  delivers no_failure R
    (read_cell_data (mkColumnInfo (ColumnType_val T_TIME2) [byte_of (Z.of_nat p)] nullable)) r
    (Val (VTime (mkTime (tv_is_negative v) (tv_hours v) (tv_minutes v) (tv_seconds v)
       (frac_usecs p (tv_usecs v)))))
    (Rdr (k + 3 + zlen f) rest).
Proof.
  intros Hv Hp Hn f HR. eapply refines_delivers; [apply read_cell_data_refines|done| |done].
  apply read_time2_spec; [done|done|]. intros H. by apply Hn.
Qed.

Lemma run_op_refines op data :
  refines no_failure eq (@run_op Rd O op data) (@run_op rdr spec_reader op data).
Proof.
  unfold run_op, discard. destruct op; (apply refines_bind; [|intros; apply refines_ret]).
  - apply parse_table_map_event_refines.
  - apply parse_rows_event_refines.
  - apply parse_query_event_refines.
  - apply parse_rotate_event_refines.
  - apply parse_xid_event_refines.
  - apply parse_format_description_event_refines.
  - unfold parse_unknown_event. refine_auto.
Qed.

(** Parsing a rows event ends: when every table of the map has a column, the
    loop over the rows leaves within as many rounds as the event has bytes. *)
Theorem parse_rows_event_ends data b :
  map_Forall (fun _ ti => 1 <= zlen (ti_columns ti) < 2 ^ 63) (bp_table_map b) ->
  fst (@parse_rows_event rdr spec_reader data b) <> Undef ->
  fst (parse_rows_event data b) <> NoFuel.
Proof.
  intros Hb Hu. destruct (parse_rows_event_refines data b b eq_refl) as [?|[(? & _ & [])|[-> _]]]; [done|].
  pose proof (read_rows_event_ends data b Hb) as He.
  unfold parse_rows_event, with_local. simpl. by destruct (read_rows_event data _) as [o [r b']].
Qed.
End Properties.

(** The processor after it has been given events, whether each was parsed or
    failed; [within] says of one that its parse does not run past its end. *)
Definition parse_all {Rd} {O : ReaderOps Rd} (events : list (parse_op * bytes)) (b : BinlogProcessor)
    : BinlogProcessor :=
  foldl (fun b ev => snd (run_op (fst ev) (snd ev) b)) b events.
Definition within (b : BinlogProcessor) (ev : parse_op * bytes) : Prop :=
  fst (@run_op rdr spec_reader (fst ev) (snd ev) b) <> Undef.
Fixpoint all_within (events : list (parse_op * bytes)) (b : BinlogProcessor) : Prop :=
  match events with
  | [] => True
  | ev :: events => within b ev /\ all_within events (snd (@run_op rdr spec_reader (fst ev) (snd ev) b))
  end.

Lemma parse_all_wf {Rd} {O : ReaderOps Rd} (P : Z -> Z -> Prop) events : forall b,
  (forall n, 0 <= n -> post (@sr_read Rd O n) (fun d => P (zlen d) n)) ->
  wf_processor P b -> wf_processor P (parse_all events b).
Proof. induction events as [|ev events IH]; intros b Hread Hb; [done|]. by apply IH, run_op_wf. Qed.

Lemma parse_all_within {Rd} {O : ReaderOps Rd} {R : Rd -> rdr -> Prop} {L : ReaderLaws O R} events : forall b,
  all_within events b -> parse_all events b = @parse_all rdr spec_reader events b.
Proof.
  induction events as [|[op data] events IH]; intros b; [done|]. intros [Hw Ha]. cbn in *.
  destruct (run_op_refines op data b b eq_refl) as [?|[(e & _ & [])|[_ ->]]]; [done|]. by apply IH.
Qed.

(** C28: whatever events a processor has been given, cut short or not, parsed
    successfully or not, and with any string reader that answers what is left at the
    end of a string: every column of every table it knows has a type with metadata
    of a known length, and at most that many bytes of it. When it has that many, the
    "invalid type options" checks of [read_cell_data] never fire; when it has fewer,
    no cell of it is ever answered, except of FLOAT and DOUBLE, which do not look at
    it. With a reader that keeps the contract, metadata is never short when no event
    was. *)
Theorem table_map_invariant {Rd} {O : ReaderOps Rd} {B : BoundedReader O} events id ti ci :
  bp_table_map (parse_all events BinlogProcessor_new) !! id = Some ti -> ci ∈ ti_columns ti ->
  exists n, metadata_bytes_for_column_type (ci_type ci) = Val n /\
    zlen (ci_type_meta ci) <= n /\
    (forall r e, fst (read_cell_data ci r) = Exn e -> options_error e -> zlen (ci_type_meta ci) < n) /\
    (zlen (ci_type_meta ci) < n -> ~ reads_no_meta ci -> forall r v, fst (read_cell_data ci r) <> Val v) /\
    (forall R, ReaderLaws O R -> all_within events BinlogProcessor_new -> zlen (ci_type_meta ci) = n).
Proof.
  intros Hti Hci.
  assert (forall P, wf_processor P BinlogProcessor_new) as H0 by (intros; apply map_Forall_empty).
  pose proof (parse_all_wf Z.le events _ bounded_read_post (H0 _)) as Hwf.
  destruct (proj1 (Forall_forall _ _) (Hwf id ti Hti) ci Hci) as (n & Hn & Hle).
  exists n. split_and!; [done|done| | |].
  - intros r e He Ho. destruct (decide (zlen (ci_type_meta ci) = n)) as [Hm|]; [|lia].
    destruct (full_meta_cell ci) with (s := r) (e := e); [by exists n|done|done].
  - intros Hlt Hno r v. by apply short_meta_cell; [exists n|].
  - intros R L Hw. rewrite (parse_all_within events _ Hw) in Hti.
    pose proof (parse_all_wf (O := spec_reader) eq events _ spec_sr_read_post (H0 _)) as Hwf'.
    destruct (proj1 (Forall_forall _ _) (Hwf' id ti Hti) ci Hci) as (n' & Hn' & ->). congruence.
Qed.

(** A parse that fails leaves the processor as it was: position, file name and
    table map change only when the whole event has been read. This needs nothing
    from the string reader. *)
Theorem failed_parse_keeps_processor {Rd} {O : ReaderOps Rd} op data b :
  fst (run_op op data b) = Val tt \/ snd (run_op op data b) = b.
Proof. apply run_op_keeps. Qed.

(** For a table without columns, which a table map event can announce, the
    loop over the rows never ends when any byte is left: no number of rounds is
    enough, since such a row takes no bytes. *)
Theorem zero_column_rows_never_end fuel wt has_preimage ti k c rest :
  ti_columns ti = [] ->
  fst (@read_rows rdr spec_reader fuel wt has_preimage ti (Rdr k (c :: rest))) = NoFuel.
Proof. apply read_rows_no_columns. Qed.

(** [parse_table_map_event] registers the table it read and advances the
    position, but the event it returns never carries the table: its [ti] stays
    null. *)
Theorem table_map_event_has_no_table {Rd} {O : ReaderOps Rd} data b :
  match parse_table_map_event data b with
  | (Val ev, b') =>
      tme_ti ev = None /\ is_Some (bp_table_map b' !! tme_table_id ev) /\
      bp_position b' = eh_end_position (tme_header ev)
  | _ => True
  end.
Proof.
  destruct (parse_table_map_event data b) as [[ev| | |] b'] eqn:E; try done.
  revert E. unfold parse_table_map_event, with_local, bind, on_fst, focus. simpl.
  destruct (read_table_info (sr_new data)) as [[[ev' ti]| | |] r] eqn:E; try done.
  intros [= -> <-]. simpl. rewrite lookup_insert, decide_True by done. split_and!; [|by eexists|done].
  revert E. unfold read_table_info.
  assert (post (@read_table_info Rd O) (fun p => tme_ti (fst p) = None)) as Hp.
  { unfold read_table_info. do 16 (apply (post_bind _ _ _ _ (post_true _)); intros ? _).
    by apply post_ret. }
  intros E. by apply Hp in E.
Qed.

(** ** Witnesses *)

(** A table map event for the table [d.t], a DATETIME2 and a nullable TINYINT. *)
Definition sample_table_map : bytes :=
  encode_header (mkHeader 1 19 2 46 100 0) ++ le_encode 6 7 ++ le_encode 2 1 ++
  [Byte.x01; Byte.x64; Byte.x00; Byte.x01; Byte.x74; Byte.x00] ++
  [Byte.x02; Byte.x12; Byte.x01] ++ [Byte.x01; Byte.x00] ++ [Byte.x02].
Definition sample_columns : list ColumnInfo :=
  [mkColumnInfo 0x12 [Byte.x00] false; mkColumnInfo 1 [] true].
(** A write event with the rows [(2021-03-14 15:09:26, 5)] and [(..., NULL)]. *)
Definition sample_date : DateTimeValue := mkDateTime 2021 3 14 15 9 26 0.
Definition sample_rows : bytes :=
  encode_header (mkHeader 1 30 2 50 150 0) ++ le_encode 6 7 ++ le_encode 2 1 ++ le_encode 2 2 ++
  [Byte.x02; Byte.x03] ++
  [Byte.x00] ++ be_encode 5 (datetime2_word sample_date) ++ [Byte.x05] ++
  [Byte.x02] ++ be_encode 5 (datetime2_word sample_date).

Definition after_table_map : BinlogProcessor :=
  snd (@parse_table_map_event rdr spec_reader sample_table_map BinlogProcessor_new).

(** The sample events parse to what they say. *)
Example parse_samples :
  map_to_list (bp_table_map after_table_map) =
    [(7, mkTableInfo (str "d") (str "t") sample_columns)] /\
  fst (@parse_rows_event rdr spec_reader sample_rows after_table_map) =
    Val (mkRowsEvent (mkHeader 1 30 2 50 150 0) INSERT 7
      (mkTableInfo (str "d") (str "t") sample_columns) 1 []
      [mkRowChange 0 7 [] [VDateTime sample_date; VUint 5];
       mkRowChange 0 6 [] [VDateTime sample_date; VNull]]).
Proof. split; vm_compute; reflexivity. Qed.

Lemma datetime2_cell_witness :
  delivers no_failure eq
    (@read_cell_data rdr spec_reader (mkColumnInfo 0x12 [Byte.x02] false))
    (Rdr 0 (be_encode 5 (datetime2_word sample_date) ++ [Byte.x35] ++ [Byte.x61]))
    (Val (VDateTime (mkDateTime 2021 3 14 15 9 26 530000))) (Rdr 6 [Byte.x61]).
Proof.
  apply (datetime2_cell (O := spec_reader) (mkDateTime 2021 3 14 15 9 26 535897) 2 false
    [Byte.x61] 0); [|lia|reflexivity].
  unfold datetime2_ok. simpl. lia.
Defined.

Lemma time2_cell_witness :
  delivers no_failure eq
    (@read_cell_data rdr spec_reader (mkColumnInfo 0x13 [Byte.x00] false))
    (Rdr 0 (be_encode 3 (0x800000 - (838 * 4096 + 59 * 64 + 58)) ++ [Byte.x61]))
    (Val (VTime (mkTime true 838 59 58 0))) (Rdr 3 [Byte.x61]).
Proof.
  apply (time2_cell (O := spec_reader) (mkTime true 838 59 58 0) 0 false [Byte.x61] 0);
    [unfold time2_ok; simpl; lia|lia|split; [reflexivity|simpl; lia]|reflexivity].
Defined.

(** The sample event with the metadata of its DATETIME2 column cut out. *)
Definition short_table_map : bytes :=
  encode_header (mkHeader 1 19 2 46 100 0) ++ le_encode 6 8 ++ le_encode 2 1 ++
  [Byte.x01; Byte.x64; Byte.x00; Byte.x01; Byte.x74; Byte.x00] ++
  [Byte.x02; Byte.x12; Byte.x01] ++ [Byte.x00] ++ [Byte.x02].
Definition given : BinlogProcessor :=
  @parse_all rdr clamping_reader [(OpTableMap, sample_table_map); (OpTableMap, short_table_map)] BinlogProcessor_new.

Lemma table_map_invariant_witness :
  let ci := mkColumnInfo 0x12 [] false in
  bp_table_map given !! 8 = Some (mkTableInfo (str "d") (str "t") [ci; mkColumnInfo 1 [] true]) /\
  (forall r v, fst (@read_cell_data rdr clamping_reader ci r) <> Val v).
Proof.
  intros ci. set (ti := mkTableInfo (str "d") (str "t") [ci; mkColumnInfo 1 [] true]).
  assert (bp_table_map given !! 8 = Some ti) as Hl by (vm_compute; reflexivity).
  split; [exact Hl|].
  destruct (table_map_invariant (O := clamping_reader)
    [(OpTableMap, sample_table_map); (OpTableMap, short_table_map)] 8 ti ci Hl) as (n & Hn & _ & _ & Hc & _);
    [by left|].
  injection Hn as <-. apply Hc; [reflexivity|by intros [?|?]].
Defined.

Lemma parse_rows_event_ends_witness :
  fst (@parse_rows_event rdr spec_reader sample_rows after_table_map) <> NoFuel.
Proof.
  apply (parse_rows_event_ends (O := spec_reader) (R := eq)).
  - assert (bp_table_map after_table_map = {[7 := mkTableInfo (str "d") (str "t") sample_columns]})
      as -> by (vm_compute; reflexivity).
    apply map_Forall_singleton. vm_compute. split; [discriminate|reflexivity].
  - vm_compute. discriminate.
Defined.

Lemma zero_column_rows_never_end_witness :
  fst (@read_rows rdr spec_reader 1000 INSERT false (mkTableInfo [] [] []) (Rdr 0 [Byte.x61])) = NoFuel.
Proof. apply zero_column_rows_never_end. reflexivity. Defined.
