(* ===== verification/BinlogBounds.v ===== *)
(** * Bounds of what the binlog parser reads

    The values of a parsed row lie in the range that the types of their columns
    call for, and a row has one value for each column of its table. *)
From stdpp Require Import tactics base list numbers strings.
From S2P Require Import Prelude StringReader ProtocolBuffer MySQLTypes Binlog.

(** ** The range of a column type *)

(** The fraction of a date or time at a precision from 0 to 6, in microseconds. *)
Definition fraction_of (precision usecs : Z) : Prop :=
  if precision =? 0 then usecs = 0
  else if precision <=? 2 then exists f, 0 <= f < 2 ^ 8 /\ usecs = f * 10000
  else if precision <=? 4 then exists f, 0 <= f < 2 ^ 16 /\ usecs = f * 100
  else precision <= 6 /\ 0 <= usecs < 2 ^ 24.

Definition date_bounded (precision : Z) (d : DateTimeValue) : Prop :=
  0 <= dt_years d < 2 ^ 16 /\ 0 <= dt_months d < 13 /\ 0 <= dt_days d < 32 /\
  0 <= dt_hours d < 32 /\ 0 <= dt_minutes d < 64 /\ 0 <= dt_seconds d < 64 /\
  fraction_of precision (dt_usecs d).
Definition time_bounded (precision : Z) (t : TimeValue) : Prop :=
  0 <= tv_hours t < 1024 /\ 0 <= tv_minutes t < 64 /\ 0 <= tv_seconds t < 64 /\
  fraction_of precision (tv_usecs t).

Definition uint_below (bound : Z) (v : Value) : Prop := exists n, v = VUint n /\ 0 <= n < bound.
Definition string_within (max : Z) (v : Value) : Prop := exists s, v = VString s /\ zlen s <= max.

(** The longest string that a length of one or two bytes announces, by the width
    of the column. *)
Definition max_length (width : Z) : Z := if 255 <? width then 2 ^ 16 - 1 else 2 ^ 8 - 1.

(** The values of a column: by its type and, where the type has any, its metadata. *)
Definition value_bounded (ci : ColumnInfo) (v : Value) : Prop :=
  match ColumnType_of (ci_type ci) with
  | Some T_NULL => v = VNull
  | Some T_TINYINT | Some T_YEAR => uint_below (2 ^ 8) v
  | Some T_SMALLINT => uint_below (2 ^ 16) v
  | Some T_MEDIUMINT => uint_below (2 ^ 24) v
  | Some T_INT | Some T_TIMESTAMP2 => uint_below (2 ^ 32) v
  | Some T_BIGINT => uint_below (2 ^ 64) v
  | Some T_TIMESTAMP => exists secs, v = VUint (secs * 1000000) /\ 0 <= secs < 2 ^ 32
  | Some T_FLOAT => exists bits, v = VFloat bits /\ 0 <= bits < 2 ^ 32
  | Some T_DOUBLE => exists bits, v = VDouble bits /\ 0 <= bits < 2 ^ 64
  | Some T_TINYBLOB | Some T_MEDIUMBLOB | Some T_LONGBLOB | Some T_BLOB | Some T_GEOMETRY
  | Some T_JSON => 1 <= meta ci 0 <= 4 /\ string_within (2 ^ (8 * meta ci 0) - 1) v
  | Some T_ENUM | Some T_SET | Some T_STRING =>
      if bool_decide (meta ci 0 = ColumnType_val T_SET \/ meta ci 0 = ColumnType_val T_ENUM)
      then string_within (u64 (s8 (meta ci 1))) v
      else string_within
        (max_length (u16 (Z.lxor (Z.land (Z.shiftl (u16 (s8 (meta ci 0))) 4) 0x300) 0x300 + meta ci 1))) v
  | Some T_VARCHAR => string_within (max_length (le_decode (ci_type_meta ci))) v
  | Some T_DATETIME2 => exists d, v = VDateTime d /\ date_bounded (meta ci 0) d
  | Some T_TIME2 => exists t, v = VTime t /\ time_bounded (meta ci 0) t
  | _ => False
  end.

(** What a row has for a column. *)
Definition cell_bounded (ci : ColumnInfo) (v : Value) : Prop :=
  (v = VNull /\ ci_nullable ci = true) \/ value_bounded ci v.

(** ** Computations that read integers *)

Lemma post_weaken {S A} (m : ST S A) (P Q : A -> Prop) :
  post m P -> (forall a, P a -> Q a) -> post m Q.
Proof. intros Hm HPQ s a s' H. by eapply HPQ, Hm. Qed.

Lemma post_loop {S A B} (body : A -> ST S (A + B)) (Inv : A -> Prop) (Q : B -> Prop) :
  (forall a, Inv a -> post (body a) (fun r => match r with inl a' => Inv a' | inr b => Q b end)) ->
  forall p a, Inv a -> post (loop body p a) Q.
Proof.
  intros Hbody p a Ha s b s'. unfold loop, bind. rewrite iter_pos_nat.
  generalize (Pos.to_nat p) as n. intros n. revert a s Ha.
  induction n as [|n IH]; intros a s Ha; [done|]. simpl. unfold bind.
  pose proof (Hbody a Ha s) as Hb. destruct (body a s) as [[[a'|b']| | |] s1]; try done.
  - apply IH. exact (Hb _ _ eq_refl).
  - intros [= <- _]. exact (Hb _ _ eq_refl).
Qed.

Section Cells.
Context {Rd : Type} {O : ReaderOps Rd} {B : BoundedReader O}.

(** A fixed-size get has as many bytes as it asks for. *)
Lemma get_bytes_post n : 0 <= n -> post (@sr_get Rd O n) (fun d => zlen d = n).
Proof. intros Hn s d s' E. pose proof (br_get n s) as H. rewrite E in H. by apply H. Qed.

Lemma get_le_post n : 0 <= n ->
  post (let! d := @sr_get Rd O n in ret (le_decode d)) (fun v => 0 <= v < 2 ^ (8 * n)).
Proof.
  intros Hn. eapply post_bind; [by apply get_bytes_post|]. intros d Hd. apply post_ret.
  rewrite <- Hd. apply le_decode_range.
Qed.

Lemma get_be_post n : 0 <= n ->
  post (let! d := @sr_get Rd O n in ret (be_decode d)) (fun v => 0 <= v < 2 ^ (8 * n)).
Proof.
  intros Hn. eapply post_bind; [by apply get_bytes_post|]. intros d Hd. apply post_ret.
  rewrite <- Hd. apply be_decode_range.
Qed.

Ltac get_post := first [apply get_le_post; lia | apply get_be_post; lia].

(** Where a computation reads an integer and goes on: its range is known from there. *)
Ltac post_get :=
  eapply post_bind;
  [get_post|let v := fresh "v" in let H := fresh "H" in intros v H;
     cbv beta in H; match type of H with _ <= _ < ?b => let c := eval vm_compute in b in change b with c in H end].

Lemma byte_range b : 0 <= byte_val b < 256.
Proof. unfold byte_val. pose proof (N2Z.is_nonneg (Byte.to_N b)). pose proof (Byte.to_N_bounded b). lia. Qed.

Lemma fractional_part_post precision : 0 <= precision ->
  post (@read_datetime_fractional_part Rd O precision) (fraction_of precision).
Proof.
  intros Hp. unfold read_datetime_fractional_part, fraction_of, get_u8, get_u16b, get_u24b.
  destruct (Z.eqb_spec precision 0) as [->|]; [by apply post_ret|].
  destruct (Z.eqb_spec precision 1), (Z.eqb_spec precision 2), (Z.leb_spec precision 2); cbn [orb]; try lia;
    try (post_get; apply post_ret; eexists; split; [|done]; lia).
  destruct (Z.eqb_spec precision 3), (Z.eqb_spec precision 4), (Z.leb_spec precision 4); cbn [orb]; try lia;
    try (post_get; apply post_ret; eexists; split; [|done]; lia).
  destruct (Z.eqb_spec precision 5), (Z.eqb_spec precision 6); cbn [orb]; try lia; [..|apply post_throw];
    (eapply post_weaken; [get_post|]; intros u Hu; split; [lia|apply Hu]).
Qed.

Lemma land_ones_bound z n : 0 <= n -> 0 <= Z.land z (Z.ones n) < 2 ^ n.
Proof. intros Hn. rewrite Z.land_ones by done. apply Z.mod_pos_bound. lia. Qed.

Ltac by_hyp := match goal with H : _ <= Z.land _ _ < _ |- _ => apply H end.

Lemma datetime2_fields_bounded z p usecs :
  fraction_of p usecs -> date_bounded p (datetime2_fields z usecs).
Proof.
  intros Hu. unfold date_bounded. simpl.
  pose proof (land_ones_bound (Z.shiftr z 17) 5 ltac:(lia)). pose proof (land_ones_bound (Z.shiftr z 12) 5 ltac:(lia)).
  pose proof (land_ones_bound (Z.shiftr z 6) 6 ltac:(lia)). pose proof (land_ones_bound z 6 ltac:(lia)).
  assert (0 <= u64 (Z.shiftr z 22 + 7) mod 13 < 13) as Hm by (apply Z.mod_pos_bound; lia).
  assert (u8 (u64 (Z.shiftr z 22 + 7) mod 13) = u64 (Z.shiftr z 22 + 7) mod 13) as ->
    by (unfold u8; apply Z.mod_small; lia).
  split_and!; try (apply Z.mod_pos_bound; lia); try apply Hm; try apply Hu; by_hyp.
Qed.

Lemma time2_fields_bounded z p usecs :
  fraction_of p usecs -> time_bounded p (time2_fields z usecs).
Proof.
  intros Hu. unfold time_bounded. simpl. set (w := if _ : bool then _ else _).
  pose proof (land_ones_bound (Z.shiftr w 12) 10 ltac:(lia)).
  pose proof (land_ones_bound (Z.shiftr w 6) 6 ltac:(lia)). pose proof (land_ones_bound w 6 ltac:(lia)).
  split_and!; try apply Hu; by_hyp.
Qed.

(** A string whose length is known, and one whose length is read in front of it. *)
Lemma string_post n : 0 <= n ->
  post (let! s := @sr_read Rd O n in ret (VString s)) (string_within n).
Proof.
  intros Hn. eapply post_bind; [by apply bounded_read_post|]. intros s Hs. apply post_ret. by exists s.
Qed.
Lemma sized_string_post (m : ST Rd Z) max :
  post m (fun n => 0 <= n <= max) ->
  post (let! n := m in let! s := @sr_read Rd O n in ret (VString s)) (string_within max).
Proof.
  intros Hm. eapply post_bind; [done|]. intros n Hn. cbv beta in Hn.
  eapply post_weaken; [apply string_post; lia|]. intros v (s & -> & Hs). exists s. split; [done|lia].
Qed.
Lemma wide_string_post width :
  post (let! s := if 255 <? width then let! n := get_u16l in sr_read n else let! n := get_u8 in sr_read n in
        ret (VString s)) (string_within (max_length width)).
Proof.
  unfold max_length, get_u16l, get_u8. apply (post_bind _ _ (fun s => zlen s <= if 255 <? width then 2 ^ 16 - 1 else 2 ^ 8 - 1)).
  - destruct (255 <? width); (post_get; eapply post_weaken; [apply bounded_read_post; lia|]; cbv beta; lia).
  - intros s Hs. apply post_ret. by exists s.
Qed.

Lemma read_blob_post ci :
  post (@read_blob Rd O ci) (fun v => 1 <= meta ci 0 <= 4 /\ string_within (2 ^ (8 * meta ci 0) - 1) v).
Proof.
  unfold read_blob, get_u8, get_u16l, get_u24l, get_u32l. destruct (negb _); [apply post_throw|].
  destruct (Z.eqb_spec (meta ci 0) 1) as [->|]; [|destruct (Z.eqb_spec (meta ci 0) 2) as [->|];
    [|destruct (Z.eqb_spec (meta ci 0) 3) as [->|]; [|destruct (Z.eqb_spec (meta ci 0) 4) as [->|];
    [|apply (post_bind _ _ (fun _ => False)); [apply post_throw|done]]]]];
  (eapply post_weaken; [apply sized_string_post; eapply post_weaken; [get_post|];
     intros k Hk; cbv beta in Hk; split; [apply Hk|]; apply Z.lt_le_pred, Hk|]; intros v Hv; split; [lia|exact Hv]).
Qed.

Lemma u64_range z : 0 <= u64 z < 2 ^ 64.
Proof. apply Z.mod_pos_bound. lia. Qed.

Lemma read_string_post ci : (ColumnType_of (ci_type ci) = Some T_STRING \/
    ColumnType_of (ci_type ci) = Some T_ENUM \/ ColumnType_of (ci_type ci) = Some T_SET) ->
  post (@read_string Rd O ci) (value_bounded ci).
Proof.
  intros Ht. unfold read_string, value_bounded. destruct (negb _); [apply post_throw|].
  assert ((meta ci 0 =? ColumnType_val T_SET) || (meta ci 0 =? ColumnType_val T_ENUM) =
    bool_decide (meta ci 0 = ColumnType_val T_SET \/ meta ci 0 = ColumnType_val T_ENUM)) as ->.
  { destruct (Z.eqb_spec (meta ci 0) (ColumnType_val T_SET)), (Z.eqb_spec (meta ci 0) (ColumnType_val T_ENUM));
      symmetry; [apply bool_decide_eq_true; tauto..|apply bool_decide_eq_false; tauto]. }
  destruct Ht as [->|[->| ->]]; (destruct (bool_decide _);
    [apply string_post, u64_range|apply wide_string_post]).
Qed.

Lemma read_cell_post ci : post (@read_cell_data Rd O ci) (value_bounded ci).
Proof.
  pose proof (read_string_post ci) as Hs. unfold read_cell_data, value_bounded in *.
  unfold get_u8, get_u16l, get_u24l, get_u32l, get_u64l, uint_below.
  destruct (ColumnType_of (ci_type ci)) as [[]|]; try apply post_throw; try (by apply post_ret);
    try (apply Hs; tauto); try apply read_blob_post; clear Hs;
    try (post_get; apply post_ret; eexists; split; [done|lia]).
  - post_get. apply post_ret. exists v. unfold u64. rewrite Z.mod_small by lia. split; [done|lia].
  - unfold read_varchar. destruct (negb _); [apply post_throw|apply wide_string_post].
  - unfold read_timestamp2, get_u32l. post_get. destruct (negb _); [apply post_throw|].
    destruct (meta ci 0 =? 0); [apply post_ret; eexists; split; [done|lia]|].
    eapply post_bind; [apply post_true|]. intros _ _. apply post_ret. eexists. split; [done|lia].
  - unfold read_datetime2. destruct (negb _); [apply post_throw|].
    eapply post_bind; [apply post_true|intros hi _]. eapply post_bind; [apply post_true|intros lo _].
    eapply post_bind; [apply fractional_part_post, byte_range|intros u Hu]. apply post_ret.
    eexists. split; [done|]. by apply datetime2_fields_bounded.
  - unfold read_time2. destruct (negb _); [apply post_throw|].
    eapply post_bind; [apply post_true|intros z _].
    eapply post_bind; [apply fractional_part_post, byte_range|intros u Hu]. apply post_ret.
    eexists. split; [done|]. by apply time2_fields_bounded.
Qed.

(** ** Rows and events *)

Definition row_bounded (ti : BinlogTableInfo) (row : list Value) : Prop :=
  Forall2 cell_bounded (ti_columns ti) row.

(** An insertion has no row before, a deletion none after; an update may have only
    the row after. *)
Definition change_bounded (wt : WriteType) (ti : BinlogTableInfo) (rc : RowChange) : Prop :=
  match wt with
  | INSERT => rc_pre rc = [] /\ row_bounded ti (rc_post rc)
  | UPDATE => (rc_pre rc = [] \/ row_bounded ti (rc_pre rc)) /\ row_bounded ti (rc_post rc)
  | DELETE => row_bounded ti (rc_pre rc) /\ rc_post rc = []
  end.

Lemma read_cells_post columns nulls :
  post (@read_cells Rd O columns nulls) (Forall2 cell_bounded columns).
Proof.
  revert nulls. induction columns as [|ci columns IH]; intros nulls; cbn [read_cells];
    [by apply post_ret; constructor|]. destruct nulls as [|is_null nulls]; [done|].
  eapply (post_bind _ _ (cell_bounded ci)).
  - destruct is_null.
    + destruct (ci_nullable ci) eqn:E; [apply post_ret; by left|apply post_throw].
    + eapply post_weaken; [apply read_cell_post|]. by right.
  - intros v Hv. eapply post_bind; [apply IH|]. intros row Hr. apply post_ret. by constructor.
Qed.

Lemma read_row_post ti : post (@read_row_data Rd O ti) (row_bounded ti).
Proof.
  unfold read_row_data. eapply post_bind; [apply post_true|intros nulls _].
  eapply post_bind; [apply read_cells_post|intros row Hr].
  destruct (negb _); [apply post_throw|by apply post_ret].
Qed.

Lemma read_row_change_post wt has_preimage ti :
  post (@read_row_change Rd O wt has_preimage ti) (change_bounded wt ti).
Proof.
  unfold read_row_change. eapply post_bind; [apply post_true|intros start _].
  assert (forall A (k : Z -> A) start, post (let! n := @row_bytes Rd O start in ret (k n))
    (fun a => exists n, a = k n)) as Hn.
  { intros A k st. eapply post_bind; [apply post_true|]. intros n _. apply post_ret. by exists n. }
  destruct wt.
  - eapply post_bind; [apply read_row_post|intros row Hr].
    eapply post_weaken; [apply Hn|]. intros rc [n ->]. by split.
  - eapply (post_bind _ _ (fun p => snd (fst p) = [] \/ row_bounded ti (snd (fst p)))).
    + destruct has_preimage; [|apply post_ret; by left].
      eapply post_bind; [apply read_row_post|intros pre Hpre].
      eapply post_bind; [apply post_true|intros n _]. eapply post_bind; [apply post_true|intros st _].
      apply post_ret. by right.
    + intros [[pre_bytes pre] st] Hpre. simpl in Hpre.
      eapply post_bind; [apply read_row_post|intros row Hr].
      eapply post_weaken; [apply Hn|]. intros rc [n ->]. by split.
  - eapply post_bind; [apply read_row_post|intros row Hr].
    eapply post_weaken; [apply Hn|]. intros rc [n ->]. by split.
Qed.

Lemma read_rows_post fuel wt has_preimage ti :
  post (@read_rows Rd O fuel wt has_preimage ti) (Forall (change_bounded wt ti)).
Proof.
  unfold read_rows. apply (post_loop _ (Forall (change_bounded wt ti))); [|done].
  intros rows Hrows. eapply post_bind; [apply post_true|intros eof _].
  destruct (eof : bool); [by apply post_ret|].
  eapply post_bind; [apply read_row_change_post|intros rc Hrc]. apply post_ret.
  by apply Forall_app_2; [|constructor].
Qed.

Lemma post_on_fst {S T A} (m : ST S A) (Q : A -> Prop) : post m Q -> post (@on_fst S T A m) Q.
Proof.
  intros Hm [s t] a s'. unfold on_fst, focus. simpl. destruct (m s) as [o s1] eqn:E.
  intros [= -> _]. by apply (Hm s a s1).
Qed.

(** C29: every event that [parse_rows_event] returns is within bounds, whatever
    bytes it was given, whatever table maps before it, and with any string reader
    that answers what is left at the end of a string: each row has one value for each
    column of its table, null only if the column may be, and otherwise of the kind and
    in the range that the column's type, and its metadata, call for: a TINYINT or a
    YEAR is below 2^8, a string no longer than its length bytes can say, a month
    below 13, a fraction what its precision can hold, and so on. *)
Theorem rows_event_bounded data b ev b' :
  @parse_rows_event Rd O data b = (Val ev, b') ->
  Forall (change_bounded (re_write_type ev) (re_ti ev)) (re_rows ev).
Proof.
  unfold parse_rows_event, with_local. set (m := read_rows_event data).
  destruct (m (sr_new data, b)) as [o [r b1]] eqn:E. intros [= -> _].
  enough (post m (fun ev => Forall (change_bounded (re_write_type ev) (re_ti ev)) (re_rows ev))) as Hm
    by exact (Hm _ _ _ E).
  subst m. clear -B. unfold read_rows_event.
  eapply post_bind; [apply post_true|intros header _].
  destruct (rows_kind _) as [[[wt is_v2] pre]|]; [|apply post_throw].
  eapply post_bind; [apply post_true|intros table_id _].
  eapply post_bind; [apply post_true|intros _ _].
  eapply post_bind; [apply post_true|intros [ti|] _]; [|apply post_throw].
  eapply post_bind; [apply post_true|intros flags _].
  eapply post_bind; [apply post_true|intros extra _].
  eapply post_bind; [apply post_true|intros n _].
  eapply post_bind; [apply post_true|intros _ _].
  eapply post_bind; [apply post_true|intros _ _].
  eapply post_bind; [apply post_true|intros _ _].
  eapply post_bind; [apply post_on_fst, read_rows_post|intros rows Hrows].
  eapply post_bind; [apply post_true|intros _ _]. by apply post_ret.
Qed.
End Cells.

Lemma rows_event_bounded_witness :
  exists ev b', @parse_rows_event rdr clamping_reader sample_rows after_table_map = (Val ev, b') /\
    re_rows ev <> [] /\ Forall (change_bounded (re_write_type ev) (re_ti ev)) (re_rows ev).
Proof.
  destruct (@parse_rows_event rdr clamping_reader sample_rows after_table_map) as [o b'] eqn:E.
  assert (exists ev, o = Val ev /\ re_rows ev <> []) as (ev & -> & Hne).
  { change o with (fst (o, b')). rewrite <- E. eexists. split; [vm_compute; reflexivity|discriminate]. }
  exists ev, b'. split; [reflexivity|]. split; [exact Hne|].
  exact (rows_event_bounded sample_rows after_table_map ev b' E).
Defined.
