(* ===== verification/BinlogStats.v ===== *)
(** * Statistics of a binlog (src/src/Examples/MySQLBinlogStats.cc)

    The program follows the binlog of a server and sends a metric to statsd for
    what it sees: it composes the MySQL client, the binlog parser and a [Buffer].
    A metric is one line; the tags are an [unordered_map], whose order of iteration
    is a parameter, as are doubles and the way printf prints them. *)
From stdpp Require Import tactics base list numbers strings gmap.
From S2P Require Import Prelude BufferApi Libevent Chunked Buffer Text StringReader.
From S2P Require Import ProtocolBuffer MySQLTypes Binlog.

(** ** Metrics *)

Definition tag_map : Type := gmap bytes bytes.
Record metric := mkMetric {
  m_name : bytes; m_value : Z; m_type : byte; m_tags : tag_map
}.

Section Send.
Context {O : BufferOps} {W : Type} {SO : SocketOps W}.
(** A count becomes a double, and ["%lg"] prints it. *)
Context (lg : Z -> bytes).
(** The order of iteration over the tags. *)
Context (tag_list : tag_map -> list (bytes * bytes)).
(** [buf.add(tag.first.c_str())] takes the template [add<T>] with [T] a pointer
    to the name: the eight bytes of the pointer. *)
Context (pointer_bytes : bytes -> bytes).

Definition not_empty : exn :=
  logic_error (str "Buffer was not empty before statsd line generation").

Definition add_tag (k v : bytes) : ST (bytes * W) unit :=
  if decide (v = []) then on_fst (add_T (pointer_bytes k))
  else on_fst (buf_add_printf (c_str k ++ str ":" ++ c_str v)) ;;; ret tt.
(** [is_first] is never cleared. *)
Fixpoint add_tags (is_first : bool) (tags : list (bytes * bytes)) : ST (bytes * W) unit :=
  match tags with
  | [] => ret tt
  | (k, v) :: tags =>
      (if is_first then on_fst (buf_add (str "|#")) else on_fst (buf_add (str ","))) ;;;
      add_tag k v ;;;
      add_tags is_first tags
  end.

(** [StatsDClient::send]; the sample rate is always 1. The buffer is the client's. *)
Definition send (writing_stdout : bool) (m : metric) : ST (bytes * W) unit :=
  let! n := on_fst buf_get_length in
  (if negb (n =? 0) then throw not_empty else ret tt) ;;;
  on_fst (buf_add_reference (m_name m)) ;;;
  on_fst (buf_add_printf (str ":" ++ lg (m_value m) ++ str "|" ++ [m_type m])) ;;;
  (if decide (m_type m = Byte.x6d) then on_fst (buf_add (str "s")) else ret tt) ;;;
  add_tags true (tag_list (m_tags m)) ;;;
  (if writing_stdout then on_fst (buf_add [Byte.x0a]) else ret tt) ;;;
  buf_write.
End Send.

(** ** The loop over the events *)

Record stats := mkStats {
  st_filename : bytes;                  (* current_filename *)
  st_position : Z;                      (* current_position *)
  st_transaction_event_bytes : Z;
  st_proc : BinlogProcessor
}.

Definition d_type : byte := Byte.x64.   (* 'd' *)
Definition c_type : byte := Byte.x63.   (* 'c' *)
Definition g_type : byte := Byte.x67.   (* 'g' *)

Section Process.
Context {Rd : Type} {RO : ReaderOps Rd} {W : Type}.
(** How a metric is sent; an interface of the loop. *)
Context (send_metric : metric -> ST W unit).
Context (constant_tags : tag_map).

Definition send_stat (name : string) (value : Z) (type : byte) (tags : tag_map) : ST (stats * W) unit :=
  on_snd (send_metric (mkMetric (str name) value type tags)).
Definition on_proc {A} (m : ST BinlogProcessor A) : ST (stats * W) A :=
  on_fst (focus st_proc (fun p st =>
    mkStats (st_filename st) (st_position st) (st_transaction_event_bytes st) p) m).
Definition set_transaction (f : Z -> Z) : ST (stats * W) unit :=
  on_fst (modify (fun st =>
    mkStats (st_filename st) (st_position st) (f (st_transaction_event_bytes st)) (st_proc st))).
Definition set_current_position (p : Z) : ST (stats * W) unit :=
  on_fst (modify (fun st => mkStats (st_filename st) p (st_transaction_event_bytes st) (st_proc st))).
Definition set_current_filename (f : bytes) : ST (stats * W) unit :=
  on_fst (modify (fun st => mkStats f (st_position st) (st_transaction_event_bytes st) (st_proc st))).

Definition is_rows_event (t : option BinlogEventType) : bool :=
  match t with
  | Some WRITE_ROWS_EVENTv0 | Some UPDATE_ROWS_EVENTv0 | Some DELETE_ROWS_EVENTv0
  | Some WRITE_ROWS_EVENTv1 | Some UPDATE_ROWS_EVENTv1 | Some DELETE_ROWS_EVENTv1
  | Some WRITE_ROWS_EVENTv2 | Some UPDATE_ROWS_EVENTv2 | Some DELETE_ROWS_EVENTv2 => true
  | _ => false
  end.

Definition sum_bytes (f : RowChange -> Z) (rows : list RowChange) : Z :=
  foldl (fun a r => u64 (a + f r)) 0 rows.

(** [isdigit] of a negative [char] other than [EOF] is undefined. *)
Fixpoint filename_number (l : bytes) (n : Z) : out Z :=
  match l with
  | [] => Val n
  | ch :: l =>
      if (128 <=? byte_val ch) && (byte_val ch <? 255) then Undef
      else filename_number l (if is_digit ch then u64 (u64 (n * 10) + (byte_val ch - 48)) else n)
  end.

Definition process_rows (data : bytes) (tags : tag_map) : ST (stats * W) unit :=
  let! ev := on_proc (parse_rows_event data) in
  let tags := emplace tags (str "db_name") (ti_database_name (re_ti ev)) in
  let tags := emplace tags (str "table_name") (ti_table_name (re_ti ev)) in
  let pre_bytes := sum_bytes rc_pre_bytes (re_rows ev) in
  let post_bytes := sum_bytes rc_post_bytes (re_rows ev) in
  let rows := zlen (re_rows ev) in
  match re_write_type ev with
  | INSERT =>
      send_stat "mysql.binlog.insert_events" 1 c_type tags ;;;
      send_stat "mysql.binlog.insert_rows" rows d_type tags ;;;
      send_stat "mysql.binlog.insert_bytes" post_bytes d_type tags
  | UPDATE =>
      send_stat "mysql.binlog.update_events" 1 c_type tags ;;;
      send_stat "mysql.binlog.update_rows" rows d_type tags ;;;
      send_stat "mysql.binlog.update_pre_bytes" pre_bytes d_type tags ;;;
      send_stat "mysql.binlog.update_post_bytes" post_bytes d_type tags ;;;
      send_stat "mysql.binlog.update_delta_bytes" (u64 (post_bytes - pre_bytes)) d_type tags
  | DELETE =>
      send_stat "mysql.binlog.delete_events" 1 c_type tags ;;;
      send_stat "mysql.binlog.delete_rows" rows d_type tags ;;;
      send_stat "mysql.binlog.delete_bytes" pre_bytes d_type tags
  end.

(** The end of a transaction. *)
Definition send_transaction (tags : tag_map) : ST (stats * W) unit :=
  let! n := on_fst (gets st_transaction_event_bytes) in
  send_stat "mysql.binlog.transaction_event_bytes" n d_type tags ;;;
  set_transaction (fun _ => 0).

Definition process_query (data : bytes) (tags : tag_map) : ST (stats * W) unit :=
  let! ev := on_proc (parse_query_event data) in
  let tags := if decide (qe_database_name ev = []) then tags
              else emplace tags (str "db_name") (qe_database_name ev) in
  if decide (qe_query ev = str "BEGIN") then
    set_transaction (fun _ => zlen data) ;;;
    send_stat "mysql.binlog.transaction_begin" 1 c_type tags
  else if decide (qe_query ev = str "COMMIT") then
    send_stat "mysql.binlog.transaction_commit" 1 c_type tags ;;;
    send_transaction tags
  else send_stat "mysql.binlog.query" 1 c_type tags.

Definition process_rotate (data : bytes) (tags : tag_map) : ST (stats * W) unit :=
  let! ev := on_proc (parse_rotate_event data) in
  set_current_filename (roe_next_filename ev) ;;;
  let! n := of_out (filename_number (roe_next_filename ev) 0) in
  send_stat "mysql.binlog.rotate_binlog_file" 1 c_type tags ;;;
  send_stat "mysql.binlog.parser_file_index" n g_type tags.

(** The [switch]. *)
Definition process_typed (t : option BinlogEventType) (data : bytes) (tags : tag_map)
    : ST (stats * W) unit :=
  match t with
  | Some TABLE_MAP_EVENT => on_proc (parse_table_map_event data) ;;; ret tt
  | Some QUERY_EVENT => process_query data tags
  | Some XID_EVENT =>
      on_proc (parse_xid_event data) ;;;
      send_stat "mysql.binlog.transaction_commit_xid" 1 c_type tags ;;;
      send_transaction tags
  | Some ROTATE_EVENT => process_rotate data tags
  | Some FORMAT_DESCRIPTION_EVENT => on_proc (parse_format_description_event data) ;;; ret tt
  | Some STOP_EVENT | Some PREVIOUS_GTIDS_EVENT | Some ANONYMOUS_GTID_EVENT =>
      on_proc (parse_unknown_event data) ;;; ret tt
  | _ =>
      if is_rows_event t then process_rows data tags
      else
        on_proc (parse_unknown_event data) ;;;
        send_stat "mysql.binlog.unknown_event" 1 c_type tags
  end.

(** One round of the loop, for the event [data]. *)
Definition process_event (data : bytes) : ST (stats * W) unit :=
  let size := zlen data in
  set_transaction (fun n => u64 (n + size)) ;;;
  let! header := of_out (get_event_header data) in
  (if eh_end_position header =? 0 then ret tt
   else set_current_position (u64 (eh_end_position header - size - 4))) ;;;
  let tags := emplace constant_tags (str "binlog_event_type")
                (name_for_binlog_event_type (eh_type header)) in
  send_stat "mysql.binlog.event_bytes" size d_type tags ;;;
  let tags := delete (str "binlog_event_type") tags in
  let! position := on_fst (gets st_position) in
  (if position =? 0 then ret tt
   else send_stat "mysql.binlog.parser_position" position g_type tags) ;;;
  process_typed (event_type_of (eh_type header)) data tags.

Fixpoint process_events (events : list bytes) : ST (stats * W) unit :=
  match events with
  | [] => ret tt
  | data :: events => process_event data ;;; process_events events
  end.
End Process.

(** ** Where to start *)

(** [--filename] and [--position], and what "SHOW MASTER STATUS" answers for what
    is missing. The file name comes from a pointer, which is null without the
    option. *)
Definition not_one_row : exn :=
  runtime_error (str "SHOW MASTER STATUS did not return one row").
(** [row.at(k)]; the row as the list of its pairs. *)
Definition row_at (row : list (bytes * Value)) (k : bytes) : option Value :=
  snd <$> find (fun p => bool_decide (fst p = k)) row.
Definition at_string (row : list (bytes * Value)) (k : bytes) : out bytes :=
  match row_at row k with
  | Some (VString s) => Val s
  | Some _ => Exn bad_variant_access
  | None => Exn map_at_miss
  end.
Definition at_uint (row : list (bytes * Value)) (k : bytes) : out Z :=
  match row_at row k with
  | Some (VUint n) => Val n
  | Some _ => Exn bad_variant_access
  | None => Exn map_at_miss
  end.

Definition start_from (filename : option bytes) (position : Z) (result : ResultSet)
    : out (bytes * Z) :=
  match filename with
  | None => Undef
  | Some f =>
      if decide (f <> [] /\ position <> 0) then Val (f, position)
      else
        match rows_dicts result with
        | Val [row] =>
            match (if decide (f = []) then at_string row (str "File") else Val f) with
            | Val f' =>
                match (if position =? 0 then at_uint row (str "Position") else Val position) with
                | Val p' => Val (f', p')
                | Exn e => Exn e
                | _ => Undef
                end
            | Exn e => Exn e
            | _ => Undef
            end
        | Val _ => Exn not_one_row
        | Exn e => Exn e
        | _ => Undef
        end
  end.

(** ** Where the metrics go

    [StatsDClient], over its socket: the state is the descriptors that are open.
    The answers of [socket] and [connect] are arguments, each with its [errno]. *)

Record statsd_client := mkStatsd { sd_fd : Z; sd_writing_stdout : bool }.

Section Socket.
Context (stdout_fd EINPROGRESS : Z) (make_sockaddr_storage : bytes -> Z -> out bytes)
  (make_fd_nonblocking : Z -> out unit) (string_for_error : Z -> bytes).

Definition StatsDClient_ctor (hostname : bytes) (port : Z) (socket_ret connect_ret : Z * Z)
    : ST (list Z) statsd_client :=
  if decide (hostname = []) then ret (mkStatsd stdout_fd true)
  else
    of_out (make_sockaddr_storage hostname port) ;;;
    let fd := fst socket_ret in
    if fd =? -1 then
      throw (runtime_error (str "can't create socket: " ++ string_for_error (snd socket_ret)))
    else
      modify (cons fd) ;;;
      of_out (make_fd_nonblocking fd) ;;;
      if (fst connect_ret =? -1) && negb (snd connect_ret =? EINPROGRESS) then
        modify (filter (fun x => x <> fd)) ;;;
        throw (runtime_error (str "can't connect socket: " ++ string_for_error (snd connect_ret)))
      else ret (mkStatsd fd false).
Definition StatsDClient_dtor (c : statsd_client) : ST (list Z) unit :=
  if negb (sd_writing_stdout c) && (0 <=? sd_fd c) then modify (filter (fun x => x <> sd_fd c)) else ret tt.
End Socket.

(** ** What is sent *)

Section Lines.
Context (lg : Z -> bytes) (tag_list : tag_map -> list (bytes * bytes)) (pointer_bytes : bytes -> bytes)
  (writing_stdout : bool).

Definition tag_text (tag : bytes * bytes) : bytes :=
  str "|#" ++ (if decide (snd tag = []) then pointer_bytes (fst tag)
               else c_str (fst tag) ++ str ":" ++ c_str (snd tag)).
(** The line of a metric. *)
Definition line (m : metric) : bytes :=
  m_name m ++ (str ":" ++ lg (m_value m) ++ str "|" ++ [m_type m]) ++
  (if decide (m_type m = Byte.x6d) then str "s" else []) ++
  concat (map tag_text (tag_list (m_tags m))) ++ (if writing_stdout then [Byte.x0a] else []).
(** Collecting the metrics instead of sending them, as long as no line has 2^31
    bytes. *)
Definition collect (m : metric) : ST (list metric) unit :=
  if zlen (line m) <? 2 ^ 31 then modify (fun ms => ms ++ [m]) else undef.

Lemma add_tag_spec k v (b : bytes) (w : net) :
  zlen (tag_text (k, v)) < 2 ^ 31 ->
  @add_tag spec_buffer net pointer_bytes k v (b ++ str "|#", w) = (Val tt, (b ++ tag_text (k, v), w)).
Proof.
  unfold tag_text, add_tag. cbn [fst snd]. rewrite zlen_app. pose proof (zlen_nonneg (str "|#")).
  destruct (decide (v = [])); intros Hl; rewrite (app_assoc b).
  - by apply on_fst_eq.
  - erewrite bind_Val; [done|]. apply on_fst_eq. rewrite app_assoc in Hl |- *.
    apply buf_add_printf_spec. rewrite <- app_assoc in Hl |- *. lia.
Qed.

Lemma add_tags_spec tags (b : bytes) (w : net) :
  zlen (concat (map tag_text tags)) < 2 ^ 31 ->
  @add_tags spec_buffer net pointer_bytes true tags (b, w) =
  (Val tt, (b ++ concat (map tag_text tags), w)).
Proof.
  revert b. induction tags as [|[k v] tags IH]; intros b Hl; cbn [add_tags map concat] in *.
  - by rewrite app_nil_r.
  - rewrite zlen_app in Hl. pose proof (zlen_nonneg (concat (map tag_text tags))).
    pose proof (zlen_nonneg (tag_text (k, v))).
    rewrite (bind_Val _ _ _ tt (b ++ str "|#", w)) by by apply on_fst_eq.
    erewrite bind_Val by (apply add_tag_spec; lia). rewrite IH by lia. by rewrite <- app_assoc.
Qed.

(** A line goes out as one write, and leaves the buffer empty. *)
Lemma metric_send_spec m (w : net) :
  zlen (line m) < 2 ^ 31 ->
  @send spec_buffer net spec_socket lg tag_list pointer_bytes writing_stdout m ([], w) =
  (Val tt, ([], Net (rx w) (tx w ++ line m))).
Proof.
  intros Hl. unfold line in Hl. rewrite !zlen_app in Hl. unfold send.
  set (head := str ":" ++ lg (m_value m) ++ str "|" ++ [m_type m]) in *.
  set (ms := if decide (m_type m = Byte.x6d) then str "s" else []) in *.
  set (nl := if writing_stdout then [Byte.x0a] else []) in *.
  set (tags := concat (map tag_text (tag_list (m_tags m)))) in *.
  assert (zlen head = zlen (str ":") + (zlen (lg (m_value m)) + (zlen (str "|") + zlen [m_type m])))
    as Hh by (unfold head; by rewrite !zlen_app).
  change (zlen (str ":")) with 1 in *. change (zlen [m_type m]) with 1 in *.
  pose proof (zlen_nonneg (m_name m)). pose proof (zlen_nonneg ms). pose proof (zlen_nonneg nl).
  pose proof (zlen_nonneg tags). pose proof (zlen_nonneg (lg (m_value m))).
  change (zlen (str "|")) with 1 in *.
  rewrite (bind_Val _ _ _ 0 ([], w)) by done. cbn [Z.eqb negb].
  rewrite (bind_Val _ _ _ tt ([], w)) by done.
  rewrite (bind_Val _ _ _ tt (m_name m, w)) by by apply on_fst_eq.
  rewrite (bind_Val _ _ _ (zlen head) (m_name m ++ head, w))
    by (apply on_fst_eq; apply buf_add_printf_spec; lia).
  rewrite (bind_Val _ _ _ tt ((m_name m ++ head) ++ ms, w)).
  2: { unfold ms. destruct (decide (m_type m = Byte.x6d)); [by apply on_fst_eq|].
       by rewrite app_nil_r. }
  rewrite (bind_Val _ _ _ tt (((m_name m ++ head) ++ ms) ++ tags, w)) by (apply add_tags_spec; fold tags; lia).
  rewrite (bind_Val _ _ _ tt ((((m_name m ++ head) ++ ms) ++ tags) ++ nl, w)).
  2: { unfold nl. destruct writing_stdout; [by apply on_fst_eq|]. by rewrite app_nil_r. }
  rewrite <- !app_assoc. fold head ms nl tags. cbn [buf_write spec_socket].
  rewrite spec_write_nonempty; [done|]. rewrite !zlen_app. lia.
Qed.

Section Refine.
Context {O : BufferOps} {L : BufferLaws O} {W : Type} {SO : SocketOps W} {R : W -> net -> Prop}
  {SL : SocketLaws SO R}.

Lemma metric_send_refines m :
  refines lib_failure (Rprod eq R)
    (@send O W SO lg tag_list pointer_bytes writing_stdout m)
    (@send spec_buffer net spec_socket lg tag_list pointer_bytes writing_stdout m).
Proof.
  assert (forall b tags, refines lib_failure (Rprod eq R)
    (@add_tags O W pointer_bytes b tags) (@add_tags spec_buffer net pointer_bytes b tags)) as Ht.
  { intros b tags. induction tags as [|[k v] tags IH]; cbn [add_tags]; [refine_auto|].
    unfold add_tag, add_T. destruct b; refine_auto. }
  unfold send. refine_auto.
Qed.

(** Sending does what collecting does, seen through the lines. *)
Definition sent (v : net) (bw : bytes * W) (ms : list metric) : Prop :=
  fst bw = [] /\ R (snd bw) (Net (rx v) (tx v ++ concat (map line ms))).

Lemma send_collects v m :
  refines lib_failure (sent v)
    (@send O W SO lg tag_list pointer_bytes writing_stdout m) (collect m).
Proof.
  intros [b w] ms [Hb HR]. simpl in Hb, HR. subst b. unfold collect.
  destruct (Z.ltb_spec (zlen (line m)) (2 ^ 31)) as [Hl|]; [|by left].
  pose proof (metric_send_refines m ([], w) ([], Net (rx v) (tx v ++ concat (map line ms)))
    (conj eq_refl HR)) as Hs.
  rewrite metric_send_spec in Hs by done. destruct Hs as [?|[?|[Ho [Hb Hw]]]]; [done|by right; left|].
  right; right. split; [done|]. split; [done|]. simpl in *.
  rewrite map_app, concat_app. simpl. by rewrite app_nil_r, app_assoc.
Qed.
End Refine.
End Lines.

(** Two ways of sending metrics that agree make the loop agree. *)
Section ProcessRefine.
Context {Rd : Type} {RO : ReaderOps Rd} {W W' : Type} (Rw : W -> W' -> Prop)
  (send1 : metric -> ST W unit) (send2 : metric -> ST W' unit) (constant_tags : tag_map).
Hypothesis send_agrees : forall m, refines lib_failure Rw (send1 m) (send2 m).

Local Abbreviation agrees m1 m2 := (refines lib_failure (Rprod eq Rw) m1 m2).

Lemma send_stat_refines name v t tags :
  agrees (send_stat send1 name v t tags) (send_stat send2 name v t tags).
Proof. apply refines_on_snd, send_agrees. Qed.
Lemma on_proc_refines {A} (m : ST BinlogProcessor A) : agrees (on_proc m) (on_proc m).
Proof. apply refines_on_fst, refines_refl. Qed.
Lemma on_stats_refines {A} (m : ST stats A) : agrees (on_fst m) (on_fst m).
Proof. apply refines_on_fst, refines_refl. Qed.
Hint Resolve send_stat_refines on_proc_refines on_stats_refines : refine.

Ltac stats_refine :=
  repeat first [apply send_stat_refines | apply on_proc_refines | apply on_stats_refines | refine_step].

Lemma process_typed_refines t data tags :
  agrees (process_typed send1 t data tags) (process_typed send2 t data tags).
Proof.
  assert (agrees (process_rows send1 data tags) (process_rows send2 data tags)) as Hr
    by (unfold process_rows; stats_refine).
  assert (forall tags, agrees (send_transaction send1 tags) (send_transaction send2 tags)) as Ht
    by (intros; unfold send_transaction, set_transaction; stats_refine).
  assert (agrees (process_query send1 data tags) (process_query send2 data tags)) as Hq.
  { unfold process_query, set_transaction.
    apply refines_bind; [apply on_proc_refines|intros ev; cbv zeta].
    repeat case_decide; stats_refine; apply Ht. }
  assert (agrees (process_rotate send1 data tags) (process_rotate send2 data tags)) as Ho
    by (unfold process_rotate, set_current_filename; stats_refine).
  destruct t as [[]|]; simpl; try exact Hr; try exact Hq; try exact Ho; stats_refine; apply Ht.
Qed.

Lemma process_event_refines data :
  agrees (process_event send1 constant_tags data) (process_event send2 constant_tags data).
Proof.
  unfold process_event, set_transaction, set_current_position.
  cbv zeta. apply refines_bind; [apply on_stats_refines|intros _].
  apply refines_bind; [apply refines_of_out|intros header].
  repeat (apply refines_bind; [stats_refine|intros ?]). apply process_typed_refines.
Qed.

Lemma process_events_refines events :
  agrees (process_events send1 constant_tags events) (process_events send2 constant_tags events).
Proof.
  induction events as [|data events IH]; simpl; [stats_refine|].
  apply refines_bind; [apply process_event_refines|intros _; exact IH].
Qed.
End ProcessRefine.

(** A [StatsDClient] closes what it opens, whether its constructor fails or its
    destructor runs, except when [make_fd_nonblocking] throws: the descriptor stays
    open then. *)
Theorem statsd_socket_closed stdout_fd EINPROGRESS make_sockaddr make_nonblocking error_text hostname port
    socket_ret connect_ret opened :
  fst socket_ret ∉ opened -> -1 <= fst socket_ret ->
  make_sockaddr hostname port <> Undef -> make_sockaddr hostname port <> NoFuel ->
  make_nonblocking (fst socket_ret) <> Undef -> make_nonblocking (fst socket_ret) <> NoFuel ->
  match StatsDClient_ctor stdout_fd EINPROGRESS make_sockaddr make_nonblocking error_text hostname port
          socket_ret connect_ret opened with
  | (Val c, s) => StatsDClient_dtor c s = (Val tt, opened)
  | (Exn e, s) => s = opened \/
      (make_nonblocking (fst socket_ret) = Exn e /\ s = fst socket_ret :: opened)
  | _ => False
  end.
Proof.
  intros Hfd Hge H1 H2 H3 H4.
  assert (filter (fun x => x <> fst socket_ret) (fst socket_ret :: opened) = opened) as Hfilter.
  { rewrite filter_cons_False by (intros []; done). clear -Hfd.
    induction opened as [|x l IH]; [done|]. rewrite not_elem_of_cons in Hfd. destruct Hfd as [Hx Hl].
    rewrite filter_cons_True by done. by rewrite IH. }
  unfold StatsDClient_ctor. destruct (decide (hostname = [])); [done|].
  destruct (make_sockaddr hostname port) as [a|e| |]; try done; [|by left].
  erewrite bind_Val by done. destruct (Z.eqb_spec (fst socket_ret) (-1)); [by left|].
  erewrite bind_Val by done.
  destruct (make_nonblocking (fst socket_ret)) as [u|e| |]; try done; [|by right].
  erewrite bind_Val by done. destruct (_ && _).
  - erewrite bind_Val by done. left. exact Hfilter.
  - unfold StatsDClient_dtor. cbn. destruct (Z.leb_spec 0 (fst socket_ret)); [|lia]. unfold modify. by rewrite Hfilter.
Qed.

(** ** The sizes of transactions *)

Inductive mark := TransactionBegin | TransactionEnd | NoMark.
(** The text of a query event. *)
Definition query_text {Rd} {RO : ReaderOps Rd} (data : bytes) : option bytes :=
  match fst (parse_query_event data BinlogProcessor_new) with
  | Val ev => Some (qe_query ev)
  | _ => None
  end.
Definition transaction_mark {Rd} {RO : ReaderOps Rd} (data : bytes) : mark :=
  match event_type_of (eh_type (decode_header data)) with
  | Some XID_EVENT => TransactionEnd
  | Some QUERY_EVENT =>
      if decide (query_text data = Some (str "BEGIN")) then TransactionBegin
      else if decide (query_text data = Some (str "COMMIT")) then TransactionEnd
      else NoMark
  | _ => NoMark
  end.
(** The size of each transaction that ends among the events, when the one that is
    open at the start has [n] bytes. *)
Fixpoint transaction_sizes {Rd} {RO : ReaderOps Rd} (n : Z) (events : list bytes) : list Z :=
  match events with
  | [] => []
  | data :: events =>
      match transaction_mark data with
      | TransactionBegin => transaction_sizes (zlen data) events
      | TransactionEnd => u64 (n + zlen data) :: transaction_sizes 0 events
      | NoMark => transaction_sizes (u64 (n + zlen data)) events
      end
  end.
(** The values of the metric "mysql.binlog.transaction_event_bytes". *)
Definition is_size (m : metric) : bool :=
  bool_decide (m_name m = str "mysql.binlog.transaction_event_bytes").
Definition reported (ms : list metric) : list Z := map m_value (List.filter is_size ms).

Lemma reported_snoc ms m : reported (ms ++ [m]) = reported ms ++ if is_size m then [m_value m] else [].
Proof. unfold reported. rewrite List.filter_app, map_app. simpl. by destruct (is_size m). Qed.

(** What a computation does to the counter, and what it reports. *)
Definition counts {A} (m : ST (stats * list metric) A) (n : Z) (vs : list Z) (n' : Z) : Prop :=
  forall st ms a st' ms', m (st, ms) = (Val a, (st', ms')) -> st_transaction_event_bytes st = n ->
    st_transaction_event_bytes st' = n' /\ reported ms' = reported ms ++ vs.

Lemma counts_bind {A B} (m : ST _ A) (k : A -> ST _ B) n vs n1 vs1 n2 :
  counts m n vs n1 -> (forall a, counts (k a) n1 vs1 n2) -> counts (bind m k) n (vs ++ vs1) n2.
Proof.
  intros Hm Hk st ms b st' ms' He Hn. unfold bind in He.
  destruct (m (st, ms)) as [[a|e| |] [st1 ms1]] eqn:E; try done.
  destruct (Hm _ _ _ _ _ E Hn) as [Hn1 H1]. destruct (Hk a _ _ _ _ _ He Hn1) as [? H2].
  split; [done|]. by rewrite H2, H1, app_assoc.
Qed.
Lemma quiet_bind {A B} (m : ST _ A) (k : A -> ST _ B) n vs n2 :
  counts m n [] n -> (forall a, counts (k a) n vs n2) -> counts (bind m k) n vs n2.
Proof. intros Hm Hk. exact (counts_bind m k n [] n vs n2 Hm Hk). Qed.

Lemma counts_ret {A} (a : A) n : counts (ret a) n [] n.
Proof. intros st ms b st' ms' [= _ <- <-] ?. by rewrite app_nil_r. Qed.
Lemma counts_of_out {A} (o : out A) n : counts (of_out o) n [] n.
Proof. intros st ms b st' ms' [= _ <- <-] ?. by rewrite app_nil_r. Qed.
Lemma counts_gets {A} (f : stats -> A) n : counts (on_fst (gets f)) n [] n.
Proof. intros st ms b st' ms' [= _ <- <-] ?. by rewrite app_nil_r. Qed.
Lemma on_proc_inv {A} (m : ST BinlogProcessor A) (st : stats) (ms : list metric) a st' ms' :
  on_proc m (st, ms) = (Val a, (st', ms')) ->
  fst (m (st_proc st)) = Val a /\ ms' = ms /\
  st_transaction_event_bytes st' = st_transaction_event_bytes st.
Proof.
  unfold on_proc, on_fst, focus. cbn [fst snd]. destruct (m (st_proc st)) as [o p].
  intros [= -> <- <-]. done.
Qed.
Lemma counts_on_proc {A} (m : ST BinlogProcessor A) n : counts (on_proc m) n [] n.
Proof.
  intros st ms b st' ms' He <-. apply on_proc_inv in He as (_ & -> & ->). by rewrite app_nil_r.
Qed.
Lemma counts_set_transaction f n : counts (set_transaction f) n [] (f n).
Proof. intros st ms b st' ms' [= _ <- <-] <-. by rewrite app_nil_r. Qed.
Lemma counts_set_position p n : counts (set_current_position p) n [] n.
Proof. intros st ms b st' ms' [= _ <- <-] ?. by rewrite app_nil_r. Qed.
Lemma counts_set_filename f n : counts (set_current_filename f) n [] n.
Proof. intros st ms b st' ms' [= _ <- <-] ?. by rewrite app_nil_r. Qed.
Create HintDb counts.
Hint Resolve counts_ret counts_of_out counts_gets counts_on_proc counts_set_transaction
  counts_set_position counts_set_filename : counts.

(** [parse_query_event] reads the event alone. *)
Lemma parse_query_event_pure {Rd} {RO : ReaderOps Rd} data p p' :
  fst (parse_query_event data p) = fst (parse_query_event data p').
Proof.
  assert (forall q q', refines no_failure (fun _ _ : BinlogProcessor => True)
    (@parse_query_event Rd RO data) (@parse_query_event Rd RO data) ->
    fst (parse_query_event data q') = Undef \/ fst (parse_query_event data q) = fst (parse_query_event data q'))
    as Hboth.
  { intros q q' H. destruct (H q q' I) as [?|[(e & _ & [])|[? _]]]; auto. }
  assert (refines no_failure (fun _ _ : BinlogProcessor => True)
    (@parse_query_event Rd RO data) (@parse_query_event Rd RO data)) as Hr.
  { unfold parse_query_event, set_state. intros.
    repeat first [refine_step | apply refines_refl | by apply refines_modify]. }
  destruct (Hboth p p' Hr) as [E|E]; [|done]. destruct (Hboth p' p Hr) as [E'|E']; [|done].
  by rewrite E, E'.
Qed.

Lemma query_text_eq {Rd} {RO : ReaderOps Rd} data p ev :
  fst (parse_query_event data p) = Val ev -> query_text data = Some (qe_query ev).
Proof.
  intros He. unfold query_text. by rewrite (parse_query_event_pure _ _ p), He.
Qed.

Section Sizes.
Context {Rd : Type} {RO : ReaderOps Rd}.
Context (lg : Z -> bytes) (tag_list : tag_map -> list (bytes * bytes)) (pointer_bytes : bytes -> bytes)
  (writing_stdout : bool) (constant_tags : tag_map).
Local Abbreviation collect := (collect lg tag_list pointer_bytes writing_stdout).

Lemma send_stat_counts name value t tags n :
  counts (send_stat collect name value t tags) n
    (if is_size (mkMetric (str name) value t tags) then [value] else []) n.
Proof.
  intros st ms [] st' ms' He Hn. unfold send_stat, on_snd, focus, BinlogStats.collect in He. simpl in He.
  destruct (_ <? _) in He; [|done]. simplify_eq/=. by rewrite reported_snoc.
Qed.
(** Any other metric. *)
Lemma send_stat_quiet name value t tags n :
  str name <> str "mysql.binlog.transaction_event_bytes" ->
  counts (send_stat collect name value t tags) n [] n.
Proof.
  intros Hd. pose proof (send_stat_counts name value t tags n) as H.
  unfold is_size in H. simpl m_name in H. by rewrite bool_decide_eq_false_2 in H.
Qed.
Hint Extern 2 (counts (send_stat _ _ _ _ _) _ [] _) =>
  apply send_stat_quiet; vm_compute; discriminate : counts.

Ltac quiet :=
  repeat first
    [ solve [auto with counts]
    | apply quiet_bind; [|intros ?]
    | match goal with |- counts (match ?x with _ => _ end) _ _ _ => destruct x end
    | progress cbv zeta ].

Lemma send_transaction_counts tags n :
  counts (send_transaction collect tags) n [n] 0.
Proof.
  intros st ms a st' ms' He Hn. unfold send_transaction in He.
  rewrite (bind_Val _ _ _ n (st, ms)) in He by (by rewrite <- Hn).
  revert st ms a st' ms' He Hn. change [n] with ([n] ++ []).
  apply (counts_bind _ _ n [n] n [] 0).
  - exact (send_stat_counts "mysql.binlog.transaction_event_bytes" n d_type tags n).
  - intros _. apply (counts_set_transaction (fun _ => 0)).
Qed.

Lemma process_rows_quiet data tags n : counts (process_rows collect data tags) n [] n.
Proof. unfold process_rows. quiet. Qed.
Lemma process_rotate_quiet data tags n : counts (process_rotate collect data tags) n [] n.
Proof. unfold process_rotate. quiet. Qed.

(** What an event reports and leaves when the transaction, with the event, has [n]
    bytes. *)
Definition mark_reports (m : mark) (n : Z) : list Z :=
  match m with TransactionEnd => [n] | _ => [] end.
Definition mark_leaves (m : mark) (data : bytes) (n : Z) : Z :=
  match m with TransactionBegin => zlen data | TransactionEnd => 0 | NoMark => n end.

Lemma process_query_counts data tags n :
  event_type_of (eh_type (decode_header data)) = Some QUERY_EVENT ->
  counts (process_query collect data tags) n
    (mark_reports (transaction_mark data) n) (mark_leaves (transaction_mark data) data n).
Proof.
  intros Ht st ms a st' ms' He Hn. unfold process_query in He.
  apply bind_inv in He as (ev & [st1 ms1] & E & He).
  apply on_proc_inv in E as (E & -> & E1). rewrite Hn in E1.
  assert (query_text data = Some (qe_query ev)) as Hq by by apply query_text_eq in E.
  cbv zeta in He. set (tags' := if decide _ then tags else _) in He. clearbody tags'. clear E.
  revert st1 ms a st' ms' He E1. unfold transaction_mark. rewrite Ht, Hq.
  destruct (decide (qe_query ev = str "BEGIN")) as [Hb|Hb];
    [|destruct (decide (qe_query ev = str "COMMIT")) as [Hc|Hc]].
  - rewrite decide_True by (by rewrite Hb). apply (counts_bind _ _ n [] (zlen data) [] (zlen data)).
    + apply (counts_set_transaction (fun _ => zlen data)).
    + intros _. auto with counts.
  - rewrite decide_False by congruence. rewrite decide_True by (by rewrite Hc).
    apply quiet_bind; [auto with counts|intros _; apply send_transaction_counts].
  - rewrite !decide_False by congruence. apply send_stat_quiet. vm_compute. discriminate.
Qed.

Lemma process_typed_counts data tags n :
  counts (process_typed collect (event_type_of (eh_type (decode_header data))) data tags) n
    (mark_reports (transaction_mark data) n) (mark_leaves (transaction_mark data) data n).
Proof.
  destruct (event_type_of (eh_type (decode_header data))) as [t|] eqn:E.
  2: { unfold transaction_mark. rewrite E. simpl. quiet. }
  destruct (decide (t = QUERY_EVENT)) as [->|Hq]; [by apply process_query_counts|].
  unfold transaction_mark. rewrite E.
  destruct t; try done; simpl;
    try solve [quiet | apply process_rows_quiet | apply process_rotate_quiet].
  apply quiet_bind; [auto with counts|intros _]. apply quiet_bind; [auto with counts|intros _].
  apply send_transaction_counts.
Qed.

Lemma process_event_counts data n :
  counts (process_event collect constant_tags data) n
    (mark_reports (transaction_mark data) (u64 (n + zlen data)))
    (mark_leaves (transaction_mark data) data (u64 (n + zlen data))).
Proof.
  unfold process_event. cbv zeta.
  apply (counts_bind _ _ n [] (u64 (n + zlen data))).
  { apply (counts_set_transaction (fun n => u64 (n + zlen data))). }
  intros _ st ms a st' ms' He. unfold bind at 1, of_out, get_event_header in He.
  destruct (zlen data <? BinlogEventHeader_size); [done|].
  revert st ms a st' ms' He.
  apply quiet_bind; [quiet|intros _]. apply quiet_bind; [auto with counts|intros _].
  apply quiet_bind; [auto with counts|intros position]. apply quiet_bind; [quiet|intros _].
  apply process_typed_counts.
Qed.

Lemma process_events_counts events n st ms st' ms' :
  process_events collect constant_tags events (st, ms) = (Val tt, (st', ms')) ->
  st_transaction_event_bytes st = n ->
  reported ms' = reported ms ++ transaction_sizes n events.
Proof.
  revert n st ms. induction events as [|data events IH]; intros n st ms He Hn; cbn [process_events] in He.
  { injection He as _ <-. by rewrite app_nil_r. }
  apply bind_inv in He as ([] & [st1 ms1] & H1 & He).
  destruct (process_event_counts data n _ _ _ _ _ H1 Hn) as [Hn1 Hr1].
  rewrite (IH _ _ _ He Hn1), Hr1, <- app_assoc. f_equal. simpl. by destruct (transaction_mark data).
Qed.
End Sizes.

(** Inside a transaction the sizes add up. *)
Lemma transaction_sizes_within {Rd} {RO : ReaderOps Rd} mid e post n :
  Forall (fun d => transaction_mark d = NoMark) mid -> transaction_mark e = TransactionEnd ->
  transaction_sizes n (mid ++ e :: post) =
  u64 (n + zlen (concat mid) + zlen e) :: transaction_sizes 0 post.
Proof.
  intros Hm He. revert n. induction Hm as [|d mid Hd Hm IH]; intros n; simpl.
  - rewrite He. by rewrite Z.add_0_r.
  - rewrite Hd, IH, zlen_app. unfold u64. f_equal.
    rewrite <- !Z.add_assoc, Zplus_mod_idemp_l. f_equal. lia.
Qed.
Lemma transaction_sizes_app {Rd} {RO : ReaderOps Rd} pre rest n :
  exists xs n', transaction_sizes n (pre ++ rest) = xs ++ transaction_sizes n' rest.
Proof.
  revert n. induction pre as [|d pre IH]; intros n; simpl; [by exists [], n|].
  destruct (transaction_mark d).
  - apply IH.
  - destruct (IH 0) as (xs & n' & E). exists (u64 (n + zlen d) :: xs), n'. by rewrite E.
  - apply IH.
Qed.

(** ** The metrics as the peer sees them *)

(** What statsd, or the standard output, receives is the concatenation of the
    lines of the metrics the loop emits, one write each, and nothing is left in the
    buffer -- for every stream of events, over every lawful buffer and socket, with
    the exception of the loop where an event does not parse, as long as no line has
    2^31 bytes. *)
Theorem stats_lines {Rd} {RO : ReaderOps Rd} {O : BufferOps} {L : BufferLaws O}
    {W} {SO : SocketOps W} {R : W -> net -> Prop} {SL : SocketLaws SO R}
    lg tag_list pointer_bytes writing_stdout constant_tags events st w v o st' ms :
  R w v ->
  process_events (collect lg tag_list pointer_bytes writing_stdout) constant_tags events (st, []) =
    (o, (st', ms)) ->
  o <> Undef ->
  delivers lib_failure (Rprod eq (Rprod eq R))
    (process_events (@send O W SO lg tag_list pointer_bytes writing_stdout) constant_tags events)
    (st, ([], w)) o
    (st', ([], Net (rx v) (tx v ++ concat (map (line lg tag_list pointer_bytes writing_stdout) ms)))).
Proof.
  intros HR He Ho.
  assert (Rprod eq (sent (R := R) lg tag_list pointer_bytes writing_stdout v) (st, ([], w)) (st, [])) as Hs.
  { split; [done|]. split; [done|]. simpl. rewrite app_nil_r. by destruct v. }
  assert (refines lib_failure (Rprod eq (sent (R := R) lg tag_list pointer_bytes writing_stdout v))
    (process_events (@send O W SO lg tag_list pointer_bytes writing_stdout) constant_tags events)
    (process_events (collect lg tag_list pointer_bytes writing_stdout) constant_tags events)) as Hr
    by (apply process_events_refines; intros m; by apply send_collects).
  destruct (refines_delivers _ _ _ _ _ _ _ _ Hr Hs He Ho) as [[Hf [H1 [Hb Hw]]]|Hf]; [|by right].
  left. split; [done|]. split; [done|]. by split.
Qed.

(** C19: the sizes of transactions. For every stream of events that parses, the
    values of "mysql.binlog.transaction_event_bytes" are the sizes of the
    transactions as a scan of the stream finds them -- from a BEGIN query, or from
    where the last transaction ended, to a COMMIT query or an XID event -- and a
    transaction that lies in the stream is reported with the sum of the sizes of its
    events, both marks included (modulo 2^64, of a size_t). *)
Theorem transactions_measured {Rd} {RO : ReaderOps Rd}
    lg tag_list pointer_bytes writing_stdout constant_tags events st ms st' ms' :
  process_events (collect lg tag_list pointer_bytes writing_stdout) constant_tags events (st, ms) =
    (Val tt, (st', ms')) ->
  reported ms' = reported ms ++ transaction_sizes (st_transaction_event_bytes st) events /\
  (forall pre b mid e post, events = pre ++ b :: mid ++ e :: post ->
    transaction_mark b = TransactionBegin -> transaction_mark e = TransactionEnd ->
    Forall (fun d => transaction_mark d = NoMark) mid ->
    exists xs ys, reported ms' = xs ++ u64 (zlen b + zlen (concat mid) + zlen e) :: ys).
Proof.
  intros He. pose proof (process_events_counts _ _ _ _ _ events _ st ms st' ms' He eq_refl) as Hr.
  split; [done|]. intros pre b mid e post -> Hb Hend Hm. rewrite Hr.
  destruct (transaction_sizes_app pre (b :: mid ++ e :: post) (st_transaction_event_bytes st))
    as (xs & n' & ->).
  simpl. rewrite Hb, transaction_sizes_within by done.
  eexists (reported ms ++ xs), _. by rewrite <- app_assoc.
Qed.


(** ** Examples *)

Definition example_event (type : Z) (body : bytes) : bytes :=
  le_encode 4 0 ++ [byte_of type] ++ le_encode 4 1 ++ le_encode 4 (19 + zlen body) ++
  le_encode 4 (500 + zlen body) ++ le_encode 2 0 ++ body.
Definition example_begin : bytes :=
  example_event 2 (le_encode 4 7 ++ le_encode 4 0 ++ [Byte.x02] ++ le_encode 2 0 ++ le_encode 2 0 ++
    str "db" ++ [Byte.x00] ++ str "BEGIN").
Definition example_xid : bytes := example_event 16 (le_encode 8 99).
Definition example_stats : stats := mkStats (str "bin.1") 4 0 BinlogProcessor_new.
Definition example_lg (z : Z) : bytes := [byte_of (48 + z mod 10)].
Definition example_tags : tag_map -> list (bytes * bytes) := map_to_list.
Definition example_pointer (k : bytes) : bytes := repeat Byte.x00 8.

Abbreviation three := (@libevent_buffer (chunked 3)).
Abbreviation three_net := (@libevent_socket (chunked 3)).
Abbreviation example_collect := (collect example_lg example_tags example_pointer true).
Definition example_run : out unit * (stats * list metric) :=
  @process_events rdr spec_reader _ example_collect ∅ [example_begin; example_xid] (example_stats, []).

Lemma stats_lines_witness :
  fst example_run = Val tt /\ length (snd (snd example_run)) = 7%nat /\
  delivers lib_failure (Rprod eq (Rprod eq (fun w v => w = v)))
    (process_events (RO := spec_reader) (@send three _ three_net example_lg example_tags example_pointer true)
       ∅ [example_begin; example_xid])
    (example_stats, ([], Net [] [])) (Val tt)
    (fst (snd example_run),
     ([], Net [] (concat (map (line example_lg example_tags example_pointer true) (snd (snd example_run)))))).
Proof.
  split; [vm_compute; reflexivity|]. split; [vm_compute; reflexivity|].
  apply (stats_lines (O := three) (SO := three_net) (L := libevent_buffer_laws (LS := chunked_spec 3))
    (SL := libevent_socket_laws (LS := chunked_spec 3))
    (RO := spec_reader) example_lg example_tags example_pointer true ∅
    [example_begin; example_xid] example_stats (Net [] []) (Net [] []) (Val tt)
    (fst (snd example_run)) (snd (snd example_run))).
  - reflexivity.
  - vm_compute. reflexivity.
  - discriminate.
Defined.

Lemma transactions_measured_witness :
  fst example_run = Val tt /\
  reported (snd (snd example_run)) = [zlen example_begin + zlen example_xid] /\
  reported (snd (snd example_run)) = transaction_sizes (RO := spec_reader) 0 [example_begin; example_xid].
Proof.
  split; [vm_compute; reflexivity|]. split; [vm_compute; reflexivity|].
  refine (proj1 (transactions_measured (RO := spec_reader) example_lg example_tags example_pointer true ∅
    [example_begin; example_xid] example_stats [] (fst (snd example_run)) (snd (snd example_run)) _)).
  vm_compute. reflexivity.
Defined.
