(* ===== verification/MySQLClient.v ===== *)
(** * The MySQL client (src/src/Protocols/MySQL/Client.cc)

    Connecting and authenticating, commands and their sequence numbers, queries
    with several result sets, and the binlog stream. The state of a method is the
    client and its connection, with the method's local buffer in front. *)
From stdpp Require Import tactics base list numbers strings.
From S2P Require Import Prelude BufferApi Libevent Chunked Buffer Text ProtocolBuffer MySQLTypes.

Inductive BinlogReadState : Type := NOT_READING | READING_FIRST_EVENT | READING_EVENT.

Record Client := mkClient {
  c_fd_is_open : bool;
  c_next_seq : Z;
  c_server_version : bytes;
  c_connection_id : Z;
  c_server_cap_flags : Z;
  c_charset : Z;
  c_status_flags : Z;
  c_binlog_read_state : BinlogReadState;
  c_expected_binlog_seq : Z
}.

Definition set_open (v : bool) (c : Client) : Client :=
  mkClient v (c_next_seq c) (c_server_version c) (c_connection_id c) (c_server_cap_flags c)
    (c_charset c) (c_status_flags c) (c_binlog_read_state c) (c_expected_binlog_seq c).
Definition set_next_seq (v : Z) (c : Client) : Client :=
  mkClient (c_fd_is_open c) v (c_server_version c) (c_connection_id c) (c_server_cap_flags c)
    (c_charset c) (c_status_flags c) (c_binlog_read_state c) (c_expected_binlog_seq c).
Definition set_server_version (v : bytes) (c : Client) : Client :=
  mkClient (c_fd_is_open c) (c_next_seq c) v (c_connection_id c) (c_server_cap_flags c)
    (c_charset c) (c_status_flags c) (c_binlog_read_state c) (c_expected_binlog_seq c).
Definition set_connection_id (v : Z) (c : Client) : Client :=
  mkClient (c_fd_is_open c) (c_next_seq c) (c_server_version c) v (c_server_cap_flags c)
    (c_charset c) (c_status_flags c) (c_binlog_read_state c) (c_expected_binlog_seq c).
Definition set_server_cap_flags (v : Z) (c : Client) : Client :=
  mkClient (c_fd_is_open c) (c_next_seq c) (c_server_version c) (c_connection_id c) v
    (c_charset c) (c_status_flags c) (c_binlog_read_state c) (c_expected_binlog_seq c).
Definition set_charset (v : Z) (c : Client) : Client :=
  mkClient (c_fd_is_open c) (c_next_seq c) (c_server_version c) (c_connection_id c)
    (c_server_cap_flags c) v (c_status_flags c) (c_binlog_read_state c) (c_expected_binlog_seq c).
Definition set_status_flags (v : Z) (c : Client) : Client :=
  mkClient (c_fd_is_open c) (c_next_seq c) (c_server_version c) (c_connection_id c)
    (c_server_cap_flags c) (c_charset c) v (c_binlog_read_state c) (c_expected_binlog_seq c).
Definition set_binlog_read_state (v : BinlogReadState) (c : Client) : Client :=
  mkClient (c_fd_is_open c) (c_next_seq c) (c_server_version c) (c_connection_id c)
    (c_server_cap_flags c) (c_charset c) (c_status_flags c) v (c_expected_binlog_seq c).
Definition set_expected_binlog_seq (v : Z) (c : Client) : Client :=
  mkClient (c_fd_is_open c) (c_next_seq c) (c_server_version c) (c_connection_id c)
    (c_server_cap_flags c) (c_charset c) (c_status_flags c) (c_binlog_read_state c) v.

Definition Client_new : Client := mkClient false 0 [] 0 0 0 0 NOT_READING 0.

Definition conn_not_open : exn :=
  runtime_error (str "cannot execute command on non-open connection").
Definition out_of_sequence : exn := runtime_error (str "server sent out-of-sequence commands").
Definition unsupported_plugin (name : bytes) : exn :=
  runtime_error (str "unsupported auth plugin: " ++ name).
Definition bad_version : exn := runtime_error (str "unrecognized protocol version").
Definition handshake_not_consumed : exn :=
  logic_error (str "not all data in initial handshake was consumed").
Definition auth_extra_not_consumed : exn :=
  runtime_error (str "auth extra data not fully consumed").
Definition plaintext_password : exn :=
  runtime_error (str "server requested plaintext password, but connection is not encrypted").
Definition bad_extra_auth : exn :=
  runtime_error (str "unrecognized extra auth data command (caching_sha2_password)").
Definition no_extra_auth (plugin : bytes) : exn :=
  runtime_error (str "extra auth data command unimplemented for plugin " ++ plugin).
Definition auth_failed (error_code : Z) (message : bytes) : exn :=
  runtime_error (str "authentication failed: (" ++ dec error_code ++ str ") " ++ c_str message).
Definition bad_auth_command : exn :=
  runtime_error (str "unrecognized command during authentication phase").
Definition invalid_value_type : exn := runtime_error (str "invalid value type").
Definition server_error (error_code : Z) (sqlstate message : bytes) : exn :=
  runtime_error (str "(" ++ dec error_code ++ str "; " ++ c_str sqlstate ++ str ") " ++ c_str message).
Definition no_ok_or_err : exn :=
  runtime_error (str "unrecognized response when OK or ERR expected").
Definition multiple_results : exn :=
  logic_error (str "query returned multiple result sets; use query_multi instead").
Definition no_infile : exn := runtime_error (str "LOCAL INFILE requests are not implemented").
Definition bad_column_header : exn :=
  runtime_error (str "column metadata has incorrect fixed-length header").
Definition not_reading_binlog : exn :=
  logic_error (str "get_binlog_event called before read_binlogs or after out_of_range").
Definition end_of_binlog : exn := out_of_range (str "end of binlog stream").
Definition binlog_not_ok : exn := runtime_error (str "binlog event does not begin with OK byte").
Definition resize_too_long : exn := length_error (str "basic_string::_M_replace_aux").

(** ** parse_value *)

(** [std::stoll] and [std::stoull], base 10. *)
Definition scan_integer (s : bytes) : option (bool * Z) :=
  let s := skip_spaces s in
  let '(neg, s) :=
    match s with
    | b :: s' => if decide (b = Byte.x2d) then (true, s')
                 else if decide (b = Byte.x2b) then (false, s') else (false, s)
    | [] => (false, [])
    end in
  if starts_digit s then Some (neg, fst (scan_digits s 0)) else None.
Definition stoll (s : bytes) : out Z :=
  match scan_integer s with
  | None => Exn (invalid_argument (str "stoll"))
  | Some (neg, n) =>
      let v := if neg then - n else n in
      if (- 2 ^ 63 <=? v) && (v <? 2 ^ 63) then Val v else Exn (out_of_range (str "stoll"))
  end.
Definition stoull (s : bytes) : out Z :=
  match scan_integer s with
  | None => Exn (invalid_argument (str "stoull"))
  | Some (neg, n) =>
      if n <? 2 ^ 64 then Val (if neg then u64 (- n) else n) else Exn (out_of_range (str "stoull"))
  end.
Definition at_0_range : exn := out_of_range (str "basic_string::at").

Section Client.
Context {O : BufferOps} {W : Type} {SO : SocketOps W}.
(** The standard library's decimal to binary conversions (their results as IEEE
    bits), phosg's [sha256], and a draw of its [random_object<uint32_t>]. *)
Context (stof stod : bytes -> out Z) (sha256 : bytes -> bytes) (random_u32 : Z).

Definition parse_value (type : Z) (value : bytes) : out Value :=
  let map {A} (f : A -> Value) (o : out A) : out Value :=
    match o with Val a => Val (f a) | Exn e => Exn e | Undef => Undef | NoFuel => NoFuel end in
  match ColumnType_of type with
  | Some (T_TINYINT | T_SMALLINT | T_MEDIUMINT | T_INT | T_BIGINT | T_YEAR) =>
      match value with
      | [] => Exn at_0_range
      | c :: _ => if decide (c = Byte.x2d) then map VInt (stoll value) else map VUint (stoull value)
      end
  | Some T_FLOAT => map VFloat (stof value)
  | Some T_DOUBLE => map VDouble (stod value)
  | Some T_NULL => Val VNull
  | Some (T_DATE | T_DATETIME | T_TIMESTAMP) => map VDateTime (DateTimeValue_parse value)
  | Some T_TIME => map VTime (TimeValue_parse value)
  | Some (T_BIT | T_STRING | T_VAR_STRING | T_VARCHAR | T_TINYBLOB | T_BLOB | T_MEDIUMBLOB
         | T_LONGBLOB | T_DECIMAL | T_NEWDECIMAL | T_ENUM | T_SET | T_GEOMETRY) =>
      Val (VString value)
  | _ => Exn invalid_value_type
  end.

(** ** Commands: the buffer at hand, the client and the connection *)

Definition client {A} (m : ST Client A) : ST (bytes * (Client * W)) A := on_snd (on_fst m).
Definition with_buffer {A} (m : ST (bytes * (Client * W)) A) : ST (Client * W) A :=
  let! buf := of_out buf_new in with_local buf m.

Definition assert_conn_open : ST (Client * W) unit :=
  let! c := on_fst get in
  if c_fd_is_open c then ret tt else throw conn_not_open.

Definition reset_seq : ST (bytes * (Client * W)) unit := client (modify (set_next_seq 0)).

Definition read_command : ST (bytes * (Client * W)) unit :=
  let! seq := on_13 ProtocolBuffer.read_command in
  let! next_seq := client (gets c_next_seq) in
  if negb (seq =? next_seq) then throw out_of_sequence
  else client (modify (set_next_seq (u8 (next_seq + 1)))).

Definition write_command : ST (bytes * (Client * W)) unit :=
  let! next_seq := client (gets c_next_seq) in
  client (modify (set_next_seq (u8 (next_seq + 1)))) ;;;
  on_13 (ProtocolBuffer.write_command next_seq).

Definition parse_error_body {A} : ST bytes A :=
  let! error_code := remove_u16l in
  let! sqlstate := remove_string 6 in
  let! message := remove_string_eof in
  throw (server_error error_code sqlstate message).

Definition expect_ok : ST (Client * W) unit :=
  with_buffer (
    read_command ;;;
    let! response_command := on_fst remove_u8 in
    if response_command =? 0x00 then ret tt
    else if response_command =? 0xFF then on_fst parse_error_body
    else throw no_ok_or_err).

(** ** Authentication *)

Definition caching_sha2_password : bytes := str "caching_sha2_password".

(** [result[x] = password_sha256[x] ^ hash_with_nonce[x]]; a digest has 32 bytes. *)
Definition compute_auth_response (auth_plugin_name auth_plugin_data password : bytes) : out bytes :=
  if decide (auth_plugin_name = caching_sha2_password) then
    let password_sha256 := sha256 password in
    let password_sha256_sha256 := sha256 password_sha256 in
    let hash_with_nonce := sha256 (password_sha256_sha256 ++ auth_plugin_data) in
    Val (map (fun x => byte_xor (nth x password_sha256 Byte.x00) (nth x hash_with_nonce Byte.x00))
           (seq 0 0x20))
  else Exn (unsupported_plugin auth_plugin_name).

Definition client_cap_flags : Z := 0x012BA201.

(** [resize(n)] of a string. *)
Definition resize (n : Z) (s : bytes) : bytes :=
  ztake n s ++ repeat Byte.x00 (Z.to_nat (n - zlen s)).
(** [if (s.back() == 0) s.pop_back()]. *)
Definition strip_nul (s : bytes) : bytes :=
  match rev s with
  | b :: t => if decide (b = Byte.x00) then rev t else s
  | [] => []
  end.

(** The loop that waits for the server's verdict; a round takes four bytes. *)
Definition auth_step (auth_plugin_name : bytes) (_ : unit)
    : ST (bytes * (Client * W)) (unit + unit) :=
  read_command ;;;
  let! response_command := on_fst remove_u8 in
  if response_command =? 0x00 then ret (inr tt)
  else if response_command =? 0x01 then
    if decide (auth_plugin_name = caching_sha2_password) then
      let! command := on_fst remove_u8 in
      if command =? 3 then ret (inl tt)
      else if command =? 4 then
        let! len := on_fst buf_get_length in
        if negb (len =? 0) then throw auth_extra_not_consumed else throw plaintext_password
      else throw bad_extra_auth
    else throw (no_extra_auth auth_plugin_name)
  else if response_command =? 0xFF then
    let! error_code := on_fst remove_u16l in
    on_fst (buf_drain 1) ;;;
    on_fst (remove_string 5) ;;;
    let! message := on_fst remove_string_eof in
    throw (auth_failed error_code message)
  else throw bad_auth_command.

Definition loop_fuel : positive := 2 ^ 64.

(** The first half of [initial_handshake]: the server's greeting, of which the
    plugin's name and the challenge go on. *)
Definition read_greeting : ST (bytes * (Client * W)) (bytes * bytes) :=
  read_command ;;;
  let! version := on_fst remove_u8 in
  if negb (version =? 10) then throw bad_version else
  let! server_version := on_fst remove_string0 in
  client (modify (set_server_version server_version)) ;;;
  let! connection_id := on_fst remove_u32l in
  client (modify (set_connection_id connection_id)) ;;;
  let! auth_challenge_data := on_fst (remove_string 8) in
  on_fst remove_u8 ;;;
  let! low_flags := on_fst remove_u16l in
  client (modify (set_server_cap_flags low_flags)) ;;;
  let! charset := on_fst remove_u8 in
  client (modify (set_charset charset)) ;;;
  let! status_flags := on_fst remove_u16l in
  client (modify (set_status_flags status_flags)) ;;;
  let! high_flags := on_fst remove_u16l in
  client (modify (set_server_cap_flags (Z.lor low_flags (u32 (Z.shiftl high_flags 16))))) ;;;
  let! auth_plugin_data_length := on_fst remove_u8 in
  on_fst (buf_drain 10) ;;;
  let remaining_auth_data_length := u64 (auth_plugin_data_length - 8) in
  let remaining_auth_data_length :=
    if remaining_auth_data_length <? 13 then 13 else remaining_auth_data_length in
  let! more_data := on_fst (remove_string remaining_auth_data_length) in
  let auth_challenge_data := resize auth_plugin_data_length (auth_challenge_data ++ more_data) in
  let! auth_plugin_name := on_fst remove_string0 in
  let! len := on_fst buf_get_length in
  if negb (len =? 0) then throw handshake_not_consumed
  else ret (auth_plugin_name, strip_nul auth_challenge_data).

Definition initial_handshake (username password : bytes) : ST (Client * W) unit :=
  with_buffer (
    reset_seq ;;;
    let! greeting := read_greeting in
    let '(auth_plugin_name, auth_challenge_data) := greeting in
    let! auth_response_data :=
      of_out (compute_auth_response auth_plugin_name auth_challenge_data password) in
    on_fst (add_u32l client_cap_flags) ;;;
    on_fst (add_u32l 0xFFFFFFFF) ;;;
    on_fst (add_u8 0xFF) ;;;
    on_fst (add_zeroes 23) ;;;
    on_fst (add_string0 username) ;;;
    on_fst (add_var_string auth_response_data) ;;;
    on_fst (add_string0 auth_plugin_name) ;;;
    write_command ;;;
    loop (auth_step auth_plugin_name) loop_fuel tt).

(** [base_connect] is the event base's. *)
Definition connect (base_connect : ST W unit) (username password : bytes) : ST (Client * W) unit :=
  let! c := on_fst get in
  if c_fd_is_open c then ret tt
  else on_snd base_connect ;;; on_fst (modify (set_open true)) ;;; initial_handshake username password.

(** ** Commands *)

Definition quit : ST (Client * W) unit :=
  assert_conn_open ;;;
  with_buffer (
    reset_seq ;;;
    on_fst (add_u8 (Command_val C_QUIT)) ;;;
    write_command ;;;
    client (modify (set_open false))).

Definition change_db (db_name : bytes) : ST (Client * W) unit :=
  assert_conn_open ;;;
  with_buffer (
    reset_seq ;;;
    on_fst (add_u8 (Command_val C_INIT_DB)) ;;;
    on_fst (buf_add db_name) ;;;
    write_command ;;;
    on_snd expect_ok).

(** ** Queries *)

Definition read_column : ST (bytes * (Client * W)) ColumnDefinition :=
  read_command ;;;
  let! catalog_name := on_fst remove_var_string in
  let! database_name := on_fst remove_var_string in
  let! table_name := on_fst remove_var_string in
  let! original_table_name := on_fst remove_var_string in
  let! column_name := on_fst remove_var_string in
  let! original_column_name := on_fst remove_var_string in
  let! header := on_fst remove_varint in
  if negb (header =? 0x0C) then throw bad_column_header else
  let! charset := on_fst remove_u16l in
  let! max_value_length := on_fst remove_u32l in
  let! type := on_fst remove_u8 in
  let! flags := on_fst remove_u16l in
  let! decimals := on_fst remove_u8 in
  on_fst remove_u16l ;;;
  ret (mkColumn catalog_name database_name table_name original_table_name column_name
         original_column_name charset max_value_length type flags decimals).

(** [while (res.columns.size() < column_count)]. *)
Definition read_columns (column_count : Z) : ST (bytes * (Client * W)) (list ColumnDefinition) :=
  loop (fun columns =>
    if zlen columns <? column_count then
      let! def := read_column in ret (inl (columns ++ [def]))
    else ret (inr columns)) loop_fuel [].

Definition read_cell (def : ColumnDefinition) : ST bytes Value :=
  let! mark := copyout_u8 in
  if mark =? 0xFB then remove_u8 ;;; ret VNull
  else let! value := remove_var_string in of_out (parse_value (cd_type def) value).

Fixpoint read_row_vec (columns : list ColumnDefinition) : ST bytes (list Value) :=
  match columns with
  | [] => ret []
  | def :: columns =>
      let! v := read_cell def in
      let! vs := read_row_vec columns in
      ret (v :: vs)
  end.

(** [row.emplace(name, value)]: the map's entries in the order they came in. *)
Definition row_emplace (row : list (bytes * Value)) (name : bytes) (value : Value)
    : list (bytes * Value) :=
  if decide (name ∈ row.*1) then row else row ++ [(name, value)].
Fixpoint read_row_dict (columns : list ColumnDefinition) (row : list (bytes * Value))
    : ST bytes (list (bytes * Value)) :=
  match columns with
  | [] => ret row
  | def :: columns =>
      let! v := read_cell def in
      read_row_dict columns (row_emplace row (cd_column_name def) v)
  end.

Definition read_row (columns : list ColumnDefinition) (rows : ResultRows) : ST bytes ResultRows :=
  match rows with
  | RowVecs vs => let! row := read_row_vec columns in ret (RowVecs (vs ++ [row]))
  | RowDicts ds => let! row := read_row_dict columns [] in ret (RowDicts (ds ++ [row]))
  end.

(** The rows, up to the packet that ends them, with its warnings and flags. *)
Definition read_rows (columns : list ColumnDefinition) (rows : ResultRows)
    : ST (bytes * (Client * W)) ResultSet :=
  loop (fun rows =>
    read_command ;;;
    let! mark := on_fst copyout_u8 in
    if mark =? 0xFE then
      on_fst remove_u8 ;;;
      let! warning_count := on_fst remove_u16l in
      let! status_flags := on_fst remove_u16l in
      ret (inr (mkResultSet columns rows 0 0 status_flags warning_count))
    else
      let! rows := on_fst (read_row columns rows) in
      ret (inl rows)) loop_fuel rows.

Definition more_results (res : ResultSet) : bool :=
  negb (Z.land (rs_status_flags res) MORE_RESULTS_EXIST =? 0).

(** A round of [query_multi]: one result set. *)
Definition query_step (rows_as_dicts : bool) (results : list ResultSet)
    : ST (bytes * (Client * W)) (list ResultSet + list ResultSet) :=
  read_command ;;;
  let! response_command := on_fst copyout_u8 in
  if response_command =? 0x00 then
    on_fst remove_u8 ;;;
    let! affected_rows := on_fst remove_varint in
    let! insert_id := on_fst remove_varint in
    let! status_flags := on_fst remove_u16l in
    let! warning_count := on_fst remove_u16l in
    let res := mkResultSet [] (RowVecs []) affected_rows insert_id status_flags warning_count in
    ret (if more_results res then inl (results ++ [res]) else inr (results ++ [res]))
  else
    (if response_command =? 0xFF then on_fst parse_error_body
     else if response_command =? 0xFB then throw no_infile
     else ret tt) ;;;
    let! column_count := on_fst remove_varint in
    let! columns := read_columns column_count in
    let! res := read_rows columns (if rows_as_dicts then RowDicts [] else RowVecs []) in
    if more_results res then on_fst drain_all ;;; ret (inl (results ++ [res]))
    else ret (inr (results ++ [res])).

Definition query_multi (sql : bytes) (rows_as_dicts : bool) : ST (Client * W) (list ResultSet) :=
  assert_conn_open ;;;
  with_buffer (
    reset_seq ;;;
    on_fst (add_u8 (Command_val C_QUERY)) ;;;
    on_fst (buf_add sql) ;;;
    write_command ;;;
    loop (query_step rows_as_dicts) loop_fuel []).

Definition query (sql : bytes) (rows_as_dicts : bool) : ST (Client * W) ResultSet :=
  let! results := query_multi sql rows_as_dicts in
  match results with [res] => ret res | _ => throw multiple_results end.

(** ** The binlog stream *)

Definition checksum_query : bytes :=
  str "SET @master_binlog_checksum = 'ALL', @source_binlog_checksum = 'ALL'".

Definition read_binlogs (filename : bytes) (position server_id : Z) (block : bool)
    : ST (Client * W) unit :=
  assert_conn_open ;;;
  query checksum_query true ;;;
  let server_id := if server_id =? 0 then random_u32 else server_id in
  with_buffer (
    reset_seq ;;;
    on_fst (add_u8 (Command_val C_BINLOG_DUMP)) ;;;
    on_fst (add_u32l (u32 position)) ;;;
    on_fst (add_u16l (if block then 0x0000 else 0x0001)) ;;;
    on_fst (add_u32l server_id) ;;;
    on_fst (buf_add filename) ;;;
    write_command ;;;
    client (modify (set_binlog_read_state READING_FIRST_EVENT)) ;;;
    client (modify (set_expected_binlog_seq 1))).

Definition is_reading_first (s : BinlogReadState) : bool :=
  match s with READING_FIRST_EVENT => true | _ => false end.

(** A packet of the stream; the first event has no checksum to cut off. *)
Definition read_event (state : BinlogReadState) : ST (bytes * (Client * W)) bytes :=
  read_command ;;;
  let! command := on_fst remove_u8 in
  if command =? 0xFE then
    client (modify (set_binlog_read_state NOT_READING)) ;;;
    throw end_of_binlog
  else if command =? 0 then
    let! ev := on_fst remove_string_eof in
    let! ev :=
      (if is_reading_first state then ret ev
       else
         let size := u64 (zlen ev - 4) in
         if string_max_size <? size then throw resize_too_long
         else ret (resize size ev)) in
    client (modify (set_binlog_read_state READING_EVENT)) ;;;
    ret ev
  else throw binlog_not_ok.

Definition get_binlog_event : ST (Client * W) bytes :=
  assert_conn_open ;;;
  let! state := on_fst (gets c_binlog_read_state) in
  match state with
  | NOT_READING => throw not_reading_binlog
  | _ => with_buffer (read_event state)
  end.
End Client.

(** ** Any lawful buffer and connection refine the abstract ones *)

Section Refinement.
Context {O : BufferOps} {L : BufferLaws O} {W : Type} {SO : SocketOps W}
  {R : W -> net -> Prop} {SL : SocketLaws SO R}.
Context (stof stod : bytes -> out Z) (sha256 : bytes -> bytes) (random_u32 : Z).
Abbreviation RC := (Rprod (@eq Client) R).

Lemma client_refines {A} (m : ST Client A) :
  refines lib_failure (Rprod eq RC) (@client W A m) (@client net A m).
Proof. unfold client. apply refines_on_snd, refines_on_fst. intros ? ? ->. by right; right. Qed.

Lemma with_buffer_refines {A} (m : ST (bytes * (Client * W)) A) m' :
  refines lib_failure (Rprod eq RC) m m' ->
  refines lib_failure RC (@with_buffer O W A m) (@with_buffer spec_buffer net A m').
Proof. intros Hm. unfold with_buffer. refine_step; [apply buf_new_refines|]. by apply refines_with_local. Qed.

Hint Resolve client_refines : refine.

Lemma mysql_assert_conn_open_refines :
  refines lib_failure RC (@assert_conn_open W) (@assert_conn_open net).
Proof.
  intros [c w] [c' w'] [Hc HR]. simpl in Hc. subst c'. right; right.
  unfold assert_conn_open, bind, on_fst, focus. simpl. by destruct (c_fd_is_open c).
Qed.

Lemma client_read_command_refines :
  refines lib_failure (Rprod eq RC) (@read_command O W SO) (@read_command spec_buffer net spec_socket).
Proof. unfold read_command. refine_auto. Qed.

Lemma client_write_command_refines :
  refines lib_failure (Rprod eq RC) (@write_command O W SO) (@write_command spec_buffer net spec_socket).
Proof. unfold write_command. refine_auto. Qed.

Lemma parse_error_body_refines {A} :
  refines lib_failure eq (@parse_error_body O A) (@parse_error_body spec_buffer A).
Proof. unfold parse_error_body. refine_auto. Qed.

Hint Resolve mysql_assert_conn_open_refines client_read_command_refines client_write_command_refines
  parse_error_body_refines : refine.

Lemma expect_ok_refines :
  refines lib_failure RC (@expect_ok O W SO) (@expect_ok spec_buffer net spec_socket).
Proof. apply with_buffer_refines. refine_auto. Qed.

Hint Resolve expect_ok_refines : refine.

Lemma initial_handshake_refines username password :
  refines lib_failure RC (@initial_handshake O W SO sha256 username password)
    (@initial_handshake spec_buffer net spec_socket sha256 username password).
Proof. apply with_buffer_refines. unfold reset_seq, read_greeting, auth_step. cbv zeta. refine_auto. Qed.

Lemma quit_refines : refines lib_failure RC (@quit O W SO) (@quit spec_buffer net spec_socket).
Proof. unfold quit, reset_seq. refine_auto. apply with_buffer_refines. refine_auto. Qed.

Lemma change_db_refines db :
  refines lib_failure RC (@change_db O W SO db) (@change_db spec_buffer net spec_socket db).
Proof. unfold change_db, reset_seq. refine_auto. apply with_buffer_refines. refine_auto. Qed.

Lemma read_column_refines :
  refines lib_failure (Rprod eq RC) (@read_column O W SO) (@read_column spec_buffer net spec_socket).
Proof. unfold read_column. refine_auto. Qed.

Lemma read_cell_refines def :
  refines lib_failure eq (@read_cell O stof stod def) (@read_cell spec_buffer stof stod def).
Proof. unfold read_cell. refine_auto. Qed.

Hint Resolve read_column_refines read_cell_refines : refine.

Lemma read_row_refines columns rows :
  refines lib_failure eq (@read_row O stof stod columns rows) (@read_row spec_buffer stof stod columns rows).
Proof.
  unfold read_row. destruct rows; (refine_step; [|refine_auto]).
  - induction columns; cbn [read_row_vec]; refine_auto.
  - generalize (@nil (bytes * Value)). induction columns; intros row; cbn [read_row_dict]; refine_auto.
Qed.

Hint Resolve read_row_refines : refine.

Lemma query_multi_refines sql dicts :
  refines lib_failure RC (@query_multi O W SO stof stod sql dicts)
    (@query_multi spec_buffer net spec_socket stof stod sql dicts).
Proof.
  unfold query_multi, reset_seq. refine_auto. apply with_buffer_refines.
  unfold query_step, read_columns, read_rows. cbv zeta. refine_auto.
Qed.

Hint Resolve query_multi_refines : refine.

Lemma read_binlogs_refines filename position server_id block :
  refines lib_failure RC (@read_binlogs O W SO stof stod random_u32 filename position server_id block)
    (@read_binlogs spec_buffer net spec_socket stof stod random_u32 filename position server_id block).
Proof.
  unfold read_binlogs, query, reset_seq. cbv zeta. refine_auto. apply with_buffer_refines. refine_auto.
Qed.

Lemma get_binlog_event_refines :
  refines lib_failure RC (@get_binlog_event O W SO) (@get_binlog_event spec_buffer net spec_socket).
Proof.
  unfold get_binlog_event, read_event. cbv zeta.
  refine_auto; apply with_buffer_refines; refine_auto.
Qed.
End Refinement.

(** ** What the abstract machine does *)

Section Spec.
Abbreviation state := (bytes * (Client * net))%type.
Abbreviation recv := (@read_command spec_buffer net spec_socket).
Abbreviation next seq := (u8 (seq + 1)).

Lemma client_read_command_spec seq p c r t :
  0 <= seq < 256 -> zlen p < 2 ^ 24 -> 
  recv ([], (c, Net (frame seq p ++ r) t)) =
  (if seq =? c_next_seq c then Val tt else Exn out_of_sequence,
   (p, (if seq =? c_next_seq c then set_next_seq (next seq) c else c, Net r t))).
Proof.
  intros Hs Hp. unfold read_command.
  assert (on_13 (@ProtocolBuffer.read_command spec_buffer net spec_socket)
    ([] : bytes, (c, Net (frame seq p ++ r) t)) = (Val seq, (p, (c, Net r t)))) as H.
  { unfold on_13, focus. cbn [fst snd]. rewrite read_command_frame by lia.
    pose proof (zlen_nonneg p).
    rewrite Z.mod_small, ztake_all, zdrop_all by lia. reflexivity. }
  erewrite bind_Val by exact H. rewrite (bind_Val _ _ _ (c_next_seq c) (p, (c, Net r t))) by done.
  destruct (Z.eqb_spec seq (c_next_seq c)) as [->|]; done.
Qed.

Lemma read_command_next {A} seq p c r t (k : ST state A) :
  0 <= seq < 256 -> zlen p < 2 ^ 24 -> seq = c_next_seq c ->
  (recv ;;; k) ([], (c, Net (frame seq p ++ r) t)) = k (p, (set_next_seq (next seq) c, Net r t)).
Proof.
  intros Hs Hp Hc. erewrite bind_Val; [reflexivity|]. rewrite client_read_command_spec by done.
  by rewrite (proj2 (Z.eqb_eq _ _) Hc).
Qed.

Lemma client_write_command_spec b c w :
  zlen b < 2 ^ 32 ->
  @write_command spec_buffer net spec_socket (b, (c, w)) =
  (Val tt, ([], (set_next_seq (next (c_next_seq c)) c, Net (rx w) (tx w ++ frame (c_next_seq c) b)))).
Proof.
  intros Hb. unfold write_command. erewrite bind_Val by done. erewrite bind_Val by done.
  unfold on_13, focus. cbn [fst snd]. by rewrite ProtocolBuffer.write_command_spec.
Qed.

(** A fresh local buffer. *)
Lemma with_buffer_spec {A} (m : ST state A) s o b s' :
  m ([], s) = (o, (b, s')) -> @with_buffer spec_buffer net A m s = (o, s').
Proof. intros Hm. unfold with_buffer. erewrite bind_Val by done. unfold with_local. by rewrite Hm. Qed.

(** ** The binlog stream *)

(** The state after one packet of the stream, and what the caller gets. *)
Definition binlog_answer (state : BinlogReadState) (p : bytes) : out bytes * BinlogReadState :=
  match p with
  | [] => (Exn not_enough_data, state)
  | mark :: ev =>
      if decide (mark = Byte.xfe) then (Exn end_of_binlog, NOT_READING)
      else if decide (mark = Byte.x00) then
        if is_reading_first state then (Val ev, READING_EVENT)
        else if zlen ev <? 4 then (Exn resize_too_long, state)
        else (Val (ztake (zlen ev - 4) ev), READING_EVENT)
      else (Exn binlog_not_ok, state)
  end.

Lemma resize_down n s : n <= zlen s -> resize n s = ztake n s.
Proof.
  intros H. unfold resize. assert (Z.to_nat (n - zlen s) = 0%nat) as -> by lia. by rewrite app_nil_r.
Qed.

Lemma remove_u8_cons b r : @remove_u8 spec_buffer (b :: r) = (Val (byte_val b), r).
Proof.
  rewrite <- (remove_u8_spec (byte_val b) r) by apply byte_val_range.
  cbn [le_encode]. by rewrite byte_of_val.
Qed.

Lemma byte_val_eqb b c : (byte_val b =? byte_val c) = bool_decide (b = c).
Proof.
  apply eq_bool_prop_intro. rewrite bool_decide_spec, Is_true_true, Z.eqb_eq. split; [|by intros ->].
  intros H. by rewrite <- (byte_of_val b), H, byte_of_val.
Qed.

Lemma read_event_spec state c seq p r t :
  seq = c_next_seq c -> 0 <= seq < 256 -> zlen p < 2 ^ 24 -> state = c_binlog_read_state c ->
  exists b, @read_event spec_buffer net spec_socket state ([], (c, Net (frame seq p ++ r) t)) =
  (fst (binlog_answer state p),
   (b, (set_binlog_read_state (snd (binlog_answer state p)) (set_next_seq (next seq) c), Net r t))).
Proof.
  intros Hseq Hs Hp Hst. unfold read_event. rewrite read_command_next by done.
  set (c' := set_next_seq (next seq) c).
  assert (set_binlog_read_state state c' = c') as Hc' by (subst; by destruct c).
  destruct p as [|mark ev].
  { eexists. cbn [binlog_answer fst snd]. rewrite Hc'. by erewrite bind_Exn. }
  rewrite zlen_cons in Hp. pose proof (zlen_nonneg ev).
  erewrite bind_Val by (apply on_fst_eq, remove_u8_cons).
  change 0xFE with (byte_val Byte.xfe). change (byte_val mark =? 0) with (byte_val mark =? byte_val Byte.x00).
  rewrite !byte_val_eqb. cbn [binlog_answer].
  destruct (decide (mark = Byte.xfe)) as [->|]; [by eexists|].
  rewrite bool_decide_false by done.
  destruct (decide (mark = Byte.x00)) as [->|]; [|rewrite bool_decide_false by done;
    eexists; cbn [fst snd]; by rewrite Hc'].
  rewrite bool_decide_true by done.
  erewrite bind_Val by (apply on_fst_eq, remove_string_eof_spec; lia).
  destruct (is_reading_first state); [by eexists|]. cbv zeta. unfold string_max_size.
  destruct (Z.ltb_spec (zlen ev) 4).
  - assert (u64 (zlen ev - 4) = zlen ev - 4 + 2 ^ 64) as ->
      by (unfold u64; rewrite <- (Z.mod_add _ 1), Z.mod_small by lia; lia).
    destruct (Z.ltb_spec (2 ^ 63 - 1) (zlen ev - 4 + 2 ^ 64)); [|lia].
    eexists. cbn [fst snd]. rewrite Hc'. by erewrite bind_Exn.
  - assert (u64 (zlen ev - 4) = zlen ev - 4) as -> by (unfold u64; rewrite Z.mod_small; lia).
    destruct (Z.ltb_spec (2 ^ 63 - 1) (zlen ev - 4)); [lia|].
    rewrite resize_down by lia. by eexists.
Qed.

Lemma get_binlog_event_spec c seq p r t :
  c_fd_is_open c = true -> c_binlog_read_state c <> NOT_READING ->
  seq = c_next_seq c -> 0 <= seq < 256 -> zlen p < 2 ^ 24 ->
  @get_binlog_event spec_buffer net spec_socket (c, Net (frame seq p ++ r) t) =
  (fst (binlog_answer (c_binlog_read_state c) p),
   (set_binlog_read_state (snd (binlog_answer (c_binlog_read_state c) p)) (set_next_seq (next seq) c),
    Net r t)).
Proof.
  intros Hopen Hst Hseq Hs Hp. unfold get_binlog_event.
  rewrite (bind_Val _ _ _ tt (c, Net (frame seq p ++ r) t))
    by (unfold assert_conn_open, bind, on_fst, focus; simpl; by rewrite Hopen).
  rewrite (bind_Val _ _ _ (c_binlog_read_state c) (c, Net (frame seq p ++ r) t)) by done.
  destruct (read_event_spec (c_binlog_read_state c) c seq p r t) as [b Hr]; try done.
  destruct (c_binlog_read_state c); [done|..]; by eapply with_buffer_spec.
Qed.

(** ** Replies to a query *)

Definition var_string (s : bytes) : bytes := varint_bytes (zlen s) ++ s.

Definition column_packet (d : ColumnDefinition) : bytes :=
  var_string (cd_catalog_name d) ++ var_string (cd_database_name d) ++ var_string (cd_table_name d) ++
  var_string (cd_original_table_name d) ++ var_string (cd_column_name d) ++
  var_string (cd_original_column_name d) ++ varint_bytes 0x0C ++ le_encode 2 (cd_charset d) ++
  le_encode 4 (cd_max_value_length d) ++ le_encode 1 (cd_type d) ++ le_encode 2 (cd_flags d) ++
  le_encode 1 (cd_decimals d) ++ le_encode 2 0.
Definition column_ok (d : ColumnDefinition) : Prop :=
  zlen (column_packet d) < 2 ^ 24 /\ 0 <= cd_charset d < 2 ^ 16 /\
  0 <= cd_max_value_length d < 2 ^ 32 /\ 0 <= cd_type d < 2 ^ 8 /\ 0 <= cd_flags d < 2 ^ 16 /\
  0 <= cd_decimals d < 2 ^ 8.

(** A cell on the wire: NULL, or the text of the value. *)
Definition cell_bytes (cell : option bytes) : bytes :=
  match cell with None => [Byte.xfb] | Some s => var_string s end.
Definition row_packet (row : list (option bytes)) : bytes := concat (map cell_bytes row).

Lemma remove_var_string_app s r :
  zlen s < 2 ^ 31 -> @remove_var_string spec_buffer (var_string s ++ r) = (Val s, r).
Proof. intros. unfold var_string. rewrite <- app_assoc. by apply remove_var_string_spec. Qed.

Lemma column_parts_small d : column_ok d ->
  zlen (cd_catalog_name d) < 2 ^ 31 /\ zlen (cd_database_name d) < 2 ^ 31 /\
  zlen (cd_table_name d) < 2 ^ 31 /\ zlen (cd_original_table_name d) < 2 ^ 31 /\
  zlen (cd_column_name d) < 2 ^ 31 /\ zlen (cd_original_column_name d) < 2 ^ 31.
Proof.
  intros [H _]. unfold column_packet, var_string in H. rewrite !zlen_app in H.
  repeat match goal with
  | H : context [zlen ?l] |- _ =>
      lazymatch goal with
      | _ : 0 <= zlen l |- _ => fail
      | _ => pose proof (zlen_nonneg l)
      end
  end. lia.
Qed.

Lemma read_column_spec d seq c r t :
  column_ok d -> 0 <= seq < 256 ->
  @read_column spec_buffer net spec_socket
    ([], (set_next_seq seq c, Net (frame seq (column_packet d) ++ r) t)) =
  (Val d, ([], (set_next_seq (next seq) c, Net r t))).
Proof.
  intros Hd Hs. destruct (column_parts_small d Hd) as (H1 & H2 & H3 & H4 & H5 & H6).
  destruct Hd as (Hp & Hc & Hm & Ht & Hf & Hdec).
  unfold read_column. rewrite read_command_next by done.
  change (set_next_seq (next seq) (set_next_seq seq c)) with (set_next_seq (next seq) c).
  unfold column_packet.
  do 6 erewrite bind_Val by (apply on_fst_eq; by apply remove_var_string_app).
  erewrite bind_Val by (apply on_fst_eq; by apply remove_varint_spec).
  change (negb (12 =? 12)) with false. cbv iota.
  erewrite bind_Val by (apply on_fst_eq; by apply remove_u16l_spec).
  erewrite bind_Val by (apply on_fst_eq; by apply remove_u32l_spec).
  erewrite bind_Val by (apply on_fst_eq; by apply remove_u8_spec).
  erewrite bind_Val by (apply on_fst_eq; by apply remove_u16l_spec).
  erewrite bind_Val by (apply on_fst_eq; by apply remove_u8_spec).
  erewrite bind_Val by (apply on_fst_eq; rewrite <- (app_nil_r (le_encode 2 0)); by apply remove_u16l_spec).
  by destruct d.
Qed.

(** Packets with consecutive sequence numbers. *)
Fixpoint frames (seq : Z) (ps : list bytes) : bytes :=
  match ps with [] => [] | p :: ps => frame seq p ++ frames (next seq) ps end.
Fixpoint seq_after (seq : Z) (ps : list bytes) : Z :=
  match ps with [] => seq | _ :: ps => seq_after (next seq) ps end.

Lemma next_range seq : 0 <= next seq < 256.
Proof. apply Z.mod_pos_bound. lia. Qed.

Lemma frames_app seq ps qs : frames seq (ps ++ qs) = frames seq ps ++ frames (seq_after seq ps) qs.
Proof. revert seq. induction ps as [|p ps IH]; intros seq; [done|]. cbn. by rewrite IH, app_assoc. Qed.

Lemma seq_after_app seq ps qs : seq_after seq (ps ++ qs) = seq_after (seq_after seq ps) qs.
Proof. revert seq. induction ps as [|p ps IH]; intros seq; [done|]. apply IH. Qed.

Lemma seq_after_range seq ps : 0 <= seq < 256 -> 0 <= seq_after seq ps < 256.
Proof. revert seq. induction ps; intros seq H; [done|]. apply IHps, next_range. Qed.

(** Where the client stands: its sequence number and what comes in. *)
Abbreviation at_seq seq c r t := ([] : bytes, (set_next_seq seq c, Net r t)).

Lemma read_columns_spec defs seq c r t :
  Forall column_ok defs -> 0 <= seq < 256 -> zlen defs < 2 ^ 63 ->
  @read_columns spec_buffer net spec_socket (zlen defs)
    (at_seq seq c (frames seq (map column_packet defs) ++ r) t) =
  (Val defs, at_seq (seq_after seq (map column_packet defs)) c r t).
Proof.
  intros Hok Hs Hl. unfold read_columns.
  set (final := at_seq (seq_after seq (map column_packet defs)) c r t).
  edestruct (loop_items (fun columns => if zlen columns <? zlen defs then
      let! def := @read_column spec_buffer net spec_socket in ret (inl (columns ++ [def]))
      else ret (inr columns))
    (fun cols ds s => exists seq', defs = cols ++ ds /\ 0 <= seq' < 256 /\
      seq_after seq' (map column_packet ds) = seq_after seq (map column_packet defs) /\
      s = at_seq seq' c (frames seq' (map column_packet ds) ++ r) t)
    (fun cols s => cols = defs /\ s = final)) with (xs := defs) (p := loop_fuel) (a := @nil ColumnDefinition)
    as (b & s' & Hloop & -> & ->); [| | | |exact Hloop].
  - intros cols d ds s (seq' & Hd & Hs' & Hafter & ->).
    assert ((zlen cols <? zlen defs) = true) as ->
      by (rewrite Hd, zlen_app, zlen_cons; pose proof (zlen_nonneg ds); lia).
    assert (column_ok d) as Hdok by (rewrite Hd, Forall_app, Forall_cons in Hok; tauto).
    cbn [map frames]. rewrite <- app_assoc.
    erewrite bind_Val by by apply read_column_spec.
    eexists _, _. split; [done|]. exists (next seq').
    split_and!; [by rewrite <- app_assoc|apply next_range|apply next_range|done|done].
  - intros cols s (seq' & Hd & Hs' & Hafter & ->). rewrite app_nil_r in Hd. subst cols.
    rewrite Z.ltb_irrefl. eexists _, _. split; [done|]. split; [done|]. unfold final. by rewrite <- Hafter.
  - exists seq. split_and!; done || lia.
  - unfold zlen in Hl. unfold loop_fuel. lia.
Qed.

(** *** Rows *)

Section Rows.
Context (stof stod : bytes -> out Z).

Definition cell_value (d : ColumnDefinition) (cell : option bytes) : out Value :=
  match cell with None => Val VNull | Some s => parse_value stof stod (cd_type d) s end.
Definition row_reads (columns : list ColumnDefinition) (row : list (option bytes))
    (values : list Value) : Prop :=
  Forall3 (fun d cell v => cell_value d cell = Val v) columns row values.

Definition row_dict (columns : list ColumnDefinition) (values : list Value) : list (bytes * Value) :=
  foldl (fun acc '(d, v) => row_emplace acc (cd_column_name d) v) [] (zip columns values).
Definition rows_result (dicts : bool) (columns : list ColumnDefinition) (valss : list (list Value))
    : ResultRows :=
  if dicts then RowDicts (map (row_dict columns) valss) else RowVecs valss.

Lemma copyout_u8_cons b r : @copyout_u8 spec_buffer (b :: r) = (Val (byte_val b), b :: r).
Proof.
  unfold copyout_u8, copyout_T. erewrite bind_Val by (by apply (spec_copyout_app [b] 1 r)).
  cbn [le_decode]. unfold ret. do 2 f_equal. lia.
Qed.

Lemma varint_head n : 0 <= n < 2 ^ 24 ->
  exists b l, varint_bytes n = b :: l /\ b <> Byte.xfb /\ b <> Byte.xfe.
Proof.
  intros Hn. unfold varint_bytes.
  destruct (Z.leb_spec n 0xFA) as [Hle|]; [|destruct (Z.leb_spec n 0xFFFF);
    [by eexists _, _|destruct (Z.leb_spec n 0xFFFFFF); [by eexists _, _|lia]]].
  eexists _, _. cbn [le_encode]. split; [done|].
  split; intros Hb; apply (f_equal byte_val) in Hb; rewrite byte_val_of, Z.mod_small in Hb by lia;
    [change (n = 0xFB) in Hb|change (n = 0xFE) in Hb]; lia.
Qed.

Lemma read_cell_spec d cell v r :
  cell_value d cell = Val v -> zlen (cell_bytes cell) < 2 ^ 24 ->
  @read_cell spec_buffer stof stod d (cell_bytes cell ++ r) = (Val v, r).
Proof.
  intros Hv Hl. unfold read_cell. destruct cell as [s|]; cbn [cell_value cell_bytes] in *.
  - unfold var_string in Hl |- *. rewrite zlen_app in Hl. pose proof (zlen_nonneg s).
    pose proof (zlen_nonneg (varint_bytes (zlen s))).
    destruct (varint_head (zlen s)) as (b & l & Hb & Hfb & _); [lia|].
    rewrite Hb at 1. cbn [app]. erewrite bind_Val by apply copyout_u8_cons.
    change 0xFB with (byte_val Byte.xfb). rewrite byte_val_eqb, bool_decide_false by done.
    assert (b :: (l ++ s) ++ r = var_string s ++ r) as -> by (unfold var_string; by rewrite Hb).
    erewrite bind_Val by (apply remove_var_string_app; lia). unfold of_out. by rewrite Hv.
  - erewrite bind_Val by apply copyout_u8_cons. cbn [app].
    change (byte_val Byte.xfb =? 0xFB) with true. cbv iota.
    erewrite bind_Val by apply remove_u8_cons. unfold ret. congruence.
Qed.

Lemma read_row_vec_spec columns row values r :
  row_reads columns row values -> zlen (row_packet row) < 2 ^ 24 ->
  @read_row_vec spec_buffer stof stod columns (row_packet row ++ r) = (Val values, r).
Proof.
  intros H. induction H as [|d cell v columns row values Hv H IH]; intros Hl; [done|].
  unfold row_packet in *. cbn [map concat read_row_vec] in *. rewrite zlen_app in Hl.
  pose proof (zlen_nonneg (cell_bytes cell)). pose proof (zlen_nonneg (concat (map cell_bytes row))).
  rewrite <- app_assoc. erewrite bind_Val by (apply read_cell_spec; [done|lia]).
  by erewrite bind_Val by (apply IH; lia).
Qed.

Lemma read_row_dict_spec columns row values acc r :
  row_reads columns row values -> zlen (row_packet row) < 2 ^ 24 ->
  @read_row_dict spec_buffer stof stod columns acc (row_packet row ++ r) =
  (Val (foldl (fun acc '(d, v) => row_emplace acc (cd_column_name d) v) acc (zip columns values)), r).
Proof.
  intros H. revert acc.
  induction H as [|d cell v columns row values Hv H IH]; intros acc Hl; [done|].
  unfold row_packet in *. cbn [map concat read_row_dict] in *. rewrite zlen_app in Hl.
  pose proof (zlen_nonneg (cell_bytes cell)). pose proof (zlen_nonneg (concat (map cell_bytes row))).
  rewrite <- app_assoc. erewrite bind_Val by (apply read_cell_spec; [done|lia]).
  rewrite IH by lia. done.
Qed.

Lemma read_row_spec dicts columns row values valss :
  row_reads columns row values -> zlen (row_packet row) < 2 ^ 24 ->
  @read_row spec_buffer stof stod columns (rows_result dicts columns valss) (row_packet row) =
  (Val (rows_result dicts columns (valss ++ [values])), []).
Proof.
  intros H Hl. rewrite <- (app_nil_r (row_packet row)). unfold rows_result, read_row. destruct dicts.
  - erewrite bind_Val by by eapply read_row_dict_spec. by rewrite map_app.
  - by erewrite bind_Val by by eapply read_row_vec_spec.
Qed.

(** The first byte of a row is not the mark of the end. *)
Lemma row_packet_head row :
  row <> [] -> zlen (row_packet row) < 2 ^ 24 ->
  exists b l, row_packet row = b :: l /\ b <> Byte.xfe.
Proof.
  intros Hne Hl. destruct row as [|[s|] row]; [done|..]; unfold row_packet in *; cbn [map concat] in *.
  - cbn [cell_bytes] in *. unfold var_string in *. rewrite !zlen_app in Hl. pose proof (zlen_nonneg s).
    pose proof (zlen_nonneg (varint_bytes (zlen s))). pose proof (zlen_nonneg (concat (map cell_bytes row))).
    destruct (varint_head (zlen s)) as (b & l & -> & _ & Hfe); [lia|]. by eexists _, _.
  - by eexists _, _.
Qed.

(** The packet that ends the rows, as the code reads it; [extra] is what the
    server says behind the flags. *)
Definition end_packet (warnings status : Z) (extra : bytes) : bytes :=
  Byte.xfe :: le_encode 2 warnings ++ le_encode 2 status ++ extra.

Lemma read_rows_spec dicts columns (rows : list (list (option bytes) * list Value))
    warnings status extra seq c r t :
  columns <> [] ->
  Forall (fun row => row_reads columns row.1 row.2 /\ zlen (row_packet row.1) < 2 ^ 24) rows ->
  0 <= warnings < 2 ^ 16 -> 0 <= status < 2 ^ 16 -> zlen (end_packet warnings status extra) < 2 ^ 24 ->
  0 <= seq < 256 -> zlen rows < 2 ^ 63 ->
  let ps := map (fun row => row_packet row.1) rows ++ [end_packet warnings status extra] in
  @read_rows spec_buffer net spec_socket stof stod columns (rows_result dicts columns [])
    (at_seq seq c (frames seq ps ++ r) t) =
  (Val (mkResultSet columns (rows_result dicts columns rows.*2) 0 0 status warnings),
   (extra, (set_next_seq (seq_after seq ps) c, Net r t))).
Proof.
  intros Hcols Hrows Hw Hst Hend Hs Hlen ps. unfold read_rows.
  match goal with |- loop ?body _ _ _ = (Val ?res, ?fin) =>
    edestruct (loop_items body
      (fun acc todo s => exists done seq', rows = done ++ todo /\ 0 <= seq' < 256 /\
        acc = rows_result dicts columns done.*2 /\
        let qs := map (fun row => row_packet row.1) todo ++ [end_packet warnings status extra] in
        seq_after seq' qs = seq_after seq ps /\ s = at_seq seq' c (frames seq' qs ++ r) t)
      (fun b s => b = res /\ s = fin)) with (xs := rows) (p := loop_fuel) (a := rows_result dicts columns [])
    as (b & s' & Hloop & -> & ->); [| | | |exact Hloop] end.
  - intros acc row todo s (done & seq' & Hd & Hs' & -> & Hafter & ->).
    assert (row_reads columns row.1 row.2 /\ zlen (row_packet row.1) < 2 ^ 24) as [Hreads Hl]
      by (rewrite Hd, Forall_app, Forall_cons in Hrows; tauto).
    eexists _, _. split.
    + cbn [map app frames]. rewrite <- app_assoc. rewrite read_command_next by done.
      destruct (row_packet_head row.1) as (b & l & Hb & Hfe); [by destruct Hreads|done|].
      rewrite Hb at 1. erewrite bind_Val by (apply on_fst_eq; apply copyout_u8_cons).
      change 0xFE with (byte_val Byte.xfe). rewrite byte_val_eqb, bool_decide_false by done.
      rewrite <- Hb. erewrite bind_Val by (apply on_fst_eq; by apply read_row_spec). done.
    + exists (done ++ [row]), (next seq').
      split_and!; [by rewrite <- app_assoc|apply next_range|apply next_range|by rewrite fmap_app|by split].
  - intros acc s (done & seq' & Hd & Hs' & -> & Hafter & ->). rewrite app_nil_r in Hd. subst done.
    cbn [map app frames]. rewrite app_nil_r. rewrite read_command_next by done.
    unfold end_packet at 1. erewrite bind_Val by (apply on_fst_eq; apply copyout_u8_cons).
    change (byte_val Byte.xfe =? 0xFE) with true. cbv iota.
    erewrite bind_Val by (apply on_fst_eq; apply remove_u8_cons).
    erewrite bind_Val by (apply on_fst_eq; by apply remove_u16l_spec).
    erewrite bind_Val by (apply on_fst_eq; by apply remove_u16l_spec).
    eexists _, _. split; [done|]. split; [done|]. by rewrite <- Hafter.
  - exists [], seq. split_and!; done || lia.
  - unfold zlen in Hlen. unfold loop_fuel. lia.
Qed.

(** A reply: an OK packet, or columns, rows and the packet that ends them. A
    row is the cells on the wire and the values they stand for. *)
Inductive reply : Type :=
| OkReply (affected_rows insert_id status warnings : Z)
| RowsReply (columns : list ColumnDefinition) (rows : list (list (option bytes) * list Value))
    (warnings status : Z) (extra : bytes).

Definition ok_packet (affected_rows insert_id status warnings : Z) : bytes :=
  Byte.x00 :: varint_bytes affected_rows ++ varint_bytes insert_id ++ le_encode 2 status ++
  le_encode 2 warnings.
Definition reply_packets (rep : reply) : list bytes :=
  match rep with
  | OkReply a i s w => [ok_packet a i s w]
  | RowsReply columns rows w s extra =>
      varint_bytes (zlen columns) :: map column_packet columns ++
      map (fun row => row_packet row.1) rows ++ [end_packet w s extra]
  end.
Definition reply_result (dicts : bool) (rep : reply) : ResultSet :=
  match rep with
  | OkReply a i s w => mkResultSet [] (RowVecs []) a i s w
  | RowsReply columns rows w s _ => mkResultSet columns (rows_result dicts columns rows.*2) 0 0 s w
  end.
Definition reply_ok (rep : reply) : Prop :=
  match rep with
  | OkReply a i s w => 0 <= a < 2 ^ 64 /\ 0 <= i < 2 ^ 64 /\ 0 <= s < 2 ^ 16 /\ 0 <= w < 2 ^ 16
  | RowsReply columns rows w s extra =>
      columns <> [] /\ zlen columns < 2 ^ 24 /\ Forall column_ok columns /\
      Forall (fun row => row_reads columns row.1 row.2 /\ zlen (row_packet row.1) < 2 ^ 24) rows /\
      zlen rows < 2 ^ 63 /\ 0 <= w < 2 ^ 16 /\ 0 <= s < 2 ^ 16 /\ zlen (end_packet w s extra) < 2 ^ 24
  end.
Definition reply_more (rep : reply) : bool := more_results (reply_result false rep).

Lemma zlen_varint_bytes v : 0 <= zlen (varint_bytes v) <= 9.
Proof. unfold varint_bytes. repeat case_match; rewrite ?zlen_cons, ?zlen_le_encode; lia. Qed.

Lemma column_count_head n : 0 < n < 2 ^ 24 ->
  exists b l, varint_bytes n = b :: l /\ b <> Byte.x00 /\ b <> Byte.xfb /\ b <> Byte.xff.
Proof.
  intros Hn. unfold varint_bytes.
  destruct (Z.leb_spec n 0xFA) as [Hle|]; [|destruct (Z.leb_spec n 0xFFFF);
    [by eexists _, _|destruct (Z.leb_spec n 0xFFFFFF); [by eexists _, _|lia]]].
  eexists _, _. cbn [le_encode]. split; [done|].
  split_and!; intros Hb; apply (f_equal byte_val) in Hb; rewrite byte_val_of, Z.mod_small in Hb by lia;
    [change (n = 0) in Hb|change (n = 0xFB) in Hb|change (n = 0xFF) in Hb]; lia.
Qed.

Lemma query_step_spec dicts results rep seq c r t :
  reply_ok rep -> 0 <= seq < 256 ->
  exists b,
  @query_step spec_buffer net spec_socket stof stod dicts results
    (at_seq seq c (frames seq (reply_packets rep) ++ r) t) =
  (Val ((if reply_more rep then inl else inr) (results ++ [reply_result dicts rep])),
   (b, (set_next_seq (seq_after seq (reply_packets rep)) c, Net r t))) /\
  (reply_more rep = true -> b = []).
Proof.
  intros Hok Hs. unfold query_step. destruct rep as [a i s w|columns rows w s extra].
  - destruct Hok as (Ha & Hi & Hst & Hw). exists []. split; [|done].
    cbn [reply_packets frames seq_after]. rewrite app_nil_r.
    rewrite read_command_next; [|done| |done].
    2: { unfold ok_packet. rewrite zlen_cons, !zlen_app, !zlen_le_encode.
         pose proof (zlen_varint_bytes a). pose proof (zlen_varint_bytes i). lia. }
    erewrite bind_Val by (apply on_fst_eq; apply copyout_u8_cons).
    change (byte_val Byte.x00 =? 0x00) with true. cbv iota.
    erewrite bind_Val by (apply on_fst_eq; apply remove_u8_cons).
    do 2 erewrite bind_Val by (apply on_fst_eq; by apply remove_varint_spec).
    erewrite bind_Val by (apply on_fst_eq; by apply remove_u16l_spec).
    erewrite bind_Val by (apply on_fst_eq; rewrite <- (app_nil_r (le_encode 2 w)); by apply remove_u16l_spec).
    unfold reply_more. cbn [reply_result]. by destruct (more_results _).
  - destruct Hok as (Hc & Hcl & Hcols & Hrows & Hrl & Hw & Hst & Hend).
    assert (0 < zlen columns) by (destruct columns; [done|rewrite zlen_cons; pose proof (zlen_nonneg columns); lia]).
    destruct (column_count_head (zlen columns)) as (b & l & Hb & H0 & Hfb & Hff); [lia|].
    exists (if reply_more (RowsReply columns rows w s extra) then [] else extra).
    split; [|by intros ->].
    cbn [reply_packets frames seq_after]. rewrite frames_app, seq_after_app, <- !app_assoc.
    rewrite read_command_next; [|done|pose proof (zlen_varint_bytes (zlen columns)); lia|done].
    change (set_next_seq (next seq) (set_next_seq seq c)) with (set_next_seq (next seq) c).
    rewrite Hb at 1. erewrite bind_Val by (apply on_fst_eq; apply copyout_u8_cons).
    change 0x00 with (byte_val Byte.x00) at 1. change 0xFF with (byte_val Byte.xff).
    change 0xFB with (byte_val Byte.xfb).
    rewrite !byte_val_eqb, !bool_decide_false by done. rewrite <- Hb.
    erewrite bind_Val by done.
    erewrite bind_Val by (apply on_fst_eq; rewrite <- (app_nil_r (varint_bytes _)); apply remove_varint_spec; lia).
    pose proof (next_range seq).
    erewrite bind_Val by (apply read_columns_spec; [done|done|lia]).
    pose proof (seq_after_range (next seq) (map column_packet columns) (next_range seq)).
    assert ((if dicts then RowDicts [] else RowVecs []) = rows_result dicts columns []) as -> by by destruct dicts.
    erewrite bind_Val by by apply read_rows_spec.
    unfold reply_more. cbn [reply_result]. unfold more_results. cbn [rs_status_flags].
    destruct (negb _); [|done].
    by erewrite bind_Val by (apply on_fst_eq; unfold drain_all; erewrite bind_Val by done; by apply spec_drain_all).
Qed.

Definition replies_packets (reps : list reply) : list bytes := concat (map reply_packets reps).

Lemma query_loop_spec dicts reps final seq c r t :
  Forall reply_ok (reps ++ [final]) -> Forall (fun rep => reply_more rep = true) reps ->
  reply_more final = false -> 0 <= seq < 256 -> zlen reps < 2 ^ 63 ->
  let ps := replies_packets (reps ++ [final]) in
  exists b,
  loop (@query_step spec_buffer net spec_socket stof stod dicts) loop_fuel []
    (at_seq seq c (frames seq ps ++ r) t) =
  (Val (map (reply_result dicts) (reps ++ [final])), (b, (set_next_seq (seq_after seq ps) c, Net r t))).
Proof.
  intros Hok Hmore Hlast Hs Hlen ps.
  edestruct (loop_items (@query_step spec_buffer net spec_socket stof stod dicts)
    (fun acc todo s => exists done seq', reps = done ++ todo /\ 0 <= seq' < 256 /\
      acc = map (reply_result dicts) done /\
      let qs := replies_packets (todo ++ [final]) in
      seq_after seq' qs = seq_after seq ps /\ s = at_seq seq' c (frames seq' qs ++ r) t)
    (fun res s => res = map (reply_result dicts) (reps ++ [final]) /\
      exists b, s = (b, (set_next_seq (seq_after seq ps) c, Net r t))))
    with (xs := reps) (p := loop_fuel) (a := @nil ResultSet)
    as (res & s' & Hloop & -> & b & ->); [| | | |exists b; exact Hloop].
  - intros acc rep todo s (done & seq' & Hd & Hs' & -> & Hafter & ->).
    assert (reply_ok rep /\ reply_more rep = true) as [Hrok Hrmore]
      by (rewrite Hd, !Forall_app, !Forall_cons in Hok; rewrite Hd, Forall_app, Forall_cons in Hmore; tauto).
    unfold replies_packets in *. cbn [app map concat] in *.
    rewrite seq_after_app in Hafter. rewrite frames_app, <- app_assoc.
    destruct (query_step_spec dicts (map (reply_result dicts) done) rep seq' c
      (frames (seq_after seq' (reply_packets rep)) (concat (map reply_packets (todo ++ [final]))) ++ r) t
      Hrok Hs') as (b & Hstep & Hb).
    rewrite Hrmore in Hstep. rewrite (Hb Hrmore) in Hstep.
    eexists _, _. split; [exact Hstep|].
    exists (done ++ [rep]), (seq_after seq' (reply_packets rep)).
    pose proof (seq_after_range seq' (reply_packets rep) Hs').
    split; [by rewrite <- app_assoc|]. split; [done|]. split; [by rewrite map_app|by split].
  - intros acc s (done & seq' & Hd & Hs' & -> & Hafter & ->). rewrite app_nil_r in Hd. subst done.
    unfold replies_packets in *. cbn [app map concat] in *. rewrite app_nil_r in *.
    destruct (query_step_spec dicts (map (reply_result dicts) reps) final seq' c r t) as (b & Hstep & _);
      [by apply Forall_app in Hok as [_ [? _]%Forall_cons]|done|].
    rewrite Hlast in Hstep. eexists _, _. split; [exact Hstep|].
    split; [by rewrite map_app|]. exists b. by rewrite <- Hafter.
  - exists [], seq. split_and!; done || lia.
  - unfold zlen in Hlen. unfold loop_fuel. lia.
Qed.

Lemma mysql_assert_conn_open_spec c w :
  @assert_conn_open net (c, w) = (if c_fd_is_open c then Val tt else Exn conn_not_open, (c, w)).
Proof. unfold assert_conn_open, bind, on_fst, focus. simpl. by destruct (c_fd_is_open c). Qed.

Lemma query_multi_spec dicts sql reps final c r t :
  c_fd_is_open c = true -> zlen sql < 2 ^ 31 ->
  Forall reply_ok (reps ++ [final]) -> Forall (fun rep => reply_more rep = true) reps ->
  reply_more final = false -> zlen reps < 2 ^ 63 ->
  let ps := replies_packets (reps ++ [final]) in
  @query_multi spec_buffer net spec_socket stof stod sql dicts (c, Net (frames 1 ps ++ r) t) =
  (Val (map (reply_result dicts) (reps ++ [final])),
   (set_next_seq (seq_after 1 ps) c, Net r (t ++ frame 0 (Byte.x03 :: sql)))).
Proof.
  intros Hopen Hsql Hok Hmore Hlast Hlen ps. unfold query_multi. pose proof (zlen_nonneg sql).
  erewrite bind_Val by (rewrite mysql_assert_conn_open_spec, Hopen; done).
  destruct (query_loop_spec dicts reps final 1 c r (t ++ frame 0 (Byte.x03 :: sql))) as [b Hloop];
    try done.
  apply (with_buffer_spec _ _ _ b). unfold reset_seq.
  set (n := Net _ t).
  rewrite (bind_Val _ _ _ tt ([], (set_next_seq 0 c, n))) by done.
  rewrite (bind_Val _ _ _ tt ([Byte.x03], (set_next_seq 0 c, n))) by done.
  rewrite (bind_Val _ _ _ tt (Byte.x03 :: sql, (set_next_seq 0 c, n))) by done.
  erewrite bind_Val; [exact Hloop|].
  rewrite client_write_command_spec by (rewrite zlen_cons; lia). done.
Qed.
End Rows.

(** ** The handshake *)

Record greeting := mkGreeting {
  g_version : bytes; g_connection_id : Z; g_nonce1 : bytes; g_unused1 : Z; g_caps_low : Z;
  g_charset : Z; g_status : Z; g_caps_high : Z; g_nonce_length : Z; g_unused10 : bytes;
  g_nonce2 : bytes; g_plugin : bytes
}.
Definition greeting_packet (g : greeting) : bytes :=
  le_encode 1 10 ++ g_version g ++ [Byte.x00] ++ le_encode 4 (g_connection_id g) ++ g_nonce1 g ++
  le_encode 1 (g_unused1 g) ++ le_encode 2 (g_caps_low g) ++ le_encode 1 (g_charset g) ++
  le_encode 2 (g_status g) ++ le_encode 2 (g_caps_high g) ++ le_encode 1 (g_nonce_length g) ++
  g_unused10 g ++ g_nonce2 g ++ g_plugin g ++ [Byte.x00].
Definition greeting_ok (g : greeting) : Prop :=
  (Byte.x00 ∉ g_version g) /\ 0 <= g_connection_id g < 2 ^ 32 /\ zlen (g_nonce1 g) = 8 /\
  0 <= g_unused1 g < 256 /\ 0 <= g_caps_low g < 2 ^ 16 /\ 0 <= g_charset g < 256 /\
  0 <= g_status g < 2 ^ 16 /\ 0 <= g_caps_high g < 2 ^ 16 /\ 8 <= g_nonce_length g < 256 /\
  zlen (g_unused10 g) = 10 /\ zlen (g_nonce2 g) = Z.max 13 (g_nonce_length g - 8) /\
  (Byte.x00 ∉ g_plugin g) /\ zlen (greeting_packet g) < 2 ^ 24.

(** The challenge handed to the plugin. *)
Definition greeting_nonce (g : greeting) : bytes :=
  strip_nul (ztake (g_nonce_length g) (g_nonce1 g ++ g_nonce2 g)).
Definition response_packet (username plugin auth : bytes) : bytes :=
  le_encode 4 client_cap_flags ++ le_encode 4 0xFFFFFFFF ++ le_encode 1 0xFF ++
  repeat Byte.x00 23 ++ username ++ [Byte.x00] ++ var_string auth ++ plugin ++ [Byte.x00].
Definition greeted (g : greeting) (c : Client) : Client :=
  mkClient (c_fd_is_open c) (c_next_seq c) (g_version g) (g_connection_id g)
    (g_caps_low g + 2 ^ 16 * g_caps_high g) (g_charset g) (g_status g) (c_binlog_read_state c)
    (c_expected_binlog_seq c).

(** The server's verdict: any number of "fast authentication succeeded" packets
    and an OK packet. *)
Definition verdict_packets (fast : nat) (info : bytes) : list bytes :=
  repeat [Byte.x01; Byte.x03] fast ++ [Byte.x00 :: info].

Lemma auth_loop_spec fast info seq c r t :
  0 <= seq < 256 -> zlen info < 2 ^ 23 -> Z.of_nat fast < 2 ^ 63 ->
  loop (@auth_step spec_buffer net spec_socket caching_sha2_password) loop_fuel tt
    (at_seq seq c (frames seq (verdict_packets fast info) ++ r) t) =
  (Val tt, (info, (set_next_seq (seq_after seq (verdict_packets fast info)) c, Net r t))).
Proof.
  intros Hs Hinfo Hfast.
  edestruct (loop_items (@auth_step spec_buffer net spec_socket caching_sha2_password)
    (fun _ (todo : list unit) s => exists seq', 0 <= seq' < 256 /\
      let qs := verdict_packets (length todo) info in
      seq_after seq' qs = seq_after seq (verdict_packets fast info) /\
      s = at_seq seq' c (frames seq' qs ++ r) t)
    (fun _ s => s = (info, (set_next_seq (seq_after seq (verdict_packets fast info)) c, Net r t))))
    with (xs := repeat tt fast) (p := loop_fuel) (a := tt)
    as ([] & s' & Hloop & ->); [| | | |exact Hloop].
  - intros [] [] todo s (seq' & Hs' & Hafter & ->).
    eexists _, _. split.
    + cbn [length verdict_packets repeat app frames]. rewrite <- app_assoc. unfold auth_step.
      rewrite read_command_next by done.
      erewrite bind_Val by (apply on_fst_eq; apply remove_u8_cons).
      change (byte_val Byte.x01 =? 0) with false. change (byte_val Byte.x01 =? 1) with true. cbv iota.
      rewrite decide_True by done.
      erewrite bind_Val by (apply on_fst_eq; apply remove_u8_cons).
      change (byte_val Byte.x03 =? 3) with true. cbv iota. done.
    + exists (next seq'). split; [apply next_range|by split].
  - intros [] s (seq' & Hs' & Hafter & ->). eexists tt, _. split.
    + cbn [length verdict_packets repeat app frames]. rewrite app_nil_r. unfold auth_step.
      rewrite read_command_next by (done || rewrite zlen_cons; lia).
      by erewrite bind_Val by (apply on_fst_eq; apply remove_u8_cons).
    + by rewrite <- Hafter.
  - exists seq. rewrite repeat_length. split; [lia|done].
  - rewrite repeat_length. unfold loop_fuel. lia.
Qed.

Lemma split_nul_string0 s r : Byte.x00 ∉ s ->
  @remove_string0 spec_buffer (s ++ Byte.x00 :: r) = (Val s, r).
Proof. intros. unfold remove_string0. cbn. unfold spec_readln_nul. by rewrite split_nul_app. Qed.

Lemma drain_app d n r : zlen d = n -> spec_drain n (d ++ r) = (Val tt, r).
Proof.
  intros <-. unfold spec_drain. destruct (Z.ltb_spec (zlen d) 0); [pose proof (zlen_nonneg d); lia|].
  unfold modify. by rewrite zdrop_app.
Qed.

Lemma client_modify f b c w :
  @client net unit (modify f) (b, (c, w)) = (Val tt, (b, (f c, w))).
Proof. done. Qed.

Lemma capability_flags low high :
  0 <= low < 2 ^ 16 -> 0 <= high < 2 ^ 16 ->
  Z.lor low (u32 (Z.shiftl high 16)) = low + 2 ^ 16 * high.
Proof.
  intros Hl Hh. assert (u32 (Z.shiftl high 16) = Z.shiftl high 16) as ->
    by (unfold u32; rewrite Z.shiftl_mul_pow2, Z.mod_small by lia; done).
  rewrite Z.lor_comm, lor_shiftl_add by lia. lia.
Qed.

Lemma read_greeting_spec g seq c r t :
  greeting_ok g -> 0 <= seq < 256 ->
  @read_greeting spec_buffer net spec_socket
    (at_seq seq c (frame seq (greeting_packet g) ++ r) t) =
  (Val (g_plugin g, greeting_nonce g), at_seq (next seq) (greeted g c) r t).
Proof.
  intros (Hv & Hid & Hn1 & Hu & Hlow & Hcs & Hst & Hhigh & Hnl & Hu10 & Hn2 & Hpl & Hlen) Hs.
  unfold read_greeting. rewrite read_command_next by done. unfold greeting_packet.
  erewrite bind_Val by (apply on_fst_eq; by apply remove_u8_spec).
  change (negb (10 =? 10)) with false. cbv iota.
  erewrite bind_Val by (apply on_fst_eq; by apply split_nul_string0).
  erewrite bind_Val by apply client_modify. cbn [app].
  erewrite bind_Val by (apply on_fst_eq; by apply remove_u32l_spec).
  erewrite bind_Val by apply client_modify.
  erewrite bind_Val by (apply on_fst_eq; by apply remove_string_app).
  erewrite bind_Val by (apply on_fst_eq; by apply remove_u8_spec).
  erewrite bind_Val by (apply on_fst_eq; by apply remove_u16l_spec).
  erewrite bind_Val by apply client_modify.
  erewrite bind_Val by (apply on_fst_eq; by apply remove_u8_spec).
  erewrite bind_Val by apply client_modify.
  erewrite bind_Val by (apply on_fst_eq; by apply remove_u16l_spec).
  erewrite bind_Val by apply client_modify.
  erewrite bind_Val by (apply on_fst_eq; by apply remove_u16l_spec).
  erewrite bind_Val by apply client_modify.
  erewrite bind_Val by (apply on_fst_eq; apply remove_u8_spec; lia).
  erewrite bind_Val by (apply on_fst_eq; by apply drain_app).
  assert (u64 (g_nonce_length g - 8) = g_nonce_length g - 8) as -> by (unfold u64; rewrite Z.mod_small; lia).
  cbv zeta.
  assert ((if g_nonce_length g - 8 <? 13 then 13 else g_nonce_length g - 8) = zlen (g_nonce2 g)) as ->
    by (destruct (Z.ltb_spec (g_nonce_length g - 8) 13); lia).
  erewrite bind_Val by (apply on_fst_eq; apply remove_string_app; [done|lia]).
  erewrite bind_Val by (apply on_fst_eq; by apply split_nul_string0).
  erewrite bind_Val by done. change (zlen [] =? 0) with true. cbn [negb].
  unfold ret, greeting_nonce. rewrite resize_down by (rewrite zlen_app; lia).
  rewrite capability_flags by done. done.
Qed.

Lemma response_spec {A} username plugin auth c w (k : ST state A) :
  zlen (response_packet username plugin auth) < 2 ^ 32 ->
  (on_fst (@add_u32l spec_buffer client_cap_flags) ;;;
   on_fst (@add_u32l spec_buffer 0xFFFFFFFF) ;;;
   on_fst (@add_u8 spec_buffer 0xFF) ;;;
   on_fst (@add_zeroes spec_buffer 23) ;;;
   on_fst (@add_string0 spec_buffer username) ;;;
   on_fst (@add_var_string spec_buffer auth) ;;;
   on_fst (@add_string0 spec_buffer plugin) ;;;
   @write_command spec_buffer net spec_socket ;;; k) ([], (c, w)) =
  k ([], (set_next_seq (next (c_next_seq c)) c,
    Net (rx w) (tx w ++ frame (c_next_seq c) (response_packet username plugin auth)))).
Proof.
  intros Hl.
  erewrite bind_Val by by apply on_fst_eq. erewrite bind_Val by by apply on_fst_eq.
  erewrite bind_Val by by apply on_fst_eq.
  erewrite bind_Val by (apply on_fst_eq; by apply add_zeroes_spec).
  erewrite bind_Val by by apply on_fst_eq.
  erewrite bind_Val by (apply on_fst_eq; apply add_var_string_spec).
  erewrite bind_Val by by apply on_fst_eq.
  erewrite bind_Val; [reflexivity|].
  assert (forall b, b = response_packet username plugin auth ->
    @write_command spec_buffer net spec_socket (b, (c, w)) =
    (Val tt, ([], (set_next_seq (next (c_next_seq c)) c,
      Net (rx w) (tx w ++ frame (c_next_seq c) (response_packet username plugin auth)))))) as H
    by (intros b ->; by apply client_write_command_spec).
  apply H. unfold response_packet, var_string. by rewrite <- !app_assoc.
Qed.

Section Authentication.
Context (sha256 : bytes -> bytes).

(** What a client that knows the password answers to a challenge. *)
Definition auth_answer (nonce password : bytes) : bytes :=
  map (fun x => byte_xor (nth x (sha256 password) Byte.x00)
      (nth x (sha256 (sha256 (sha256 password) ++ nonce)) Byte.x00)) (seq 0 0x20).

Lemma initial_handshake_spec username password g fast info c r t :
  greeting_ok g -> g_plugin g = caching_sha2_password ->
  zlen username < 2 ^ 31 -> zlen info < 2 ^ 23 -> Z.of_nat fast < 2 ^ 63 ->
  @initial_handshake spec_buffer net spec_socket sha256 username password
    (c, Net (frame 0 (greeting_packet g) ++ frames 2 (verdict_packets fast info) ++ r) t) =
  (Val tt, (set_next_seq (seq_after 2 (verdict_packets fast info)) (greeted g c),
    Net r (t ++ frame 1 (response_packet username caching_sha2_password
      (auth_answer (greeting_nonce g) password))))).
Proof.
  intros Hg Hp Hu Hi Hf. unfold initial_handshake.
  apply (with_buffer_spec _ _ _ info).
  unfold reset_seq. erewrite bind_Val by apply client_modify.
  erewrite bind_Val by by apply read_greeting_spec.
  rewrite Hp. cbv iota. unfold compute_auth_response. rewrite decide_True by done. cbv zeta.
  erewrite bind_Val by done. fold (auth_answer (greeting_nonce g) password).
  rewrite response_spec; [by apply (auth_loop_spec fast info 2 (greeted g c))|].
  unfold response_packet, var_string. rewrite !zlen_app, !zlen_le_encode.
  pose proof (zlen_varint_bytes (zlen (auth_answer (greeting_nonce g) password))).
  assert (zlen (auth_answer (greeting_nonce g) password) = 32) as Ha
    by (unfold zlen, auth_answer; by rewrite length_map, length_seq).
  assert (zlen (repeat Byte.x00 23) = 23) by done. assert (zlen caching_sha2_password = 21) by done.
  change (zlen [Byte.x00]) with 1. lia.
Qed.

(** The server, which keeps only the digest of the password's digest, gets the
    digest back out of the answer. *)
Lemma auth_answer_proves nonce password :
  zlen (sha256 password) = 32 ->
  zip_with byte_xor (auth_answer nonce password)
    (map (fun x => nth x (sha256 (sha256 (sha256 password) ++ nonce)) Byte.x00) (seq 0 0x20)) =
  sha256 password.
Proof.
  intros Hl. unfold zlen in Hl. unfold auth_answer. apply list_eq. intros i.
  rewrite lookup_zip_with, !list_lookup_fmap.
  destruct (decide (i < 32)%nat) as [Hi|Hi].
  - destruct (lookup_lt_is_Some_2 (sha256 password) i) as [b Hb]; [lia|].
    rewrite lookup_seq_lt by lia. cbn. rewrite byte_xor_involutive, nth_lookup. by rewrite Hb.
  - rewrite lookup_seq_ge by lia. cbn. symmetry. apply lookup_ge_None. lia.
Qed.
End Authentication.
End Spec.
