(* ===== verification/MySQLSession.v ===== *)
(** * Sessions of the MySQL client: the properties

    What the client of MySQLClient.v does with a server's packets, over any lawful
    buffer and connection. *)
From stdpp Require Import tactics base list numbers strings.
From S2P Require Import Prelude BufferApi Libevent Chunked Buffer Text ProtocolBuffer MySQLTypes.
From S2P Require Import MySQLClient.

Section ErrorPackets.

(** An ERR packet behind its first byte. *)
Definition error_body (code : Z) (sqlstate message : bytes) : bytes :=
  le_encode 2 code ++ Byte.x23 :: sqlstate ++ message.
Definition error_packet (code : Z) (sqlstate message : bytes) : bytes :=
  Byte.xff :: error_body code sqlstate message.

Lemma parse_error_body_spec {A} code sqlstate message :
  0 <= code < 2 ^ 16 -> zlen sqlstate = 6 -> zlen message < 2 ^ 31 ->
  @parse_error_body spec_buffer A (le_encode 2 code ++ sqlstate ++ message) =
  (Exn (server_error code sqlstate message), []).
Proof.
  intros Hc Hs Hm. unfold parse_error_body.
  erewrite bind_Val by by apply remove_u16l_spec.
  erewrite bind_Val by by apply remove_string_app.
  by erewrite bind_Val by by apply remove_string_eof_spec.
Qed.

(** What [expect_ok] makes of a packet. *)
Definition ok_answer (p : bytes) : out unit :=
  match p with
  | [] => Exn not_enough_data
  | mark :: body =>
      if decide (mark = Byte.x00) then Val tt
      else if decide (mark = Byte.xff) then fst (@parse_error_body spec_buffer unit body)
      else Exn no_ok_or_err
  end.

Abbreviation next seq := (u8 (seq + 1)).

Lemma expect_ok_spec seq p c r t :
  0 <= seq < 256 -> zlen p < 2 ^ 24 -> seq = c_next_seq c ->
  @expect_ok spec_buffer net spec_socket (c, Net (frame seq p ++ r) t) =
  (ok_answer p, (set_next_seq (next seq) c, Net r t)).
Proof.
  intros Hs Hp Hc. unfold expect_ok.
  destruct p as [|mark body].
  - eapply with_buffer_spec. rewrite read_command_next by done. by erewrite bind_Exn.
  - cbn [ok_answer].
    destruct (decide (mark = Byte.x00)) as [->|H0]; [|destruct (decide (mark = Byte.xff)) as [->|Hff]];
      eapply with_buffer_spec; rewrite read_command_next by done;
      erewrite bind_Val by (apply on_fst_eq, remove_u8_cons).
    + done.
    + change (byte_val Byte.xff =? 0) with false. change (byte_val Byte.xff =? 0xFF) with true. cbv iota.
      apply on_fst_eq, surjective_pairing.
    + change (byte_val mark =? 0) with (byte_val mark =? byte_val Byte.x00).
      change 0xFF with (byte_val Byte.xff).
      rewrite !byte_val_eqb, !bool_decide_false by done. done.
Qed.

Lemma change_db_spec db p c r t :
  c_fd_is_open c = true -> zlen db < 2 ^ 31 -> zlen p < 2 ^ 24 ->
  @change_db spec_buffer net spec_socket db (c, Net (frame 1 p ++ r) t) =
  (ok_answer p, (set_next_seq 2 c, Net r (t ++ frame 0 (Byte.x02 :: db)))).
Proof.
  intros Hopen Hdb Hp. unfold change_db. pose proof (zlen_nonneg db).
  erewrite bind_Val by (rewrite mysql_assert_conn_open_spec, Hopen; done).
  apply (with_buffer_spec _ _ _ []). unfold reset_seq. set (n := Net _ t).
  erewrite bind_Val by apply client_modify.
  rewrite (bind_Val _ _ _ tt ([Byte.x02], (set_next_seq 0 c, n))) by done.
  rewrite (bind_Val _ _ _ tt (Byte.x02 :: db, (set_next_seq 0 c, n))) by done.
  erewrite bind_Val by (apply client_write_command_spec; rewrite zlen_cons; lia).
  apply on_snd_eq. by apply (expect_ok_spec 1 p (set_next_seq 1 c)).
Qed.

(** A query whose first reply is the packet [p]. *)
Lemma query_multi_first {o} dicts stof stod sql p c r t b c' w' :
  c_fd_is_open c = true -> zlen sql < 2 ^ 31 -> 
  @query_step spec_buffer net spec_socket stof stod dicts []
    ([], (set_next_seq 1 c, Net (frame 1 p ++ r) (t ++ frame 0 (Byte.x03 :: sql)))) =
  (Exn o, (b, (c', w'))) ->
  @query_multi spec_buffer net spec_socket stof stod sql dicts (c, Net (frame 1 p ++ r) t) =
  (Exn o, (c', w')).
Proof.
  intros Hopen Hsql Hstep. unfold query_multi. pose proof (zlen_nonneg sql).
  erewrite bind_Val by (rewrite mysql_assert_conn_open_spec, Hopen; done).
  apply (with_buffer_spec _ _ _ b). unfold reset_seq. set (n := Net _ t).
  erewrite bind_Val by apply client_modify.
  rewrite (bind_Val _ _ _ tt ([Byte.x03], (set_next_seq 0 c, n))) by done.
  rewrite (bind_Val _ _ _ tt (Byte.x03 :: sql, (set_next_seq 0 c, n))) by done.
  erewrite bind_Val by (apply client_write_command_spec; rewrite zlen_cons; lia).
  by apply loop_first_throws.
Qed.

Lemma error_packet_size code sqlstate last message :
  zlen sqlstate = 4 -> zlen message < 2 ^ 23 ->
  zlen (error_packet code (sqlstate ++ [last]) message) < 2 ^ 24.
Proof.
  intros Hs Hm. unfold error_packet, error_body.
  rewrite !zlen_cons, !zlen_app, zlen_le_encode, !zlen_cons, !zlen_app, Hs. change (zlen [last]) with 1. lia.
Qed.

Lemma query_error_spec dicts stof stod sql code s1 sqlstate last message c r t :
  c_fd_is_open c = true -> zlen sql < 2 ^ 31 -> 0 <= code < 2 ^ 16 -> zlen sqlstate = 4 ->
  zlen message < 2 ^ 23 -> 
  s1 = sqlstate ++ [last] ->
  @query_multi spec_buffer net spec_socket stof stod sql dicts
    (c, Net (frame 1 (error_packet code s1 message) ++ r) t) =
  (Exn (server_error (255 + 256 * (code mod 256)) (byte_of (code / 256) :: Byte.x23 :: sqlstate)
          (last :: message)),
   (set_next_seq 2 c, Net r (t ++ frame 0 (Byte.x03 :: sql)))).
Proof.
  intros Hopen Hsql Hc Hs Hm ->. apply (query_multi_first _ _ _ _ _ _ _ _ []); [done|done|].
  unfold query_step. pose proof (zlen_nonneg message).
  rewrite read_command_next by (done || by apply error_packet_size).
  unfold error_packet. erewrite bind_Val by (apply on_fst_eq, copyout_u8_cons).
  change (byte_val Byte.xff =? 0) with false. change (byte_val Byte.xff =? 0xFF) with true. cbv iota.
  assert (Byte.xff :: error_body code (sqlstate ++ [last]) message =
    le_encode 2 (255 + 256 * (code mod 256)) ++
    (byte_of (code / 256) :: Byte.x23 :: sqlstate) ++ last :: message) as ->.
  { unfold error_body. cbn [le_encode app]. rewrite <- app_assoc.
    rewrite byte_of_mod, (Z.mul_comm 256), Z.div_add by lia. change (255 / 256) with 0.
    rewrite Z.add_0_l. assert (byte_of (code mod 256) = byte_of code) as ->; [|done].
    apply byte_val_inj. by rewrite !byte_val_of, Z.mod_mod. }
  pose proof (Z.mod_pos_bound code 256).
  erewrite bind_Exn; [done|]. apply on_fst_eq. 
  apply parse_error_body_spec; rewrite ?zlen_cons; lia.
Qed.

Definition info_packet (affected_rows insert_id status warnings : Z) (info : bytes) : bytes :=
  ok_packet affected_rows insert_id status warnings ++ info.

Lemma query_info_spec dicts stof stod sql a i s w info c r t :
  c_fd_is_open c = true -> zlen sql < 2 ^ 31 -> reply_ok stof stod (OkReply a i s w) ->
  Z.land s MORE_RESULTS_EXIST <> 0 -> info <> [] -> zlen info < 2 ^ 23 ->
  @query_multi spec_buffer net spec_socket stof stod sql dicts
    (c, Net (frame 1 (info_packet a i s w info) ++ r) t) =
  (Exn attempted_nonempty, (set_next_seq 2 c, Net r (t ++ frame 0 (Byte.x03 :: sql)))).
Proof.
  intros Hopen Hsql (Ha & Hi & Hs & Hw) Hmore Hinfo Hl.
  unfold query_multi. pose proof (zlen_nonneg sql).
  erewrite bind_Val by (rewrite mysql_assert_conn_open_spec, Hopen; done).
  apply (with_buffer_spec _ _ _ info). unfold reset_seq. set (n := Net _ t).
  erewrite bind_Val by apply client_modify.
  rewrite (bind_Val _ _ _ tt ([Byte.x03], (set_next_seq 0 c, n))) by done.
  rewrite (bind_Val _ _ _ tt (Byte.x03 :: sql, (set_next_seq 0 c, n))) by done.
  erewrite bind_Val by (apply client_write_command_spec; rewrite zlen_cons; lia).
  eapply (loop_second_throws _ _ _ _ _ (info, (set_next_seq 2 c, Net r (t ++ frame 0 (Byte.x03 :: sql)))));
    [done| |].
  - unfold query_step. unfold n. cbn [rx tx].
    change (set_next_seq _ (set_next_seq 0 c)) with (set_next_seq 1 c).
    rewrite read_command_next; [|done| |done].
    2: { unfold info_packet, ok_packet. rewrite zlen_app, zlen_cons, !zlen_app, !zlen_le_encode.
         pose proof (zlen_varint_bytes a). pose proof (zlen_varint_bytes i). lia. }
    unfold info_packet, ok_packet. cbn [app]. rewrite <- !app_assoc.
    erewrite bind_Val by (apply on_fst_eq; apply copyout_u8_cons).
    change (byte_val Byte.x00 =? 0x00) with true. cbv iota.
    erewrite bind_Val by (apply on_fst_eq; apply remove_u8_cons).
    do 2 erewrite bind_Val by (apply on_fst_eq; by apply remove_varint_spec).
    do 2 erewrite bind_Val by (apply on_fst_eq; by apply remove_u16l_spec).
    unfold more_results. cbn [rs_status_flags]. rewrite (proj2 (Z.eqb_neq _ _) Hmore). reflexivity.
  - unfold query_step. erewrite bind_Exn; [done|]. unfold MySQLClient.read_command.
    erewrite bind_Exn; [done|]. apply on_13_eq. unfold ProtocolBuffer.read_command.
    set (n' := Net r _). rewrite (bind_Val _ _ _ (zlen info) (info, n')) by done.
    destruct (Z.eqb_spec (zlen info) 0) as [Hz|]; [by apply zlen_0 in Hz|]. reflexivity.
Qed.
End ErrorPackets.

(** ** Properties: any lawful buffer and connection *)

Lemma binlog_answer_defined state p : fst (binlog_answer state p) <> Undef.
Proof. unfold binlog_answer. by repeat case_match. Qed.

Section Properties.
Context {O : BufferOps} {L : BufferLaws O} {W : Type} {SO : SocketOps W}
  {R : W -> net -> Prop} {SL : SocketLaws SO R}.
Abbreviation session := (Rprod (@eq Client) R).

(** C23: a query and its replies: for any OK packets and result sets the server
    sends under consecutive sequence numbers, all but the last announcing more,
    [query_multi] answers exactly these results in order (the columns, and every
    cell as the value its text stands for or NULL), has sent one QUERY packet
    under sequence number 0, and leaves the connection behind the last packet. *)
Theorem query_multi_answers stof stod dicts sql reps final c r t w :
  c_fd_is_open c = true -> zlen sql < 2 ^ 31 ->
  Forall (reply_ok stof stod) (reps ++ [final]) -> Forall (fun rep => reply_more rep = true) reps ->
  reply_more final = false -> zlen reps < 2 ^ 63 ->
  let ps := replies_packets (reps ++ [final]) in
  R w (Net (frames 1 ps ++ r) t) ->
  delivers lib_failure session (query_multi stof stod sql dicts) (c, w)
    (Val (map (reply_result dicts) (reps ++ [final])))
    (set_next_seq (seq_after 1 ps) c, Net r (t ++ frame 0 (Byte.x03 :: sql))).
Proof.
  intros Hopen Hsql Hok Hmore Hlast Hl ps HR.
  eapply refines_delivers with (s' := (c, Net (frames 1 ps ++ r) t));
    [apply query_multi_refines|by split|by apply query_multi_spec|done].
Qed.

(** One packet of a binlog stream. The first event is answered whole and
    every later one without its last four bytes, the checksum; the end-of-stream
    packet puts the client back to not reading, and then, as before
    [read_binlogs], asking for an event throws and reads nothing; an event
    shorter than its checksum throws. *)
Theorem get_binlog_event_answers c seq p r t w :
  c_fd_is_open c = true -> seq = c_next_seq c -> 0 <= seq < 256 -> zlen p < 2 ^ 24 ->
  R w (Net (frame seq p ++ r) t) ->
  match c_binlog_read_state c with
  | NOT_READING =>
      delivers lib_failure session get_binlog_event (c, w) (Exn not_reading_binlog)
        (c, Net (frame seq p ++ r) t)
  | state =>
      delivers lib_failure session get_binlog_event (c, w) (fst (binlog_answer state p))
        (set_binlog_read_state (snd (binlog_answer state p)) (set_next_seq (u8 (seq + 1)) c),
         Net r t)
  end.
Proof.
  intros Hopen Hseq Hs Hp HR.
  assert (forall o t', @get_binlog_event spec_buffer net spec_socket (c, Net (frame seq p ++ r) t) = (o, t') ->
    o <> Undef -> delivers lib_failure session get_binlog_event (c, w) o t') as Hd.
  { intros o t' Ho Hu. eapply refines_delivers with (s' := (c, Net (frame seq p ++ r) t));
      [apply get_binlog_event_refines|by split|exact Ho|exact Hu]. }
  destruct (c_binlog_read_state c) eqn:Hst.
  - apply Hd; [|done]. unfold get_binlog_event.
    erewrite bind_Val by (rewrite mysql_assert_conn_open_spec, Hopen; done).
    rewrite (bind_Val _ _ _ NOT_READING (c, Net (frame seq p ++ r) t)) by (by rewrite <- Hst). done.
  - apply Hd; [|by apply binlog_answer_defined].
    rewrite get_binlog_event_spec by (by rewrite ?Hst). by rewrite Hst.
  - apply Hd; [|by apply binlog_answer_defined].
    rewrite get_binlog_event_spec by (by rewrite ?Hst). by rewrite Hst.
Qed.

(** C26: connecting to a server that greets with caching_sha2_password, sends
    any number of "fast authentication" packets and then OK: the handshake
    succeeds, the client keeps what the greeting says of the server, and its one
    packet carries the user's name and an answer from which the server, knowing
    only the digest of the digest of the password, gets the password's digest. *)
Theorem handshake_authenticates sha256 username password g fast info c r t w :
  greeting_ok g -> g_plugin g = caching_sha2_password ->
  zlen username < 2 ^ 31 -> zlen info < 2 ^ 23 -> Z.of_nat fast < 2 ^ 63 ->
  zlen (sha256 password) = 32 ->
  R w (Net (frame 0 (greeting_packet g) ++ frames 2 (verdict_packets fast info) ++ r) t) ->
  exists answer,
    zip_with byte_xor answer
      (map (fun x => nth x (sha256 (sha256 (sha256 password) ++ greeting_nonce g)) Byte.x00) (seq 0 0x20)) =
      sha256 password /\
    delivers lib_failure session (initial_handshake sha256 username password) (c, w) (Val tt)
      (set_next_seq (seq_after 2 (verdict_packets fast info)) (greeted g c),
       Net r (t ++ frame 1 (response_packet username caching_sha2_password answer))).
Proof.
  intros Hg Hp Hu Hi Hf Hsha HR. exists (auth_answer sha256 (greeting_nonce g) password).
  split; [by apply auth_answer_proves|].
  eapply refines_delivers with
    (s' := (c, Net (frame 0 (greeting_packet g) ++ frames 2 (verdict_packets fast info) ++ r) t));
    [apply initial_handshake_refines|by split|by apply initial_handshake_spec|done].
Qed.

(** The same ERR packet is reported rightly after [change_db] and wrongly
    after a query: [query_multi] leaves the packet's first byte in place, so the
    error code it reports is 255 plus 256 times the low byte of the real one,
    and state and message are shifted by one byte. *)
Theorem query_error_misread stof stod dicts sql code sqlstate last message c r t w :
  c_fd_is_open c = true -> zlen sql < 2 ^ 31 -> 0 <= code < 2 ^ 16 -> zlen sqlstate = 4 ->
  zlen message < 2 ^ 23 ->
  let p := error_packet code (sqlstate ++ [last]) message in
  R w (Net (frame 1 p ++ r) t) ->
  delivers lib_failure session (change_db sql) (c, w)
    (Exn (server_error code (Byte.x23 :: sqlstate ++ [last]) message))
    (set_next_seq 2 c, Net r (t ++ frame 0 (Byte.x02 :: sql))) /\
  delivers lib_failure session (query_multi stof stod sql dicts) (c, w)
    (Exn (server_error (255 + 256 * (code mod 256)) (byte_of (code / 256) :: Byte.x23 :: sqlstate)
            (last :: message)))
    (set_next_seq 2 c, Net r (t ++ frame 0 (Byte.x03 :: sql))).
Proof.
  intros Hopen Hsql Hc Hs Hm p HR. split.
  - eapply refines_delivers with (s' := (c, Net (frame 1 p ++ r) t));
      [apply change_db_refines|by split| |done].
    rewrite change_db_spec by (done || by apply error_packet_size). f_equal.
    unfold p, error_packet, error_body. cbn [ok_answer]. rewrite decide_False, decide_True by done.
    change (Byte.x23 :: (sqlstate ++ [last]) ++ message) with ((Byte.x23 :: sqlstate ++ [last]) ++ message).
    rewrite parse_error_body_spec; [done|done| |lia].
    rewrite zlen_cons, zlen_app, Hs. done.
  - eapply refines_delivers with (s' := (c, Net (frame 1 p ++ r) t));
      [apply query_multi_refines|by split|by apply query_error_spec with (s1 := sqlstate ++ [last])|done].
Qed.

(** An OK packet that announces more results and carries a message (as the
    server's answer to an UPDATE does) makes [query_multi] throw away the results
    so far: the message is left in the buffer, into which the next packet may not
    be read. *)
Theorem query_info_aborts stof stod dicts sql a i s w info c r t wn :
  c_fd_is_open c = true -> zlen sql < 2 ^ 31 -> reply_ok stof stod (OkReply a i s w) ->
  Z.land s MORE_RESULTS_EXIST <> 0 -> info <> [] -> zlen info < 2 ^ 23 ->
  R wn (Net (frame 1 (info_packet a i s w info) ++ r) t) ->
  delivers lib_failure session (query_multi stof stod sql dicts) (c, wn) (Exn attempted_nonempty)
    (set_next_seq 2 c, Net r (t ++ frame 0 (Byte.x03 :: sql))).
Proof.
  intros Hopen Hsql Hok Hmore Hinfo Hl HR.
  eapply refines_delivers with (s' := (c, Net (frame 1 (info_packet a i s w info) ++ r) t));
    [apply query_multi_refines|by split|by apply query_info_spec|done].
Qed.
End Properties.

(** ** Witnesses: a libevent that moves five bytes at a time *)

Abbreviation small := (@libevent_buffer (chunked 5)).
Abbreviation small_net := (@libevent_socket (chunked 5)).
Abbreviation here := (Rprod (@eq Client) (fun w v : net => w = v)).

Definition no_float (s : bytes) : out Z := Val 0.
Definition sample_client : Client := set_binlog_read_state READING_EVENT (set_open true Client_new).

(** [UPDATE], then a row of an integer, NULL and a date. *)
Definition sample_column (name : string) (type : Z) : ColumnDefinition :=
  mkColumn (str "def") (str "d") (str "t") (str "t") (str name) (str name) 33 255 type 0 0.
Definition sample_reply : reply :=
  RowsReply [sample_column "i" 3; sample_column "s" 253; sample_column "d" 10]
    [([Some (str "-7"); None; Some (str "2024-02-29")],
      [VInt (-7); VNull; VDateTime (mkDateTime 2024 2 29 0 0 0 0)])] 0 2 [Byte.x00].
Definition sample_update : reply := OkReply 300 0 (2 + MORE_RESULTS_EXIST) 1.

Ltac small_facts := repeat first [split | constructor]; vm_compute; congruence.

Lemma sample_reply_ok : reply_ok no_float no_float sample_reply.
Proof.
  split; [done|]. split; [done|]. split; [small_facts|]. split; [|small_facts].
  constructor; [split; [repeat constructor|done]|constructor].
Qed.

Lemma query_multi_answers_witness :
  let reps := [sample_update; sample_reply] in
  delivers lib_failure here (@query_multi small _ small_net no_float no_float (str "q") false)
    (sample_client, Net (frames 1 (replies_packets reps)) [])
    (Val (map (reply_result false) reps))
    (set_next_seq 8 sample_client, Net [] (frame 0 (Byte.x03 :: str "q"))).
Proof.
  intros reps.
  pose proof (query_multi_answers (O := small) (SO := small_net) no_float no_float false (str "q")
    [sample_update] sample_reply sample_client [] []
    (Net (frames 1 (replies_packets reps)) []) eq_refl eq_refl) as H.
  apply H; clear H.
  - constructor; [small_facts|constructor; [apply sample_reply_ok|constructor]].
  - repeat constructor.
  - reflexivity.
  - reflexivity.
  - vm_compute. reflexivity.
Defined.

Lemma get_binlog_event_answers_witness :
  let p := Byte.x00 :: str "eventCRC!" in
  delivers lib_failure here (@get_binlog_event small _ small_net) (sample_client, Net (frame 0 p) [])
    (Val (str "event")) (set_next_seq 1 sample_client, Net [] []).
Proof.
  intros p.
  apply (get_binlog_event_answers (O := small) (SO := small_net) sample_client 0 p [] []
    (Net (frame 0 p) [])); [reflexivity|reflexivity|lia|reflexivity|vm_compute; reflexivity].
Defined.

Definition sample_greeting : greeting :=
  mkGreeting (str "8.4.0") 42 (str "abcdefgh") 0 0xFFFF 255 2 0xC3FF 21 (repeat Byte.x00 10)
    (str "ijklmnopqrst" ++ [Byte.x00]) caching_sha2_password.
Definition sample_sha256 (s : bytes) : bytes := repeat (byte_of (zlen s)) 32.

Lemma handshake_authenticates_witness :
  exists answer,
    zip_with byte_xor answer
      (map (fun x => nth x (sample_sha256 (sample_sha256 (sample_sha256 (str "pw")) ++
                             greeting_nonce sample_greeting)) Byte.x00) (seq 0 0x20)) =
      sample_sha256 (str "pw") /\
    delivers lib_failure here (@initial_handshake small _ small_net sample_sha256 (str "me") (str "pw"))
      (sample_client, Net (frame 0 (greeting_packet sample_greeting) ++
                           frames 2 (verdict_packets 1 [Byte.x00]) ++ [Byte.x61]) []) (Val tt)
      (set_next_seq 4 (greeted sample_greeting sample_client),
       Net [Byte.x61] (frame 1 (response_packet (str "me") caching_sha2_password answer))).
Proof.
  apply (handshake_authenticates (O := small) (SO := small_net) sample_sha256 (str "me") (str "pw")
    sample_greeting 1 [Byte.x00] sample_client [Byte.x61] []
    (Net (frame 0 (greeting_packet sample_greeting) ++
          frames 2 (verdict_packets 1 [Byte.x00]) ++ [Byte.x61]) []));
    [|reflexivity..].
  repeat split; try (vm_compute; congruence); by apply (bool_decide_unpack _).
Defined.

Lemma query_error_misread_witness :
  let p := error_packet 1064 (str "4200" ++ [Byte.x30]) (str "syntax") in
  delivers lib_failure here (@query_multi small _ small_net no_float no_float (str "q") true)
    (sample_client, Net (frame 1 p) [])
    (Exn (server_error 10495 (Byte.x04 :: Byte.x23 :: str "4200") (Byte.x30 :: str "syntax")))
    (set_next_seq 2 sample_client, Net [] (frame 0 (Byte.x03 :: str "q"))).
Proof.
  intros p.
  apply (query_error_misread (O := small) (SO := small_net) no_float no_float true (str "q") 1064
    (str "4200") Byte.x30 (str "syntax") sample_client [] [] (Net (frame 1 p) []));
    [reflexivity|reflexivity|lia|reflexivity|reflexivity|vm_compute; reflexivity].
Defined.

Lemma query_info_aborts_witness :
  let p := info_packet 3 0 10 0 (str "Rows matched: 3") in
  delivers lib_failure here (@query_multi small _ small_net no_float no_float (str "q") true)
    (sample_client, Net (frame 1 p) []) (Exn attempted_nonempty)
    (set_next_seq 2 sample_client, Net [] (frame 0 (Byte.x03 :: str "q"))).
Proof.
  intros p.
  apply (query_info_aborts (O := small) (SO := small_net) no_float no_float true (str "q") 3 0 10 0
    (str "Rows matched: 3") sample_client [] [] (Net (frame 1 p) []));
    [reflexivity|reflexivity|small_facts|vm_compute; congruence|done|reflexivity|vm_compute; reflexivity].
Defined.
