(* ===== verification/BinlogReader.v ===== *)
(** * Printing a binlog (src/src/Examples/MySQLBinlogReader.cc)

    The program follows the binlog of a server and prints what it sees as SQL with
    comments: it composes the MySQL client, the binlog parser and the printing of
    cells. The state is the name of the file, the parser and what has been printed;
    phosg's [format_time], [print_data] and [escape_quotes] are parameters, as is the
    way printf prints doubles. *)
From stdpp Require Import tactics base list numbers strings gmap.
From S2P Require Import Prelude BufferApi Text StringReader ProtocolBuffer MySQLTypes Binlog BinlogStats.

Record reader := mkReader { rd_filename : bytes; rd_proc : BinlogProcessor }.

(** [read_binlogs] up to its loop: where it starts, which it then prints. A missing
    file name is the empty one here. *)
Definition reader_start (start_filename : option bytes) (start_position : Z) (master : ResultSet)
    : out (bytes * Z) :=
  start_from (Some (default [] start_filename)) start_position master.
Definition starting_at (filename : bytes) (position : Z) : bytes :=
  str "-- starting at " ++ c_str filename ++ str ":" ++ dec position ++ [Byte.x0a; Byte.x0a].

Section Print.
Context {Rd : Type} {RO : ReaderOps Rd}.
Context (format_time : Z -> bytes) (print_data : bytes -> bytes).
Context (fmt_g fmt_lg : Z -> bytes) (escape_quotes : bytes -> bytes).

Definition print (text : bytes) : ST (reader * bytes) unit := on_snd (modify (fun t => t ++ text)).
Definition with_proc {A} (m : ST BinlogProcessor A) : ST (reader * bytes) A :=
  on_fst (focus rd_proc (fun p rd => mkReader (rd_filename rd) p) m).

Definition print_pos_comment_start (header : BinlogEventHeader) : ST (reader * bytes) unit :=
  let! filename := on_fst (gets rd_filename) in
  let start_offset := u32 (eh_end_position header - eh_length header) in
  let time_str := format_time (eh_timestamp header * 1000000) in
  if (eh_timestamp header =? 0) && (eh_end_position header =? 0) then
    print (str "/* (artificial event) server " ++ dec (eh_server_id header) ++ str " ")
  else
    print (str "/* " ++ c_str filename ++ str ":" ++ dec start_offset ++ str " @ " ++
           c_str time_str ++ str " server " ++ dec (eh_server_id header) ++ str " ").

(** The values of an INSERT; the columns of an UPDATE and their old values. *)
Fixpoint print_values (x : Z) (cells : list Value) : ST (reader * bytes) unit :=
  match cells with
  | [] => ret tt
  | cell :: cells =>
      let s := format_cell_value fmt_g fmt_lg escape_quotes cell in
      print (str (if 0 <? x then ", " else "") ++ c_str s) ;;;
      print_values (x + 1) cells
  end.
Fixpoint print_columns (separator : string) (x : Z) (cells : list Value)
    : ST (reader * bytes) unit :=
  match cells with
  | [] => ret tt
  | cell :: cells =>
      let s := format_cell_value fmt_g fmt_lg escape_quotes cell in
      print (str (if 0 <? x then separator else "") ++ str "#" ++ dec x ++ str " = " ++ c_str s) ;;;
      print_columns separator (x + 1) cells
  end.

Definition table_name (ev : BinlogRowsEvent) : bytes :=
  str "`" ++ c_str (ti_database_name (re_ti ev)) ++ str "`.`" ++
  c_str (ti_table_name (re_ti ev)) ++ str "`".

Definition print_row (ev : BinlogRowsEvent) (row : RowChange) : ST (reader * bytes) unit :=
  print_pos_comment_start (re_header ev) ;;;
  match re_write_type ev with
  | INSERT =>
      print (str "*/ INSERT INTO " ++ table_name ev ++ str " VALUES (") ;;;
      print_values 0 (rc_post row) ;;;
      print (str ")")
  | UPDATE =>
      print (str "*/ UPDATE " ++ table_name ev ++ str " SET ") ;;;
      print_columns ", " 0 (rc_post row) ;;;
      if decide (rc_pre row <> []) then
        print (str " WHERE ") ;;;
        print_columns " AND " 0 (rc_pre row)
      else print (str " /* MISSING PRE-IMAGE */")
  | DELETE =>
      print (str "*/ DELETE FROM " ++ table_name ev ++ str " WHERE ") ;;;
      print_columns " AND " 0 (rc_pre row)
  end ;;;
  print (str ";" ++ [Byte.x0a]).
Fixpoint print_rows (ev : BinlogRowsEvent) (rows : list RowChange) : ST (reader * bytes) unit :=
  match rows with
  | [] => ret tt
  | row :: rows => print_row ev row ;;; print_rows ev rows
  end.

Definition print_query (ev : BinlogQueryEvent) : ST (reader * bytes) unit :=
  if decide (qe_query ev <> str "BEGIN" /\ qe_query ev <> str "COMMIT") then
    print_pos_comment_start (qe_header ev) ;;;
    if decide (qe_database_name ev = []) then
      print (str "conn " ++ dec (qe_conn_id ev) ++ str " (" ++ dec (qe_exec_time_secs ev) ++
             str "s) */ " ++ c_str (qe_query ev) ++ str ";" ++ [Byte.x0a])
    else
      print (str "conn " ++ dec (qe_conn_id ev) ++ str " db " ++ c_str (qe_database_name ev) ++
             str " (" ++ dec (qe_exec_time_secs ev) ++ str "s) */ " ++ c_str (qe_query ev) ++
             str ";" ++ [Byte.x0a])
  else ret tt.

Definition print_rotate (ev : BinlogRotateEvent) : ST (reader * bytes) unit :=
  print_pos_comment_start (roe_header ev) ;;;
  print (str "next log pos " ++ c_str (roe_next_filename ev) ++ str ":" ++
         dec (roe_next_position ev) ++ str " */" ++ [Byte.x0a]) ;;;
  on_fst (modify (fun rd => mkReader (roe_next_filename ev) (rd_proc rd))).

(** One round of the loop, for the event [data]. *)
Definition print_event (data : bytes) : ST (reader * bytes) unit :=
  let! header := of_out (get_event_header data) in
  let t := event_type_of (eh_type header) in
  match t with
  | Some PREVIOUS_GTIDS_EVENT | Some ANONYMOUS_GTID_EVENT =>
      with_proc (parse_unknown_event data) ;;; ret tt
  | Some TABLE_MAP_EVENT => with_proc (parse_table_map_event data) ;;; ret tt
  | Some QUERY_EVENT => let! ev := with_proc (parse_query_event data) in print_query ev
  | Some STOP_EVENT =>
      let! header := with_proc (parse_unknown_event data) in
      print_pos_comment_start header ;;;
      print (str "*/ SHUTDOWN;" ++ [Byte.x0a])
  | Some XID_EVENT => with_proc (parse_xid_event data) ;;; ret tt
  | Some ROTATE_EVENT => let! ev := with_proc (parse_rotate_event data) in print_rotate ev
  | Some FORMAT_DESCRIPTION_EVENT =>
      with_proc (parse_format_description_event data) ;;; ret tt
  | _ =>
      if is_rows_event t then
        let! ev := with_proc (parse_rows_event data) in print_rows ev (re_rows ev)
      else
        let! header := with_proc (parse_unknown_event data) in
        print_pos_comment_start header ;;;
        print (str "unknown event " ++ c_str (name_for_binlog_event_type (eh_type header)) ++
               str " */" ++ [Byte.x0a]) ;;;
        print (print_data data)
  end.

Fixpoint print_events (events : list bytes) : ST (reader * bytes) unit :=
  match events with
  | [] => ret tt
  | data :: events => print_event data ;;; print_events events
  end.
End Print.

(** ** The report on a list of parsed events *)

(** What the parser makes of an event. *)
Inductive decoded : Type :=
| Silent
| Rows (ev : BinlogRowsEvent)
| Query (ev : BinlogQueryEvent)
| Stop (header : BinlogEventHeader)
| Rotate (ev : BinlogRotateEvent)
| Unknown (header : BinlogEventHeader) (data : bytes).

Section Decode.
Context {Rd : Type} {RO : ReaderOps Rd}.
Definition decode_event (data : bytes) : ST BinlogProcessor decoded :=
  let! header := of_out (get_event_header data) in
  let t := event_type_of (eh_type header) in
  match t with
  | Some PREVIOUS_GTIDS_EVENT | Some ANONYMOUS_GTID_EVENT => parse_unknown_event data ;;; ret Silent
  | Some TABLE_MAP_EVENT => parse_table_map_event data ;;; ret Silent
  | Some XID_EVENT => parse_xid_event data ;;; ret Silent
  | Some FORMAT_DESCRIPTION_EVENT => parse_format_description_event data ;;; ret Silent
  | Some QUERY_EVENT => let! ev := parse_query_event data in ret (Query ev)
  | Some STOP_EVENT => let! header := parse_unknown_event data in ret (Stop header)
  | Some ROTATE_EVENT => let! ev := parse_rotate_event data in ret (Rotate ev)
  | _ =>
      if is_rows_event t then let! ev := parse_rows_event data in ret (Rows ev)
      else let! header := parse_unknown_event data in ret (Unknown header data)
  end.
(** The events parsed before the first that fails, how it ends, and the parser. *)
Fixpoint decode_events (events : list bytes) (p : BinlogProcessor)
    : list decoded * out unit * BinlogProcessor :=
  match events with
  | [] => ([], Val tt, p)
  | data :: events =>
      match decode_event data p with
      | (Val d, p') => let '(ds, o, p'') := decode_events events p' in (d :: ds, o, p'')
      | (Exn e, p') => ([], Exn e, p')
      | (Undef, p') => ([], Undef, p')
      | (NoFuel, p') => ([], NoFuel, p')
      end
  end.
End Decode.

(** Texts with a separator between them. *)
Fixpoint separated (sep : bytes) (texts : list bytes) : bytes :=
  match texts with
  | [] => []
  | [t] => t
  | t :: texts => t ++ sep ++ separated sep texts
  end.

Section Report.
Context (format_time : Z -> bytes) (print_data : bytes -> bytes).
Context (fmt_g fmt_lg : Z -> bytes) (escape_quotes : bytes -> bytes).

Definition position_comment (filename : bytes) (header : BinlogEventHeader) : bytes :=
  if (eh_timestamp header =? 0) && (eh_end_position header =? 0) then
    str "/* (artificial event) server " ++ dec (eh_server_id header) ++ str " "
  else
    str "/* " ++ c_str filename ++ str ":" ++ dec (u32 (eh_end_position header - eh_length header)) ++
    str " @ " ++ c_str (format_time (eh_timestamp header * 1000000)) ++ str " server " ++
    dec (eh_server_id header) ++ str " ".

Definition cell_text (cell : Value) : bytes := c_str (format_cell_value fmt_g fmt_lg escape_quotes cell).
Definition values_text (cells : list Value) : bytes := separated (str ", ") (map cell_text cells).
Definition columns_text (sep : string) (cells : list Value) : bytes :=
  separated (str sep)
    (imap (fun x cell => str "#" ++ dec (Z.of_nat x) ++ str " = " ++ cell_text cell) cells).

Definition row_sql (ev : BinlogRowsEvent) (row : RowChange) : bytes :=
  match re_write_type ev with
  | INSERT => str "*/ INSERT INTO " ++ table_name ev ++ str " VALUES (" ++ values_text (rc_post row) ++ str ")"
  | UPDATE =>
      str "*/ UPDATE " ++ table_name ev ++ str " SET " ++ columns_text ", " (rc_post row) ++
      (if decide (rc_pre row = []) then str " /* MISSING PRE-IMAGE */"
       else str " WHERE " ++ columns_text " AND " (rc_pre row))
  | DELETE => str "*/ DELETE FROM " ++ table_name ev ++ str " WHERE " ++ columns_text " AND " (rc_pre row)
  end.
Definition row_text (ev : BinlogRowsEvent) (row : RowChange) : bytes :=
  row_sql ev row ++ str ";" ++ [Byte.x0a].

(** The line of an event, or its lines; a transaction's boundaries have none. *)
Definition event_text (filename : bytes) (d : decoded) : bytes :=
  match d with
  | Silent => []
  | Rows ev => concat (map (fun row => position_comment filename (re_header ev) ++ row_text ev row) (re_rows ev))
  | Query ev =>
      if decide (qe_query ev = str "BEGIN" \/ qe_query ev = str "COMMIT") then []
      else
        position_comment filename (qe_header ev) ++ str "conn " ++ dec (qe_conn_id ev) ++
        (if decide (qe_database_name ev = []) then [] else str " db " ++ c_str (qe_database_name ev)) ++
        str " (" ++ dec (qe_exec_time_secs ev) ++ str "s) */ " ++ c_str (qe_query ev) ++ str ";" ++ [Byte.x0a]
  | Stop header => position_comment filename header ++ str "*/ SHUTDOWN;" ++ [Byte.x0a]
  | Rotate ev =>
      position_comment filename (roe_header ev) ++ str "next log pos " ++
      c_str (roe_next_filename ev) ++ str ":" ++ dec (roe_next_position ev) ++ str " */" ++ [Byte.x0a]
  | Unknown header data =>
      position_comment filename header ++ str "unknown event " ++
      c_str (name_for_binlog_event_type (eh_type header)) ++ str " */" ++ [Byte.x0a] ++ print_data data
  end.
(** The file of the events behind one. *)
Definition file_after (filename : bytes) (d : decoded) : bytes :=
  match d with Rotate ev => roe_next_filename ev | _ => filename end.
Fixpoint report (filename : bytes) (ds : list decoded) : bytes :=
  match ds with
  | [] => []
  | d :: ds => event_text filename d ++ report (file_after filename d) ds
  end.

(** ** What is printed *)

Lemma print_spec text rd t : print text (rd, t) = (Val tt, (rd, t ++ text)).
Proof. done. Qed.

Lemma with_proc_spec {A} (m : ST BinlogProcessor A) fn p t :
  with_proc m (mkReader fn p, t) =
  (fst (m p), (mkReader fn (snd (m p)), t)).
Proof. unfold with_proc, on_fst, focus. cbn. by destruct (m p). Qed.

Lemma print_pos_spec header rd t :
  print_pos_comment_start format_time header (rd, t) =
  (Val tt, (rd, t ++ position_comment (rd_filename rd) header)).
Proof.
  unfold print_pos_comment_start, position_comment, bind. cbn. by destruct (_ && _).
Qed.

Lemma separated_cons sep x texts :
  separated sep (x :: texts) = x ++ concat (map (app sep) texts).
Proof.
  revert x. induction texts as [|y texts IH]; intros x; cbn [separated map concat].
  - by rewrite app_nil_r.
  - cbn [separated] in IH. by rewrite IH, <- app_assoc.
Qed.

Lemma print_values_spec cells rd t :
  print_values fmt_g fmt_lg escape_quotes 0 cells (rd, t) = (Val tt, (rd, t ++ values_text cells)).
Proof.
  assert (forall cells x t, 0 < x -> print_values fmt_g fmt_lg escape_quotes x cells (rd, t) =
    (Val tt, (rd, t ++ concat (map (app (str ", ")) (map cell_text cells))))) as H.
  { clear. induction cells as [|cell cells IH]; intros x t Hx; cbn [print_values map concat].
    - by rewrite app_nil_r.
    - destruct (Z.ltb_spec 0 x); [|lia]. rewrite (bind_Val _ _ _ _ _ (print_spec _ _ _)).
      rewrite IH by lia. by rewrite <- app_assoc. }
  unfold values_text. destruct cells as [|cell cells]; [by rewrite app_nil_r|].
  cbn [print_values map]. rewrite separated_cons.
  rewrite (bind_Val _ _ _ _ _ (print_spec _ _ _)), H by lia. by rewrite <- app_assoc.
Qed.

Lemma print_columns_spec sep cells rd t :
  print_columns fmt_g fmt_lg escape_quotes sep 0 cells (rd, t) = (Val tt, (rd, t ++ columns_text sep cells)).
Proof.
  assert (forall cells (x : nat) t, (0 < x)%nat ->
    print_columns fmt_g fmt_lg escape_quotes sep (Z.of_nat x) cells (rd, t) =
    (Val tt, (rd, t ++ concat (map (app (str sep))
      (imap (fun y cell => str "#" ++ dec (Z.of_nat (x + y)) ++ str " = " ++ cell_text cell) cells))))) as H.
  { clear. induction cells as [|cell cells IH]; intros x t Hx; cbn [print_columns imap map concat].
    - by rewrite app_nil_r.
    - destruct (Z.ltb_spec 0 (Z.of_nat x)); [|lia]. rewrite (bind_Val _ _ _ _ _ (print_spec _ _ _)).
      replace (Z.of_nat x + 1) with (Z.of_nat (S x)) by lia. rewrite IH by lia.
      rewrite Nat.add_0_r, <- !app_assoc. do 4 f_equal. f_equal. f_equal. f_equal.
      f_equal. f_equal. f_equal. apply imap_ext. intros y c _. cbn. by rewrite Nat.add_succ_r. }
  unfold columns_text. destruct cells as [|cell cells]; [by rewrite app_nil_r|].
  cbn [print_columns imap]. rewrite separated_cons.
  rewrite (bind_Val _ _ _ _ _ (print_spec _ _ _)). change (0 + 1) with (Z.of_nat 1).
  rewrite H by lia. by rewrite <- app_assoc.
Qed.

(** A step that prints: the rest of a computation behind it. *)
Lemma prints {A} (m : ST (reader * bytes) unit) (k : unit -> ST (reader * bytes) A) rd t text :
  m (rd, t) = (Val tt, (rd, t ++ text)) -> bind m k (rd, t) = k tt (rd, t ++ text).
Proof. intros H. by rewrite (bind_Val _ _ _ _ _ H). Qed.

Lemma print_row_spec ev row rd t :
  print_row format_time fmt_g fmt_lg escape_quotes ev row (rd, t) =
  (Val tt, (rd, t ++ position_comment (rd_filename rd) (re_header ev) ++ row_text ev row)).
Proof.
  unfold print_row, row_text. rewrite (prints _ _ _ _ _ (print_pos_spec _ _ _)).
  set (t1 := t ++ position_comment _ _).
  match goal with |- bind ?m _ _ = _ =>
    assert (m (rd, t1) = (Val tt, (rd, t1 ++ row_sql ev row))) as H end.
  { clearbody t1. clear t. unfold row_sql. destruct (re_write_type ev).
    - rewrite (prints _ _ _ _ _ (print_spec _ _ _)), (prints _ _ _ _ _ (print_values_spec _ _ _)).
      rewrite print_spec. by rewrite <- !app_assoc.
    - rewrite (prints _ _ _ _ _ (print_spec _ _ _)), (prints _ _ _ _ _ (print_columns_spec _ _ _ _)).
      destruct (decide (rc_pre row = [])) as [E|E].
      + rewrite decide_False by (by intros []). rewrite print_spec. by rewrite <- !app_assoc.
      + rewrite decide_True by done. rewrite (prints _ _ _ _ _ (print_spec _ _ _)), print_columns_spec.
        by rewrite <- !app_assoc.
    - rewrite (prints _ _ _ _ _ (print_spec _ _ _)), print_columns_spec. by rewrite <- !app_assoc. }
  rewrite (prints _ _ _ _ _ H), print_spec. unfold t1. by rewrite <- !app_assoc.
Qed.

Lemma print_rows_spec ev rows rd t :
  print_rows format_time fmt_g fmt_lg escape_quotes ev rows (rd, t) =
  (Val tt, (rd, t ++ concat (map (fun row =>
     position_comment (rd_filename rd) (re_header ev) ++ row_text ev row) rows))).
Proof.
  revert t. induction rows as [|row rows IH]; intros t; cbn [print_rows map concat].
  - by rewrite app_nil_r.
  - rewrite (prints _ _ _ _ _ (print_row_spec _ _ _ _)), IH. by rewrite <- app_assoc.
Qed.

Lemma print_query_spec ev rd t :
  print_query format_time ev (rd, t) = (Val tt, (rd, t ++ event_text (rd_filename rd) (Query ev))).
Proof.
  unfold print_query, event_text. destruct (decide (qe_query ev = str "BEGIN" \/ _)) as [E|E].
  - rewrite decide_False by tauto. by rewrite app_nil_r.
  - rewrite decide_True by tauto. rewrite (prints _ _ _ _ _ (print_pos_spec _ _ _)).
    destruct (decide (qe_database_name ev = [])); rewrite print_spec; by rewrite <- !app_assoc.
Qed.

(** Parsing an event, and printing it. *)
Lemma print_event_spec {Rd} {RO : ReaderOps Rd} data fn p t :
  print_event format_time print_data fmt_g fmt_lg escape_quotes data (mkReader fn p, t) =
  match decode_event data p with
  | (Val d, p') => (Val tt, (mkReader (file_after fn d) p', t ++ event_text fn d))
  | (Exn e, p') => (Exn e, (mkReader fn p', t))
  | (Undef, p') => (Undef, (mkReader fn p', t))
  | (NoFuel, p') => (NoFuel, (mkReader fn p', t))
  end.
Proof.
  assert (forall A (m : ST BinlogProcessor A) (k : A -> ST (reader * bytes) unit) (d : A -> decoded),
    (forall a p', k a (mkReader fn p', t) =
       (Val tt, (mkReader (file_after fn (d a)) p', t ++ event_text fn (d a)))) ->
    bind (with_proc m) k (mkReader fn p, t) =
    match bind m (fun a => ret (d a)) p with
    | (Val d, p') => (Val tt, (mkReader (file_after fn d) p', t ++ event_text fn d))
    | (Exn e, p') => (Exn e, (mkReader fn p', t))
    | (Undef, p') => (Undef, (mkReader fn p', t))
    | (NoFuel, p') => (NoFuel, (mkReader fn p', t))
    end) as Hstep.
  { intros A m k d Hk. unfold bind. rewrite with_proc_spec. destruct (m p) as [[a| | |] p']; try done. apply Hk. }
  assert (forall p', (Val tt, (mkReader fn p', t)) =
    (Val tt, (mkReader (file_after fn Silent) p', t ++ event_text fn Silent))) as Hs
    by (intros; cbn; by rewrite app_nil_r).
  unfold print_event, decode_event. destruct (get_event_header data) as [header|e| |]; [|done..].
  erewrite bind_Val by done. erewrite (bind_Val (of_out (Val header))) by done.
  destruct (event_type_of (eh_type header)) as [[]|]; cbn [is_rows_event];
    apply Hstep; intros ev p'; try apply Hs; try apply print_rows_spec; try apply print_query_spec;
    try unfold print_rotate; rewrite (prints _ _ _ _ _ (print_pos_spec _ _ _));
    rewrite ?(prints _ _ _ _ _ (print_spec _ _ _)), ?print_spec; cbn [event_text file_after rd_filename]; by rewrite <- !app_assoc.
Qed.

(** Where the events behind a list of them come from. *)
Fixpoint last_file (filename : bytes) (ds : list decoded) : bytes :=
  match ds with [] => filename | d :: ds => last_file (file_after filename d) ds end.

(** What is printed for any events is the report on those that the parser accepts
    before the first it rejects, whose exception ends the program; a comment names
    the file that the last rotation before it led to. *)
Theorem reader_reports {Rd} {RO : ReaderOps Rd} events fn p t :
  let '(ds, o, p') := decode_events events p in
  print_events format_time print_data fmt_g fmt_lg escape_quotes events (mkReader fn p, t) =
  (o, (mkReader (last_file fn ds) p', t ++ report fn ds)).
Proof.
  revert fn p t. induction events as [|data events IH]; intros fn p t; cbn [decode_events print_events].
  - cbn. by rewrite app_nil_r.
  - pose proof (print_event_spec data fn p t) as H.
    destruct (decode_event data p) as [[d|e| |] p1]; cbn;
      try (unfold bind; rewrite H, app_nil_r; done).
    specialize (IH (file_after fn d) p1 (t ++ event_text fn d)).
    destruct (decode_events events p1) as [[ds o] p2]. rewrite (bind_Val _ _ _ _ _ H), IH.
    cbn. by rewrite <- app_assoc.
Qed.
End Report.
