(* ===== verification/BinlogSession.v ===== *)
(** * The binlog programs against a server

    [read_binlogs] of src/src/Examples/MySQLBinlogReader.cc and
    [generate_binlog_stats] of src/src/Examples/MySQLBinlogStats.cc from the
    connection to the end of the stream: the MySQL client (MySQLClient.v) over any
    lawful buffer and connection, the parser (Binlog.v), and what each program does
    with an event (BinlogReader.v, BinlogStats.v). *)
From stdpp Require Import tactics base list numbers strings gmap.
From S2P Require Import Prelude BufferApi Libevent Chunked Buffer Text StringReader ProtocolBuffer.
From S2P Require Import MySQLTypes Binlog BinlogStats BinlogReader MySQLClient.

Section Program.
Context {O : BufferOps} {W : Type} {SO : SocketOps W}.
(** Functions of the C library and of OpenSSL. *)
Context (stof stod : bytes -> out Z) (sha256 : bytes -> bytes) (random_u32 : Z).

Definition master_status : bytes := str "SHOW MASTER STATUS".

(** Both programs connect, and ask for the position of the server when they were not
    given one; [start_of] is what they make of the answer. *)
Definition find_start {D} (start_of : option bytes -> Z -> ResultSet -> out (bytes * Z))
    (base_connect : ST W unit) (username password : bytes)
    (start_filename : option bytes) (start_position : Z) : ST ((Client * W) * D) (bytes * Z) :=
  on_fst (connect sha256 base_connect username password) ;;;
  let filename := default [] start_filename in
  if decide (filename = [] \/ start_position = 0) then
    let! result := on_fst (query stof stod master_status true) in
    of_out (start_of start_filename start_position result)
  else ret (filename, start_position).

(** A round of the loop over the events; [handle] is what a program does with one. *)
Definition follow_round {D} (handle : bytes -> ST D unit) (_ : unit)
    : ST ((Client * W) * D) (unit + unit) :=
  let! data := on_fst get_binlog_event in
  on_snd (handle data) ;;;
  ret (inl tt).

(** [read_binlogs] of the reader and, but for the command line, [main]. *)
Definition run_reader {Rd} {RO : ReaderOps Rd} (format_time : Z -> bytes) (print_data : bytes -> bytes)
    (fmt_g fmt_lg : Z -> bytes) (escape_quotes : bytes -> bytes)
    (base_connect : ST W unit) (username password : bytes)
    (start_filename : option bytes) (start_position : Z) (fuel : positive)
    : ST ((Client * W) * (reader * bytes)) unit :=
  let! start := find_start reader_start base_connect username password start_filename start_position in
  on_fst (read_binlogs stof stod random_u32 (fst start) (snd start) 0 true) ;;;
  on_snd (on_fst (put (mkReader (fst start) BinlogProcessor_new))) ;;;
  on_snd (print (starting_at (fst start) (snd start))) ;;;
  loop (follow_round (print_event format_time print_data fmt_g fmt_lg escape_quotes)) fuel tt.

(** [generate_binlog_stats]; the metrics go to a second connection. *)
Definition run_stats {Rd} {RO : ReaderOps Rd} {W'} {SO' : SocketOps W'}
    (lg : Z -> bytes) (tag_list : tag_map -> list (bytes * bytes)) (pointer_bytes : bytes -> bytes)
    (constant_tags : tag_map) (statsd_ctor : ST (list Z) statsd_client)
    (base_connect : ST W unit) (username password : bytes)
    (start_filename : option bytes) (start_position : Z) (fuel : positive)
    : ST ((Client * W) * (stats * (bytes * W'))) unit :=
  let! start := find_start start_from base_connect username password start_filename start_position in
  let! statsd := with_local [] (on_fst statsd_ctor) in
  on_fst (read_binlogs stof stod random_u32 (fst start) (snd start) 0 true) ;;;
  on_snd (on_fst (put (mkStats (fst start) (snd start) 0 BinlogProcessor_new))) ;;;
  loop (follow_round (process_event
    (send lg tag_list pointer_bytes (sd_writing_stdout statsd)) constant_tags)) fuel tt.
End Program.

(** What a program does with events, up to one that it rejects. *)
Fixpoint handle_events {D} (handle : bytes -> ST D unit) (events : list bytes) : ST D unit :=
  match events with
  | [] => ret tt
  | data :: events => handle data ;;; handle_events handle events
  end.

(** ** The conversation *)

(** The packets of a binlog stream: events with their checksums, of which the first
    has none, and the end of the stream. *)
Fixpoint stream_packets (first : bool) (events : list (bytes * bytes)) (eof : bytes) : list bytes :=
  match events with
  | [] => [Byte.xfe :: eof]
  | (ev, checksum) :: events =>
      (Byte.x00 :: ev ++ if first then [] else checksum) :: stream_packets false events eof
  end.

Record server := mkServer {
  sv_greeting : greeting; sv_fast : nat; sv_info : bytes;   (* the handshake *)
  sv_master : reply;                                        (* SHOW MASTER STATUS *)
  sv_checksum : reply;                                      (* SET @master_binlog_checksum *)
  sv_events : list (bytes * bytes); sv_eof : bytes
}.

Section Conversation.
Context (stof stod : bytes -> out Z).
Definition one_reply (rep : reply) : Prop := reply_ok stof stod rep /\ reply_more rep = false.
Definition server_ok (sv : server) : Prop :=
  greeting_ok (sv_greeting sv) /\ g_plugin (sv_greeting sv) = caching_sha2_password /\
  zlen (sv_info sv) < 2 ^ 23 /\ Z.of_nat (sv_fast sv) < 2 ^ 63 /\
  one_reply (sv_master sv) /\ one_reply (sv_checksum sv) /\
  Forall (fun e => zlen (fst e) < 2 ^ 23 /\ zlen (snd e) = 4) (sv_events sv) /\ zlen (sv_eof sv) < 2 ^ 23.
End Conversation.

Definition server_greets (sv : server) (asked : bool) : bytes :=
  frame 0 (greeting_packet (sv_greeting sv)) ++ frames 2 (verdict_packets (sv_fast sv) (sv_info sv)) ++
  (if asked then frames 1 (reply_packets (sv_master sv)) else []).
Definition server_sends (sv : server) (asked : bool) : bytes :=
  server_greets sv asked ++ frames 1 (reply_packets (sv_checksum sv)) ++
  frames 1 (stream_packets true (sv_events sv) (sv_eof sv)).
Definition dump_packet (filename : bytes) (position server_id : Z) : bytes :=
  Byte.x12 :: le_encode 4 (u32 position) ++ le_encode 2 0 ++ le_encode 4 server_id ++ filename.

(** ** What the abstract machine does *)

Section Spec.
Context (stof stod : bytes -> out Z) (sha256 : bytes -> bytes) (random_u32 : Z).

Lemma one_query_spec sql rep c r t :
  c_fd_is_open c = true -> zlen sql < 2 ^ 31 -> one_reply stof stod rep ->
  @query spec_buffer net spec_socket stof stod sql true (c, Net (frames 1 (reply_packets rep) ++ r) t) =
  (Val (reply_result true rep), (set_next_seq (seq_after 1 (reply_packets rep)) c,
     Net r (t ++ frame 0 (Byte.x03 :: sql)))).
Proof.
  intros Hopen Hsql [Hok Hmore]. unfold query.
  pose proof (query_multi_spec stof stod true sql [] rep c r t Hopen Hsql) as H. cbv zeta in H.
  unfold replies_packets in H. cbn [app map concat] in H. rewrite app_nil_r in H.
  erewrite bind_Val by (apply H; [by constructor|constructor|done|done]). done.
Qed.

Lemma read_binlogs_spec filename position rep c r t :
  c_fd_is_open c = true -> one_reply stof stod rep -> zlen filename < 2 ^ 31 -> 0 <= random_u32 < 2 ^ 32 ->
  @read_binlogs spec_buffer net spec_socket stof stod random_u32 filename position 0 true
    (c, Net (frames 1 (reply_packets rep) ++ r) t) =
  (Val tt, (set_expected_binlog_seq 1 (set_binlog_read_state READING_FIRST_EVENT (set_next_seq 1 c)),
    Net r (t ++ frame 0 (Byte.x03 :: checksum_query) ++ frame 0 (dump_packet filename position random_u32)))).
Proof.
  intros Hopen Hrep Hf Hr. unfold read_binlogs.
  erewrite bind_Val by (rewrite mysql_assert_conn_open_spec, Hopen; done).
  erewrite bind_Val by (by apply one_query_spec). cbv zeta. change (0 =? 0) with true. cbv iota.
  apply (with_buffer_spec _ _ _ []). unfold reset_seq. erewrite bind_Val by apply client_modify.
  set (n := Net r _). set (c0 := set_next_seq 0 _).
  rewrite (bind_Val _ _ _ tt ([Byte.x12], (c0, n))) by done.
  rewrite (bind_Val _ _ _ tt (Byte.x12 :: le_encode 4 (u32 position), (c0, n))) by done.
  rewrite (bind_Val _ _ _ tt ((Byte.x12 :: le_encode 4 (u32 position)) ++ le_encode 2 0, (c0, n))) by done.
  rewrite (bind_Val _ _ _ tt
    (((Byte.x12 :: le_encode 4 (u32 position)) ++ le_encode 2 0) ++ le_encode 4 random_u32, (c0, n))) by done.
  rewrite (bind_Val _ _ _ tt (dump_packet filename position random_u32, (c0, n))).
  2: { unfold dump_packet. apply on_fst_eq. cbn [buf_add spec_buffer]. done. }
  pose proof (zlen_nonneg filename).
  erewrite bind_Val.
  2: { apply client_write_command_spec. unfold dump_packet.
       rewrite zlen_cons, !zlen_app, !zlen_le_encode. lia. }
  erewrite bind_Val by apply client_modify. rewrite client_modify. unfold n. cbn [rx tx].
  by rewrite <- app_assoc.
Qed.

(** What ends the program. *)
Definition reader_end {A} (o : out unit) : out A :=
  match o with
  | Val _ => Exn end_of_binlog | Exn e => Exn e | Undef => Undef | NoFuel => NoFuel
  end.
Definition reading_state (first : bool) : BinlogReadState :=
  if first then READING_FIRST_EVENT else READING_EVENT.

(** A round takes one packet: an event is handled, the end of the stream ends the
    loop, and so does an event that the program rejects. *)
Lemma follow_spec {D} (handle : bytes -> ST D unit) eof events : forall n first seq c d r t,
  Forall (fun e => zlen (fst e) < 2 ^ 23 /\ zlen (snd e) = 4) events -> zlen eof < 2 ^ 23 ->
  c_fd_is_open c = true -> c_binlog_read_state c = reading_state first ->
  seq = c_next_seq c -> 0 <= seq < 256 -> (length events < n)%nat ->
  let '(o, d') := handle_events handle (map fst events) d in
  exists c' r',
  iter_nat (@follow_round spec_buffer net spec_socket D handle) n tt
    ((c, Net (frames seq (stream_packets first events eof) ++ r) t), d) =
  (reader_end o, ((c', Net r' t), d')).
Proof.
  induction events as [|[ev checksum] events IH];
    intros n first seq c d r t Hok Heof Hopen Hst Hseq Hs Hn.
  - destruct n as [|n]; [simpl in Hn; lia|]. cbn [map handle_events stream_packets frames iter_nat].
    rewrite app_nil_r.
    pose proof (get_binlog_event_spec c seq (Byte.xfe :: eof) r t Hopen) as H.
    rewrite Hst in H.
    specialize (H ltac:(by destruct first) Hseq Hs ltac:(rewrite zlen_cons; lia)).
    cbn [binlog_answer fst snd] in H. rewrite decide_True in H by done.
    eexists _, _. cbn [ret reader_end]. apply bind_Exn. unfold follow_round. apply bind_Exn. apply on_fst_eq. exact H.
  - destruct n as [|n]; [simpl in Hn; lia|]. inversion Hok as [|x xs [Hev Hcs] Hok']. subst x xs.
    cbn [fst snd] in Hev, Hcs. set (packet := Byte.x00 :: ev ++ if first then [] else checksum).
    assert (zlen packet < 2 ^ 24) as Hp.
    { unfold packet. rewrite zlen_cons, zlen_app. destruct first; [change (zlen []) with 0|]; lia. }
    assert (binlog_answer (reading_state first) packet = (Val ev, READING_EVENT)) as Ha.
    { unfold packet, binlog_answer. rewrite decide_False, decide_True by done.
      destruct first; cbn [reading_state is_reading_first]; [by rewrite app_nil_r|].
      rewrite zlen_app, Hcs. pose proof (zlen_nonneg ev). destruct (Z.ltb_spec (zlen ev + 4) 4); [lia|].
      do 2 f_equal. apply ztake_app. lia. }
    cbn [stream_packets frames map fst handle_events]. fold packet. rewrite <- app_assoc.
    set (c1 := set_binlog_read_state READING_EVENT (set_next_seq (u8 (seq + 1)) c)).
    set (r1 := frames (u8 (seq + 1)) (stream_packets false events eof) ++ r).
    assert (@get_binlog_event spec_buffer net spec_socket (c, Net (frame seq packet ++ r1) t) =
      (Val ev, (c1, Net r1 t))) as Hg.
    { rewrite get_binlog_event_spec by (done || by rewrite Hst; destruct first). by rewrite Hst, Ha. }
    cbn [iter_nat]. unfold bind at 1. destruct (handle ev d) as [[[]|e| |] d1] eqn:Eh.
    2-4: exists c1, r1; unfold bind, follow_round, bind; rewrite (on_fst_eq _ _ _ _ _ Hg);
      by rewrite (on_snd_eq _ _ _ _ _ Eh).
    specialize (IH n false (u8 (seq + 1)) c1 d1 r t Hok' Heof
      ltac:(done) ltac:(done) ltac:(done) (MySQLClient.next_range seq) ltac:(simpl in Hn; lia)).
    destruct (handle_events handle (map fst events) d1) as [o d2].
    destruct IH as (c' & r' & IH). exists c', r'. fold r1 in IH. rewrite <- IH.
    rewrite (bind_Val _ _ _ (inl tt) ((c1, Net r1 t), d1)); [done|].
    unfold follow_round. erewrite bind_Val by (apply on_fst_eq; exact Hg).
    by erewrite bind_Val by (apply on_snd_eq; exact Eh).
Qed.

(** What the client has sent: the answer to the greeting, its queries and the
    request for the stream. *)
Definition client_asks (sv : server) (username password : bytes) (asked : bool) : bytes :=
  frame 1 (response_packet username caching_sha2_password
             (auth_answer sha256 (greeting_nonce (sv_greeting sv)) password)) ++
  (if asked then frame 0 (Byte.x03 :: master_status) else []).
Definition stream_request (filename : bytes) (position : Z) : bytes :=
  frame 0 (Byte.x03 :: checksum_query) ++ frame 0 (dump_packet filename position random_u32).

(** Up to the request for the stream. *)
Definition asks (start_filename : option bytes) (start_position : Z) : bool :=
  bool_decide (default [] start_filename = [] \/ start_position = 0).
Definition answers_start (start_of : option bytes -> Z -> ResultSet -> out (bytes * Z)) : Prop :=
  forall start_filename start_position master f p, start_of start_filename start_position master = Val (f, p) ->
  asks start_filename start_position = false -> (default [] start_filename, start_position) = (f, p).

Lemma find_start_spec {D} start_of sv username password start_filename start_position f p r (d : D) :
  answers_start start_of -> server_ok stof stod sv -> zlen username < 2 ^ 31 ->
  start_of start_filename start_position (reply_result true (sv_master sv)) = Val (f, p) ->
  let asked := asks start_filename start_position in
  exists c, c_fd_is_open c = true /\
  @find_start spec_buffer net spec_socket stof stod sha256 D start_of (ret tt) username password
    start_filename start_position
    ((Client_new, Net (server_greets sv asked ++ r) []), d) =
  (Val (f, p), ((c, Net r (client_asks sv username password asked)), d)).
Proof.
  intros Hso (Hg & Hplugin & Hinfo & Hfast & Hmaster & _) Hu Hstart asked.
  set (queries := (if asked then frames 1 (reply_packets (sv_master sv)) else []) ++ r).
  set (answer := response_packet username caching_sha2_password
             (auth_answer sha256 (greeting_nonce (sv_greeting sv)) password)).
  set (c1 := set_next_seq (seq_after 2 (verdict_packets (sv_fast sv) (sv_info sv)))
    (greeted (sv_greeting sv) (set_open true Client_new))).
  assert (@connect spec_buffer net spec_socket sha256 (ret tt) username password
    (Client_new, Net (server_greets sv asked ++ r) []) = (Val tt, (c1, Net queries (frame 1 answer)))) as Hc.
  { unfold connect. set (w := Net (server_greets sv asked ++ r) []).
    rewrite (bind_Val _ _ _ Client_new (Client_new, w)) by done.
    cbn [c_fd_is_open Client_new]. rewrite (bind_Val _ _ _ tt (Client_new, w)) by done.
    rewrite (bind_Val _ _ _ tt (set_open true Client_new, w)) by done.
    unfold w, server_greets. rewrite <- !app_assoc. by apply initial_handshake_spec. }
  unfold find_start. erewrite bind_Val by (apply on_fst_eq; exact Hc). cbv zeta.
  unfold queries, client_asks, asked in *. destruct (decide _) as [Hask|Hno].
  - assert (asks start_filename start_position = true) as -> by (by apply bool_decide_eq_true_2).
    pose proof (one_query_spec master_status (sv_master sv) c1 r (frame 1 answer) eq_refl
      ltac:(vm_compute; done) Hmaster) as Hq.
    eexists. split; [|erewrite bind_Val by (apply on_fst_eq; exact Hq); unfold of_out; by rewrite Hstart].
    done.
  - assert (asks start_filename start_position = false) as Hn by (by apply bool_decide_eq_false_2).
    rewrite Hn. exists c1. split; [done|]. rewrite !app_nil_r, app_nil_l.
    by rewrite <- (Hso _ _ _ _ _ Hstart Hn).
Qed.

(** The request for the stream, and the loop. *)
Lemma stream_spec {D} (handle : bytes -> ST D unit) sv f p fuel c t :
  server_ok stof stod sv -> 0 <= random_u32 < 2 ^ 32 -> zlen f < 2 ^ 31 ->
  (length (sv_events sv) < Pos.to_nat fuel)%nat -> c_fd_is_open c = true ->
  let events := frames 1 (stream_packets true (sv_events sv) (sv_eof sv)) in
  exists c1, @read_binlogs spec_buffer net spec_socket stof stod random_u32 f p 0 true
    (c, Net (frames 1 (reply_packets (sv_checksum sv)) ++ events) t) =
    (Val tt, (c1, Net events (t ++ stream_request f p))) /\
  forall d t', let '(o, d') := handle_events handle (map fst (sv_events sv)) d in
  exists c' r', loop (@follow_round spec_buffer net spec_socket D handle) fuel tt ((c1, Net events t'), d) =
    (reader_end o, ((c', Net r' t'), d')).
Proof.
  intros (_ & _ & _ & _ & _ & Hchecksum & Hev & Heof) Hr Hf Hfuel Hopen events.
  set (c1 := set_expected_binlog_seq 1 (set_binlog_read_state READING_FIRST_EVENT (set_next_seq 1 c))).
  exists c1. split; [by apply read_binlogs_spec|]. intros d1 t'.
  pose proof (follow_spec handle (sv_eof sv) (sv_events sv) (Pos.to_nat fuel) true 1 c1 d1 [] t'
    Hev Heof Hopen eq_refl eq_refl ltac:(lia) Hfuel) as Hl.
  rewrite app_nil_r in Hl. fold events in Hl.
  destruct (handle_events handle _ d1) as [o d2]. destruct Hl as (c' & r' & Hl). exists c', r'.
  unfold loop, bind. rewrite iter_pos_nat, Hl. by destruct o.
Qed.
End Spec.
(** ** Over any lawful buffer and connection *)

Lemma reader_start_answers : answers_start reader_start.
Proof.
  intros fn pos master f p. unfold reader_start, start_from, asks. rewrite bool_decide_eq_false.
  intros H Hn. rewrite decide_True in H by tauto. by injection H as -> ->.
Qed.
Lemma start_from_answers : answers_start start_from.
Proof.
  intros [fn|] pos master f p; [|done]. unfold start_from, asks. rewrite bool_decide_eq_false. simpl.
  intros H Hn. rewrite decide_True in H by tauto. by injection H as -> ->.
Qed.

Lemma handle_events_print {Rd} {RO : ReaderOps Rd} format_time print_data fmt_g fmt_lg escape_quotes events :
  handle_events (print_event format_time print_data fmt_g fmt_lg escape_quotes) events =
  print_events format_time print_data fmt_g fmt_lg escape_quotes events.
Proof. induction events as [|ev events IH]; [done|]. simpl. by rewrite IH. Qed.
Lemma handle_events_process {Rd} {RO : ReaderOps Rd} {W} (send_metric : metric -> ST W unit) tags events :
  handle_events (process_event send_metric tags) events = process_events send_metric tags events.
Proof. induction events as [|ev events IH]; [done|]. simpl. by rewrite IH. Qed.

(** A computation on a local of its own that answers [a]. *)
Lemma with_local_answer {S T A} (m : ST T A) (x : T) (a : A) (s : S) :
  fst (m x) = Val a -> with_local x (on_fst m) s = (Val a, s).
Proof. unfold with_local, on_fst, focus. cbn [fst snd]. destruct (m x). simpl. by intros ->. Qed.

Section Follows.
Context {O : BufferOps} {L : BufferLaws O} {W : Type} {SO : SocketOps W}
  {R : W -> net -> Prop} {SL : SocketLaws SO R} {Rd : Type} {RO : ReaderOps Rd}.
Context (stof stod : bytes -> out Z) (sha256 : bytes -> bytes) (random_u32 : Z).

Lemma mysql_connect_refines base_connect username password :
  refines lib_failure R base_connect (ret tt) ->
  refines lib_failure (Rprod eq R) (@connect O W SO sha256 base_connect username password)
    (@connect spec_buffer net spec_socket sha256 (ret tt) username password).
Proof.
  intros Hb. unfold connect. refine_step; [apply refines_on_fst, refines_refl|].
  destruct (c_fd_is_open _); [refine_auto|]. refine_step; [by apply refines_on_snd|].
  refine_step; [apply refines_on_fst, refines_refl|]. apply initial_handshake_refines.
Qed.

Section Handle.
Context {D D' : Type} (RD : D -> D' -> Prop).

Lemma find_start_refines start_of base_connect username password start_filename start_position :
  refines lib_failure R base_connect (ret tt) ->
  refines lib_failure (Rprod (Rprod eq R) RD)
    (@find_start O W SO stof stod sha256 D start_of base_connect username password start_filename start_position)
    (@find_start spec_buffer net spec_socket stof stod sha256 D' start_of (ret tt) username password
      start_filename start_position).
Proof.
  intros Hb. unfold find_start. refine_step; [by apply refines_on_fst, mysql_connect_refines|]. cbv zeta.
  destruct (decide _); [|refine_auto]. refine_step; [|refine_auto].
  apply refines_on_fst. unfold query. refine_step; [apply query_multi_refines|refine_auto].
Qed.

Lemma follow_refines (handle : bytes -> ST D unit) (handle' : bytes -> ST D' unit) fuel :
  (forall data, refines lib_failure RD (handle data) (handle' data)) ->
  refines lib_failure (Rprod (Rprod eq R) RD) (loop (@follow_round O W SO D handle) fuel tt)
    (loop (@follow_round spec_buffer net spec_socket D' handle') fuel tt).
Proof.
  intros Hh. apply refines_loop. intros []. unfold follow_round.
  refine_step; [apply refines_on_fst, get_binlog_event_refines|].
  refine_step; [by apply refines_on_snd|refine_auto].
Qed.
End Handle.

Section Reader.
Context (format_time : Z -> bytes) (print_data : bytes -> bytes).
Context (fmt_g fmt_lg : Z -> bytes) (escape_quotes : bytes -> bytes).
Abbreviation program O W SO := (@run_reader O W SO stof stod sha256 random_u32 Rd RO format_time print_data
  fmt_g fmt_lg escape_quotes).

Lemma run_reader_refines base_connect username password start_filename start_position fuel :
  refines lib_failure R base_connect (ret tt) ->
  refines lib_failure (Rprod (Rprod eq R) eq)
    (program O W SO base_connect username password start_filename start_position fuel)
    (program spec_buffer net spec_socket (ret tt) username password start_filename start_position fuel).
Proof.
  intros Hb. unfold run_reader. refine_step; [by apply find_start_refines|].
  refine_step; [apply refines_on_fst, read_binlogs_refines|].
  refine_step; [apply refines_on_snd, refines_refl|].
  refine_step; [apply refines_on_snd, refines_refl|].
  apply follow_refines. intros data. apply refines_refl.
Qed.

Lemma run_reader_spec sv username password start_filename start_position fuel rd f p :
  server_ok stof stod sv -> zlen username < 2 ^ 31 -> 0 <= random_u32 < 2 ^ 32 ->
  (length (sv_events sv) < Pos.to_nat fuel)%nat ->
  reader_start start_filename start_position (reply_result true (sv_master sv)) = Val (f, p) ->
  zlen f < 2 ^ 31 ->
  let asked := asks start_filename start_position in
  let '(ds, o, p') := decode_events (map fst (sv_events sv)) BinlogProcessor_new in
  exists c' r',
  program spec_buffer net spec_socket (ret tt) username password start_filename start_position fuel
    ((Client_new, Net (server_sends sv asked) []), (rd, [])) =
  (reader_end o,
   ((c', Net r' (client_asks sha256 sv username password asked ++ stream_request random_u32 f p)),
    (mkReader (last_file f ds) p',
     starting_at f p ++ report format_time print_data fmt_g fmt_lg escape_quotes f ds))).
Proof.
  intros Hsv Hu Hr Hfuel Hstart Hf asked.
  destruct (find_start_spec stof stod sha256 reader_start sv username password start_filename start_position
    f p (frames 1 (reply_packets (sv_checksum sv)) ++ frames 1 (stream_packets true (sv_events sv) (sv_eof sv)))
    (rd, @nil byte) reader_start_answers Hsv Hu Hstart) as (c & Hopen & Hs). cbv zeta in Hs. fold asked in Hs.
  destruct (stream_spec stof stod random_u32 (print_event format_time print_data fmt_g fmt_lg escape_quotes)
    sv f p fuel c (client_asks sha256 sv username password asked) Hsv Hr Hf Hfuel Hopen) as (c1 & Hreq & Hl).
  unfold run_reader, server_sends. erewrite bind_Val by exact Hs. cbn [fst snd].
  erewrite bind_Val by (apply on_fst_eq; exact Hreq). set (w := Net _ _).
  rewrite (bind_Val _ _ _ tt ((c1, w), (mkReader f BinlogProcessor_new, []))) by done.
  rewrite (bind_Val _ _ _ tt ((c1, w), (mkReader f BinlogProcessor_new, starting_at f p))) by done.
  specialize (Hl (mkReader f BinlogProcessor_new, starting_at f p)
    (client_asks sha256 sv username password asked ++ stream_request random_u32 f p)).
  rewrite handle_events_print in Hl.
  pose proof (reader_reports format_time print_data fmt_g fmt_lg escape_quotes
    (map fst (sv_events sv)) f BinlogProcessor_new (starting_at f p)) as Hp.
  destruct (decode_events _ _) as [[ds o] p']. rewrite Hp in Hl. exact Hl.
Qed.

(** C25: the binlog reader against a server, from the connection to the end of the
    stream, over any lawful buffer and connection: it authenticates, asks for the
    position of the server when it was not given one, asks for the stream from
    there, and prints where it starts and then the report on exactly the events that
    the parser accepts before the first it rejects. It ends with the exception of
    that event, or with the one that marks the end of the stream. *)
Theorem reader_follows_binlog sv base_connect username password start_filename start_position fuel rd w f p :
  server_ok stof stod sv -> zlen username < 2 ^ 31 -> 0 <= random_u32 < 2 ^ 32 ->
  refines lib_failure R base_connect (ret tt) -> (length (sv_events sv) < Pos.to_nat fuel)%nat ->
  reader_start start_filename start_position (reply_result true (sv_master sv)) = Val (f, p) ->
  zlen f < 2 ^ 31 ->
  let asked := asks start_filename start_position in
  R w (Net (server_sends sv asked) []) ->
  let '(ds, o, p') := decode_events (map fst (sv_events sv)) BinlogProcessor_new in
  o <> Undef ->
  delivers lib_failure
    (fun s '(sent, text) => (exists rest, R (snd (fst s)) (Net rest sent)) /\ snd (snd s) = text)
    (program O W SO base_connect username password start_filename start_position fuel)
    ((Client_new, w), (rd, [])) (reader_end o)
    (client_asks sha256 sv username password asked ++ stream_request random_u32 f p,
     starting_at f p ++ report format_time print_data fmt_g fmt_lg escape_quotes f ds).
Proof.
  intros Hsv Hu Hr Hb Hfuel Hstart Hf asked HR.
  pose proof (run_reader_spec sv username password start_filename start_position fuel rd f p
    Hsv Hu Hr Hfuel Hstart Hf) as H. cbv zeta in H. fold asked in H.
  destruct (decode_events _ _) as [[ds o] p']. destruct H as (c' & r' & H). intros Ho.
  assert (@reader_end unit o <> Undef) as Hend by (by destruct o).
  pose proof (refines_delivers _ _ _ _ ((Client_new, w), (rd, []))
    ((Client_new, Net (server_sends sv asked) []), (rd, [])) _ _
    (run_reader_refines base_connect username password start_filename start_position fuel Hb)
    (conj (conj eq_refl HR) eq_refl) H Hend) as [[Ho' [[Hc Hn] Hd]]|Hfail]; [left|by right].
  split; [done|]. split; [by exists r'|]. by rewrite Hd.
Qed.
End Reader.

Section Statistics.
Context {W' : Type} {SO' : SocketOps W'} {R' : W' -> net -> Prop} {SL' : SocketLaws SO' R'}.
Context (lg : Z -> bytes) (tag_list : tag_map -> list (bytes * bytes)) (pointer_bytes : bytes -> bytes)
  (constant_tags : tag_map) (statsd_ctor : ST (list Z) statsd_client).

(** [generate_binlog_stats] over the abstract connection, its metrics collected. *)
Definition run_collect (username password : bytes) (start_filename : option bytes) (start_position : Z)
    (fuel : positive) : ST ((Client * net) * (stats * list metric)) unit :=
  let! start := @find_start spec_buffer net spec_socket stof stod sha256 _ start_from (ret tt)
                  username password start_filename start_position in
  let! statsd := with_local [] (on_fst statsd_ctor) in
  on_fst (@read_binlogs spec_buffer net spec_socket stof stod random_u32 (fst start) (snd start) 0 true) ;;;
  on_snd (on_fst (put (mkStats (fst start) (snd start) 0 BinlogProcessor_new))) ;;;
  loop (@follow_round spec_buffer net spec_socket _ (process_event
    (collect lg tag_list pointer_bytes (sd_writing_stdout statsd)) constant_tags)) fuel tt.

Abbreviation arrived ws v := (sent (R := R') lg tag_list pointer_bytes ws v).

Lemma run_stats_refines c v base_connect username password start_filename start_position fuel :
  fst (statsd_ctor []) = Val c -> refines lib_failure R base_connect (ret tt) ->
  refines lib_failure (Rprod (Rprod eq R) (Rprod eq (arrived (sd_writing_stdout c) v)))
    (@run_stats O W SO stof stod sha256 random_u32 Rd RO W' SO' lg tag_list pointer_bytes constant_tags
      statsd_ctor base_connect username password start_filename start_position fuel)
    (run_collect username password start_filename start_position fuel).
Proof.
  intros Hc Hb. unfold run_stats, run_collect. refine_step; [by apply find_start_refines|].
  apply (refines_known _ _ _ _ c); [intros s; by apply with_local_answer..|].
  refine_step; [apply refines_on_fst, read_binlogs_refines|].
  refine_step; [apply refines_on_snd, refines_on_fst, refines_refl|].
  apply follow_refines. intros data. apply process_event_refines. intros m. by apply send_collects.
Qed.

Lemma run_collect_spec c sv username password start_filename start_position fuel st0 f p :
  fst (statsd_ctor []) = Val c ->
  server_ok stof stod sv -> zlen username < 2 ^ 31 -> 0 <= random_u32 < 2 ^ 32 ->
  (length (sv_events sv) < Pos.to_nat fuel)%nat ->
  start_from start_filename start_position (reply_result true (sv_master sv)) = Val (f, p) ->
  zlen f < 2 ^ 31 ->
  let asked := asks start_filename start_position in
  let '(o, (st, ms)) := process_events (collect lg tag_list pointer_bytes (sd_writing_stdout c))
    constant_tags (map fst (sv_events sv)) (mkStats f p 0 BinlogProcessor_new, []) in
  exists c' r',
  run_collect username password start_filename start_position fuel
    ((Client_new, Net (server_sends sv asked) []), (st0, [])) =
  (reader_end o,
   ((c', Net r' (client_asks sha256 sv username password asked ++ stream_request random_u32 f p)), (st, ms))).
Proof.
  intros Hc Hsv Hu Hr Hfuel Hstart Hf asked.
  destruct (find_start_spec stof stod sha256 start_from sv username password start_filename start_position
    f p (frames 1 (reply_packets (sv_checksum sv)) ++ frames 1 (stream_packets true (sv_events sv) (sv_eof sv)))
    (st0, @nil metric) start_from_answers Hsv Hu Hstart) as (c0 & Hopen & Hs). cbv zeta in Hs. fold asked in Hs.
  destruct (stream_spec stof stod random_u32
    (process_event (collect lg tag_list pointer_bytes (sd_writing_stdout c)) constant_tags)
    sv f p fuel c0 (client_asks sha256 sv username password asked) Hsv Hr Hf Hfuel Hopen) as (c1 & Hreq & Hl).
  unfold run_collect, server_sends. erewrite bind_Val by exact Hs. cbn [fst snd].
  erewrite bind_Val by (by apply with_local_answer).
  erewrite bind_Val by (apply on_fst_eq; exact Hreq). set (w := Net _ _).
  rewrite (bind_Val _ _ _ tt ((c1, w), (mkStats f p 0 BinlogProcessor_new, []))) by done.
  specialize (Hl (mkStats f p 0 BinlogProcessor_new, [])
    (client_asks sha256 sv username password asked ++ stream_request random_u32 f p)).
  rewrite handle_events_process in Hl.
  destruct (process_events _ _ _ _) as [o [st ms]]. exact Hl.
Qed.

(** C24: the statistics program against a server, from the connection to the end of
    the stream, over any lawful buffers and connections: it asks the server for what
    the reader asks for, and what statsd receives is the concatenation of the lines
    of the metrics that the loop emits for exactly the events of the stream, one
    write each, with nothing left in the buffer. It ends with the exception of the
    first event that does not parse, or with the one that marks the end of the
    stream. *)
Theorem stats_follow_binlog c sv base_connect username password start_filename start_position fuel st0 w w' v f p :
  fst (statsd_ctor []) = Val c ->
  server_ok stof stod sv -> zlen username < 2 ^ 31 -> 0 <= random_u32 < 2 ^ 32 ->
  refines lib_failure R base_connect (ret tt) -> (length (sv_events sv) < Pos.to_nat fuel)%nat ->
  start_from start_filename start_position (reply_result true (sv_master sv)) = Val (f, p) ->
  zlen f < 2 ^ 31 ->
  let asked := asks start_filename start_position in
  R w (Net (server_sends sv asked) []) -> R' w' v ->
  let '(o, (st, ms)) := process_events (collect lg tag_list pointer_bytes (sd_writing_stdout c))
    constant_tags (map fst (sv_events sv)) (mkStats f p 0 BinlogProcessor_new, []) in
  o <> Undef ->
  delivers lib_failure
    (fun s '(sent, v') => (exists rest, R (snd (fst s)) (Net rest sent)) /\
       fst (snd (snd s)) = [] /\ R' (snd (snd (snd s))) v')
    (@run_stats O W SO stof stod sha256 random_u32 Rd RO W' SO' lg tag_list pointer_bytes constant_tags
      statsd_ctor base_connect username password start_filename start_position fuel)
    ((Client_new, w), (st0, ([], w'))) (reader_end o)
    (client_asks sha256 sv username password asked ++ stream_request random_u32 f p,
     Net (rx v) (tx v ++ concat (map (line lg tag_list pointer_bytes (sd_writing_stdout c)) ms))).
Proof.
  intros Hc Hsv Hu Hr Hb Hfuel Hstart Hf asked HR HR'.
  pose proof (run_collect_spec c sv username password start_filename start_position fuel st0 f p
    Hc Hsv Hu Hr Hfuel Hstart Hf) as H. cbv zeta in H. fold asked in H.
  destruct (process_events _ _ _ _) as [o [st ms]]. destruct H as (c' & r' & H). intros Ho.
  assert (@reader_end unit o <> Undef) as Hend by (by destruct o).
  assert (arrived (sd_writing_stdout c) v ([], w') []) as Hsent.
  { split; [done|]. simpl. rewrite app_nil_r. by destruct v. }
  pose proof (refines_delivers _ _ _ _ ((Client_new, w), (st0, ([], w')))
    ((Client_new, Net (server_sends sv asked) []), (st0, [])) _ _
    (run_stats_refines c v base_connect username password start_filename start_position fuel Hc Hb)
    (conj (conj eq_refl HR) (conj eq_refl Hsent)) H Hend) as [[Ho' [[_ Hn] [_ [Hbuf Hd]]]]|Hfail]; [left|by right].
  split; [done|]. split; [by exists r'|]. by split.
Qed.
End Statistics.
End Follows.

(** ** Witness: a libevent that moves three bytes at a time

    The server is asked for its position; then come a transaction with one query and
    the end of the stream. *)

Definition status_column (name : string) (type : Z) : ColumnDefinition :=
  mkColumn (str "def") [] [] [] (str name) (str name) 33 255 type 0 0.
Definition sample_master : reply :=
  RowsReply [status_column "File" 253; status_column "Position" 8]
    [([Some (str "bin.7"); Some (str "157")], [VString (str "bin.7"); VUint 157])] 0 2 [].
Definition sample_query : bytes :=
  example_event 2 (le_encode 4 7 ++ le_encode 4 0 ++ [Byte.x02] ++ le_encode 2 0 ++ le_encode 2 0 ++
    str "db" ++ [Byte.x00] ++ str "DROP TABLE t").
Definition sample_server : server :=
  mkServer
    (mkGreeting (str "8.4.0") 42 (str "abcdefgh") 0 0xFFFF 255 2 0xC3FF 21 (repeat Byte.x00 10)
      (str "ijklmnopqrst" ++ [Byte.x00]) caching_sha2_password) 1 [] sample_master
    (OkReply 0 0 2 0) [(example_begin, repeat Byte.x00 4); (sample_query, repeat Byte.x00 4); (example_xid, repeat Byte.x00 4)] [].
Definition sample_text : bytes :=
  str "-- starting at bin.7:157" ++ [Byte.x0a; Byte.x0a] ++
  str "/* bin.7:481 @ now server 1 conn 7 db db (0s) */ DROP TABLE t;" ++ [Byte.x0a].

Abbreviation three := (@libevent_buffer (chunked 3)).
Abbreviation three_net := (@libevent_socket (chunked 3)).

Lemma sample_server_ok : server_ok (fun _ => Val 0) (fun _ => Val 0) sample_server.
Proof.
  unfold server_ok, one_reply, greeting_ok, reply_ok, column_ok. cbn [sample_server sv_master sample_master].
  split_and!; try (repeat constructor; vm_compute; congruence);
    by apply (bool_decide_unpack _).
Qed.

Lemma reader_follows_binlog_witness :
  exists sent, delivers lib_failure
    (fun s '(sent, text) => (exists rest, snd (fst s) = Net rest sent) /\ snd (snd s) = text)
    (@run_reader three _ three_net (fun _ => Val 0) (fun _ => Val 0) (fun s => s) 5 rdr spec_reader
      (fun _ => str "now") (fun d => d) (fun _ => []) (fun _ => []) (fun s => s)
      (ret tt) (str "me") (str "pw") None 0 9)
    ((Client_new, Net (server_sends sample_server true) []), (mkReader [] BinlogProcessor_new, []))
    (Exn end_of_binlog) (sent, sample_text).
Proof.
  eexists. pose proof (reader_follows_binlog (O := three) (SO := three_net)
    (L := libevent_buffer_laws (LS := chunked_spec 3)) (SL := libevent_socket_laws (LS := chunked_spec 3))
    (RO := spec_reader) (fun _ => Val 0) (fun _ => Val 0) (fun s => s) 5 (fun _ => str "now") (fun d => d)
    (fun _ => []) (fun _ => []) (fun s => s) sample_server (ret tt) (str "me") (str "pw") None 0 9
    (mkReader [] BinlogProcessor_new) (Net (server_sends sample_server true) []) (str "bin.7") 157
    sample_server_ok eq_refl ltac:(lia) ltac:(apply refines_refl) ltac:(simpl; lia)
    eq_refl eq_refl eq_refl) as H.
  destruct (decode_events _ _) as [[ds o] p'] eqn:E.
  assert (o = Val tt /\ starting_at (str "bin.7") 157 ++
    report (fun _ => str "now") (fun d => d) (fun _ => []) (fun _ => []) (fun s => s) (str "bin.7") ds =
    sample_text) as [-> Ht] by (vm_compute in E; injection E as <- <- <-; vm_compute; done).
  specialize (H ltac:(done)). rewrite Ht in H. exact H.
Defined.

(** The same stream from a position that is given; the metrics go to the standard
    output. *)
Definition sample_ctor : ST (list Z) statsd_client :=
  StatsDClient_ctor 1 115 (fun _ _ => Val []) (fun _ => Val tt) (fun _ => []) [] 0 (3, 0) (0, 0).
Definition sample_metrics : out unit * (stats * list metric) :=
  @process_events rdr spec_reader _ (collect example_lg example_tags example_pointer true) ∅
    (map fst (sv_events sample_server)) (mkStats (str "bin.7") 157 0 BinlogProcessor_new, []).

Lemma stats_follow_binlog_witness :
  length (snd (snd sample_metrics)) = 10%nat /\
  exists sent, delivers lib_failure
    (fun s '(sent, v') => (exists rest, snd (fst s) = Net rest sent) /\
       fst (snd (snd s)) = [] /\ snd (snd (snd s)) = v')
    (@run_stats three _ three_net (fun _ => Val 0) (fun _ => Val 0) (fun s => s) 5 rdr spec_reader
      _ three_net example_lg example_tags example_pointer ∅ sample_ctor
      (ret tt) (str "me") (str "pw") (Some (str "bin.7")) 157 9)
    ((Client_new, Net (server_sends sample_server false) []), (example_stats, ([], Net [] [])))
    (Exn end_of_binlog)
    (sent, Net [] (concat (map (line example_lg example_tags example_pointer true) (snd (snd sample_metrics))))).
Proof.
  split; [vm_compute; reflexivity|].
  eexists. pose proof (stats_follow_binlog (O := three) (SO := three_net) (SO' := three_net)
    (L := libevent_buffer_laws (LS := chunked_spec 3)) (SL := libevent_socket_laws (LS := chunked_spec 3))
    (SL' := libevent_socket_laws (LS := chunked_spec 3))
    (RO := spec_reader) (fun _ => Val 0) (fun _ => Val 0) (fun s => s) 5 example_lg example_tags example_pointer
    ∅ sample_ctor (mkStatsd 1 true) sample_server (ret tt) (str "me") (str "pw") (Some (str "bin.7")) 157 9
    example_stats (Net (server_sends sample_server false) []) (Net [] []) (Net [] []) (str "bin.7") 157
    eq_refl sample_server_ok eq_refl ltac:(lia) ltac:(apply refines_refl) ltac:(simpl; lia)
    eq_refl eq_refl eq_refl eq_refl) as H.
  assert (fst sample_metrics = Val tt) as Ho by (vm_compute; reflexivity).
  unfold sample_metrics in *. cbn [sd_writing_stdout] in H.
  destruct (process_events _ _ _ _) as [o [st ms]]. simpl in Ho. subst o. by apply H.
Defined.
