(* ===== verification/Memcache.v ===== *)
(** * The memcache client (src/src/Protocols/Memcache)

    The binary protocol: headers in network byte order, one method per command.
    The state of a method is the client (whether its connection is open) and the
    connection; the method's own buffer is a local variable in front of it. *)
From stdpp Require Import tactics base list numbers strings gmap.
From S2P Require Import Prelude BufferApi Libevent Chunked Buffer Text ProtocolBuffer.

(** ** Types.hh *)

Inductive ResponseStatus : Type :=
| OK | KEY_NOT_FOUND | KEY_EXISTS | VALUE_TOO_LARGE | INVALID_ARGUMENTS | NOT_STORED
| NON_NUMERIC_INCR_DECR | VIRTUAL_BUCKET_NOT_LOCAL | AUTHENTICATION_ERROR
| AUTHENTICATION_CONTINUE | UNKNOWN_COMMAND | OUT_OF_MEMORY | NOT_SUPPORTED | INTERNAL_ERROR
| BUSY | TEMPORARY_FAILURE.

Definition status_val (s : ResponseStatus) : Z :=
  match s with
  | OK => 0x0000 | KEY_NOT_FOUND => 0x0001 | KEY_EXISTS => 0x0002 | VALUE_TOO_LARGE => 0x0003
  | INVALID_ARGUMENTS => 0x0004 | NOT_STORED => 0x0005 | NON_NUMERIC_INCR_DECR => 0x0006
  | VIRTUAL_BUCKET_NOT_LOCAL => 0x0007 | AUTHENTICATION_ERROR => 0x0008
  | AUTHENTICATION_CONTINUE => 0x0009 | UNKNOWN_COMMAND => 0x0081 | OUT_OF_MEMORY => 0x0082
  | NOT_SUPPORTED => 0x0083 | INTERNAL_ERROR => 0x0084 | BUSY => 0x0085
  | TEMPORARY_FAILURE => 0x0086
  end.

Inductive Command : Type :=
| Get | Set_ | Add | Replace | Delete | Increment | Decrement | Quit | Flush | GetQ | NoOp
  | Version | GetK | GetKQ | Append | Prepend | Stat | SetQ | AddQ | ReplaceQ | DeleteQ
  | IncrementQ | DecrementQ | QuitQ | FlushQ | AppendQ | PrependQ | Verbosity | Touch
  | GetAndTouch | GetAndTouchQ | SASLListMechs | SASLAuth | SASLStep | RGet | RSet | RSetQ
  | RAppend | RAppendQ | RPrepend | RPrependQ | RDelete | RDeleteQ | RIncr | RIncrQ | RDecr
  | RDecrQ | SetVBucket | GetVBucket | DelVBucket | TAPConnect | TAPMutation | TAPDelete
  | TAPFlush | TAPOpaque | TAPVBucketSet | TAPCheckpointStart | TAPCheckpointEnd.

Definition command_val (c : Command) : Z :=
  match c with
  | Get => 0x00 | Set_ => 0x01 | Add => 0x02 | Replace => 0x03 | Delete => 0x04
  | Increment => 0x05 | Decrement => 0x06 | Quit => 0x07 | Flush => 0x08 | GetQ => 0x09
  | NoOp => 0x0A | Version => 0x0B | GetK => 0x0C | GetKQ => 0x0D | Append => 0x0E
  | Prepend => 0x0F | Stat => 0x10 | SetQ => 0x11 | AddQ => 0x12 | ReplaceQ => 0x13
  | DeleteQ => 0x14 | IncrementQ => 0x15 | DecrementQ => 0x16 | QuitQ => 0x17
  | FlushQ => 0x18 | AppendQ => 0x19 | PrependQ => 0x1A | Verbosity => 0x1B | Touch => 0x1C
  | GetAndTouch => 0x1D | GetAndTouchQ => 0x1E | SASLListMechs => 0x20 | SASLAuth => 0x21
  | SASLStep => 0x22 | RGet => 0x30 | RSet => 0x31 | RSetQ => 0x32 | RAppend => 0x33
  | RAppendQ => 0x34 | RPrepend => 0x35 | RPrependQ => 0x36 | RDelete => 0x37
  | RDeleteQ => 0x38 | RIncr => 0x39 | RIncrQ => 0x3A | RDecr => 0x3B | RDecrQ => 0x3C
  | SetVBucket => 0x3D | GetVBucket => 0x3E | DelVBucket => 0x3F | TAPConnect => 0x40
  | TAPMutation => 0x41 | TAPDelete => 0x42 | TAPFlush => 0x43 | TAPOpaque => 0x44
  | TAPVBucketSet => 0x45 | TAPCheckpointStart => 0x46 | TAPCheckpointEnd => 0x47
  end.

(** The packed struct; [status] is also [virtual_bucket_id]. *)
Record CommandHeader := mkHeader {
  h_magic : Z; h_opcode : Z; h_key_size : Z; h_extras_size : Z; h_data_type : Z; h_status : Z;
  h_body_size : Z; h_opaque : Z; h_cas : Z
}.

Definition bswap (n : nat) (v : Z) : Z := be_decode (le_encode n v).

(** [CommandHeader()] and the assignments that every caller makes to the fields
    that the constructor leaves alone. *)
Definition new_header (opcode : Command) (key_size extras_size body_size cas : Z) : CommandHeader :=
  mkHeader 0x80 (command_val opcode) (u16 key_size) extras_size 0 0 (u32 body_size) 0 cas.

Definition byteswap (h : CommandHeader) : CommandHeader :=
  mkHeader (h_magic h) (h_opcode h) (bswap 2 (h_key_size h)) (h_extras_size h) (h_data_type h)
    (bswap 2 (h_status h)) (bswap 4 (h_body_size h)) (bswap 4 (h_opaque h)) (bswap 8 (h_cas h)).

(** The object representation on a little-endian machine. *)
Definition CommandHeader_size : Z := 24.
Definition header_repr (h : CommandHeader) : bytes :=
  le_encode 1 (h_magic h) ++ le_encode 1 (h_opcode h) ++ le_encode 2 (h_key_size h) ++
  le_encode 1 (h_extras_size h) ++ le_encode 1 (h_data_type h) ++ le_encode 2 (h_status h) ++
  le_encode 4 (h_body_size h) ++ le_encode 4 (h_opaque h) ++ le_encode 8 (h_cas h).
Definition header_of_repr (d : bytes) : CommandHeader :=
  let field o n := le_decode (ztake n (zdrop o d)) in
  mkHeader (field 0 1) (field 1 1) (field 2 2) (field 4 1) (field 5 1) (field 6 2) (field 8 4)
    (field 12 4) (field 16 8).

(** ** Client *)

Record Client := mkClient { fd_is_open : bool }.

Record GetResult := mkGetResult { gr_value : bytes; gr_cas : Z; gr_flags : Z; gr_key_found : bool }.

Definition conn_not_open : exn :=
  runtime_error (str "cannot execute command on non-open connection").
Definition non_binary : exn :=
  runtime_error (str "server responded to binary command with non-binary response").
Definition server_error (status : Z) (msg : bytes) : exn :=
  runtime_error (str "server sent error " ++ dec status ++ str ": " ++ c_str msg).
Definition data_after_header (cmd : string) : exn :=
  runtime_error (str cmd ++ str " command returned response data after header").

Section Client.
Context {O : BufferOps} {W : Type} {SO : SocketOps W}.

(** [base.connect] and [close] are other parts' business: what they do to the
    connection. *)
Definition connect (base_connect : ST W unit) : ST (Client * W) unit :=
  let! c := on_fst get in
  if fd_is_open c then ret tt
  else on_snd base_connect ;;; on_fst (put (mkClient true)).

Definition assert_conn_open : ST (Client * W) unit :=
  let! c := on_fst get in
  if fd_is_open c then ret tt else throw conn_not_open.

(** The buffer with the header and what goes behind it, sent. *)
Definition send (header : CommandHeader) (chunks : list bytes) : ST (bytes * W) unit :=
  on_fst (buf_add_reference (header_repr (byteswap header))) ;;;
  (fix add_all (chunks : list bytes) : ST (bytes * W) unit :=
     match chunks with
     | [] => buf_write
     | d :: chunks => on_fst (buf_add_reference d) ;;; add_all chunks
     end) chunks.

(** The body of a command: [assert_conn_open], a local buffer, the connection. *)
Definition command {A} (m : ST (bytes * W) A) : ST (Client * W) A :=
  assert_conn_open ;;;
  let! buf := of_out buf_new in
  on_snd (with_local buf m).

Definition read_response_header (expected1 expected2 : Z) : ST (bytes * W) CommandHeader :=
  buf_read_to CommandHeader_size ;;;
  let! d := on_fst (remove_T CommandHeader_size) in
  let header := header_of_repr d in
  if negb (h_magic header =? 0x81) then throw non_binary
  else
    let header := byteswap header in
    buf_read_to (h_body_size header) ;;;
    (if negb (h_status header =? 0) then
       if negb (h_status header =? expected1) && negb (h_status header =? expected2) then
         let! error_str := on_fst (remove_string (h_body_size header)) in
         throw (server_error (h_status header) error_str)
       else on_fst (buf_drain (h_body_size header))
     else ret tt) ;;;
    ret header.

(** [close(fd)] after the command. *)
Definition quit : ST (Client * W) unit :=
  let! c := on_fst get in
  if fd_is_open c then
    (let! buf := of_out buf_new in
     on_snd (with_local buf (send (new_header Quit 0 0 0 0) []))) ;;;
    on_fst (put (mkClient false))
  else ret tt.

Definition get_key (key : bytes) (expiration_secs : Z) : ST (Client * W) GetResult :=
  let extras_size := if expiration_secs =? 0 then 0 else 4 in
  command (
    send (new_header (if expiration_secs =? 0 then Get else GetAndTouch) (zlen key) extras_size
            (zlen key + extras_size) 0)
      (if expiration_secs =? 0 then [key] else [le_encode 4 (bswap 4 expiration_secs); key]) ;;;
    let! header := read_response_header (status_val KEY_NOT_FOUND) 0 in
    if negb (h_status header =? 0) then ret (mkGetResult [] 0 0 false)
    else if negb (h_extras_size header =? 4) then
      throw (runtime_error (str "server responded to GET without flags"))
    else
      let! flags := on_fst remove_u32b in
      let! data := on_fst (remove_string (u32 (h_body_size header - h_extras_size header))) in
      ret (mkGetResult data (h_cas header) flags true)).

Definition write_key (cmd : Command) (expected1 expected2 : Z) (key value : bytes)
    (flags expiration_secs cas : Z) : ST (Client * W) bool :=
  command (
    send (new_header cmd (zlen key) 8 (8 + zlen key + zlen value) cas)
      [le_encode 4 (bswap 4 flags) ++ le_encode 4 (bswap 4 expiration_secs); key; value] ;;;
    let! header := read_response_header expected1 expected2 in
    if negb (h_status header =? 0) then ret false
    else if negb (h_body_size header =? 0) then throw (data_after_header "write")
    else ret true).

Definition set (key value : bytes) (flags expiration_secs cas : Z) : ST (Client * W) bool :=
  write_key Set_ (status_val KEY_EXISTS) 0 key value flags expiration_secs cas.
Definition add (key value : bytes) (flags expiration_secs : Z) : ST (Client * W) bool :=
  write_key Add (status_val KEY_EXISTS) 0 key value flags expiration_secs 0.
Definition replace (key value : bytes) (flags expiration_secs cas : Z) : ST (Client * W) bool :=
  write_key Replace (status_val KEY_NOT_FOUND) (status_val KEY_EXISTS) key value flags
    expiration_secs cas.

Definition delete_key (key : bytes) (cas : Z) : ST (Client * W) bool :=
  command (
    send (new_header Delete (zlen key) 0 (zlen key) cas) [key] ;;;
    let! header := read_response_header (status_val KEY_EXISTS) 0 in
    if negb (h_status header =? 0) then ret false
    else if negb (h_body_size header =? 0) then throw (data_after_header "delete")
    else ret true).

Definition increment (key : bytes) (delta initial_value expiration_secs : Z) (decrement : bool)
    : ST (Client * W) Z :=
  let initial_value := if initial_value =? 0xFFFFFFFFFFFFFFFF then delta else initial_value in
  command (
    send (new_header (if decrement then Decrement else Increment) (zlen key) 0x14 (0x14 + zlen key) 0)
      [le_encode 8 (bswap 8 delta) ++ le_encode 8 (bswap 8 initial_value) ++ le_encode 4 (bswap 4 expiration_secs); key] ;;;
    let! header := read_response_header (status_val KEY_NOT_FOUND) 0 in
    if negb (h_status header =? 0) then throw (out_of_range (str "key not found"))
    else if negb (h_body_size header =? 8) then throw (data_after_header "incr/decr")
    else on_fst remove_u64b).

Definition append (key value : bytes) (prepend : bool) : ST (Client * W) unit :=
  command (
    send (new_header (if prepend then Prepend else Append) (zlen key) 0 (zlen key + zlen value) 0)
      [key; value] ;;;
    read_response_header 0 0 ;;; ret tt).

Definition flush (expiration_secs : Z) : ST (Client * W) unit :=
  command (
    send (new_header Flush 0 4 4 0) [le_encode 4 (bswap 4 expiration_secs)] ;;;
    read_response_header 0 0 ;;; ret tt).

(** [start_usecs] and [end_usecs] are the two readings of the clock. *)
Definition noop (start_usecs end_usecs : Z) : ST (Client * W) Z :=
  command (
    send (new_header NoOp 0 0 0 0) [] ;;;
    read_response_header 0 0 ;;; ret (u64 (end_usecs - start_usecs))).

Definition version : ST (Client * W) bytes :=
  command (
    send (new_header Version 0 0 0 0) [] ;;;
    let! header := read_response_header 0 0 in
    on_fst (remove_string (h_body_size header))).

(** The endless loop takes at least 24 bytes a round. *)
Definition stats_fuel : positive := 2 ^ 64.

(** A round of the loop; [emplace] keeps the value a key has. *)
Definition stats_step (acc : gmap bytes bytes)
    : ST (bytes * W) (gmap bytes bytes + gmap bytes bytes) :=
  let! header := read_response_header 0 0 in
  if negb (h_extras_size header =? 0) then
    throw (runtime_error (str "stats response contained unhandled extra data"))
  else if h_body_size header =? 0 then ret (inr acc)
  else
    let! key := on_fst (remove_string (h_key_size header)) in
    let! value := on_fst (remove_string (u32 (h_body_size header - h_key_size header))) in
    ret (inl (emplace acc key value)).

Definition stats (key : option bytes) : ST (Client * W) (gmap bytes bytes) :=
  let key_size := match key with Some k => zlen k | None => 0 end in
  command (
    send (new_header Stat key_size 0 key_size 0) (match key with Some k => [k] | None => [] end) ;;;
    loop stats_step stats_fuel ∅).

Definition touch (key : bytes) (expiration_secs : Z) : ST (Client * W) unit :=
  command (
    send (new_header Touch (zlen key) 4 (zlen key + 4) 0) [le_encode 4 (bswap 4 expiration_secs); key] ;;;
    read_response_header 0 0 ;;; ret tt).
End Client.

(** ** Any lawful buffer and connection refine the abstract ones *)

Section Refinement.
Context {O : BufferOps} {L : BufferLaws O} {W : Type} {SO : SocketOps W}
  {R : W -> net -> Prop} {SL : SocketLaws SO R}.

Lemma send_refines header chunks :
  refines lib_failure (Rprod eq R) (@send O W SO header chunks) (@send spec_buffer net spec_socket header chunks).
Proof.
  unfold send. refine_step; [refine_auto|].
  induction chunks as [|d chunks IH]; [refine_auto|]. refine_step; [refine_auto|]. apply IH.
Qed.

Lemma assert_conn_open_refines :
  refines lib_failure (Rprod eq R) (@assert_conn_open W) (@assert_conn_open net).
Proof.
  intros [c w] [c' w'] [Hc HR]. simpl in Hc. subst c'. right; right.
  unfold assert_conn_open, bind, on_fst, focus. simpl. by destruct (fd_is_open c).
Qed.

Hint Resolve send_refines assert_conn_open_refines : refine.

Lemma command_refines {A} (m : ST (bytes * W) A) m' :
  refines lib_failure (Rprod eq R) m m' ->
  refines lib_failure (Rprod eq R) (@command O W A m) (@command spec_buffer net A m').
Proof.
  intros Hm. unfold command. refine_step; [refine_auto|]. refine_step; [apply buf_new_refines|].
  refine_step. by apply refines_with_local.
Qed.

Lemma remove_T_refines n : refines lib_failure eq (@remove_T O n) (@remove_T spec_buffer n).
Proof. unfold remove_T. refine_auto. Qed.

Hint Resolve remove_T_refines : refine.

Lemma read_response_header_refines e1 e2 :
  refines lib_failure (Rprod eq R) (@read_response_header O W SO e1 e2)
    (@read_response_header spec_buffer net spec_socket e1 e2).
Proof. unfold read_response_header. cbv zeta. refine_auto. Qed.

Hint Resolve read_response_header_refines : refine.

Lemma get_key_refines key exp :
  refines lib_failure (Rprod eq R) (@get_key O W SO key exp) (@get_key spec_buffer net spec_socket key exp).
Proof. apply command_refines. refine_auto. Qed.

Lemma write_key_refines cmd e1 e2 key value flags exp cas :
  refines lib_failure (Rprod eq R) (@write_key O W SO cmd e1 e2 key value flags exp cas)
    (@write_key spec_buffer net spec_socket cmd e1 e2 key value flags exp cas).
Proof. apply command_refines. refine_auto. Qed.

Lemma delete_key_refines key cas :
  refines lib_failure (Rprod eq R) (@delete_key O W SO key cas) (@delete_key spec_buffer net spec_socket key cas).
Proof. apply command_refines. refine_auto. Qed.

Lemma increment_refines key d i e dec :
  refines lib_failure (Rprod eq R) (@increment O W SO key d i e dec)
    (@increment spec_buffer net spec_socket key d i e dec).
Proof. apply command_refines. refine_auto. Qed.

Lemma stats_refines key :
  refines lib_failure (Rprod eq R) (@stats O W SO key) (@stats spec_buffer net spec_socket key).
Proof. apply command_refines. unfold stats_step. refine_auto. Qed.
End Refinement.

(** ** Frames on the wire *)

(** A frame of the binary protocol: [magic] 0x80 for a request, 0x81 for a
    response; [status] is the status of a response. *)
Definition frame_header (magic opcode status key_size extras_size body_size opaque cas : Z) : bytes :=
  le_encode 1 magic ++ le_encode 1 opcode ++ be_encode 2 key_size ++ le_encode 1 extras_size ++
  le_encode 1 0 ++ be_encode 2 status ++ be_encode 4 body_size ++ be_encode 4 opaque ++
  be_encode 8 cas.
Definition mc_frame (magic opcode status : Z) (extras key value : bytes) (opaque cas : Z) : bytes :=
  frame_header magic opcode status (zlen key) (zlen extras) (zlen extras + zlen key + zlen value)
    opaque cas ++ extras ++ key ++ value.
Abbreviation request op extras key value cas :=
  (mc_frame 0x80 (command_val op) 0 extras key value 0 cas).

Abbreviation opened w := ((mkClient true, w)).
Abbreviation response op status extras key value opaque cas :=
  (mc_frame 0x81 op status extras key value opaque cas).
Abbreviation get_request key exp :=
  (if (exp =? 0) then request Get [] key [] 0 else request GetAndTouch (be_encode 4 exp) key [] 0).
Abbreviation write_request cmd key value flags exp cas :=
  (request cmd (be_encode 4 flags ++ be_encode 4 exp) key value cas).

Section Wire.

Lemma le_encode_mod n v : le_encode n (v mod 2 ^ (8 * Z.of_nat n)) = le_encode n v.
Proof.
  rewrite <- le_decode_encode. pose proof (le_encode_decode (le_encode n v)) as H.
  by rewrite length_le_encode in H.
Qed.

Lemma le_encode_bswap n v : le_encode n (bswap n v) = be_encode n v.
Proof.
  unfold bswap, be_decode, be_encode.
  pose proof (le_encode_decode (rev (le_encode n v))) as H. by rewrite length_rev, length_le_encode in H.
Qed.

Lemma bswap_range n v : 0 <= bswap n v < 2 ^ (8 * Z.of_nat n).
Proof. unfold bswap. rewrite <- (zlen_le_encode n v). apply be_decode_range. Qed.

Lemma bswap_involutive n v : 0 <= v < 2 ^ (8 * Z.of_nat n) -> bswap n (bswap n v) = v.
Proof.
  intros Hv. unfold bswap at 1. rewrite le_encode_bswap. unfold be_decode, be_encode.
  rewrite rev_involutive. by apply le_decode_encode_small.
Qed.

(** The fields of a header within their widths. *)
Definition header_wf (h : CommandHeader) : Prop :=
  0 <= h_magic h < 2 ^ 8 /\ 0 <= h_opcode h < 2 ^ 8 /\ 0 <= h_key_size h < 2 ^ 16 /\
  0 <= h_extras_size h < 2 ^ 8 /\ 0 <= h_data_type h < 2 ^ 8 /\ 0 <= h_status h < 2 ^ 16 /\
  0 <= h_body_size h < 2 ^ 32 /\ 0 <= h_opaque h < 2 ^ 32 /\ 0 <= h_cas h < 2 ^ 64.

Lemma field_at (a d r : bytes) o n : zlen a = o -> zlen d = n -> ztake n (zdrop o (a ++ d ++ r)) = d.
Proof. intros Ha Hd. by rewrite zdrop_app, ztake_app. Qed.

Lemma header_repr_inv h : header_wf h -> header_of_repr (header_repr h) = h.
Proof.
  intros (H1 & H2 & H3 & H4 & H5 & H6 & H7 & H8 & H9). destruct h as [m o k e d s b q c].
  unfold header_of_repr. cbv zeta.
  cbn [h_magic h_opcode h_key_size h_extras_size h_data_type h_status h_body_size h_opaque h_cas] in *.
  assert (forall a n v r off w, header_repr (mkHeader m o k e d s b q c) = a ++ le_encode n v ++ r ->
    zlen a = off -> w = Z.of_nat n -> 0 <= v < 2 ^ (8 * Z.of_nat n) ->
    le_decode (ztake w (zdrop off (header_repr (mkHeader m o k e d s b q c)))) = v) as Hf.
  { intros a n v r off w -> Ha -> Hv. rewrite field_at; [by apply le_decode_encode_small|done|].
    apply zlen_le_encode. }
  f_equal.
  - by eapply (Hf []).
  - by eapply (Hf (le_encode 1 m)).
  - by eapply (Hf (le_encode 1 m ++ le_encode 1 o)).
  - by eapply (Hf (le_encode 1 m ++ le_encode 1 o ++ le_encode 2 k)).
  - by eapply (Hf (le_encode 1 m ++ le_encode 1 o ++ le_encode 2 k ++ le_encode 1 e)).
  - by eapply (Hf (le_encode 1 m ++ le_encode 1 o ++ le_encode 2 k ++ le_encode 1 e ++ le_encode 1 d)).
  - by eapply (Hf (le_encode 1 m ++ le_encode 1 o ++ le_encode 2 k ++ le_encode 1 e ++ le_encode 1 d ++
      le_encode 2 s)).
  - by eapply (Hf (le_encode 1 m ++ le_encode 1 o ++ le_encode 2 k ++ le_encode 1 e ++ le_encode 1 d ++
      le_encode 2 s ++ le_encode 4 b)).
  - eapply (Hf (le_encode 1 m ++ le_encode 1 o ++ le_encode 2 k ++ le_encode 1 e ++ le_encode 1 d ++
      le_encode 2 s ++ le_encode 4 b ++ le_encode 4 q) 8%nat c []); [|done|done|done].
    unfold header_repr. by rewrite app_nil_r.
Qed.
End Wire.

(** ** What the abstract machine does with frames *)

Section Frames.

Lemma byteswap_wf h : header_wf h -> header_wf (byteswap h).
Proof.
  intros (? & ? & ? & ? & ? & ? & ? & ? & ?). unfold byteswap, header_wf. simpl.
  pose proof (bswap_range 2 (h_key_size h)). pose proof (bswap_range 2 (h_status h)).
  pose proof (bswap_range 4 (h_body_size h)). pose proof (bswap_range 4 (h_opaque h)).
  pose proof (bswap_range 8 (h_cas h)). split_and!; lia.
Qed.

Lemma byteswap_involutive h : header_wf h -> byteswap (byteswap h) = h.
Proof.
  intros (? & ? & ? & ? & ? & ? & ? & ? & ?). destruct h. unfold byteswap. simpl in *.
  by rewrite !bswap_involutive.
Qed.

Lemma header_repr_byteswap m o k e s b q c :
  header_repr (byteswap (mkHeader m o k e 0 s b q c)) = frame_header m o s k e b q c.
Proof.
  unfold header_repr, byteswap, frame_header.
  cbn [h_magic h_opcode h_key_size h_extras_size h_data_type h_status h_body_size h_opaque h_cas].
  by rewrite !le_encode_bswap.
Qed.

Lemma be_encode_u16 v : be_encode 2 (u16 v) = be_encode 2 v.
Proof. unfold be_encode. f_equal. apply (le_encode_mod 2). Qed.

Lemma be_encode_u32 v : be_encode 4 (u32 v) = be_encode 4 v.
Proof. unfold be_encode. f_equal. apply (le_encode_mod 4). Qed.

Lemma header_repr_new op k e b c :
  header_repr (byteswap (new_header op k e b c)) = frame_header 0x80 (command_val op) 0 k e b 0 c.
Proof.
  unfold new_header. rewrite header_repr_byteswap. unfold frame_header.
  by rewrite be_encode_u16, be_encode_u32.
Qed.

Lemma zlen_frame_header m o s k e b q c : zlen (frame_header m o s k e b q c) = 24.
Proof. unfold frame_header. rewrite !zlen_app, !zlen_le_encode, !zlen_be_encode. done. Qed.

Lemma send_spec h chunks b w :
  0 < zlen (b ++ header_repr (byteswap h) ++ concat chunks) < 2 ^ 63 ->
  @send spec_buffer net spec_socket h chunks (b, w) =
    (Val tt, ([], Net (rx w) (tx w ++ b ++ header_repr (byteswap h) ++ concat chunks))).
Proof.
  unfold send. erewrite bind_Val by by apply on_fst_eq.
  rewrite app_assoc. generalize (b ++ header_repr (byteswap h)). clear b. intros b.
  revert b. induction chunks as [|d chunks IH]; intros b Hl; simpl in *.
  - rewrite app_nil_r in *. by apply spec_write_nonempty.
  - erewrite bind_Val by by apply on_fst_eq. rewrite (app_assoc b d (concat chunks)) in *. by apply IH.
Qed.

(** Sending a whole request. *)
Lemma send_request op extras key value cas chunks w :
  concat chunks = extras ++ key ++ value -> zlen extras + zlen key + zlen value < 2 ^ 62 ->
  @send spec_buffer net spec_socket
    (new_header op (zlen key) (zlen extras) (zlen extras + zlen key + zlen value) cas) chunks ([], w) =
    (Val tt, ([], Net (rx w) (tx w ++ request op extras key value cas))).
Proof.
  intros Hc Hl. pose proof (zlen_nonneg extras). pose proof (zlen_nonneg key). pose proof (zlen_nonneg value).
  rewrite send_spec; rewrite header_repr_new, Hc, app_nil_l; [done|].
  rewrite !zlen_app, zlen_frame_header. lia.
Qed.

Definition response_header (op status : Z) (extras key value : bytes) (opaque cas : Z) : CommandHeader :=
  mkHeader 0x81 op (zlen key) (zlen extras) 0 status (zlen extras + zlen key + zlen value) opaque cas.
Definition response_ok (op status : Z) (extras key value : bytes) (opaque cas : Z) : Prop :=
  header_wf (response_header op status extras key value opaque cas) /\
  zlen extras + zlen key + zlen value < 2 ^ 31.

(** Reading a whole response. *)
Lemma read_response_spec e1 e2 op status extras key value opaque cas rest t :
  response_ok op status extras key value opaque cas ->
  let body := extras ++ key ++ value in
  @read_response_header spec_buffer net spec_socket e1 e2
    ([], Net (mc_frame 0x81 op status extras key value opaque cas ++ rest) t) =
    (if status =? 0 then
       (Val (response_header op status extras key value opaque cas), (body, Net rest t))
     else if (status =? e1) || (status =? e2) then
       (Val (response_header op status extras key value opaque cas), ([], Net rest t))
     else (Exn (server_error status body), ([], Net rest t))).
Proof.
  intros [Hwf Hlen] body. unfold read_response_header, mc_frame.
  set (h := response_header op status extras key value opaque cas) in *.
  rewrite <- (header_repr_byteswap 0x81 op (zlen key) (zlen extras) status _ opaque cas).
  change (mkHeader _ _ _ _ _ _ _ _ _) with h.
  assert (zlen (header_repr (byteswap h)) = 24) as Hh.
  { unfold h, response_header. by rewrite header_repr_byteswap, zlen_frame_header. }
  assert (zlen body = h_body_size h) as Hb by (unfold body, h; rewrite !zlen_app; simpl; lia).
  pose proof (zlen_nonneg body).
  rewrite <- app_assoc. fold body.
  change CommandHeader_size with 24.
  erewrite bind_Val by (apply (spec_read_to_app _ [] (header_repr (byteswap h))); [by rewrite Hh|lia]).
  rewrite app_nil_l.
  erewrite bind_Val by
    (apply on_fst_eq; apply spec_remove_all; [exact Hh|lia]).
  rewrite header_repr_inv by by apply byteswap_wf.
  rewrite byteswap_involutive by done. change (h_magic (byteswap h) =? 0x81) with true. cbn [negb].
  erewrite bind_Val by (apply (spec_read_to_app _ [] body); [by rewrite <- Hb|simpl; lia]).
  rewrite app_nil_l. change (h_status h) with status.
  destruct (Z.eqb_spec status 0) as [->|]; cbn [negb]; [done|].
  rewrite <- negb_orb. destruct ((status =? e1) || (status =? e2)); cbn [negb].
  - erewrite bind_Val by (apply on_fst_eq; by apply spec_drain_all). done.
  - erewrite bind_Exn; [done|]. erewrite bind_Val; [done|]. apply on_fst_eq.
    apply remove_string_all; [done|simpl; lia].
Qed.

(** A command on an open connection. *)
Lemma command_open {A} (m : ST (bytes * net) A) w o b w' :
  m ([], w) = (o, (b, w')) ->
  @command spec_buffer net A m (mkClient true, w) = (o, (mkClient true, w')).
Proof.
  intros Hm. unfold command, assert_conn_open, bind, on_fst, on_snd, focus, of_out, with_local. simpl.
  by rewrite Hm.
Qed.

(** A command that sends a request and goes on with [k]. *)
Lemma command_request {A} op ks es bs extras key value cas chunks (k : ST (bytes * net) A) r t o b w' :
  concat chunks = extras ++ key ++ value -> ks = zlen key -> es = zlen extras ->
  bs = zlen extras + zlen key + zlen value -> bs < 2 ^ 62 ->
  k ([], Net r (t ++ request op extras key value cas)) = (o, (b, w')) ->
  @command spec_buffer net A
    (@send spec_buffer net spec_socket (new_header op ks es bs cas) chunks ;;; k) (opened (Net r t)) =
    (o, opened w').
Proof.
  intros Hc -> -> -> Hl Hk. apply (command_open _ _ _ b). erewrite bind_Val; [exact Hk|].
  by apply (send_request _ _ _ _ _ _ (Net r t)).
Qed.

Section Response.
Variables (op status : Z) (extras key value : bytes) (opaque cas : Z) (rest t : bytes) (e1 e2 : Z).
Hypothesis Hok : response_ok op status extras key value opaque cas.
Abbreviation incoming := (Net (response op status extras key value opaque cas ++ rest) t).

Lemma read_response_ok {A} (k : CommandHeader -> ST (bytes * net) A) : status = 0 ->
  (let! h := @read_response_header spec_buffer net spec_socket e1 e2 in k h) ([], incoming) =
  k (response_header op status extras key value opaque cas) (extras ++ key ++ value, Net rest t).
Proof. intros ->. apply bind_Val. by rewrite read_response_spec. Qed.

Lemma read_response_expected {A} (k : CommandHeader -> ST (bytes * net) A) :
  status <> 0 -> (status =? e1) || (status =? e2) = true ->
  (let! h := @read_response_header spec_buffer net spec_socket e1 e2 in k h) ([], incoming) =
  k (response_header op status extras key value opaque cas) ([], Net rest t).
Proof.
  intros H0 He. apply bind_Val. rewrite read_response_spec by done.
  by rewrite (proj2 (Z.eqb_neq _ _) H0), He.
Qed.

Lemma read_response_error {A} (k : CommandHeader -> ST (bytes * net) A) :
  status <> 0 -> (status =? e1) || (status =? e2) = false ->
  (let! h := @read_response_header spec_buffer net spec_socket e1 e2 in k h) ([], incoming) =
  (Exn (server_error status (extras ++ key ++ value)), ([], Net rest t)).
Proof.
  intros H0 He. apply bind_Exn. rewrite read_response_spec by done.
  by rewrite (proj2 (Z.eqb_neq _ _) H0), He.
Qed.
End Response.

Lemma remove_u64b_all d : zlen d = 8 -> @remove_u64b spec_buffer d = (Val (be_decode d), []).
Proof. intros. rewrite <- (app_nil_r d) at 1. by apply remove_u64b_app. Qed.

Ltac unfold_header :=
  cbn [h_status h_extras_size h_body_size h_cas h_key_size response_header]; cbv beta;
  rewrite ?Z.eqb_refl; cbn [negb].

Lemma get_key_command {A} key exp (k : ST (bytes * net) A) r t o b w' :
  zlen key < 2 ^ 32 ->
  k ([], Net r (t ++ get_request key exp)) = (o, (b, w')) ->
  @command spec_buffer net A
    (@send spec_buffer net spec_socket
      (new_header (if exp =? 0 then Get else GetAndTouch) (zlen key) (if exp =? 0 then 0 else 4)
            (zlen key + (if exp =? 0 then 0 else 4)) 0)
      (if exp =? 0 then [key] else [le_encode 4 (bswap 4 exp); key]) ;;; k) (opened (Net r t)) =
    (o, opened w').
Proof.
  intros Hk Hr. destruct (exp =? 0).
  - by eapply (command_request Get _ _ _ [] key []); [| | | | |exact Hr]; change (zlen []) with 0; try done; lia.
  - rewrite le_encode_bswap.
    by eapply (command_request GetAndTouch _ _ _ (be_encode 4 exp) key []); [| | | | |exact Hr];
      rewrite ?zlen_be_encode; change (zlen []) with 0; try done; lia.
Qed.

Lemma get_key_spec key exp op status extras value opaque cas rest t :
  zlen key < 2 ^ 32 -> response_ok op status extras [] value opaque cas ->
  @get_key spec_buffer net spec_socket key exp
    (opened (Net (response op status extras [] value opaque cas ++ rest) t)) =
  let w' := Net rest (t ++ get_request key exp) in
  if status =? 0 then
    if zlen extras =? 4 then
      (Val (mkGetResult value cas (be_decode extras) true), opened w')
    else (Exn (runtime_error (str "server responded to GET without flags")), opened w')
  else if status =? status_val KEY_NOT_FOUND then
    (Val (mkGetResult [] 0 0 false), opened w')
  else (Exn (server_error status (extras ++ value)), opened w').
Proof.
  intros Hk Hr. cbv zeta. unfold get_key.
  destruct (Z.eqb_spec status 0) as [H0|H0]; [destruct (Z.eqb_spec (zlen extras) 4) as [H4|H4]|
    destruct (Z.eqb_spec status (status_val KEY_NOT_FOUND)) as [H1|H1]].
  - apply (get_key_command _ _ _ _ _ _ []); [done|].
    rewrite read_response_ok by done. subst status. unfold_header. rewrite H4, app_nil_l, Z.eqb_refl. cbn [negb].
    erewrite bind_Val by (apply on_fst_eq; by apply remove_u32b_app).
    destruct Hr as [_ Hl]. pose proof (zlen_nonneg value).
    erewrite bind_Val; [done|]. apply on_fst_eq, remove_string_all; rewrite H4 in *;
      change (zlen []) with 0 in *; unfold u32; rewrite ?Z.mod_small; lia.
  - eapply get_key_command; [done|].
    rewrite read_response_ok by done. subst status. unfold_header.
    by rewrite (proj2 (Z.eqb_neq _ _) H4).
  - eapply get_key_command; [done|].
    rewrite read_response_expected; [|done|done|by subst status]. by subst status.
  - eapply get_key_command; [done|].
    rewrite read_response_error; [done|done|done|].
    by rewrite (proj2 (Z.eqb_neq _ _) H1), (proj2 (Z.eqb_neq _ _) H0).
Qed.

Lemma write_key_spec cmd e1 e2 key value flags exp cas op status msg opaque cas' rest t :
  zlen key + zlen value < 2 ^ 61 -> response_ok op status [] [] msg opaque cas' ->
  @write_key spec_buffer net spec_socket cmd e1 e2 key value flags exp cas
    (opened (Net (response op status [] [] msg opaque cas' ++ rest) t)) =
  (if status =? 0 then
     if zlen msg =? 0 then Val true else Exn (data_after_header "write")
   else if (status =? e1) || (status =? e2) then Val false
   else Exn (server_error status msg),
   opened (Net rest (t ++ write_request cmd key value flags exp cas))).
Proof.
  intros Hk Hr. unfold write_key. rewrite !le_encode_bswap.
  pose proof (zlen_nonneg key). pose proof (zlen_nonneg value).
  destruct (Z.eqb_spec status 0) as [Hs|Hs];
    [|destruct ((status =? e1) || (status =? e2)) eqn:H1];
    eapply (command_request _ _ _ _ (be_encode 4 flags ++ be_encode 4 exp) key value);
    rewrite ?zlen_app, ?zlen_be_encode; cbn [concat]; rewrite ?app_nil_r; try done; try lia.
  - rewrite read_response_ok by done. subst status. unfold_header.
    change (zlen [] + zlen [] + zlen msg) with (zlen msg). by destruct (zlen msg =? 0).
  - rewrite read_response_expected by done. unfold_header.
    by rewrite (proj2 (Z.eqb_neq _ _) Hs).
  - by rewrite read_response_error.
Qed.

Lemma increment_spec key delta init exp dec op status body opaque cas rest t :
  zlen key < 2 ^ 32 -> response_ok op status [] [] body opaque cas ->
  @increment spec_buffer net spec_socket key delta init exp dec
    (opened (Net (response op status [] [] body opaque cas ++ rest) t)) =
  (if status =? 0 then
     if zlen body =? 8 then Val (be_decode body) else Exn (data_after_header "incr/decr")
   else if status =? status_val KEY_NOT_FOUND then Exn (out_of_range (str "key not found"))
   else Exn (server_error status body),
   opened (Net rest (t ++ request (if dec then Decrement else Increment)
     (be_encode 8 delta ++ be_encode 8 (if init =? 2 ^ 64 - 1 then delta else init) ++
      be_encode 4 exp) key [] 0))).
Proof.
  intros Hk Hr. unfold increment. rewrite !le_encode_bswap. cbv zeta.
  change (2 ^ 64 - 1) with 0xFFFFFFFFFFFFFFFF. pose proof (zlen_nonneg key).
  set (init' := if init =? _ then delta else init).
  destruct (Z.eqb_spec status 0) as [Hs|Hs];
    [destruct (Z.eqb_spec (zlen body) 8) as [H8|H8]|
     destruct (status =? status_val KEY_NOT_FOUND) eqn:H1];
    eapply (command_request _ _ _ _ (be_encode 8 delta ++ be_encode 8 init' ++ be_encode 4 exp) key []);
    rewrite ?zlen_app, ?zlen_be_encode; cbn [concat]; rewrite ?app_nil_r, ?app_assoc; try done;
    change (zlen []) with 0; try lia.
  - rewrite read_response_ok by done. subst status. unfold_header.
    change (zlen [] + zlen [] + zlen body) with (zlen body). rewrite H8, Z.eqb_refl. cbn [negb].
    rewrite app_nil_l. apply on_fst_eq. by apply remove_u64b_all.
  - rewrite read_response_ok by done. subst status. unfold_header.
    change (zlen [] + zlen [] + zlen body) with (zlen body).
    by rewrite (proj2 (Z.eqb_neq _ _) H8).
  - rewrite read_response_expected; [|done|done|by rewrite H1]. unfold_header.
    by rewrite (proj2 (Z.eqb_neq _ _) Hs).
  - rewrite read_response_error; [done|done|done|].
    by rewrite H1, (proj2 (Z.eqb_neq _ _) Hs).
Qed.

Lemma delete_key_spec key cas op status msg opaque cas' rest t :
  zlen key < 2 ^ 32 -> response_ok op status [] [] msg opaque cas' ->
  @delete_key spec_buffer net spec_socket key cas
    (opened (Net (response op status [] [] msg opaque cas' ++ rest) t)) =
  (if status =? 0 then
     if zlen msg =? 0 then Val true else Exn (data_after_header "delete")
   else if status =? status_val KEY_EXISTS then Val false
   else Exn (server_error status msg),
   opened (Net rest (t ++ request Delete [] key [] cas))).
Proof.
  intros Hk Hr. unfold delete_key. pose proof (zlen_nonneg key).
  destruct (Z.eqb_spec status 0) as [Hs|Hs];
    [|destruct (status =? status_val KEY_EXISTS) eqn:H1];
    eapply (command_request _ _ _ _ [] key []);
    cbn [concat]; rewrite ?app_nil_r; try done; change (zlen []) with 0; try lia.
  - rewrite read_response_ok by done. subst status. unfold_header.
    change (zlen [] + zlen [] + zlen msg) with (zlen msg). by destruct (zlen msg =? 0).
  - rewrite read_response_expected; [|done|done|by rewrite H1]. unfold_header.
    by rewrite (proj2 (Z.eqb_neq _ _) Hs).
  - rewrite read_response_error; [done|done|done|].
    by rewrite H1, (proj2 (Z.eqb_neq _ _) Hs).
Qed.

(** The reply to [stats]: a frame for every statistic and an empty one. *)
Definition stat_frame (e : bytes * bytes) : bytes :=
  response (command_val Stat) 0 [] e.1 e.2 0 0.
Definition stats_reply (entries : list (bytes * bytes)) : bytes :=
  concat (map stat_frame entries) ++ stat_frame ([], []).
Definition stat_ok (e : bytes * bytes) : Prop :=
  0 < zlen e.1 + zlen e.2 < 2 ^ 31 /\ zlen e.1 < 2 ^ 16.

Lemma stat_response_ok k v :
  zlen k + zlen v < 2 ^ 31 -> zlen k < 2 ^ 16 ->
  response_ok (command_val Stat) 0 [] k v 0 0.
Proof.
  intros. pose proof (zlen_nonneg k). pose proof (zlen_nonneg v). unfold response_ok, header_wf.
  cbn [h_magic h_opcode h_key_size h_extras_size h_data_type h_status h_body_size h_opaque h_cas
    response_header command_val]. change (zlen []) with 0. lia.
Qed.

Lemma zlen_stat_frame e : 24 <= zlen (stat_frame e).
Proof.
  unfold stat_frame, mc_frame. rewrite !zlen_app, zlen_frame_header.
  pose proof (zlen_nonneg e.1). pose proof (zlen_nonneg e.2). change (zlen []) with 0. lia.
Qed.

Abbreviation step := (@stats_step spec_buffer net spec_socket).

Lemma stats_step_end acc rest t :
  step acc ([], Net (stat_frame ([], []) ++ rest) t) = (Val (inr acc), ([], Net rest t)).
Proof.
  unfold stats_step, stat_frame. rewrite read_response_ok; [|by apply stat_response_ok; vm_compute|done].
  reflexivity.
Qed.

Lemma stats_step_entry acc k v rest t :
  stat_ok (k, v) ->
  step acc ([], Net (stat_frame (k, v) ++ rest) t) =
  (Val (inl (emplace acc k v)), ([], Net rest t)).
Proof.
  intros [Hl Hk]. cbn [fst snd] in *. unfold stats_step, stat_frame. cbn [fst snd].
  rewrite read_response_ok; [|apply stat_response_ok; lia|done]. unfold_header.
  change (zlen [] + zlen k + zlen v) with (zlen k + zlen v).
  destruct (Z.eqb_spec (zlen k + zlen v) 0); [lia|]. rewrite app_nil_l.
  pose proof (zlen_nonneg k). pose proof (zlen_nonneg v).
  erewrite bind_Val by (apply on_fst_eq; apply remove_string_app; [done|lia]).
  erewrite bind_Val; [done|]. apply on_fst_eq.
  apply remove_string_all; unfold u32; rewrite Z.mod_small; lia.
Qed.

Lemma stats_loop_spec entries acc rest t :
  Forall stat_ok entries -> zlen (stats_reply entries ++ rest) < 2 ^ 63 ->
  loop step stats_fuel acc ([], Net (stats_reply entries ++ rest) t) =
  (Val (acc ∪ list_to_map entries), ([], Net rest t)).
Proof.
  intros Hok Hlen. set (final := acc ∪ _).
  assert (forall r : out (gmap bytes bytes) * (bytes * net),
    r.1 = Val final /\ r.2 = ([], Net rest t) -> r = (Val final, ([], Net rest t))) as Hpair
    by (intros [? ?] [? ?]; simpl in *; by subst).
  apply Hpair. apply (loop_rule _
    (fun a (s : bytes * net) => exists es, Forall stat_ok es /\
       s = ([], Net (stats_reply es ++ rest) t) /\ a ∪ list_to_map es = final)
    (fun _ s => length (rx s.2)) (fun o s => o = Val final /\ s = ([], Net rest t))).
  - intros a s ([|[k v] es] & Hes & -> & Hf).
    + unfold stats_reply. cbn [map concat]. rewrite app_nil_l, stats_step_end.
      split; [|done]. f_equal. rewrite <- Hf. simpl. by rewrite map_union_empty.
    + unfold stats_reply. cbn [map concat]. rewrite <- !app_assoc.
      rewrite stats_step_entry by (by inversion Hes). split.
      * exists es. split_and!; [by inversion Hes|by rewrite <- app_assoc|].
        rewrite emplace_union. done.
      * cbn [snd rx]. pose proof (zlen_stat_frame (k, v)). unfold zlen in *. rewrite !length_app. lia.
  - by exists entries.
  - unfold zlen in Hlen. cbn [snd rx]. unfold stats_fuel. lia.
Qed.
End Frames.

(** ** Properties: any lawful buffer and connection *)

Lemma expected_statuses status e1 e2 :
  bool_decide (status ∈ [e1; e2]) = (status =? e1) || (status =? e2).
Proof.
  apply eq_bool_prop_intro. rewrite bool_decide_spec, orb_True, !Is_true_true, !Z.eqb_eq.
  by rewrite elem_of_cons, list_elem_of_singleton.
Qed.

Lemma expected_status status e1 :
  status = 0 \/ bool_decide (status ∈ [e1]) = (status =? e1) || (status =? 0).
Proof.
  destruct (Z.eqb_spec status 0); [by left|right]. rewrite orb_false_r.
  apply eq_bool_prop_intro. by rewrite bool_decide_spec, Is_true_true, Z.eqb_eq, list_elem_of_singleton.
Qed.

Section Properties.
Context {O : BufferOps} {L : BufferLaws O} {W : Type} {SO : SocketOps W}
  {R : W -> net -> Prop} {SL : SocketLaws SO R}.

(** [read_response_header] takes exactly one frame off the connection,
    whatever its status: with status zero the body is left in the buffer, with
    an expected status it is thrown away, and any other status is thrown as an
    error that carries the body. The next command starts at the next frame. *)
Theorem read_response_one_frame e1 e2 op status extras key value opaque cas rest t w :
  response_ok op status extras key value opaque cas ->
  R w (Net (response op status extras key value opaque cas ++ rest) t) ->
  let h := response_header op status extras key value opaque cas in
  let body := extras ++ key ++ value in
  delivers lib_failure (Rprod eq R) (read_response_header e1 e2) ([], w)
    (if (status =? 0) || (status =? e1) || (status =? e2) then Val h
     else Exn (server_error status body))
    (if status =? 0 then body else [], Net rest t).
Proof.
  intros Hok HR h body.
  eapply refines_delivers with (s' := ([], Net (response op status extras key value opaque cas ++ rest) t));
    [apply read_response_header_refines|by split|rewrite read_response_spec by done|].
  - fold h body. destruct (status =? 0), (status =? e1), (status =? e2); done.
  - by destruct (_ || _).
Qed.

(** [get] sends exactly one request frame, for the key, and answers what
    the server's response says: the value, flags and cas of a hit, "not found"
    for KEY_NOT_FOUND, and an error for everything else; it leaves the
    connection behind the response. *)
Theorem get_key_answers key exp op status extras value opaque cas rest t w :
  zlen key < 2 ^ 32 -> response_ok op status extras [] value opaque cas ->
  R w (Net (response op status extras [] value opaque cas ++ rest) t) ->
  delivers lib_failure (Rprod eq R) (get_key key exp) (opened w)
    (if status =? 0 then
       if zlen extras =? 4 then Val (mkGetResult value cas (be_decode extras) true)
       else Exn (runtime_error (str "server responded to GET without flags"))
     else if status =? status_val KEY_NOT_FOUND then Val (mkGetResult [] 0 0 false)
     else Exn (server_error status (extras ++ value)))
    (opened (Net rest (t ++ get_request key exp))).
Proof.
  intros Hk Hok HR.
  eapply refines_delivers with
    (s' := opened (Net (response op status extras [] value opaque cas ++ rest) t));
    [apply get_key_refines|by split|rewrite get_key_spec by done|]; by repeat case_match.
Qed.

(** [set], [add] and [replace] send the key and the value behind their
    flags and expiration, and answer [true] when the server stored the value,
    [false] when the key's state forbids the write, and throw otherwise. *)
Theorem write_commands_answer key value flags exp cas op status msg opaque cas' rest t w :
  zlen key + zlen value < 2 ^ 61 -> response_ok op status [] [] msg opaque cas' ->
  R w (Net (response op status [] [] msg opaque cas' ++ rest) t) ->
  let answer refusals :=
    if status =? 0 then
      if zlen msg =? 0 then Val true else Exn (data_after_header "write")
    else if bool_decide (status ∈ refusals) then Val false
    else Exn (server_error status msg) in
  let after cmd cas :=
    opened (Net rest (t ++ write_request cmd key value flags exp cas)) in
  delivers lib_failure (Rprod eq R) (set key value flags exp cas) (opened w)
    (answer [status_val KEY_EXISTS]) (after Set_ cas) /\
  delivers lib_failure (Rprod eq R) (add key value flags exp) (opened w)
    (answer [status_val KEY_EXISTS]) (after Add 0) /\
  delivers lib_failure (Rprod eq R) (replace key value flags exp cas) (opened w)
    (answer [status_val KEY_NOT_FOUND; status_val KEY_EXISTS]) (after Replace cas).
Proof.
  intros Hk Hok HR answer after.
  assert (forall cmd e1 e2 cas refusals,
    (status = 0 \/ bool_decide (status ∈ refusals) = (status =? e1) || (status =? e2)) ->
    delivers lib_failure (Rprod eq R) (write_key cmd e1 e2 key value flags exp cas) (opened w)
      (answer refusals) (after cmd cas)) as Hw.
  { intros cmd e1 e2 c refusals Href.
    eapply refines_delivers with
      (s' := opened (Net (response op status [] [] msg opaque cas' ++ rest) t));
      [apply write_key_refines|by split|rewrite write_key_spec by done|];
      unfold answer; destruct (Z.eqb_spec status 0); try (destruct Href as [?|Href]; [done|rewrite Href]);
      by repeat case_match. }
  split_and!; apply Hw; [apply expected_status..|right; apply expected_statuses].
Qed.

(** [increment] answers the counter the server sends back, for the
    request with the delta, the initial value (the delta itself when the caller
    gives none) and the expiration; a missing key is [out_of_range]. *)
Theorem increment_answers key delta init exp dec op status body opaque cas rest t w :
  zlen key < 2 ^ 32 -> response_ok op status [] [] body opaque cas ->
  R w (Net (response op status [] [] body opaque cas ++ rest) t) ->
  delivers lib_failure (Rprod eq R) (increment key delta init exp dec) (opened w)
    (if status =? 0 then
       if zlen body =? 8 then Val (be_decode body) else Exn (data_after_header "incr/decr")
     else if status =? status_val KEY_NOT_FOUND then Exn (out_of_range (str "key not found"))
     else Exn (server_error status body))
    (opened (Net rest (t ++ request (if dec then Decrement else Increment)
       (be_encode 8 delta ++ be_encode 8 (if init =? 2 ^ 64 - 1 then delta else init) ++
        be_encode 4 exp) key [] 0))).
Proof.
  intros Hk Hok HR.
  eapply refines_delivers with
    (s' := opened (Net (response op status [] [] body opaque cas ++ rest) t));
    [apply increment_refines|by split|rewrite increment_spec by done; done|]; by repeat case_match.
Qed.

(** [delete_key] of a key the server does not have throws, although the
    client's header says that it answers [false]: only KEY_EXISTS is expected. *)
Theorem delete_missing_key_throws key cas op msg opaque cas' rest t w :
  zlen key < 2 ^ 32 -> response_ok op (status_val KEY_NOT_FOUND) [] [] msg opaque cas' ->
  R w (Net (response op (status_val KEY_NOT_FOUND) [] [] msg opaque cas' ++ rest) t) ->
  delivers lib_failure (Rprod eq R) (delete_key key cas) (opened w)
    (Exn (server_error (status_val KEY_NOT_FOUND) msg))
    (opened (Net rest (t ++ request Delete [] key [] cas))).
Proof.
  intros Hk Hok HR. eapply refines_delivers with (s' := opened (Net
      (response op (status_val KEY_NOT_FOUND) [] [] msg opaque cas' ++ rest) t));
    [apply delete_key_refines|by split|by rewrite delete_key_spec|done].
Qed.

(** [stats] takes frames until the first empty one, however many there
    are, and answers the statistics they carry, the first value of a key that
    comes twice; it leaves the connection behind the empty frame. *)
Theorem stats_collects sub entries rest t w :
  zlen (default [] sub) < 2 ^ 16 -> Forall stat_ok entries ->
  zlen (stats_reply entries ++ rest) < 2 ^ 63 -> R w (Net (stats_reply entries ++ rest) t) ->
  delivers lib_failure (Rprod eq R) (stats sub) (opened w) (Val (list_to_map entries))
    (opened (Net rest (t ++ request Stat [] (default [] sub) [] 0))).
Proof.
  intros Hk Hes Hl HR. pose proof (zlen_nonneg (default [] sub)).
  eapply refines_delivers with (s' := opened (Net (stats_reply entries ++ rest) t));
    [apply stats_refines|by split| |done].
  eapply (command_request Stat _ _ _ [] (default [] sub) [] 0); [| | | | |
    rewrite <- (map_empty_union (list_to_map entries)); by apply stats_loop_spec];
    destruct sub; simpl in *; rewrite ?app_nil_r; try done; change (zlen []) with 0 in *; lia.
Qed.
End Properties.
(** ** Witnesses: a libevent that moves two bytes at a time *)

Abbreviation small := (@libevent_buffer (chunked 2)).
Abbreviation small_net := (@libevent_socket (chunked 2)).
Abbreviation hi := (str "hi").

Lemma ok_bounded op status extras key value opaque cas :
  header_wf (response_header op status extras key value opaque cas) ->
  (zlen extras + zlen key + zlen value <? 2 ^ 31) = true ->
  response_ok op status extras key value opaque cas.
Proof. intros ? ?%Z.ltb_lt. by split. Qed.

Ltac check_ok := apply ok_bounded; [unfold header_wf; vm_compute; intuition discriminate|reflexivity].

Lemma read_response_one_frame_witness :
  delivers lib_failure (Rprod eq (fun w v => w = v)) (@read_response_header small _ small_net 1 0)
    ([], Net (response 0 1 [] [] hi 0 0 ++ [Byte.x61]) [])
    (Val (response_header 0 1 [] [] hi 0 0)) ([], Net [Byte.x61] []).
Proof.
  apply (read_response_one_frame (O := small) (SO := small_net) 1 0 0 1 [] [] hi 0 0 [Byte.x61] []
    (Net (response 0 1 [] [] hi 0 0 ++ [Byte.x61]) [])); [check_ok|reflexivity].
Defined.

Lemma get_key_answers_witness :
  delivers lib_failure (Rprod eq (fun w v => w = v)) (@get_key small _ small_net (str "k") 0)
    (opened (Net (response 0 0 (be_encode 4 7) [] hi 0 5) []))
    (Val (mkGetResult hi 5 7 true)) (opened (Net [] (request Get [] (str "k") [] 0))).
Proof.
  apply (get_key_answers (O := small) (SO := small_net) (str "k") 0 0 0 (be_encode 4 7) hi 0 5 [] []
    (Net (response 0 0 (be_encode 4 7) [] hi 0 5) [])); [reflexivity|check_ok|reflexivity].
Defined.

Lemma write_commands_answer_witness :
  delivers lib_failure (Rprod eq (fun w v => w = v)) (@set small _ small_net (str "k") hi 1 0 0)
    (opened (Net (response 1 2 [] [] hi 0 0) []))
    (Val false) (opened (Net [] (write_request Set_ (str "k") hi 1 0 0))).
Proof.
  apply (write_commands_answer (O := small) (SO := small_net) (str "k") hi 1 0 0 1 2 hi 0 0 [] []
    (Net (response 1 2 [] [] hi 0 0) [])); [reflexivity|check_ok|reflexivity].
Defined.

Lemma increment_answers_witness :
  delivers lib_failure (Rprod eq (fun w v => w = v)) (@increment small _ small_net (str "k") 3 (2 ^ 64 - 1) 0 false)
    (opened (Net (response 5 0 [] [] (be_encode 8 10) 0 0) [])) (Val 10)
    (opened (Net [] (request Increment (be_encode 8 3 ++ be_encode 8 3 ++ be_encode 4 0) (str "k") [] 0))).
Proof.
  apply (increment_answers (O := small) (SO := small_net) (str "k") 3 (2 ^ 64 - 1) 0 false 5 0
    (be_encode 8 10) 0 0 [] [] (Net (response 5 0 [] [] (be_encode 8 10) 0 0) []));
    [reflexivity|check_ok|reflexivity].
Defined.

Lemma delete_missing_key_throws_witness :
  delivers lib_failure (Rprod eq (fun w v => w = v)) (@delete_key small _ small_net (str "k") 0)
    (opened (Net (response 4 1 [] [] hi 0 0) []))
    (Exn (server_error 1 hi)) (opened (Net [] (request Delete [] (str "k") [] 0))).
Proof.
  apply (delete_missing_key_throws (O := small) (SO := small_net) (str "k") 0 4 hi 0 0 [] []
    (Net (response 4 1 [] [] hi 0 0) [])); [reflexivity|check_ok|reflexivity].
Defined.

Lemma stats_collects_witness :
  delivers lib_failure (Rprod eq (fun w v => w = v)) (@stats small _ small_net None)
    (opened (Net (stats_reply [(str "a", hi); (str "b", hi); (str "a", [])] ++ [Byte.x00]) []))
    (Val (<[str "a" := hi]> {[str "b" := hi]})) (opened (Net [Byte.x00] (request Stat [] [] [] 0))).
Proof.
  apply (stats_collects (O := small) (SO := small_net) None
    [(str "a", hi); (str "b", hi); (str "a", [])] [Byte.x00] []
    (Net (stats_reply [(str "a", hi); (str "b", hi); (str "a", [])] ++ [Byte.x00]) []));
    [reflexivity| |reflexivity|reflexivity].
  repeat constructor.
Defined.
