(* ===== verification/MemcacheStore.v ===== *)
(** * A memcache session against a key-value store

    The methods of the client of Memcache.v as calls; what a method sends and what
    it makes of the reply; programs of calls; and the store that memcached's
    protocol documents. The client over the wire implements operations on that
    store, whatever server keeps the protocol: those that Client.hh
    (src/src/Protocols/Memcache) documents, except that deleting a missing key, and
    setting one with a cas, throw instead of answering false. *)
From stdpp Require Import tactics base list numbers strings gmap.
From S2P Require Import Prelude BufferApi Libevent Chunked Buffer Text ProtocolBuffer Memcache.

(** ** The methods as calls *)

(** The kinds of [write_key]; [add] has no cas. *)
Inductive write_kind : Type := WSet (cas : Z) | WAdd | WReplace (cas : Z).

(** A call answers a value of its type. [CNoop] carries the two readings of the
    clock. *)
Inductive call : Type -> Type :=
| CGet (key : bytes) (expiration_secs : Z) : call GetResult
| CWrite (kind : write_kind) (key value : bytes) (flags expiration_secs : Z) : call bool
| CDelete (key : bytes) (cas : Z) : call bool
| CIncrement (key : bytes) (delta initial_value expiration_secs : Z) (decrement : bool) : call Z
| CAppend (key value : bytes) (prepend : bool) : call unit
| CFlush (expiration_secs : Z) : call unit
| CNoop (start_usecs end_usecs : Z) : call Z
| CVersion : call bytes
| CStats (key : option bytes) : call (gmap bytes bytes)
| CTouch (key : bytes) (expiration_secs : Z) : call unit.

Definition run_call {O : BufferOps} {W : Type} {SO : SocketOps W} {A} (c : call A)
    : ST (Client * W) A :=
  match c with
  | CGet key exp => get_key key exp
  | CWrite (WSet cas) key value flags exp => set key value flags exp cas
  | CWrite WAdd key value flags exp => add key value flags exp
  | CWrite (WReplace cas) key value flags exp => replace key value flags exp cas
  | CDelete key cas => delete_key key cas
  | CIncrement key delta init exp dec => increment key delta init exp dec
  | CAppend key value prepend => append key value prepend
  | CFlush exp => flush exp
  | CNoop start_usecs end_usecs => noop start_usecs end_usecs
  | CVersion => version
  | CStats key => stats key
  | CTouch key exp => touch key exp
  end.

(** ** Requests and replies *)

Record req := Req { q_cmd : Command; q_extras : bytes; q_key : bytes; q_value : bytes; q_cas : Z }.
Definition encode_req (q : req) : bytes :=
  request (q_cmd q) (q_extras q) (q_key q) (q_value q) (q_cas q).

Definition initial_or_delta (delta init : Z) : Z := if init =? 2 ^ 64 - 1 then delta else init.

Definition request_of {A} (c : call A) : req :=
  match c with
  | CGet key exp => if exp =? 0 then Req Get [] key [] 0 else Req GetAndTouch (be_encode 4 exp) key [] 0
  | CWrite kind key value flags exp =>
      let extras := be_encode 4 flags ++ be_encode 4 exp in
      match kind with
      | WSet cas => Req Set_ extras key value cas
      | WAdd => Req Add extras key value 0
      | WReplace cas => Req Replace extras key value cas
      end
  | CDelete key cas => Req Delete [] key [] cas
  | CIncrement key delta init exp dec =>
      Req (if dec then Decrement else Increment)
        (be_encode 8 delta ++ be_encode 8 (initial_or_delta delta init) ++ be_encode 4 exp) key [] 0
  | CAppend key value prepend => Req (if prepend then Prepend else Append) [] key value 0
  | CFlush exp => Req Flush (be_encode 4 exp) [] [] 0
  | CNoop _ _ => Req NoOp [] [] [] 0
  | CVersion => Req Version [] [] [] 0
  | CStats key => Req Stat [] (default [] key) [] 0
  | CTouch key exp => Req Touch (be_encode 4 exp) key [] 0
  end.

(** A response frame, or the frames of [stats]. *)
Record resp := Resp {
  p_opcode : Z; p_status : Z; p_extras : bytes; p_value : bytes; p_opaque : Z; p_cas : Z
}.
Inductive reply := One (p : resp) | Entries (es : list (bytes * bytes)).
Definition encode_reply (rp : reply) : bytes :=
  match rp with
  | One p => response (p_opcode p) (p_status p) (p_extras p) [] (p_value p) (p_opaque p) (p_cas p)
  | Entries es => stats_reply es
  end.

(** What each method makes of a reply. *)
Definition no_body {A} (a : A) (p : resp) : out A :=
  if p_status p =? 0 then Val a else Exn (server_error (p_status p) (p_value p)).
Definition written (what : string) (refusals : list Z) (p : resp) : out bool :=
  if p_status p =? 0 then
    if zlen (p_value p) =? 0 then Val true else Exn (data_after_header what)
  else if bool_decide (p_status p ∈ refusals) then Val false
  else Exn (server_error (p_status p) (p_value p)).
Definition get_result (p : resp) : out GetResult :=
  if p_status p =? 0 then
    if zlen (p_extras p) =? 4 then
      Val (mkGetResult (p_value p) (p_cas p) (be_decode (p_extras p)) true)
    else Exn (runtime_error (str "server responded to GET without flags"))
  else if p_status p =? status_val KEY_NOT_FOUND then Val (mkGetResult [] 0 0 false)
  else Exn (server_error (p_status p) (p_extras p ++ p_value p)).
Definition counter (p : resp) : out Z :=
  if p_status p =? 0 then
    if zlen (p_value p) =? 8 then Val (be_decode (p_value p)) else Exn (data_after_header "incr/decr")
  else if p_status p =? status_val KEY_NOT_FOUND then Exn (out_of_range (str "key not found"))
  else Exn (server_error (p_status p) (p_value p)).

Definition result_of {A} (c : call A) (rp : reply) : out A :=
  match rp with
  | One p =>
      match c with
      | CGet _ _ => get_result p
      | CWrite (WReplace _) _ _ _ _ =>
          written "write" [status_val KEY_NOT_FOUND; status_val KEY_EXISTS] p
      | CWrite _ _ _ _ _ => written "write" [status_val KEY_EXISTS] p
      | CDelete _ _ => written "delete" [status_val KEY_EXISTS] p
      | CIncrement _ _ _ _ _ => counter p
      | CAppend _ _ _ | CFlush _ | CTouch _ _ => no_body tt p
      | CNoop start_usecs end_usecs => no_body (u64 (end_usecs - start_usecs)) p
      | CVersion => no_body (p_value p) p
      | CStats _ => if p_status p =? 0 then Undef else Exn (server_error (p_status p) (p_value p))
      end
  | Entries es => match c with CStats _ => Val (list_to_map es) | _ => Undef end
  end.

(** Keys of 1 to 250 bytes, as the protocol has them, values of at most a gigabyte,
    which is the largest limit a server can be given, the integers within their
    widths; and the form of a reply. *)
Definition value_limit : Z := 2 ^ 30.
Definition key_ok (key : bytes) : Prop := 1 <= zlen key <= 250.
Definition fits (bits v : Z) : Prop := 0 <= v < 2 ^ bits.
Definition kind_ok (kind : write_kind) : Prop :=
  match kind with WSet cas | WReplace cas => fits 64 cas | WAdd => True end.
Definition call_ok {A} (c : call A) : Prop :=
  match c with
  | CGet key exp | CTouch key exp => key_ok key /\ fits 32 exp
  | CWrite kind key value flags exp =>
      key_ok key /\ zlen value <= value_limit /\ fits 32 flags /\ fits 32 exp /\ kind_ok kind
  | CDelete key cas => key_ok key /\ fits 64 cas
  | CIncrement key delta init exp _ => key_ok key /\ fits 64 delta /\ fits 64 init /\ fits 32 exp
  | CAppend key value _ => key_ok key /\ zlen value <= value_limit
  | CStats key => match key with Some key => key_ok key | None => True end
  | CFlush exp => fits 32 exp
  | CNoop _ _ | CVersion => True
  end.
(** The cas that a [get] answers fits its width. *)
Definition answer_ok {A} (c : call A) : A -> Prop :=
  match c with CGet _ _ => fun res => fits 64 (gr_cas res) | _ => fun _ => True end.
Definition reply_ok {A} (c : call A) (rp : reply) : Prop :=
  match rp with
  | One p =>
      response_ok (p_opcode p) (p_status p) (p_extras p) [] (p_value p) (p_opaque p) (p_cas p) /\
      match c with CGet _ _ => True | CStats _ => p_status p <> 0 /\ p_extras p = [] | _ => p_extras p = [] end
  | Entries es => match c with CStats _ => Forall stat_ok es | _ => False end
  end.

(** ** A call on the wire is its request and what it makes of the reply *)

Section Exchange.

Lemma read_no_body {A} (m : CommandHeader -> ST (bytes * net) A) (a : resp -> A) p b rest t :
  p_extras p = [] ->
  response_ok (p_opcode p) (p_status p) (p_extras p) [] (p_value p) (p_opaque p) (p_cas p) ->
  (p_status p = 0 ->
   m (response_header (p_opcode p) 0 [] [] (p_value p) (p_opaque p) (p_cas p)) (p_value p, Net rest t) =
   (Val (a p), (b, Net rest t))) ->
  exists b', (let! h := @read_response_header spec_buffer net spec_socket 0 0 in m h)
    ([], Net (encode_reply (One p) ++ rest) t) = (no_body (a p) p, (b', Net rest t)).
Proof.
  intros He Hok Hm. unfold encode_reply, no_body. destruct (Z.eqb_spec (p_status p) 0) as [Hs|Hs].
  - exists b. rewrite read_response_ok by done. rewrite He, Hs. by apply Hm.
  - exists []. rewrite read_response_error by (try done; by rewrite (proj2 (Z.eqb_neq _ _) Hs)).
    by rewrite He.
Qed.

(** Commands of which only the status counts. *)
Lemma command_no_body {A} op ks es bs extras key value chunks (a : A) p rest t :
  concat chunks = extras ++ key ++ value -> ks = zlen key -> es = zlen extras ->
  bs = zlen extras + zlen key + zlen value -> bs < 2 ^ 62 -> p_extras p = [] ->
  response_ok (p_opcode p) (p_status p) (p_extras p) [] (p_value p) (p_opaque p) (p_cas p) ->
  @command spec_buffer net A
    (@send spec_buffer net spec_socket (new_header op ks es bs 0) chunks ;;;
     @read_response_header spec_buffer net spec_socket 0 0 ;;; ret a)
    (opened (Net (encode_reply (One p) ++ rest) t)) =
  (no_body a p, opened (Net rest (t ++ request op extras key value 0))).
Proof.
  intros Hc -> -> -> Hl He Hok.
  destruct (read_no_body (fun _ => ret a) (fun _ => a) p (p_value p) rest
    (t ++ request op extras key value 0) He Hok) as [b Hb]; [done|].
  by eapply (command_request op _ _ _ extras key value).
Qed.

Lemma version_spec p rest t :
  p_extras p = [] ->
  response_ok (p_opcode p) (p_status p) (p_extras p) [] (p_value p) (p_opaque p) (p_cas p) ->
  @version spec_buffer net spec_socket (opened (Net (encode_reply (One p) ++ rest) t)) =
  (no_body (p_value p) p, opened (Net rest (t ++ request Version [] [] [] 0))).
Proof.
  intros He Hok. unfold version.
  destruct (read_no_body (fun header => on_fst (@remove_string spec_buffer (h_body_size header))) p_value p
    [] rest (t ++ request Version [] [] [] 0) He Hok) as [b Hb].
  { intros _. apply on_fst_eq. cbn [h_body_size response_header].
    destruct Hok as [_ Hl]. rewrite He in Hl. change (zlen []) with 0 in *.
    apply remove_string_all; lia. }
  by eapply (command_request Version _ _ _ [] [] [] 0); [..|exact Hb].
Qed.

Lemma stats_spec sub entries rest t :
  match sub with Some key => key_ok key | None => True end -> Forall stat_ok entries -> zlen (stats_reply entries ++ rest) < 2 ^ 63 ->
  @stats spec_buffer net spec_socket sub (opened (Net (stats_reply entries ++ rest) t)) =
  (Val (list_to_map entries), opened (Net rest (t ++ request Stat [] (default [] sub) [] 0))).
Proof.
  unfold key_ok. intros Hk Hes Hl. pose proof (zlen_nonneg (default [] sub)).
  assert (zlen (default [] sub) <= 250) by (destruct sub; simpl; [lia|done]).
  eapply (command_request Stat _ _ _ [] (default [] sub) [] 0); [| | | | |
    rewrite <- (map_empty_union (list_to_map entries)); by apply stats_loop_spec];
    destruct sub; simpl in *; rewrite ?app_nil_r; try done; change (zlen []) with 0 in *; lia.
Qed.

Lemma stats_refused sub p rest t :
  match sub with Some key => key_ok key | None => True end -> p_status p <> 0 -> p_extras p = [] ->
  response_ok (p_opcode p) (p_status p) (p_extras p) [] (p_value p) (p_opaque p) (p_cas p) ->
  @stats spec_buffer net spec_socket sub (opened (Net (encode_reply (One p) ++ rest) t)) =
  (Exn (server_error (p_status p) (p_value p)), opened (Net rest (t ++ request Stat [] (default [] sub) [] 0))).
Proof.
  unfold key_ok. intros Hk Hs He Hok. pose proof (zlen_nonneg (default [] sub)).
  assert (zlen (default [] sub) <= 250) by (destruct sub; simpl; [lia|done]).
  eapply (command_request Stat _ _ _ [] (default [] sub) [] 0); [| | | | |
    apply loop_first_throws; unfold encode_reply; rewrite He in Hok |- *;
    apply (read_response_error _ _ [] [] (p_value p)); [done|done|by rewrite (proj2 (Z.eqb_neq _ _) Hs)]];
    destruct sub; simpl in *; rewrite ?app_nil_r; try done; change (zlen []) with 0 in *; lia.
Qed.

Ltac exch := cbn [run_call result_of request_of encode_reply].

Lemma call_exchange {A} (c : call A) rp rest t :
  call_ok c -> reply_ok c rp -> zlen (encode_reply rp ++ rest) < 2 ^ 63 ->
  @run_call spec_buffer net spec_socket A c (opened (Net (encode_reply rp ++ rest) t)) =
  (result_of c rp, opened (Net rest (t ++ encode_req (request_of c)))).
Proof.
  unfold key_ok. intros Hc Hr Hl. destruct rp as [p|es]; [destruct Hr as [Hok Hp]|];
    destruct c as [key exp|kind key value flags exp|key cas|key delta init exp dec|key value prepend|exp|
      start stop| |key|key exp]; simpl in Hc; unfold key_ok, value_limit in Hc;
    repeat match goal with H : _ /\ _ |- _ => destruct H end; try done.
  - exch. rewrite get_key_spec by (done || lia).
    unfold encode_req, get_result. cbv zeta.
    destruct (exp =? 0); by repeat case_match.
  - assert (forall cmd e1 e2 cas refusals,
      (p_status p = 0 \/ bool_decide (p_status p ∈ refusals) = (p_status p =? e1) || (p_status p =? e2)) ->
      @write_key spec_buffer net spec_socket cmd e1 e2 key value flags exp cas
        (opened (Net (encode_reply (One p) ++ rest) t)) =
      (written "write" refusals p,
       opened (Net rest (t ++ write_request cmd key value flags exp cas)))) as Hw.
    { intros cmd e1 e2 cas refusals Href. cbn [encode_reply]. unfold written. rewrite Hp in *.
      rewrite write_key_spec by (done || lia).
      destruct (Z.eqb_spec (p_status p) 0); [done|]. destruct Href as [?|Href]; [done|]. by rewrite Href. }
    destruct kind; cbn [run_call result_of request_of]; apply Hw; [apply expected_status..|right; apply expected_statuses].
  - exch. unfold written. rewrite Hp in *. rewrite delete_key_spec by (done || lia).
    destruct (Z.eqb_spec (p_status p) 0) as [|Hs]; [done|].
    destruct (expected_status (p_status p) (status_val KEY_EXISTS)) as [?|He]; [done|].
    by rewrite He, (proj2 (Z.eqb_neq _ _) Hs), orb_false_r.
  - exch. unfold counter. rewrite Hp in *. rewrite increment_spec by (done || lia).
    done.
  - exch. pose proof (zlen_nonneg key). pose proof (zlen_nonneg value).
    apply (command_no_body _ _ _ _ [] key value); try done; cbn [concat]; rewrite ?app_nil_r; try done;
      change (zlen []) with 0; lia.
  - exch. unfold flush. rewrite le_encode_bswap.
    by apply (command_no_body _ _ _ _ (be_encode 4 exp) [] []).
  - exch. by apply (command_no_body _ _ _ _ [] [] []).
  - exch. by apply version_spec.
  - exch. rewrite (proj2 (Z.eqb_neq (p_status p) 0)) by done. by apply stats_refused.
  - exch. unfold touch. rewrite le_encode_bswap. pose proof (zlen_nonneg key).
    apply (command_no_body _ _ _ _ (be_encode 4 exp) key []); try done; cbn [concat];
      rewrite ?app_nil_r, ?zlen_be_encode; try done; change (zlen []) with 0; lia.
  - by apply stats_spec.
Qed.
End Exchange.

(** ** Programs of calls *)

(** What a coroutine does with a client: calls, each with what follows its value,
    and sleeps. *)
Inductive prog : Type :=
| Done
| Throw (e : exn)
| Call {A : Type} (c : call A) (k : A -> prog)
| Sleep (usecs : Z) (p : prog).

Section Run.
Context {O : BufferOps} {W : Type} {SO : SocketOps W}.
(** [co_await base.sleep(usecs)]. *)
Context (sleep : Z -> ST W unit).

Fixpoint run (p : prog) : ST (Client * W) unit :=
  match p with
  | Done => ret tt
  | Throw e => throw e
  | Call c k => let! a := run_call c in run (k a)
  | Sleep usecs p => on_snd (sleep usecs) ;;; run p
  end.
End Run.

Section Refinement.
Context {O : BufferOps} {L : BufferLaws O} {W : Type} {SO : SocketOps W}
  {R : W -> net -> Prop} {SL : SocketLaws SO R}.
#[local] Hint Resolve send_refines read_response_header_refines get_key_refines write_key_refines
  delete_key_refines increment_refines stats_refines : refine.

Lemma run_call_refines {A} (c : call A) :
  refines lib_failure (Rprod eq R) (@run_call O W SO A c) (@run_call spec_buffer net spec_socket A c).
Proof.
  destruct c as [key exp|[] key value flags exp|key cas|key delta init exp dec|key value prepend|exp|
    start stop| |key|key exp]; cbn [run_call]; unfold set, add, replace; try solve [eauto with refine].
  all: apply command_refines; refine_auto.
Qed.

Lemma run_refines sleep p :
  (forall usecs, refines lib_failure R (sleep usecs) (ret tt)) ->
  refines lib_failure (Rprod eq R) (@run O W SO sleep p)
    (@run spec_buffer net spec_socket (fun _ => ret tt) p).
Proof.
  intros Hs. induction p as [|e|A c k IH|usecs p IH]; cbn [run]; try solve [eauto with refine].
  - apply refines_bind; [apply run_call_refines|exact IH].
  - apply refines_bind; [by apply refines_on_snd|by intros _].
Qed.
End Refinement.

(** ** The server *)

(** An entry; [i_ttl] is the time it has left, in microseconds. The [clock] is the
    time of the day, in the microseconds of the epoch. *)
Record item := Item { i_value : bytes; i_flags : Z; i_cas : Z; i_ttl : option Z }.
Record store := Store { items : gmap bytes item; flush_in : option Z; clock : Z }.

Definition remove_item (key : bytes) (st : store) : store :=
  Store (delete key (items st)) (flush_in st) (clock st).
(** An entry whose time is already over is as good as none. *)
Definition put_item (key : bytes) (it : item) (st : store) : store :=
  match i_ttl it with
  | Some t => if t <=? 0 then remove_item key st
              else Store (<[key := it]> (items st)) (flush_in st) (clock st)
  | None => Store (<[key := it]> (items st)) (flush_in st) (clock st)
  end.

(** An expiration of zero is none; up to thirty days it counts from now, above that
    it is a time of the day. *)
Definition thirty_days : Z := 60 * 60 * 24 * 30.
Definition ttl_of (now expiration_secs : Z) : option Z :=
  if expiration_secs =? 0 then None
  else if expiration_secs <=? thirty_days then Some (expiration_secs * 1000000)
  else Some (expiration_secs * 1000000 - now).
Definition set_ttl (now expiration_secs : Z) (it : item) : item :=
  Item (i_value it) (i_flags it) (i_cas it) (ttl_of now expiration_secs).

(** Time passes: entries expire, and a delayed flush comes due. *)
Definition age (usecs : Z) (it : item) : option item :=
  match i_ttl it with
  | None => Some it
  | Some t => if t <=? usecs then None
              else Some (Item (i_value it) (i_flags it) (i_cas it) (Some (t - usecs)))
  end.
Definition elapse (usecs : Z) (st : store) : store :=
  let now := clock st + usecs in
  match flush_in st with
  | Some t => if t <=? usecs then Store ∅ None now
              else Store (omap (age usecs) (items st)) (Some (t - usecs)) now
  | None => Store (omap (age usecs) (items st)) None now
  end.

(** A flush: at once, later, or of what is older than a time that is over. *)
Definition flushed (expiration_secs : Z) (st st' : store) : Prop :=
  match ttl_of (clock st) expiration_secs with
  | None => st' = Store ∅ None (clock st)
  | Some t =>
      if t <=? 0 then exists kept, kept ⊆ items st /\ st' = Store kept None (clock st)
      else st' = Store (items st) (Some t) (clock st)
  end.

(** A counter is decimal digits, perhaps with spaces behind them. *)
Definition number_text (v : bytes) (n : Z) : Prop :=
  0 <= n < 2 ^ 64 /\ exists k, v = dec n ++ repeat Byte.x20 k.
(** The number a text is read as; one in another form than a counter's, with zeros in
    front for instance, may be read as any. *)
Definition read_as (v : bytes) (n : Z) : Prop :=
  0 <= n < 2 ^ 64 /\ forall m, number_text v m -> n = m.
Definition counted (decrement : bool) (n delta : Z) : Z :=
  if decrement then Z.max 0 (n - delta) else u64 (n + delta).
(** The cas of a write: counted from one. *)
Definition fresh_cas (c : Z) : Prop := 0 < c < 2 ^ 63.

(** How the state of its key and the cas of the request decide about a write. *)
Definition cas_status (cas : Z) (old : option item) : ResponseStatus :=
  match old with
  | None => if cas =? 0 then OK else KEY_NOT_FOUND
  | Some it => if (cas =? 0) || (cas =? i_cas it) then OK else KEY_EXISTS
  end.
Definition write_status (kind : write_kind) (old : option item) : ResponseStatus :=
  match kind, old with
  | WSet cas, _ => cas_status cas old
  | WAdd, Some _ => KEY_EXISTS
  | WAdd, None => OK
  | WReplace cas, Some _ => cas_status cas old
  | WReplace _, None => KEY_NOT_FOUND
  end.
Definition delete_status (cas : Z) (old : option item) : ResponseStatus :=
  match old with None => KEY_NOT_FOUND | Some _ => cas_status cas old end.

#[export] Instance status_eq_dec : EqDecision ResponseStatus.
Proof. solve_decision. Defined.

(** A reply with a status other than [OK] carries a text. *)
Definition refused (s : ResponseStatus) (rp : reply) : Prop :=
  exists p, rp = One p /\ p_status p = status_val s.
Definition accepted (rp : reply) (value : bytes) : Prop :=
  exists p, rp = One p /\ p_status p = 0 /\ p_value p = value.

(** A [set] of a value that is too large may remove the key, lest the old value stay. *)
Definition after_too_large (kind : write_kind) (key : bytes) (st st' : store) : Prop :=
  st' = st \/ match kind with WSet _ => st' = remove_item key st | _ => False end.

(** What else a reply depends on: the limit on an entry, of which memcached lets the
    operator choose no smaller one than a kilobyte, and the statistics the server
    keeps, for a group or in general. *)
Record facts := Facts {
  too_large : bytes -> bytes -> bool;
  statistics : option bytes -> option (list (bytes * bytes))
}.
Definition always_stored : Z := 512.
Record facts_ok (f : facts) : Prop := {
  small_stored key value : zlen key + zlen value <= always_stored -> too_large f key value = false;
  general_statistics : statistics f None <> None
}.

(** The protocol: what the server answers to a request for a call in a store, and
    the store afterwards. *)
Definition kv_step {A} (f : facts) (c : call A) (st : store) (rp : reply) (st' : store) : Prop :=
  match c with
  | CGet key exp =>
      match items st !! key with
      | Some it =>
          (exists p, rp = One p /\ p_status p = 0 /\ p_extras p = be_encode 4 (i_flags it) /\
             p_value p = i_value it /\ p_cas p = i_cas it) /\
          st' = if exp =? 0 then st else put_item key (set_ttl (clock st) exp it) st
      | None => refused KEY_NOT_FOUND rp /\ st' = st
      end
  | CWrite kind key value flags exp =>
      let s := write_status kind (items st !! key) in
      if too_large f key value then
        refused VALUE_TOO_LARGE rp /\ after_too_large kind key st st'
      else if decide (s = OK) then
        accepted rp [] /\
        exists c, fresh_cas c /\ st' = put_item key (Item value flags c (ttl_of (clock st) exp)) st
      else refused s rp /\ st' = st
  | CDelete key cas =>
      let s := delete_status cas (items st !! key) in
      if decide (s = OK) then accepted rp [] /\ st' = remove_item key st
      else refused s rp /\ st' = st
  | CIncrement key delta init exp dec =>
      match items st !! key with
      | Some it =>
          (exists n c v, read_as (i_value it) n /\ fresh_cas c /\
             number_text v (counted dec n delta) /\
             accepted rp (be_encode 8 (counted dec n delta)) /\
             st' = put_item key (Item v (i_flags it) c (i_ttl it)) st) \/
          ((forall n, ~ number_text (i_value it) n) /\ refused NON_NUMERIC_INCR_DECR rp /\ st' = st)
      | None =>
          if exp =? 2 ^ 32 - 1 then refused KEY_NOT_FOUND rp /\ st' = st
          else
            let n := initial_or_delta delta init in
            accepted rp (be_encode 8 n) /\
            exists c, fresh_cas c /\ st' = put_item key (Item (Text.dec n) 0 c (ttl_of (clock st) exp)) st
      end
  | CAppend key value prepend =>
      if too_large f key value then (exists s, s <> OK /\ refused s rp) /\ st' = st
      else
        match items st !! key with
        | Some it =>
            let v := if prepend then value ++ i_value it else i_value it ++ value in
            if too_large f key v then (exists s, s <> OK /\ refused s rp) /\ st' = st
            else
              accepted rp [] /\
              exists c, fresh_cas c /\ st' = put_item key (Item v (i_flags it) c (i_ttl it)) st
        | None => refused NOT_STORED rp /\ st' = st
        end
  | CFlush exp => accepted rp [] /\ flushed exp st st'
  | CNoop _ _ => accepted rp [] /\ st' = st
  | CVersion => (exists v, v <> [] /\ accepted rp v) /\ st' = st
  | CStats key =>
      match statistics f key with
      | Some es => rp = Entries es
      | None => exists s, s <> OK /\ refused s rp
      end /\ st' = st
  | CTouch key exp =>
      match items st !! key with
      | Some it => accepted rp [] /\ st' = put_item key (set_ttl (clock st) exp it) st
      | None => refused KEY_NOT_FOUND rp /\ st' = st
      end
  end.

(** ** What a call does

    The same in the caller's terms: what a call answers or throws, and what it does
    to the store. Client.hh documents these operations; it says little of what
    becomes of a refusal. *)
Definition throws {A} (s : ResponseStatus) (o : out A) : Prop :=
  exists msg, o = Exn (server_error (status_val s) msg).

(** [set] with a cas throws for a missing key; the other refusals that come of the
    state of the key are [false]. *)
Definition write_throws (kind : write_kind) (s : ResponseStatus) : bool :=
  match kind, s with WSet _, KEY_NOT_FOUND => true | _, _ => false end.

Definition client_spec {A} (f : facts) (c : call A) (st : store) : out A -> store -> Prop :=
  match c with
  | CGet key exp => fun o st' =>
      match items st !! key with
      | Some it =>
          o = Val (mkGetResult (i_value it) (i_cas it) (u32 (i_flags it)) true) /\
          st' = if exp =? 0 then st else put_item key (set_ttl (clock st) exp it) st
      | None => o = Val (mkGetResult [] 0 0 false) /\ st' = st
      end
  | CWrite kind key value flags exp => fun o st' =>
      let s := write_status kind (items st !! key) in
      if too_large f key value then throws VALUE_TOO_LARGE o /\ after_too_large kind key st st'
      else if decide (s = OK) then
        o = Val true /\
        exists c, fresh_cas c /\ st' = put_item key (Item value flags c (ttl_of (clock st) exp)) st
      else (if write_throws kind s then throws s o else o = Val false) /\ st' = st
  | CDelete key cas => fun o st' =>
      match delete_status cas (items st !! key) with
      | OK => o = Val true /\ st' = remove_item key st
      | KEY_EXISTS => o = Val false /\ st' = st
      | s => throws s o /\ st' = st
      end
  | CIncrement key delta init exp dec => fun o st' =>
      match items st !! key with
      | Some it =>
          (exists n c v, read_as (i_value it) n /\ fresh_cas c /\
             number_text v (counted dec n delta) /\ o = Val (counted dec n delta) /\
             st' = put_item key (Item v (i_flags it) c (i_ttl it)) st) \/
          ((forall n, ~ number_text (i_value it) n) /\ throws NON_NUMERIC_INCR_DECR o /\ st' = st)
      | None =>
          if exp =? 2 ^ 32 - 1 then o = Exn (out_of_range (str "key not found")) /\ st' = st
          else
            let n := initial_or_delta delta init in
            o = Val (u64 n) /\
            exists c, fresh_cas c /\ st' = put_item key (Item (Text.dec n) 0 c (ttl_of (clock st) exp)) st
      end
  | CAppend key value prepend => fun o st' =>
      if too_large f key value then (exists s, s <> OK /\ throws s o) /\ st' = st
      else
        match items st !! key with
        | Some it =>
            let v := if prepend then value ++ i_value it else i_value it ++ value in
            if too_large f key v then (exists s, s <> OK /\ throws s o) /\ st' = st
            else
              o = Val tt /\
              exists c, fresh_cas c /\ st' = put_item key (Item v (i_flags it) c (i_ttl it)) st
        | None => throws NOT_STORED o /\ st' = st
        end
  | CFlush exp => fun o st' => o = Val tt /\ flushed exp st st'
  | CNoop start_usecs end_usecs => fun o st' => o = Val (u64 (end_usecs - start_usecs)) /\ st' = st
  | CVersion => fun o st' => (exists v, v <> [] /\ o = Val v) /\ st' = st
  | CStats key => fun o st' =>
      match statistics f key with
      | Some es => o = Val (list_to_map es)
      | None => exists s, s <> OK /\ throws s o
      end /\ st' = st
  | CTouch key exp => fun o st' =>
      match items st !! key with
      | Some it => o = Val tt /\ st' = put_item key (set_ttl (clock st) exp it) st
      | None => throws KEY_NOT_FOUND o /\ st' = st
      end
  end.

Lemma status_val_0 s : status_val s = 0 <-> s = OK.
Proof. by destruct s. Qed.

Lemma no_body_accepted {A} (a : A) rp v : accepted rp v -> exists p, rp = One p /\ no_body a p = Val a.
Proof. intros (p & -> & Hs & _). exists p. unfold no_body. by rewrite Hs. Qed.

Lemma no_body_refused {A} (a : A) s rp : s <> OK -> refused s rp ->
  exists p, rp = One p /\ throws s (no_body a p).
Proof.
  intros Hs (p & -> & Hp). exists p. split; [done|]. unfold no_body. rewrite Hp.
  destruct (Z.eqb_spec (status_val s) 0) as [He|]; [by apply status_val_0 in He|]. by eexists.
Qed.

Lemma written_accepted what refusals rp : accepted rp [] ->
  exists p, rp = One p /\ written what refusals p = Val true.
Proof. intros (p & -> & Hs & Hv). exists p. unfold written. by rewrite Hs, Hv. Qed.

Lemma written_refused what refusals s rp : s <> OK -> refused s rp ->
  exists p, rp = One p /\
    if bool_decide (status_val s ∈ refusals) then written what refusals p = Val false
    else throws s (written what refusals p).
Proof.
  intros Hs (p & -> & Hp). exists p. split; [done|]. unfold written. rewrite Hp.
  destruct (Z.eqb_spec (status_val s) 0) as [He|]; [by apply status_val_0 in He|].
  case_bool_decide; [done|]. by eexists.
Qed.

(** Every call does that. *)
Abbreviation keeps c :=
  (forall f st rp st', kv_step f c st rp st' -> client_spec f c st (result_of c rp) st').

Lemma keeps_get key exp : keeps (CGet key exp).
Proof.
  intros f st rp st'. cbn [kv_step client_spec]. destruct (items st !! key) as [it|].
  - intros [(p & -> & Hs & He & Hv & Hc) ->]. split; [|done]. cbn [result_of]. unfold get_result.
    rewrite Hs, He, Hv, Hc, zlen_be_encode, be_decode_encode. done.
  - intros [(p & -> & Hs) ->]. split; [|done]. cbn [result_of]. unfold get_result. by rewrite Hs.
Qed.

Lemma keeps_write kind key value flags exp : keeps (CWrite kind key value flags exp).
Proof.
  intros f st rp st' H. cbn [kv_step client_spec] in *. cbv zeta in *.
  set (old := items st !! key) in *.
  pose (refusals := match kind with
                    | WReplace _ => [status_val KEY_NOT_FOUND; status_val KEY_EXISTS]
                    | _ => [status_val KEY_EXISTS] end).
  destruct (too_large f key value); [|destruct (decide (write_status kind old = OK)) as [|Hne]];
    destruct H as [Ha H].
  - split; [|done].
    destruct (written_refused "write" refusals VALUE_TOO_LARGE _ ltac:(done) Ha) as (p & -> & Hp).
    by destruct kind.
  - split; [|done]. destruct (written_accepted "write" refusals rp Ha) as (p & -> & Hp).
    by destruct kind.
  - split; [|done]. destruct (written_refused "write" refusals _ _ Hne Ha) as (p & -> & Hp).
    revert Hp. unfold refusals. destruct kind; cbn [result_of write_status] in *;
      unfold cas_status in *; destruct old as [it|]; try done; by repeat case_match.
Qed.

Lemma keeps_delete key cas : keeps (CDelete key cas).
Proof.
  intros f st rp st' H. cbn [kv_step client_spec] in *. cbv zeta in *.
  set (s := delete_status cas (items st !! key)) in *.
  destruct (decide (s = OK)) as [Hs|Hne]; destruct H as [Ha ->].
  - rewrite Hs. split; [|done].
    by destruct (written_accepted "delete" [status_val KEY_EXISTS] _ Ha) as (p & -> & Hp).
  - destruct (written_refused "delete" [status_val KEY_EXISTS] _ _ Hne Ha) as (p & -> & Hp).
    revert Hp. cbn [result_of]. unfold s, delete_status, cas_status in *. by repeat case_match.
Qed.

Lemma keeps_increment key delta init exp dec : keeps (CIncrement key delta init exp dec).
Proof.
  intros f st rp st'. cbn [kv_step client_spec]. destruct (items st !! key) as [it|].
  - intros [(n & c & v & Hn & Hc & Hv & (p & -> & Hs & Hp) & ->)|(Hn & (p & -> & Hs) & ->)]; [left|right].
    + exists n, c, v. split_and!; try done. cbn [result_of]. unfold counter.
      rewrite Hs, Hp, zlen_be_encode, be_decode_encode_small by apply Hv. done.
    + split_and!; try done. cbn [result_of]. unfold counter. rewrite Hs. by eexists.
  - destruct (exp =? 2 ^ 32 - 1).
    + intros [(p & -> & Hs) ->]. split; [|done]. cbn [result_of]. unfold counter. by rewrite Hs.
    + cbv zeta. intros [(p & -> & Hs & Hp) H]. split; [|done]. cbn [result_of]. unfold counter.
      by rewrite Hs, Hp, zlen_be_encode, be_decode_encode.
Qed.

(** The calls that only look at the status. *)
Lemma status_accepted rp : accepted rp [] -> exists p, rp = One p /\ no_body tt p = Val tt.
Proof. apply no_body_accepted. Qed.

Lemma some_refusal rp : (exists s, s <> OK /\ refused s rp) ->
  exists p, rp = One p /\ forall A (a : A), exists s, s <> OK /\ throws s (no_body a p).
Proof.
  intros (s & Hs & p & -> & Hp). exists p. split; [done|]. intros A a. exists s. split; [done|].
  destruct (no_body_refused a s (One p) Hs) as (q & [= <-] & Hq); [by exists p|done].
Qed.

Lemma keeps_append key value prepend : keeps (CAppend key value prepend).
Proof.
  intros f st rp st'. cbn [kv_step client_spec].
  destruct (too_large f key value); [|destruct (items st !! key) as [it|]; [destruct (too_large f key _)|]];
    intros [Ha H]; (split; [|done]).
  - destruct (some_refusal rp Ha) as (p & -> & Hp). apply (Hp unit tt).
  - destruct (some_refusal rp Ha) as (p & -> & Hp). apply (Hp unit tt).
  - by destruct (status_accepted rp Ha) as (p & -> & Hp).
  - by destruct (no_body_refused tt NOT_STORED rp ltac:(done) Ha) as (p & -> & Hp).
Qed.

Lemma keeps_stats key : keeps (CStats key).
Proof.
  intros f st rp st'. cbn [kv_step client_spec]. intros [Ha ->]. split; [|done].
  destruct (statistics f key) as [es|]; [by subst|]. destruct Ha as (s & Hs & p & -> & Hp).
  exists s. split; [done|]. cbn [result_of]. rewrite Hp.
  rewrite (proj2 (Z.eqb_neq _ _)) by by rewrite status_val_0. by eexists.
Qed.

Lemma keeps_touch key exp : keeps (CTouch key exp).
Proof.
  intros f st rp st'. cbn [kv_step client_spec]. destruct (items st !! key) as [it|]; intros [Ha H]; (split; [|done]).
  - by destruct (status_accepted rp Ha) as (p & -> & Hp).
  - by destruct (no_body_refused tt KEY_NOT_FOUND rp ltac:(done) Ha) as (p & -> & Hp).
Qed.

(** The client does so for every server that keeps the protocol. *)
Lemma client_keeps {A} (c : call A) : keeps c.
Proof.
  destruct c as [key exp|kind key value flags exp|key cas|key delta init exp dec|key value prepend|exp|
    start stop| |key|key exp];
    [apply keeps_get|apply keeps_write|apply keeps_delete|apply keeps_increment|apply keeps_append
    |..|apply keeps_stats|apply keeps_touch]; intros f st rp st'; cbn [kv_step client_spec].
  - intros [Ha H]. split; [|done]. by destruct (status_accepted rp Ha) as (p & -> & Hp).
  - intros [Ha ->]. split; [|done].
    by destruct (no_body_accepted (u64 (stop - start)) _ _ Ha) as (p & -> & Hp).
  - intros [(v & Hv & p & -> & Hs & Hp) ->]. split; [|done]. exists v. split; [done|].
    cbn [result_of]. unfold no_body. by rewrite Hs, Hp.
Qed.

(** ** Sessions with a server that keeps the protocol *)

(** A memcached: what it answers to a request, what time does to it, the store it
    is, its facts, and the states it can be in. The store is all there is to it: it
    has memory to spare, so that it neither evicts an entry nor fails to make one,
    and it has not been told to refuse a flush. *)
Class Memcached := {
  Srv : Type;
  serve : req -> Srv -> reply * Srv;
  advance : Z -> Srv -> Srv;
  contents : Srv -> store;
  facts_of : Srv -> facts;
  srv_ok : Srv -> Prop
}.
Class MemcachedSpec (M : Memcached) : Prop := {
  serve_form A (c : call A) s : srv_ok s -> call_ok c -> reply_ok c (fst (serve (request_of c) s));
  serve_step A (c : call A) s : srv_ok s -> call_ok c ->
    kv_step (facts_of s) c (contents s) (fst (serve (request_of c) s)) (contents (snd (serve (request_of c) s)));
  serve_facts s : srv_ok s -> facts_ok (facts_of s);
  serve_ok A (c : call A) s : srv_ok s -> call_ok c -> srv_ok (snd (serve (request_of c) s));
  advance_contents usecs s : srv_ok s -> contents (advance usecs s) = elapse usecs (contents s);
  advance_ok usecs s : srv_ok s -> srv_ok (advance usecs s)
}.

Section Session.
Context {M : Memcached}.

(** A program against the server itself: how it ends, the replies it has got and
    the requests it has sent. *)
Record played := Played { pl_out : out unit; pl_replies : bytes; pl_requests : bytes }.
Fixpoint play (p : prog) (s : Srv) : played :=
  match p with
  | Done => Played (Val tt) [] []
  | Throw e => Played (Exn e) [] []
  | Call c k =>
      let '(rp, s') := serve (request_of c) s in
      let rest :=
        match result_of c rp with
        | Val a => play (k a) s'
        | Exn e => Played (Exn e) [] []
        | Undef => Played Undef [] []
        | NoFuel => Played NoFuel [] []
        end in
      Played (pl_out rest) (encode_reply rp ++ pl_replies rest)
        (encode_req (request_of c) ++ pl_requests rest)
  | Sleep usecs p => play p (advance usecs s)
  end.

(** The calls a program may make, whatever it is answered. *)
Fixpoint calls_ok (p : prog) : Prop :=
  match p with
  | Done | Throw _ => True
  | Call c k => call_ok c /\ forall a, answer_ok c a -> calls_ok (k a)
  | Sleep _ p => calls_ok p
  end.

Context {MS : MemcachedSpec M}.

Lemma result_answer_ok {A} (c : call A) rp a : reply_ok c rp -> result_of c rp = Val a -> answer_ok c a.
Proof.
  destruct c; try done. destruct rp as [p|es]; [|done]. intros [[Hwf _] _] H. cbn [result_of answer_ok] in *.
  destruct Hwf as (_ & _ & _ & _ & _ & _ & _ & _ & Hcas).
  unfold get_result in H. repeat case_match; simplify_eq; [exact Hcas|done].
Qed.

Lemma run_plays p : forall s rest t,
  srv_ok s -> calls_ok p -> zlen (pl_replies (play p s) ++ rest) < 2 ^ 63 ->
  @run spec_buffer net spec_socket (fun _ => ret tt) p (opened (Net (pl_replies (play p s) ++ rest) t)) =
  (pl_out (play p s), opened (Net rest (t ++ pl_requests (play p s)))).
Proof.
  induction p as [|e|A c k IH|usecs p IH]; intros s rest t Hs Hc Hl; cbn [run play] in *.
  - by rewrite app_nil_r.
  - by rewrite app_nil_r.
  - destruct Hc as [Hc Hk]. pose proof (serve_form A c s Hs Hc) as Hf.
    pose proof (serve_ok A c s Hs Hc) as Hs'.
    destruct (serve (request_of c) s) as [rp s']. cbn [fst snd] in Hf, Hs'.
    cbn [pl_out pl_replies pl_requests] in *. rewrite <- app_assoc in Hl |- *.
    pose proof (call_exchange c rp _ t Hc Hf Hl) as He.
    pose proof (result_answer_ok c rp) as Ha.
    destruct (result_of c rp) as [a|e| |]; unfold bind; rewrite He; cbn [pl_out pl_replies pl_requests] in *;
      try (by rewrite app_nil_l, app_nil_r).
    rewrite IH; [|done|by eauto|]. { by rewrite app_assoc. }
    rewrite zlen_app in Hl. pose proof (zlen_nonneg (encode_reply rp)). lia.
  - erewrite bind_Val by by apply on_snd_eq. apply IH; [by apply advance_ok|done|done].
Qed.

(** What must hold of a program so that it ends well from a store: at every call,
    whatever the promise of the client allows. *)
Fixpoint ends_well (p : prog) (st : store) : Prop :=
  match p with
  | Done => True
  | Throw _ => False
  | Call c k => forall f o st', facts_ok f -> client_spec f c st o st' ->
      exists a, o = Val a /\ ends_well (k a) st'
  | Sleep usecs p => ends_well p (elapse usecs st)
  end.

Lemma play_ends_well p : forall s,
  srv_ok s -> calls_ok p -> ends_well p (contents s) -> pl_out (play p s) = Val tt.
Proof.
  induction p as [|e|A c k IH|usecs p IH]; intros s Hs Hc He; cbn [play ends_well] in *; try done.
  - destruct Hc as [Hc Hk]. pose proof (client_keeps c _ _ _ _ (serve_step A c s Hs Hc)) as Hsp.
    pose proof (serve_form A c s Hs Hc) as Hf. pose proof (serve_ok A c s Hs Hc) as Hs'.
    destruct (serve (request_of c) s) as [rp s']. cbn [fst snd] in Hsp, Hf, Hs'.
    destruct (He _ _ _ (serve_facts s Hs) Hsp) as (a & Ha & Hend). rewrite Ha. cbn [pl_out].
    apply IH; [done|by eapply Hk, result_answer_ok|done].
  - apply IH; [by apply advance_ok|done|]. by rewrite advance_contents.
Qed.
End Session.

(** ** Rules for programs *)

Section Rules.

Lemma ends_call {A} (c : call A) k st :
  (forall f o st', facts_ok f -> client_spec f c st o st' -> exists a, o = Val a /\ ends_well (k a) st') ->
  ends_well (Call c k) st.
Proof. done. Qed.

Lemma ends_sleep usecs p st : ends_well p (elapse usecs st) -> ends_well (Sleep usecs p) st.
Proof. done. Qed.

Lemma ends_get key exp k st it :
  items st !! key = Some it ->
  ends_well (k (mkGetResult (i_value it) (i_cas it) (u32 (i_flags it)) true))
    (if exp =? 0 then st else put_item key (set_ttl (clock st) exp it) st) ->
  ends_well (Call (CGet key exp) k) st.
Proof. intros Hk He. apply ends_call. intros f o st' Hf. cbn. rewrite Hk. intros [-> ->]. eauto. Qed.

Lemma ends_get_missing key exp k st :
  items st !! key = None -> ends_well (k (mkGetResult [] 0 0 false)) st ->
  ends_well (Call (CGet key exp) k) st.
Proof. intros Hk He. apply ends_call. intros f o st' Hf. cbn. rewrite Hk. intros [-> ->]. eauto. Qed.

Lemma ends_write kind key value flags exp k st old :
  items st !! key = old -> write_status kind old = OK -> zlen key + zlen value <= always_stored ->
  (forall c, fresh_cas c -> ends_well (k true) (put_item key (Item value flags c (ttl_of (clock st) exp)) st)) ->
  ends_well (Call (CWrite kind key value flags exp) k) st.
Proof.
  intros <- Hs Hl He. apply ends_call. intros f o st' Hf. cbn [client_spec]. cbv zeta.
  rewrite (small_stored f Hf), Hs, decide_True by done. intros (-> & c & Hc & ->). eauto.
Qed.

Lemma ends_write_refused kind key value flags exp k st old :
  items st !! key = old -> write_status kind old <> OK -> write_throws kind (write_status kind old) = false ->
  zlen key + zlen value <= always_stored ->
  ends_well (k false) st -> ends_well (Call (CWrite kind key value flags exp) k) st.
Proof.
  intros <- Hs Ht Hl He. apply ends_call. intros f o st' Hf. cbn [client_spec]. cbv zeta.
  rewrite (small_stored f Hf), decide_False, Ht by done. intros (-> & ->). eauto.
Qed.

Lemma ends_delete key cas k st old :
  items st !! key = old -> delete_status cas old = OK -> ends_well (k true) (remove_item key st) ->
  ends_well (Call (CDelete key cas) k) st.
Proof.
  intros <- Hs He. apply ends_call. intros f o st' Hf. cbn [client_spec]. rewrite Hs. intros (-> & ->). eauto.
Qed.

Lemma ends_delete_refused key cas k st old :
  items st !! key = old -> delete_status cas old = KEY_EXISTS -> ends_well (k false) st ->
  ends_well (Call (CDelete key cas) k) st.
Proof.
  intros <- Hs He. apply ends_call. intros f o st' Hf. cbn [client_spec]. rewrite Hs. intros (-> & ->). eauto.
Qed.

Lemma dec_text_inj n k n' k' :
  0 <= n -> 0 <= n' -> Text.dec n ++ repeat Byte.x20 k = Text.dec n' ++ repeat Byte.x20 k' -> n = n'.
Proof.
  intros Hn Hn' He.
  assert (forall m j, 0 <= m -> scan_digits (Text.dec m ++ repeat Byte.x20 j) 0 = (m, repeat Byte.x20 j)) as Hs.
  { intros m j Hm. apply (scan_dec0 0); [done|]. by destruct j. }
  pose proof (Hs n k Hn) as H1. pose proof (Hs n' k' Hn') as H2. rewrite He, H2 in H1. congruence.
Qed.

Lemma ends_increment key delta init exp dec k st it n :
  items st !! key = Some it -> number_text (i_value it) n ->
  (forall c v, fresh_cas c -> number_text v (counted dec n delta) ->
     ends_well (k (counted dec n delta)) (put_item key (Item v (i_flags it) c (i_ttl it)) st)) ->
  ends_well (Call (CIncrement key delta init exp dec) k) st.
Proof.
  intros Hk Hn He. apply ends_call. intros f o st' Hf. cbn [client_spec]. rewrite Hk.
  intros [(n' & c & v & [_ Hn'] & Hc & Hv & -> & ->)|(Hno & _)]; [|by destruct (Hno n)].
  rewrite (Hn' n Hn) in *. eauto.
Qed.

Lemma ends_increment_missing key delta init exp dec k st :
  items st !! key = None -> exp <> 2 ^ 32 - 1 ->
  (forall c, fresh_cas c ->
     ends_well (k (u64 (initial_or_delta delta init)))
       (put_item key (Item (Text.dec (initial_or_delta delta init)) 0 c (ttl_of (clock st) exp)) st)) ->
  ends_well (Call (CIncrement key delta init exp dec) k) st.
Proof.
  intros Hk Hx He. apply ends_call. intros f o st' Hf. cbn [client_spec]. rewrite Hk, (proj2 (Z.eqb_neq exp _) Hx).
  cbv zeta. intros (-> & c & Hc & ->). eauto.
Qed.

Lemma ends_append key value (prepend : bool) k st it :
  items st !! key = Some it -> zlen key + (zlen value + zlen (i_value it)) <= always_stored ->
  (forall c, fresh_cas c -> ends_well (k tt)
     (put_item key (Item (if prepend then value ++ i_value it else i_value it ++ value)
                      (i_flags it) c (i_ttl it)) st)) ->
  ends_well (Call (CAppend key value prepend) k) st.
Proof.
  intros Hk Hl He. apply ends_call. intros f o st' Hf. cbn [client_spec]. rewrite Hk.
  pose proof (zlen_nonneg (i_value it)). rewrite (small_stored f Hf) by lia. cbv zeta.
  rewrite (small_stored f Hf) by (destruct prepend; rewrite zlen_app; lia).
  intros (-> & c & Hc & ->). eauto.
Qed.

Lemma ends_touch key exp k st it :
  items st !! key = Some it -> ends_well (k tt) (put_item key (set_ttl (clock st) exp it) st) ->
  ends_well (Call (CTouch key exp) k) st.
Proof. intros Hk He. apply ends_call. intros f o st' Hf. cbn. rewrite Hk. intros [-> ->]. eauto. Qed.

Lemma ends_flush exp k st :
  0 <= exp <= thirty_days ->
  ends_well (k tt) (if exp =? 0 then Store ∅ None (clock st)
                    else Store (items st) (Some (exp * 1000000)) (clock st)) ->
  ends_well (Call (CFlush exp) k) st.
Proof.
  intros Hx He. apply ends_call. intros f o st' Hf [-> Hst]. exists tt. split; [done|].
  unfold flushed, ttl_of in Hst. destruct (Z.eqb_spec exp 0); [by subst|].
  destruct (Z.leb_spec exp thirty_days), (Z.leb_spec (exp * 1000000) 0); try lia. by subst.
Qed.

Lemma ends_noop start stop k st :
  ends_well (k (u64 (stop - start))) st -> ends_well (Call (CNoop start stop) k) st.
Proof. intros He. apply ends_call. intros f o st' Hf [-> ->]. eauto. Qed.

Lemma ends_version k st :
  (forall v, v <> [] -> ends_well (k v) st) -> ends_well (Call CVersion k) st.
Proof. intros He. apply ends_call. intros f o st' Hf [(v & Hv & ->) ->]. eauto. Qed.

Lemma ends_stats k st : (forall m, ends_well (k m) st) -> ends_well (Call (CStats None) k) st.
Proof.
  intros He. apply ends_call. intros f o st' Hf. cbn [client_spec].
  pose proof (general_statistics f Hf). destruct (statistics f None) as [es|]; [|done]. intros [-> ->]. eauto.
Qed.
End Rules.

(** ** Properties: any lawful buffer and connection, any server that keeps the protocol *)

Lemma result_defined {A} (c : call A) rp : reply_ok c rp -> result_of c rp <> Undef.
Proof.
  destruct rp as [p|es]; [|by destruct c]. intros [_ H].
  destruct c as [key exp|[] key value flags exp|key cas|key delta init exp dec|key value prepend|exp|
    start stop| |key|key exp]; try done; cbn [result_of];
    unfold get_result, written, counter, no_body; repeat case_match; try done. lia.
Qed.

Section Properties.
Context {O : BufferOps} {L : BufferLaws O} {W : Type} {SO : SocketOps W}
  {R : W -> net -> Prop} {SL : SocketLaws SO R} {M : Memcached} {MS : MemcachedSpec M}.

(** C30: a method of the client, over the connection to a memcached: it sends the one
    request that stands for the call, takes the server's reply off the connection
    and nothing else, and what it answers or throws, and what has become of the
    store, is what [client_spec] says of the call: the operation of Client.hh, except
    that [delete_key] of a missing key, and [set] with a cas of one, throw where the
    header has them answer. *)
Theorem call_implements_store {A} (c : call A) s rest t w :
  let rp := fst (serve (request_of c) s) in
  srv_ok s -> call_ok c -> zlen (encode_reply rp ++ rest) < 2 ^ 63 ->
  R w (Net (encode_reply rp ++ rest) t) ->
  exists o, client_spec (facts_of s) c (contents s) o (contents (snd (serve (request_of c) s))) /\
    delivers lib_failure (Rprod eq R) (run_call c) (opened w) o
      (opened (Net rest (t ++ encode_req (request_of c)))).
Proof.
  intros rp Hs Hc Hl HR. pose proof (serve_form A c s Hs Hc) as Hf.
  exists (result_of c rp). split; [by apply client_keeps, serve_step|].
  eapply refines_delivers with (s' := opened (Net (encode_reply rp ++ rest) t));
    [apply run_call_refines|by split|by apply call_exchange|by apply result_defined].
Qed.

Lemma run_delivers sleep p s rest t w :
  (forall usecs, refines lib_failure R (sleep usecs) (ret tt)) ->
  srv_ok s -> calls_ok p -> ends_well p (contents s) -> zlen (pl_replies (play p s) ++ rest) < 2 ^ 63 ->
  R w (Net (pl_replies (play p s) ++ rest) t) ->
  delivers lib_failure (Rprod eq R) (run sleep p) (opened w) (Val tt)
    (opened (Net rest (t ++ pl_requests (play p s)))).
Proof.
  intros Hsl Hs Hc He Hl HR. rewrite <- (play_ends_well p s Hs Hc He) at 1.
  eapply refines_delivers with (s' := opened (Net (pl_replies (play p s) ++ rest) t));
    [by apply run_refines|by split|by apply run_plays|by rewrite play_ends_well].
Qed.
End Properties.

(** ** A concrete memcached

    A store of entries of at most a megabyte, and a counter for the cas. *)
Definition sample_facts : facts := {|
  too_large := fun key value => 2 ^ 20 <? zlen key + zlen value;
  statistics := fun group =>
    match group with Some _ => None | None => Some [(str "curr_items", str "1")] end
|}.
Definition sample_cas (n : Z) : Z := n mod (2 ^ 63 - 1) + 1.
Definition sample_ok (value : bytes) : reply := One (Resp 0 0 [] value 0 0).
Definition sample_refuses (s : ResponseStatus) : reply := One (Resp 0 (status_val s) [] [] 0 0).
Definition field (o : Z) (n : Z) (d : bytes) : Z := be_decode (ztake n (zdrop o d)).

Definition sample_write (s : ResponseStatus) (q : req) (st : store) (n : Z) : reply * (store * Z) :=
  if too_large sample_facts (q_key q) (q_value q) then (sample_refuses VALUE_TOO_LARGE, (st, n))
  else if decide (s = OK) then
    (sample_ok [],
     (put_item (q_key q)
        (Item (q_value q) (field 0 4 (q_extras q)) (sample_cas n) (ttl_of (clock st) (field 4 4 (q_extras q)))) st,
      n + 1))
  else (sample_refuses s, (st, n)).

(** The number that an entry's text begins with, if it is one. *)
Definition text_number (v : bytes) : option Z :=
  let '(n, rest) := scan_digits v 0 in
  if forallb (fun b => bool_decide (b = Byte.x20)) rest && bool_decide (v = Text.dec n ++ rest)
     && (0 <=? n) && (n <? 2 ^ 64)
  then Some n else None.

Definition sample_count (dec : bool) (q : req) (st : store) (n : Z) : reply * (store * Z) :=
  let delta := field 0 8 (q_extras q) in
  match items st !! q_key q with
  | Some it =>
      match text_number (i_value it) with
      | Some m =>
          (sample_ok (be_encode 8 (counted dec m delta)),
           (put_item (q_key q)
              (Item (Text.dec (counted dec m delta)) (i_flags it) (sample_cas n) (i_ttl it)) st, n + 1))
      | None => (sample_refuses NON_NUMERIC_INCR_DECR, (st, n))
      end
  | None =>
      let exp := field 16 4 (q_extras q) in
      if exp =? 2 ^ 32 - 1 then (sample_refuses KEY_NOT_FOUND, (st, n))
      else
        let init := field 8 8 (q_extras q) in
        (sample_ok (be_encode 8 init),
         (put_item (q_key q) (Item (Text.dec init) 0 (sample_cas n) (ttl_of (clock st) exp)) st, n + 1))
  end.

Definition sample_append (prepend : bool) (q : req) (st : store) (n : Z) : reply * (store * Z) :=
  if too_large sample_facts (q_key q) (q_value q) then (sample_refuses VALUE_TOO_LARGE, (st, n))
  else
    match items st !! q_key q with
    | Some it =>
        let v := if prepend then q_value q ++ i_value it else i_value it ++ q_value q in
        if too_large sample_facts (q_key q) v then (sample_refuses VALUE_TOO_LARGE, (st, n))
        else (sample_ok [],
              (put_item (q_key q) (Item v (i_flags it) (sample_cas n) (i_ttl it)) st, n + 1))
    | None => (sample_refuses NOT_STORED, (st, n))
    end.

Definition sample_get (touched : bool) (q : req) (st : store) (n : Z) : reply * (store * Z) :=
  match items st !! q_key q with
  | Some it =>
      (One (Resp 0 0 (be_encode 4 (i_flags it)) (i_value it) 0 (i_cas it)),
       (if touched then put_item (q_key q) (set_ttl (clock st) (field 0 4 (q_extras q)) it) st else st, n))
  | None => (sample_refuses KEY_NOT_FOUND, (st, n))
  end.

Definition sample_serve (q : req) (s : store * Z) : reply * (store * Z) :=
  let '(st, n) := s in
  let old := items st !! q_key q in
  match q_cmd q with
  | Get => sample_get false q st n
  | GetAndTouch => sample_get true q st n
  | Set_ => sample_write (cas_status (q_cas q) old) q st n
  | Add => sample_write (write_status WAdd old) q st n
  | Replace => sample_write (write_status (WReplace (q_cas q)) old) q st n
  | Delete =>
      let s := delete_status (q_cas q) old in
      if decide (s = OK) then (sample_ok [], (remove_item (q_key q) st, n)) else (sample_refuses s, (st, n))
  | Increment => sample_count false q st n
  | Decrement => sample_count true q st n
  | Append => sample_append false q st n
  | Prepend => sample_append true q st n
  | Flush =>
      (sample_ok [],
       (match ttl_of (clock st) (field 0 4 (q_extras q)) with
        | None => Store ∅ None (clock st)
        | Some t => if t <=? 0 then Store ∅ None (clock st) else Store (items st) (Some t) (clock st)
        end, n))
  | Version => (sample_ok (str "1.6"), (st, n))
  | Stat =>
      (match statistics sample_facts (match q_key q with [] => None | key => Some key end) with
       | Some es => Entries es
       | None => sample_refuses KEY_NOT_FOUND
       end, (st, n))
  | Touch =>
      match old with
      | Some it => (sample_ok [], (put_item (q_key q) (set_ttl (clock st) (field 0 4 (q_extras q)) it) st, n))
      | None => (sample_refuses KEY_NOT_FOUND, (st, n))
      end
  | _ => (sample_ok [], (st, n))
  end.

Definition item_ok (it : item) : Prop := zlen (i_value it) <= value_limit /\ fits 64 (i_cas it).
Definition sample_memcached : Memcached := {|
  Srv := store * Z;
  serve := sample_serve;
  advance := fun usecs s => (elapse usecs (fst s), snd s);
  contents := fst;
  facts_of := fun _ => sample_facts;
  srv_ok := fun s => map_Forall (fun _ it => item_ok it) (items (fst s))
|}.

Lemma text_number_spec v :
  match text_number v with Some n => number_text v n | None => forall n, ~ number_text v n end.
Proof.
  unfold text_number. destruct (scan_digits v 0) as [n rest] eqn:E.
  destruct (_ && _) eqn:Hb.
  - rewrite !andb_true_iff, forallb_forall, bool_decide_eq_true in Hb. destruct Hb as [[[Hf Hv] H0] Hn].
    split; [lia|]. exists (length rest). rewrite Hv at 1. f_equal.
    clear -Hf. induction rest as [|b rest IH]; [done|]. cbn [length repeat]. f_equal.
    + specialize (Hf b (or_introl eq_refl)). by apply bool_decide_eq_true in Hf.
    + apply IH. intros x Hx. apply Hf. by right.
  - intros m [Hm [k Hk]]. rewrite Hk in E.
    assert (scan_digits (Text.dec m ++ repeat Byte.x20 k) 0 = (m, repeat Byte.x20 k)) as Hs
      by (apply (scan_dec0 0); [lia|by destruct k]).
    rewrite Hs in E. simplify_eq.
    rewrite !andb_false_iff in Hb. destruct Hb as [[[Hb|Hb]|Hb]|Hb]; try lia.
    + assert (forallb (fun b => bool_decide (b = Byte.x20)) (repeat Byte.x20 k) = true); [|congruence].
      apply forallb_forall. intros x Hx%repeat_spec. by apply bool_decide_eq_true.
    + by rewrite bool_decide_eq_false in Hb.
Qed.

Lemma field_be o n k v x y : zlen x = o -> n = Z.of_nat k -> 0 <= v < 2 ^ (8 * Z.of_nat k) ->
  field o n (x ++ be_encode k v ++ y) = v.
Proof.
  intros Hx -> Hv. unfold field. rewrite field_at by (done || apply zlen_be_encode).
  by apply be_decode_encode_small.
Qed.

Lemma field_only n k v : n = Z.of_nat k -> 0 <= v < 2 ^ (8 * Z.of_nat k) -> field 0 n (be_encode k v) = v.
Proof.
  intros -> Hv. unfold field. rewrite zdrop_0, ztake_all by (rewrite zlen_be_encode; lia).
  by apply be_decode_encode_small.
Qed.

Lemma sample_form status extras value cas :
  zlen extras <= 4 -> 0 <= status < 2 ^ 16 -> zlen value <= value_limit -> fits 64 cas ->
  response_ok 0 status extras [] value 0 cas.
Proof.
  intros He Hs Hv Hc. pose proof (zlen_nonneg extras). pose proof (zlen_nonneg value).
  unfold response_ok, header_wf, value_limit, fits in *.
  cbn [h_magic h_opcode h_key_size h_extras_size h_data_type h_status h_body_size h_opaque h_cas
    response_header]. change (zlen []) with 0. lia.
Qed.

Lemma fresh_sample n : fresh_cas (sample_cas n).
Proof. unfold fresh_cas, sample_cas. pose proof (Z.mod_pos_bound n (2 ^ 63 - 1)). lia. Qed.

Lemma status_range s : 0 <= status_val s < 2 ^ 16.
Proof. by destruct s. Qed.

Lemma counted_text dec n delta : 0 <= n < 2 ^ 64 -> 0 <= delta ->
  number_text (Text.dec (counted dec n delta)) (counted dec n delta).
Proof.
  intros Hn Hd. split; [|exists 0%nat; by rewrite app_nil_r].
  unfold counted, u64. destruct dec; [lia|]. apply Z.mod_pos_bound. lia.
Qed.

Lemma dec_text_fits n : 0 <= n < 2 ^ 64 -> zlen (Text.dec n) <= value_limit.
Proof.
  intros Hn. unfold Text.dec, zlen.
  pose proof (length_dec_aux (S (Z.to_nat (Z.log2 n))) n [] 20 ltac:(lia) ltac:(lia)) as Hl.
  simpl length in Hl at 2. unfold value_limit. lia.
Qed.

(** What the laws ask of one request. *)
Definition sound {A} (c : call A) (s : store * Z) : Prop :=
  let r := sample_serve (request_of c) s in
  reply_ok c (fst r) /\ kv_step sample_facts c (fst s) (fst r) (fst (snd r)) /\
  map_Forall (fun _ it => item_ok it) (items (fst (snd r))).

Lemma remove_ok key st :
  map_Forall (fun _ it => item_ok it) (items st) -> map_Forall (fun _ it => item_ok it) (items (remove_item key st)).
Proof. apply map_Forall_delete. Qed.

Lemma put_ok key it st :
  map_Forall (fun _ it => item_ok it) (items st) -> item_ok it ->
  map_Forall (fun _ it => item_ok it) (items (put_item key it st)).
Proof.
  intros Hst Hit. unfold put_item.
  repeat case_match; [by apply remove_ok|by apply map_Forall_insert_2..].
Qed.

Lemma number_read_as v n : number_text v n -> read_as v n.
Proof.
  intros [Hn [k Hk]]. split; [done|]. intros m [Hm [j Hj]]. rewrite Hk in Hj.
  apply dec_text_inj in Hj; lia.
Qed.

Lemma too_large_limit key value :
  too_large sample_facts key value = false -> zlen value <= value_limit.
Proof. cbn. pose proof (zlen_nonneg key). unfold value_limit. lia. Qed.

Lemma fresh_fits c : fresh_cas c -> fits 64 c.
Proof. unfold fresh_cas, fits. lia. Qed.

Lemma accepts_with value : accepted (sample_ok value) value.
Proof. by eexists. Qed.

Lemma refuses_with s : refused s (sample_refuses s).
Proof. by eexists. Qed.

Lemma refuses_some s : s <> OK -> exists s', s' <> OK /\ refused s' (sample_refuses s).
Proof. exists s. split; [done|apply refuses_with]. Qed.

Lemma refuses_form {A} (c : call A) s : s <> OK -> reply_ok c (sample_refuses s).
Proof.
  intros Hs. split; [|destruct c; try done; split; [by cbn [p_status]; rewrite status_val_0|done]].
  apply (sample_form (status_val s) [] [] 0); try done. apply status_range.
Qed.

Lemma accepts_form {A} (c : call A) value :
  match c with CStats _ => False | _ => True end -> zlen value <= value_limit ->
  reply_ok c (sample_ok value).
Proof. intros Hc Hv. split; [|by destruct c]. by apply (sample_form 0 [] value 0). Qed.

#[local] Create HintDb sample discriminated.
#[local] Hint Resolve accepts_with refuses_with refuses_form accepts_form fresh_sample put_ok
  fresh_fits remove_ok number_read_as too_large_limit : sample.
#[local] Hint Extern 1 (_ <> OK) => first [discriminate|assumption] : sample.

Abbreviation store_ok st := (map_Forall (fun _ it => item_ok it) (items st)).

Lemma sound_write kind key value flags exp st n :
  call_ok (CWrite kind key value flags exp) -> store_ok st -> sound (CWrite kind key value flags exp) (st, n).
Proof.
  intros (Hk & Hv & Hf & He & Hc) Hst. unfold fits in *.
  set (extras := be_encode 4 flags ++ be_encode 4 exp).
  assert (field 0 4 extras = flags) as Hflags by (by apply (field_be 0 4 4 flags [] (be_encode 4 exp))).
  assert (field 4 4 extras = exp) as Hexp.
  { unfold extras. rewrite <- (app_nil_r (be_encode 4 exp)). by apply (field_be 4 4 4 exp). }
  assert (forall q, q_extras q = extras -> q_key q = key -> q_value q = value ->
    let s := write_status kind (items st !! key) in
    let r := sample_write s q st n in
    reply_ok (CWrite kind key value flags exp) (fst r) /\
    kv_step sample_facts (CWrite kind key value flags exp) st (fst r) (fst (snd r)) /\ store_ok (fst (snd r))) as Hw.
  { intros q Hq1 Hq2 Hq3 s. unfold sample_write. cbn [kv_step]. fold s. rewrite Hq1, Hq2, Hq3, Hflags, Hexp.
    destruct (too_large sample_facts key value) eqn:Hlarge.
    { cbn [fst snd]. split; [by apply refuses_form|]. split; [|done]. split; [eauto with sample|by left]. }
    destruct (decide (s = OK)); cbn [fst snd]; [split_and!|split_and!; eauto with sample].
    - by apply accepts_form.
    - apply accepts_with.
    - eexists. split; [apply fresh_sample|done].
    - apply put_ok; [done|]. split; [done|]. apply fresh_fits, fresh_sample. }
  unfold sound. destruct kind; cbn [request_of sample_serve q_cmd q_cas q_key]; by apply Hw.
Qed.

Lemma sound_get key exp st n : call_ok (CGet key exp) -> store_ok st -> sound (CGet key exp) (st, n).
Proof.
  intros (Hk & He) Hst. unfold sound. cbn [request_of].
  assert (forall q touched, q_key q = key -> (touched = negb (exp =? 0)) ->
    (touched = true -> field 0 4 (q_extras q) = exp) ->
    let r := sample_get touched q st n in
    reply_ok (CGet key exp) (fst r) /\ kv_step sample_facts (CGet key exp) st (fst r) (fst (snd r)) /\
    store_ok (fst (snd r))) as Hg.
  { intros q touched Hq Ht Hx. unfold sample_get. cbn [kv_step]. rewrite Hq.
    destruct (items st !! key) as [it|] eqn:E; cbn [fst snd]; [|split_and!; eauto with sample].
    destruct (Hst key it E) as [Hv Hc]. split; [|split].
    - split; [|done]. by apply sample_form; rewrite ?zlen_be_encode.
    - split; [by eexists|]. rewrite Ht in *. destruct (exp =? 0); [done|]. by rewrite Hx.
    - destruct touched; [by apply put_ok|done]. }
  destruct (Z.eqb_spec exp 0) as [->|Hne].
  - by apply (Hg (Req Get [] key [] 0) false).
  - apply (Hg (Req GetAndTouch (be_encode 4 exp) key [] 0) true); [done..|]. intros _. by apply field_only.
Qed.

Lemma sound_increment key delta init exp dec st n :
  call_ok (CIncrement key delta init exp dec) -> store_ok st ->
  sound (CIncrement key delta init exp dec) (st, n).
Proof.
  intros (Hk & Hd & Hi & He) Hst. unfold fits in *. set (init' := initial_or_delta delta init).
  assert (0 <= init' < 2 ^ 64) as Hi' by (unfold init', initial_or_delta; by destruct (init =? _)).
  set (extras := be_encode 8 delta ++ be_encode 8 init' ++ be_encode 4 exp).
  assert (field 0 8 extras = delta) as H1 by by apply (field_be 0 8 8 delta []).
  assert (field 8 8 extras = init') as H2 by by apply (field_be 8 8 8 init' (be_encode 8 delta)).
  assert (field 16 4 extras = exp) as H3.
  { unfold extras. rewrite app_assoc, <- (app_nil_r (be_encode 4 exp)).
    by apply (field_be 16 4 4 exp (be_encode 8 delta ++ be_encode 8 init')). }
  unfold sound. cbn [request_of]. fold init' extras.
  assert (sample_serve (Req (if dec then Decrement else Increment) extras key [] 0) (st, n) =
    sample_count dec (Req Get extras key [] 0) st n) as -> by by destruct dec.
  unfold sample_count. cbn [q_extras q_key]. rewrite H1, H2, H3. cbv zeta. cbn [kv_step].
  change (fst (st, n)) with st.
  destruct (items st !! key) as [it|] eqn:E.
  - pose proof (text_number_spec (i_value it)) as Ht.
    destruct (text_number (i_value it)) as [m|]; cbn [fst snd]; [|split_and!; eauto with sample].
    pose proof (counted_text dec m delta (proj1 Ht) ltac:(lia)) as Hc. split; [|split].
    + by apply accepts_form.
    + left. exists m, (sample_cas n), (Text.dec (counted dec m delta)).
      split_and!; eauto with sample.
    + apply put_ok; [done|]. split; [apply dec_text_fits, Hc|apply fresh_fits, fresh_sample].
  - destruct (exp =? 2 ^ 32 - 1); cbn [fst snd]; [split_and!; eauto with sample|]. cbv zeta. split_and!.
    + by apply accepts_form.
    + eauto with sample.
    + eexists. split; [apply fresh_sample|done].
    + apply put_ok; [done|]. split; [by apply dec_text_fits|apply fresh_fits, fresh_sample].
Qed.

Lemma sound_delete key cas st n :
  call_ok (CDelete key cas) -> store_ok st -> sound (CDelete key cas) (st, n).
Proof.
  intros Hc Hst. unfold sound. cbn [request_of sample_serve q_cmd q_cas q_key kv_step]. cbv zeta.
  change (fst (st, n)) with st.
  destruct (decide (delete_status cas (items st !! key) = OK)); cbn [fst snd];
    [split; [|split]|split_and!; eauto with sample].
  - by apply accepts_form.
  - eauto with sample.
  - by apply map_Forall_delete.
Qed.

Lemma sound_append key value prepend st n :
  call_ok (CAppend key value prepend) -> store_ok st -> sound (CAppend key value prepend) (st, n).
Proof.
  intros [Hk Hv] Hst. unfold sound. cbn [request_of].
  assert (sample_serve (Req (if prepend then Prepend else Append) [] key value 0) (st, n) =
    sample_append prepend (Req Get [] key value 0) st n) as -> by by destruct prepend.
  unfold sample_append. cbn [q_key q_value kv_step]. change (fst (st, n)) with st.
  pose proof (refuses_some VALUE_TOO_LARGE ltac:(done)) as Hr.
  destruct (too_large sample_facts key value);
    [cbn [fst snd]; split_and!; eauto with sample|].
  destruct (items st !! key) as [it|] eqn:E; [|cbn [fst snd]; split_and!; eauto with sample].
  cbv zeta. destruct (too_large sample_facts key _) eqn:Hlarge; cbn [fst snd];
    [split_and!; eauto with sample|split; [|split]].
  - by apply accepts_form.
  - split; [apply accepts_with|]. eexists. split; [apply fresh_sample|done].
  - apply put_ok; [done|]. split; [by eapply too_large_limit|apply fresh_fits, fresh_sample].
Qed.

Lemma sound_stats key st n : call_ok (CStats key) -> store_ok st -> sound (CStats key) (st, n).
Proof.
  intros Hk Hst. unfold sound. cbn [request_of sample_serve q_cmd q_key kv_step fst snd].
  destruct key as [[|b key]|]; cbn [default]; [by destruct Hk| |].
  - split; [by apply refuses_form|]. split; [|done]. split; [by apply (refuses_some KEY_NOT_FOUND)|done].
  - split; [by repeat constructor|]. done.
Qed.

Lemma sound_flush exp st n : call_ok (CFlush exp) -> store_ok st -> sound (CFlush exp) (st, n).
Proof.
  intros Hc Hst. unfold sound. cbn [request_of sample_serve q_cmd q_key q_extras kv_step fst snd].
  cbn [call_ok] in Hc. rewrite (field_only 4 4 exp eq_refl Hc). unfold flushed.
  split; [by apply accepts_form|]. split; [split; [eauto with sample|]|]; repeat case_match; try done.
  exists ∅. split; [apply map_empty_subseteq|done].
Qed.

Lemma sound_touch key exp st n : call_ok (CTouch key exp) -> store_ok st -> sound (CTouch key exp) (st, n).
Proof.
  intros [Hk He] Hst. unfold sound.
  cbn [request_of sample_serve q_cmd q_key q_extras kv_step]. change (fst (st, n)) with st.
  rewrite (field_only 4 4 exp eq_refl He).
  destruct (items st !! key) as [it|] eqn:E; cbn [fst snd]; [split; [|split]|split_and!; eauto with sample].
  - by apply accepts_form.
  - eauto with sample.
  - apply put_ok; [done|]. apply (Hst key it E).
Qed.

Lemma sound_call {A} (c : call A) st n : call_ok c -> store_ok st -> sound c (st, n).
Proof.
  destruct c as [key exp|kind key value flags exp|key cas|key delta init exp dec|key value prepend|exp|
    start stop| |key|key exp];
    [apply sound_get|apply sound_write|apply sound_delete|apply sound_increment|apply sound_append
    |apply sound_flush|..|apply sound_stats|apply sound_touch]; intros Hc Hst; unfold sound;
    cbn [request_of sample_serve q_cmd q_key q_extras kv_step fst snd].
  - split; [by apply accepts_form|]. eauto with sample.
  - split; [by apply accepts_form|]. split; [|done]. split; [|done]. exists (str "1.6"). split; [done|apply accepts_with].
Qed.

Lemma age_ok usecs it it' : item_ok it -> age usecs it = Some it' -> item_ok it'.
Proof. unfold age. intros H ?. by repeat case_match; simplify_eq. Qed.

Lemma elapse_ok usecs st : store_ok st -> store_ok (elapse usecs st).
Proof.
  intros H. unfold elapse.
  assert (map_Forall (fun _ it => item_ok it) (omap (age usecs) (items st))) as Ho.
  { intros k it. rewrite lookup_omap. intros (it0 & Hk & Ha)%bind_Some. apply (age_ok usecs it0); [by apply (H k)|done]. }
  destruct (flush_in st) as [t|]; [destruct (t <=? usecs)|]; done.
Qed.

#[export] Instance sample_spec : MemcachedSpec sample_memcached.
Proof.
  split.
  - intros A c [st n] Hs Hc. by apply (sound_call c st n).
  - intros A c [st n] Hs Hc. by apply (sound_call c st n).
  - intros [st n] Hs. split; [|done]. intros key value H. cbn. unfold always_stored in H. lia.
  - intros A c [st n] Hs Hc. by apply (sound_call c st n).
  - done.
  - intros usecs [st n] Hs. by apply elapse_ok.
Qed.

(** A counter that is two digits long, counted down. *)
Definition sample_store : store :=
  put_item (str "n") (Item (str "10") 7 1 None) (Store ∅ None 0).

Lemma sample_store_ok : store_ok sample_store.
Proof. by apply put_ok; [apply map_Forall_empty|]. Qed.

Lemma call_implements_store_witness :
  let c := CIncrement (str "n") 1 0 0 true in
  let '(rp, (st', _)) := sample_serve (request_of c) (sample_store, 1) in
  exists o, client_spec sample_facts c sample_store o st' /\
    delivers lib_failure (Rprod eq (fun w v => w = v))
      (@run_call (@libevent_buffer (chunked 2)) net (@libevent_socket (chunked 2)) Z c)
      (opened (Net (encode_reply rp) [])) o (opened (Net [] (encode_req (request_of c)))).
Proof.
  pose proof (call_implements_store (O := @libevent_buffer (chunked 2)) (SO := @libevent_socket (chunked 2))
    (L := libevent_buffer_laws (LS := chunked_spec 2)) (SL := libevent_socket_laws (LS := chunked_spec 2))
    (M := sample_memcached) (CIncrement (str "n") 1 0 0 true) (sample_store, 1) [] []
    (Net (encode_reply (fst (sample_serve (request_of (CIncrement (str "n") 1 0 0 true)) (sample_store, 1)))) []))
    as H.
  apply H; clear H; [exact sample_store_ok|by vm_compute|by vm_compute|by rewrite app_nil_r].
Defined.
