(* ===== verification/MemcacheFunctionalTest.v ===== *)
(** * The functional test of the memcache client

    src/src/Examples/MemcacheFunctionalTest.cc as a program of calls, block by
    block, and the proof that it passes against every server that keeps the
    protocol of MemcacheStore.v. *)
From stdpp Require Import tactics base list numbers strings gmap.
From S2P Require Import Prelude BufferApi Libevent Chunked Buffer Text ProtocolBuffer Memcache MemcacheStore.

(** ** The test *)

Section Test.
(** phosg's [expectation_failed], and the two readings of the clock in [noop]. *)
Context (expectation_failed : exn) (start_usecs end_usecs : Z).

(** A part of the coroutine, by what follows it. *)
Definition co (A : Type) : Type := (A -> prog) -> prog.
Definition await {A} (c : call A) : co A := fun k => Call c k.
Definition sleep (usecs : Z) : co unit := fun k => Sleep usecs (k tt).
Definition expect (b : bool) : co unit := fun k => if b then k tt else Throw expectation_failed.

#[local] Notation "'let*' x ':=' m 'in' k" := (m (fun x => k))
  (at level 10, x name, m at level 200, k at level 200).
#[local] Notation "m ;* k" := (m (fun _ => k)) (at level 199, k at level 200, right associativity).

Definition get (key : string) (expiration_secs : Z) : co GetResult := await (CGet (str key) expiration_secs).
Definition set (key value : string) (flags expiration_secs cas : Z) : co bool :=
  await (CWrite (WSet cas) (str key) (str value) flags expiration_secs).
Definition add (key value : string) (flags expiration_secs : Z) : co bool :=
  await (CWrite WAdd (str key) (str value) flags expiration_secs).
Definition replace (key value : string) (flags expiration_secs cas : Z) : co bool :=
  await (CWrite (WReplace cas) (str key) (str value) flags expiration_secs).
Definition delete_key (key : string) (cas : Z) : co bool := await (CDelete (str key) cas).
Definition increment (key : string) (delta initial_value expiration_secs : Z) (decrement : bool) : co Z :=
  await (CIncrement (str key) delta initial_value expiration_secs decrement).
Definition append (key value : string) (prepend : bool) : co unit :=
  await (CAppend (str key) (str value) prepend).
Definition touch (key : string) (expiration_secs : Z) : co unit := await (CTouch (str key) expiration_secs).
Definition flush (expiration_secs : Z) : co unit := await (CFlush expiration_secs).

(** [expect_eq] of a call's answer. *)
Definition expect_true (m : co bool) : co unit := fun k => let* b := m in expect b k.
Definition expect_false (m : co bool) : co unit := fun k => let* b := m in expect (negb b) k.
Definition expect_count (n : Z) (m : co Z) : co unit := fun k => let* r := m in expect (n =? r) k.

(** The four expectations after a [get] that finds its key, and the one after a
    [get] that does not. *)
Definition expect_found (value : string) (flags : Z) (res : GetResult) : co unit := fun k =>
  expect (gr_key_found res) ;*
  expect (bool_decide (str value = gr_value res)) ;*
  expect (negb (0 =? gr_cas res)) ;*
  expect (flags =? gr_flags res) k.
Definition expect_missing (res : GetResult) : co unit := expect (negb (gr_key_found res)).

Definition no_initial : Z := 0xFFFFFFFFFFFFFFFF.
Definition next_cas (res : GetResult) : Z := u64 (gr_cas res + 1).

Definition test_noop : co unit := fun k =>
  let* ping_usecs := await (CNoop start_usecs end_usecs) in expect (ping_usecs <? 1000000) k.
Definition test_version : co unit := fun k =>
  let* server_version := await CVersion in expect (negb (bool_decide (server_version = []))) k.

Definition test_writes : co unit := fun k =>
  expect_true (set "key1" "value0" 0 0 0) ;*
  expect_true (set "key1" "value1" 1 0 0) ;*
  expect_false (add "key1" "value2" 2 0) ;*
  expect_true (add "key2" "value2" 2 0) ;*
  expect_false (replace "key3" "value3" 3 0 0) ;*
  expect_true (add "key3" "value3" 3 0) k.

Definition test_get_cas : co unit := fun k =>
  let* res := get "missing-key" 0 in
  expect_missing res ;*
  let* res := get "key2" 0 in
  expect_found "value2" 2 res ;*
  expect_false (set "key2" "value0" 0 0 (next_cas res)) ;*
  let* res := get "key2" 0 in
  expect_found "value2" 2 res ;*
  expect_true (set "key2" "value0" 0 0 (gr_cas res)) ;*
  let* res := get "key2" 0 in
  expect_found "value0" 0 res k.

Definition test_cas_replace : co unit := fun k =>
  let* res := get "key2" 0 in
  expect_found "value0" 0 res ;*
  expect_false (replace "key2" "value2" 0 0 (next_cas res)) ;*
  let* res := get "key2" 0 in
  expect_found "value0" 0 res ;*
  expect_true (replace "key2" "value2" 2 0 (gr_cas res)) ;*
  let* res := get "key2" 0 in
  expect_found "value2" 2 res k.

Definition test_delete : co unit := fun k =>
  let* res := get "key3" 0 in
  expect_found "value3" 3 res ;*
  expect_true (delete_key "key3" 0) ;*
  let* res := get "key3" 0 in
  expect_missing res k.

Definition test_delete_cas : co unit := fun k =>
  let* res := get "key2" 0 in
  expect_found "value2" 2 res ;*
  expect_false (delete_key "key2" (next_cas res)) ;*
  let* res := get "key2" 0 in
  expect_found "value2" 2 res ;*
  expect_true (delete_key "key2" (gr_cas res)) ;*
  let* res := get "key2" 0 in
  expect_missing res k.

Definition test_set_wait : co unit := fun k =>
  expect_true (set "ek1" "value1" 1 1 0) ;*
  let* res := get "ek1" 0 in
  expect_found "value1" 1 res ;*
  sleep 1000000 ;*
  let* res := get "ek1" 0 in
  expect_missing res k.

Definition test_touch_wait : co unit := fun k =>
  expect_true (set "ek1" "value1" 1 2 0) ;*
  let* res := get "ek1" 0 in
  expect_found "value1" 1 res ;*
  sleep 1000000 ;*
  touch "ek1" 2 ;*
  sleep 1000000 ;*
  let* res := get "ek1" 0 in
  expect_found "value1" 1 res ;*
  sleep 1000000 ;*
  let* res := get "ek1" 0 in
  expect_missing res k.

Definition test_get_touch_wait : co unit := fun k =>
  expect_true (set "ek1" "value1" 1 2 0) ;*
  let* res := get "ek1" 0 in
  expect_found "value1" 1 res ;*
  sleep 1000000 ;*
  let* res := get "ek1" 2 in
  expect_found "value1" 1 res ;*
  sleep 1000000 ;*
  let* res := get "ek1" 0 in
  expect_found "value1" 1 res ;*
  sleep 1000000 ;*
  let* res := get "ek1" 0 in
  expect_missing res k.

Definition test_set_add : co unit := fun k =>
  expect_true (set "ek1" "value1" 1 0 0) ;*
  expect_false (add "ek1" "value2" 2 1) ;*
  sleep 1000000 ;*
  let* res := get "ek1" 0 in
  expect_found "value1" 1 res k.

Definition test_increment : co unit := fun k =>
  expect_true (set "ik1" "123" 0 0 0) ;*
  expect_count 125 (increment "ik1" 2 no_initial 0 false) ;*
  expect_count 10 (increment "ik2" 2 10 0 false) ;*
  expect_count 2 (increment "ik3" 2 no_initial 0 false) ;*
  expect_count 100 (increment "ik1" 25 0 0 true) ;*
  expect_count 0 (increment "ik1" 200 0 0 true) k.

Definition test_append : co unit := fun k =>
  expect_true (set "ak1" "456" 0 0 0) ;*
  append "ak1" "789" false ;*
  let* res := get "ak1" 0 in
  expect (bool_decide (str "456789" = gr_value res)) ;*
  append "ak1" "123" true ;*
  let* res := get "ak1" 0 in
  expect (bool_decide (str "123456789" = gr_value res)) k.

Definition test_stats : co unit := fun k => let* _stats := await (CStats None) in k tt.

Definition test_flush : co unit := fun k =>
  expect_true (set "f1" "456" 0 0 0) ;*
  flush 2 ;*
  let* res := get "f1" 0 in
  expect (bool_decide (str "456" = gr_value res)) ;*
  sleep 2000000 ;*
  let* res := get "f1" 0 in
  expect (negb (gr_key_found res)) k.

(** [main_async] behind [client.connect()]. *)
Definition tests : prog :=
  test_noop ;*
  test_version ;*
  flush 0 ;*
  test_writes ;* test_get_cas ;* test_cas_replace ;* test_delete ;* test_delete_cas ;*
  test_set_wait ;* test_touch_wait ;* test_get_touch_wait ;* test_set_add ;*
  test_increment ;* test_append ;* test_stats ;* test_flush ;* Done.

Definition main_async {O : BufferOps} {W : Type} {SO : SocketOps W}
    (base_connect : ST W unit) (base_sleep : Z -> ST W unit) : ST (Client * W) unit :=
  connect base_connect ;;; run base_sleep tests.
End Test.

(** ** The test passes *)

Lemma ends_expect e b k st : b = true -> ends_well (k tt) st -> ends_well (expect e b k) st.
Proof. by intros ->. Qed.

(** What a [get] that finds its key is expected to answer. *)
Lemma ends_found e value flags res k st :
  gr_key_found res = true -> gr_value res = str value -> gr_flags res = flags -> fresh_cas (gr_cas res) ->
  ends_well (k tt) st -> ends_well (expect_found e value flags res k) st.
Proof.
  intros Hk Hv Hf [Hc _] He. unfold expect_found.
  apply ends_expect; [done|]. apply ends_expect; [by apply bool_decide_true|].
  apply ends_expect; [destruct (Z.eqb_spec 0 (gr_cas res)); [lia|done]|].
  by apply ends_expect; [rewrite Hf; apply Z.eqb_refl|].
Qed.

(** The cas of an entry, and the one behind it, in a request. *)
Lemma cas_matches c old : fresh_cas c -> i_cas old = c -> cas_status c (Some old) = OK.
Proof. intros _ <-. unfold cas_status. by rewrite Z.eqb_refl, orb_true_r. Qed.

Lemma cas_differs c old : fresh_cas c -> i_cas old = c -> cas_status (u64 (c + 1)) (Some old) = KEY_EXISTS.
Proof.
  intros [H0 H1] <-. unfold cas_status, u64. rewrite Z.mod_small by lia.
  destruct (Z.eqb_spec (i_cas old + 1) 0), (Z.eqb_spec (i_cas old + 1) (i_cas old)); try lia; done.
Qed.

(** Finding the entry of a key in the store that the calls so far have made. *)
Ltac look :=
  cbn [items]; repeat first
    [ rewrite lookup_omap | rewrite lookup_insert_eq | rewrite lookup_insert_ne by done
    | rewrite lookup_delete_eq | rewrite lookup_delete_ne by done | rewrite lookup_empty ];
  cbn; reflexivity.
(** How a write or a deletion is decided. *)
Ltac decided :=
  first [ reflexivity | discriminate
        | cbn [write_status delete_status]; first
          [ by apply cas_matches | by apply cas_differs
          | rewrite cas_differs by (done || reflexivity); first [discriminate|reflexivity] ] ].
Ltac tidy :=
  unfold put_item, remove_item, set_ttl, elapse, ttl_of;
  repeat (cbn [items flush_in clock i_value i_flags i_cas i_ttl Z.eqb];
    match goal with
    | |- context [?a <=? ?b] => first [change (a <=? b) with true | change (a <=? b) with false]
    end);
  cbn [items flush_in clock i_value i_flags i_cas i_ttl Z.eqb].

(** One call, expectation or sleep. *)
Ltac step :=
  lazymatch goal with
  | |- ends_well (expect_found _ _ _ _ _) _ => apply ends_found; [done|done|done|assumption|]
  | |- ends_well (expect _ _ _) _ => apply ends_expect; [done|]
  | |- ends_well (Call (CGet _ _) _) _ =>
      first [apply ends_get_missing; [look|] | eapply ends_get; [look|]]
  | |- ends_well (Call (CWrite _ _ _ _ _) _) _ =>
      first [ eapply ends_write; [look|decided|done|intros ? ?]
            | eapply ends_write_refused; [look|decided|decided|done|] ]
  | |- ends_well (Call (CDelete _ _) _) _ =>
      first [ eapply ends_delete; [look|decided|] | eapply ends_delete_refused; [look|decided|] ]
  | |- ends_well (Call (CIncrement _ _ _ _ _) _) _ =>
      first [ apply ends_increment_missing; [look|done|intros ? ?]
            | eapply ends_increment; [look|eassumption|intros ? ? ? ?] ]
  | |- ends_well (Call (CAppend _ _ _) _) _ => eapply ends_append; [look|done|intros ? ?]
  | |- ends_well (Call (CTouch _ _) _) _ => eapply ends_touch; [look|]
  | |- ends_well (Call (CFlush _) _) _ => apply ends_flush; [done|]
  | |- ends_well (Call CVersion _) _ => apply ends_version; intros ? ?
  | |- ends_well (Call (CStats _) _) _ => apply ends_stats; intros ?
  | |- ends_well (Sleep _ _) _ => apply ends_sleep
  end; cbv beta; tidy.

Lemma tests_end_well e start_usecs end_usecs st :
  u64 (end_usecs - start_usecs) < 1000000 -> ends_well (tests e start_usecs end_usecs) st.
Proof.
  intros Hping. assert (number_text (str "123") 123) as Hcount by (split; [lia|by exists 0%nat]).
  unfold tests, test_noop, test_version, test_writes, test_get_cas, test_cas_replace, test_delete,
    test_delete_cas, test_set_wait, test_touch_wait, test_get_touch_wait, test_set_add, test_increment,
    test_append, test_stats, test_flush, expect_true, expect_false, expect_count, expect_missing,
    get, set, add, replace, delete_key, increment, append, touch, flush, sleep, await, next_cas.
  apply ends_noop, ends_expect; [by apply Z.ltb_lt|].
  apply ends_version. intros v Hv. apply ends_expect; [by rewrite bool_decide_false|].
  repeat step. done.
Qed.

Lemma cas_fits v : fits 64 (u64 v).
Proof. unfold fits, u64. by apply Z.mod_pos_bound. Qed.

(** Every call of the test is within the sizes of the protocol. *)
Lemma tests_calls_ok e start_usecs end_usecs : calls_ok (tests e start_usecs end_usecs).
Proof.
  unfold tests, test_noop, test_version, test_writes, test_get_cas, test_cas_replace, test_delete,
    test_delete_cas, test_set_wait, test_touch_wait, test_get_touch_wait, test_set_add, test_increment,
    test_append, test_stats, test_flush, expect_true, expect_false, expect_count, expect_missing,
    expect_found, expect, get, set, add, replace, delete_key, increment, append, touch, flush, sleep,
    await, next_cas.
  repeat (cbn [calls_ok call_ok answer_ok kind_ok];
    lazymatch goal with
    | |- True => exact I
    | |- calls_ok (if ?b then _ else _) => destruct b
    | |- _ /\ _ => split
    | |- forall _, _ => intros ?
    | |- fits 64 (u64 _) => apply cas_fits
    | |- _ => first [assumption|vm_compute; intuition congruence]
    end).
Qed.

Section Passes.
Context {O : BufferOps} {L : BufferLaws O} {W : Type} {SO : SocketOps W}
  {R : W -> net -> Prop} {SL : SocketLaws SO R} {M : Memcached} {MS : MemcachedSpec M}.

Lemma connect_refines base_connect :
  refines lib_failure R base_connect (ret tt) ->
  refines lib_failure (Rprod eq R) (connect base_connect) (@connect net (ret tt)).
Proof.
  intros Hb. unfold connect. apply refines_bind.
  - intros [c w] [c' w'] [Hc HR]. simpl in Hc. subst c'. by right; right.
  - intros c. destruct (fd_is_open c); [refine_auto|]. apply refines_bind; [by apply refines_on_snd|].
    intros _ [c1 w] [c2 w'] [Hc HR]. by right; right.
Qed.

(** C31: the functional test passes against every server that keeps the protocol, in
    whatever state it is in, over any lawful buffer and connection: no expectation
    fails and no call throws, unless libevent reports a failure. The expectations on
    time hold for a server whose entries expire when their time is over. *)
Theorem functional_test_passes e start_usecs end_usecs base_connect base_sleep s rest t w :
  let session := play (tests e start_usecs end_usecs) s in
  u64 (end_usecs - start_usecs) < 1000000 -> srv_ok s ->
  refines lib_failure R base_connect (ret tt) ->
  (forall usecs, refines lib_failure R (base_sleep usecs) (ret tt)) ->
  zlen (pl_replies session ++ rest) < 2 ^ 63 -> R w (Net (pl_replies session ++ rest) t) ->
  delivers lib_failure (Rprod eq R) (main_async e start_usecs end_usecs base_connect base_sleep)
    (mkClient false, w) (Val tt) (opened (Net rest (t ++ pl_requests session))).
Proof.
  intros session Hping Hs Hc Hsl Hl HR. set (p := tests e start_usecs end_usecs) in *.
  assert (calls_ok p) as Hok by apply tests_calls_ok.
  assert (pl_out session = Val tt) as Hout
    by (apply (play_ends_well p s Hs Hok); by apply tests_end_well).
  eapply refines_delivers with (s' := (mkClient false, Net (pl_replies session ++ rest) t))
    (m' := @main_async e start_usecs end_usecs spec_buffer net spec_socket (ret tt) (fun _ => ret tt));
    [|by split| |done].
  - apply refines_bind; [by apply connect_refines|]. intros _. by apply (run_refines base_sleep p).
  - unfold main_async. erewrite bind_Val by done. rewrite <- Hout. by apply (run_plays p s).
Qed.
End Passes.

(** The server of the witness has a store that is not empty. *)
Lemma functional_test_passes_witness :
  let session := play (M := sample_memcached) (tests (runtime_error []) 5 42) (sample_store, 1) in
  delivers lib_failure (Rprod eq (fun w v => w = v))
    (@main_async (runtime_error []) 5 42 (@libevent_buffer (chunked 64)) net (@libevent_socket (chunked 64))
       (ret tt) (fun _ => ret tt))
    (mkClient false, Net (pl_replies session) []) (Val tt) (opened (Net [] (pl_requests session))).
Proof.
  pose proof (functional_test_passes (O := @libevent_buffer (chunked 64)) (SO := @libevent_socket (chunked 64))
    (L := libevent_buffer_laws (LS := chunked_spec 64)) (SL := libevent_socket_laws (LS := chunked_spec 64))
    (M := sample_memcached) (runtime_error []) 5 42 (ret tt) (fun _ => ret tt) (sample_store, 1) [] []
    (Net (pl_replies (play (M := sample_memcached) (tests (runtime_error []) 5 42) (sample_store, 1))) []))
    as H.
  cbv zeta in H |- *. rewrite app_nil_r, app_nil_l in H.
  apply H; clear H; [by vm_compute|exact sample_store_ok|apply refines_ret|intros; apply refines_ret
    |by vm_compute|reflexivity].
Defined.
