(* ===== verification/Websocket.v ===== *)
(** * The websocket side of the HTTP server (src/src/Protocols/HTTP/Server.cc)

    [enable_websockets], and the [read] and [write] of [WebsocketClient]. The
    state of [read] is the client's input buffer and its connection. The HTTP
    requests of libevent, SHA-1 and base64 are parameters. *)
From stdpp Require Import tactics base list numbers strings.
From S2P Require Import Prelude BufferApi Libevent Chunked Buffer Text ProtocolBuffer.

(** ** WebsocketClient *)

Record WebsocketMessage := mkMessage { m_opcode : Z; m_data : bytes }.
Definition WebsocketMessage_new : WebsocketMessage := mkMessage 0 [].

Definition client_disconnected : exn := runtime_error (str "client has disconnected").
Definition unrecognized_control : exn := runtime_error (str "unrecognized control message").
Definition invalid_opcode : exn := runtime_error (str "invalid opcode").

(** [frame_payload[x] ^= mask_key[x & 3]] for every [x]. *)
Definition apply_mask (mask_key payload : bytes) : bytes :=
  imap (fun x c => byte_xor c (nth (Z.to_nat (Z.land (Z.of_nat x) 3)) mask_key Byte.x00)) payload.

Section Client.
Context {O : BufferOps} {W : Type} {SO : SocketOps W}.

(** [write(Buffer&, opcode)]: the caller's buffer and the connection. *)
Definition write_buffer (opcode : Z) : ST (bytes * W) unit :=
  let! data_size := on_fst buf_get_length in
  let! send_buf := of_out buf_new in
  with_local send_buf (
    on_fst (add_u8 (Z.lor 0x80 (Z.land opcode 0x0F))) ;;;
    (if 0xFFFF <? data_size then on_fst (add_u8 0x7F) ;;; on_fst (add_u64b data_size)
     else if 0x7D <? data_size then on_fst (add_u8 0x7E) ;;; on_fst (add_u16b (u16 data_size))
     else on_fst (add_u8 data_size)) ;;;
    on_12 buf_add_buffer ;;;
    on_13 buf_write).

(** [write(data, size, opcode)]. *)
Definition write_data (data : bytes) (opcode : Z) : ST W unit :=
  let! buf := of_out buf_new in
  with_local buf (on_fst (buf_add_reference data) ;;; write_buffer opcode).

(** The first half of the loop of [read]: a frame's first byte and its payload. *)
Definition read_frame : ST (bytes * W) (Z * bytes) :=
  buf_read_to 2 ;;;
  let! frame_opcode := on_fst remove_u8 in
  let! frame_size := on_fst remove_u8 in
  let payload_size := Z.land frame_size 0x7F in
  let! payload_size :=
    (if payload_size =? 0x7F then buf_read_to 8 ;;; on_fst remove_u64b
     else if payload_size =? 0x7E then buf_read_to 2 ;;; on_fst remove_u16b
     else ret payload_size) in
  let has_mask := negb (Z.land frame_size 0x80 =? 0) in
  let! mask_key := (if has_mask then buf_read_to 4 ;;; on_fst (buf_remove 4) else ret []) in
  buf_read_to payload_size ;;;
  let! frame_payload := on_fst (remove_string payload_size) in
  ret (frame_opcode, if has_mask then apply_mask mask_key frame_payload else frame_payload).

(** The second half: control frames are answered, data frames appended to the
    message, which the last one completes. *)
Definition read_step (msg : WebsocketMessage)
    : ST (bytes * W) (WebsocketMessage + WebsocketMessage) :=
  let! frame := read_frame in
  let '(frame_opcode, frame_payload) := frame in
  let opcode := Z.land frame_opcode 0x0F in
  if negb (Z.land opcode 0x08 =? 0) then
    if opcode =? 0x0A then ret (inl msg)
    else if opcode =? 0x08 then
      on_snd (write_data frame_payload 0x08) ;;; throw client_disconnected
    else if opcode =? 0x09 then
      on_snd (write_data frame_payload 0x0A) ;;; ret (inl msg)
    else throw unrecognized_control
  else if Bool.eqb (m_opcode msg =? 0) (opcode =? 0) then throw invalid_opcode
  else
    let msg := mkMessage (if negb (opcode =? 0) then opcode else m_opcode msg)
                 (m_data msg ++ frame_payload) in
    if negb (Z.land frame_opcode 0x80 =? 0) then ret (inr msg) else ret (inl msg).

(** Every round takes two bytes at least. *)
Definition read_fuel : positive := 2 ^ 64.
Definition read : ST (bytes * W) WebsocketMessage := loop read_step read_fuel WebsocketMessage_new.
End Client.

(** ** enable_websockets *)

(** [strcasecmp(a, b) == 0]. *)
Definition strcaseeq (a b : bytes) : bool :=
  bool_decide (map tolower (c_str a) = map tolower (c_str b)).

Section Handshake.
Context {O : BufferOps} {W : Type} {SO : SocketOps W}.
(** phosg's [sha1] and [base64_encode]; what libevent knows of the request. *)
Context (sha1 base64_encode : bytes -> bytes).
Context (is_get : bool) (find_header : string -> option bytes).

Definition crlf : bytes := [Byte.x0d; Byte.x0a].
Definition websocket_guid : bytes := str "258EAFA5-E914-47DA-95CA-C5AB0DC85B11".
Definition switching_protocols (sec_websocket_accept : bytes) : bytes :=
  str "HTTP/1.1 101 Switching Protocols" ++ crlf ++ str "Upgrade: websocket" ++ crlf ++
  str "Connection: upgrade" ++ crlf ++ str "Sec-WebSocket-Accept: " ++
  c_str sec_websocket_accept ++ crlf ++ crlf.

(** The answer says whether a [WebsocketClient] is returned. *)
Definition enable_websockets : ST W bool :=
  if negb is_get then ret false
  else match find_header "Connection" with
  | None => ret false
  | Some connection_header =>
  if negb (strcaseeq connection_header (str "upgrade")) then ret false
  else match find_header "Upgrade" with
  | None => ret false
  | Some upgrade_header =>
  if negb (strcaseeq upgrade_header (str "websocket")) then ret false
  else match find_header "Sec-WebSocket-Key" with
  | None => ret false
  | Some sec_websocket_key =>
    let sec_websocket_accept := base64_encode (sha1 (c_str sec_websocket_key ++ websocket_guid)) in
    let! buf := of_out buf_new in
    with_local buf (
      on_fst (buf_add_printf (switching_protocols sec_websocket_accept)) ;;; buf_write) ;;;
    ret true
  end end end.
End Handshake.

(** ** Any lawful buffer and connection refine the abstract ones *)

Section Refinement.
Context {O : BufferOps} {L : BufferLaws O} {W : Type} {SO : SocketOps W}
  {R : W -> net -> Prop} {SL : SocketLaws SO R}.

Lemma write_buffer_refines opcode :
  refines lib_failure (Rprod eq R) (@write_buffer O W SO opcode)
    (@write_buffer spec_buffer net spec_socket opcode).
Proof. unfold write_buffer. refine_auto. Qed.

Hint Resolve write_buffer_refines : refine.

Lemma write_data_refines data opcode :
  refines lib_failure R (@write_data O W SO data opcode)
    (@write_data spec_buffer net spec_socket data opcode).
Proof. unfold write_data. refine_auto. Qed.

Hint Resolve write_data_refines : refine.

Lemma read_frame_refines :
  refines lib_failure (Rprod eq R) (@read_frame O W SO) (@read_frame spec_buffer net spec_socket).
Proof. unfold read_frame. cbv zeta. refine_auto. Qed.

Hint Resolve read_frame_refines : refine.

Lemma read_refines :
  refines lib_failure (Rprod eq R) (@read O W SO) (@read spec_buffer net spec_socket).
Proof. unfold read, read_step. cbv zeta. refine_auto. Qed.

Lemma enable_websockets_refines sha1 base64 is_get find_header :
  refines lib_failure R (@enable_websockets O W SO sha1 base64 is_get find_header)
    (@enable_websockets spec_buffer net spec_socket sha1 base64 is_get find_header).
Proof. unfold enable_websockets. cbv zeta. refine_auto. Qed.
End Refinement.

(** ** Frames on the wire *)

(** The three encodings of a length: seven bits, or 16 or 64 bits behind a mark. *)
Inductive length_form := Short | Medium | Long.
Record frame := mkFrame { f_byte : Z; f_form : length_form; f_mask : option bytes; f_data : bytes }.

Definition f_opcode (f : frame) : Z := Z.land (f_byte f) 0x0F.
Definition f_fin (f : frame) : bool := negb (Z.land (f_byte f) 0x80 =? 0).

Definition encode_size (form : length_form) (masked : bool) (n : Z) : bytes :=
  let mark v := le_encode 1 ((if masked then 0x80 else 0) + v) in
  match form with
  | Short => mark n
  | Medium => mark 0x7E ++ be_encode 2 n
  | Long => mark 0x7F ++ be_encode 8 n
  end.
Definition encode_frame (f : frame) : bytes :=
  le_encode 1 (f_byte f) ++
  encode_size (f_form f) (bool_decide (is_Some (f_mask f))) (zlen (f_data f)) ++
  match f_mask f with Some key => key ++ apply_mask key (f_data f) | None => f_data f end.

Definition form_ok (form : length_form) (n : Z) : Prop :=
  match form with Short => n <= 0x7D | Medium => n < 2 ^ 16 | Long => True end.
Definition frame_ok (f : frame) : Prop :=
  0 <= f_byte f < 256 /\ form_ok (f_form f) (zlen (f_data f)) /\ zlen (f_data f) < 2 ^ 31 /\
  match f_mask f with Some key => zlen key = 4 | None => True end.

Section Frames.

Lemma zlen_apply_mask key d : zlen (apply_mask key d) = zlen d.
Proof. unfold zlen, apply_mask. by rewrite length_imap. Qed.

Lemma apply_mask_involutive key d : apply_mask key (apply_mask key d) = d.
Proof.
  apply list_eq. intros i. unfold apply_mask. rewrite !list_lookup_imap.
  destruct (d !! i); simpl; [|done]. by rewrite byte_xor_involutive.
Qed.

(** Bytes fetched from the connection and taken off the buffer at once. *)
Lemma fetch {A B} d n (m : ST bytes A) (k : A -> ST (bytes * net) B) a r t :
  zlen d = n -> n < 2 ^ 31 -> m d = (Val a, []) ->
  (spec_read_to n ;;; let! x := on_fst m in k x) ([], Net (d ++ r) t) = k a ([], Net r t).
Proof.
  intros Hn H31 Hm. erewrite bind_Val by by apply spec_read_to_app.
  rewrite app_nil_l. erewrite bind_Val by by apply on_fst_eq. done.
Qed.

Lemma fetch_last {A} d n (m : ST bytes A) a r t :
  zlen d = n -> n < 2 ^ 31 -> m d = (Val a, []) ->
  (spec_read_to n ;;; on_fst m) ([], Net (d ++ r) t) = (Val a, ([], Net r t)).
Proof.
  intros Hn H31 Hm. erewrite bind_Val by by apply spec_read_to_app. by apply on_fst_eq.
Qed.

Lemma mark_size (masked : bool) v :
  0 <= v < 128 ->
  let b := (if masked then 0x80 else 0) + v in
  0 <= b < 256 /\ Z.land b 0x7F = v /\ negb (Z.land b 0x80 =? 0) = masked.
Proof.
  intros Hv b. split; [unfold b; destruct masked; lia|split].
  - change 0x7F with (Z.ones 7). rewrite Z.land_ones by lia. unfold b. change (2 ^ 7) with 128. destruct masked; Z.to_euclidean_division_equations; lia.
  - change 0x80 with (2 ^ 7). rewrite land_pow2_eqb, negb_involutive by lia.
    apply eq_bool_prop_intro. rewrite !Is_true_true, Z.testbit_true by lia.
    unfold b. change (2 ^ 7) with 128. destruct masked; split; intros; try done; [|exfalso]; Z.to_euclidean_division_equations; lia.
Qed.

(** The frame's payload, masked or not. *)
Definition wire_payload (mask : option bytes) (d : bytes) : bytes :=
  match mask with Some key => apply_mask key d | None => d end.

Abbreviation read_payload op mask n :=
  (let! mask_key := (if mask then spec_read_to 4 ;;; on_fst (spec_remove 4) else ret []) in
   spec_read_to n ;;;
   let! frame_payload := on_fst (@remove_string spec_buffer n) in
   ret (op : Z, if mask then apply_mask mask_key frame_payload else frame_payload)).

Lemma read_payload_spec op mask d n r t :
  n = zlen d -> n < 2 ^ 31 -> match mask with Some key => zlen key = 4 | None => True end ->
  read_payload op (bool_decide (is_Some mask)) n
    ([], Net ((default [] mask ++ wire_payload mask d) ++ r) t) = (Val (op, d), ([], Net r t)).
Proof.
  intros Hn H31 Hm. destruct mask as [key|]; cbn [default wire_payload].
  - rewrite bool_decide_true by eauto. rewrite <- app_assoc.
    erewrite bind_Val by (apply fetch_last; [exact Hm|lia|by apply spec_remove_all]).
    erewrite fetch; [|by rewrite zlen_apply_mask|done|apply remove_string_all; [by rewrite zlen_apply_mask|done]].
    unfold ret. by rewrite apply_mask_involutive.
  - rewrite bool_decide_false by (by intros [? ?]). rewrite app_nil_l.
    erewrite bind_Val by done.
    erewrite fetch; [done|done|done|by apply remove_string_all].
Qed.

(** The bytes of a size behind the mark, and the value the code makes of them. *)
Definition size_mark (form : length_form) (n : Z) : Z :=
  match form with Short => n | Medium => 0x7E | Long => 0x7F end.
Definition size_rest (form : length_form) (n : Z) : bytes :=
  match form with Short => [] | Medium => be_encode 2 n | Long => be_encode 8 n end.

Lemma encode_size_parts form masked n :
  encode_size form masked n =
  le_encode 1 ((if masked then 0x80 else 0) + size_mark form n) ++ size_rest form n.
Proof. destruct form; cbn [size_rest]; by rewrite ?app_nil_r. Qed.

Lemma read_size_spec form n r t :
  0 <= n < 2 ^ 31 -> form_ok form n ->
  (if size_mark form n =? 0x7F then spec_read_to 8 ;;; on_fst (@remove_u64b spec_buffer)
   else if size_mark form n =? 0x7E then spec_read_to 2 ;;; on_fst (@remove_u16b spec_buffer)
   else ret (size_mark form n)) ([], Net (size_rest form n ++ r) t) = (Val n, ([], Net r t)).
Proof.
  intros Hn Hf. destruct form; cbn [size_mark size_rest form_ok] in *.
  - destruct (Z.eqb_spec n 0x7F), (Z.eqb_spec n 0x7E); try lia. done.
  - apply fetch_last; [apply zlen_be_encode|lia|]. unfold remove_u16b, remove_T.
    erewrite bind_Val by (apply spec_remove_all; [apply zlen_be_encode|lia]).
    by rewrite be_decode_encode_small by lia.
  - apply fetch_last; [apply zlen_be_encode|lia|]. unfold remove_u64b, remove_T.
    erewrite bind_Val by (apply spec_remove_all; [apply zlen_be_encode|lia]).
    by rewrite be_decode_encode_small by lia.
Qed.

Lemma read_frame_spec f r t :
  frame_ok f ->
  @read_frame spec_buffer net spec_socket ([], Net (encode_frame f ++ r) t) =
  (Val (f_byte f, f_data f), ([], Net r t)).
Proof.
  intros (Hb & Hform & Hl & Hm). pose proof (zlen_nonneg (f_data f)).
  set (masked := bool_decide (is_Some (f_mask f))). set (n := zlen (f_data f)) in *.
  assert (0 <= size_mark (f_form f) n < 128) as Hs by (destruct (f_form f); simpl in *; lia).
  destruct (mark_size masked _ Hs) as (Hb2 & Hland & Hmask).
  set (b2 := (if masked then 0x80 else 0) + size_mark (f_form f) n) in *.
  assert (encode_frame f ++ r = (le_encode 1 (f_byte f) ++ le_encode 1 b2) ++ size_rest (f_form f) n ++
    (default [] (f_mask f) ++ wire_payload (f_mask f) (f_data f)) ++ r) as ->.
  { unfold encode_frame. rewrite encode_size_parts, <- !app_assoc. fold n masked b2.
    by destruct (f_mask f); simpl; rewrite <- ?app_assoc. }
  unfold read_frame.
  erewrite bind_Val by (apply (spec_read_to_app 2 []); [done|lia]). rewrite app_nil_l.
  erewrite bind_Val by (apply on_fst_eq; by apply remove_u8_spec).
  erewrite bind_Val by (apply on_fst_eq; rewrite <- (app_nil_r (le_encode 1 b2)); by apply remove_u8_spec).
  cbv zeta. rewrite Hland, Hmask.
  erewrite bind_Val by (apply read_size_spec; [lia|done]).
  by apply (read_payload_spec (f_byte f) (f_mask f) (f_data f) n).
Qed.

(** What [write] sends: one unmasked final frame, its size as short as possible. *)
Definition sent_form (n : Z) : length_form :=
  if 0xFFFF <? n then Long else if 0x7D <? n then Medium else Short.
Definition sent_frame (opcode : Z) (data : bytes) : frame :=
  mkFrame (Z.lor 0x80 (Z.land opcode 0x0F)) (sent_form (zlen data)) None data.

Abbreviation send_size data_size :=
  (if 0xFFFF <? data_size then
     on_fst (@add_u8 spec_buffer 0x7F) ;;; on_fst (@add_u64b spec_buffer data_size)
   else if 0x7D <? data_size then
     on_fst (@add_u8 spec_buffer 0x7E) ;;; on_fst (@add_u16b spec_buffer (u16 data_size))
   else on_fst (@add_u8 spec_buffer data_size)).

Lemma send_size_spec n b (s : bytes * net) :
  0 <= n -> send_size n (b, s) = (Val tt, (b ++ encode_size (sent_form n) false n, s)).
Proof.
  intros Hn. unfold sent_form. unfold add_u8, add_u64b, add_u16b, add_T, u16.
  destruct (Z.ltb_spec 0xFFFF n); [|destruct (Z.ltb_spec 0x7D n)]; unfold bind, on_fst, focus;
    cbn [buf_add spec_buffer]; unfold spec_add, modify; cbn [fst snd encode_size]; rewrite <- ?app_assoc;
    [done| |done].
  rewrite Z.mod_small by lia. done.
Qed.

Lemma zlen_encode_frame f : 2 <= zlen (encode_frame f).
Proof.
  unfold encode_frame. rewrite !zlen_app, encode_size_parts, zlen_app, !zlen_le_encode.
  pose proof (zlen_nonneg (size_rest (f_form f) (zlen (f_data f)))).
  match goal with |- context [zlen (match f_mask f with _ => _ end)] =>
    pose proof (zlen_nonneg (match f_mask f with Some key => key ++ apply_mask key (f_data f)
                             | None => f_data f end)) end. lia.
Qed.

Lemma write_data_spec data opcode w :
  zlen data < 2 ^ 62 ->
  @write_data spec_buffer net spec_socket data opcode w =
  (Val tt, Net (rx w) (tx w ++ encode_frame (sent_frame opcode data))).
Proof.
  intros Hl. pose proof (zlen_nonneg data).
  assert (zlen (encode_frame (sent_frame opcode data)) < 2 ^ 63) as Hf.
  { unfold encode_frame. rewrite !zlen_app, encode_size_parts, zlen_app, !zlen_le_encode.
    cbn [sent_frame f_data f_form f_mask f_byte].
    assert (zlen (size_rest (sent_form (zlen data)) (zlen data)) <= 8).
    { destruct (sent_form _); simpl; rewrite ?zlen_be_encode; done. } lia. }
  unfold write_data. erewrite bind_Val by done. unfold with_local.
  erewrite bind_Val by by apply on_fst_eq. rewrite app_nil_l. unfold write_buffer.
  erewrite bind_Val by by apply on_fst_eq. erewrite bind_Val by done. unfold with_local.
  erewrite bind_Val by by apply on_fst_eq. rewrite app_nil_l.
  erewrite bind_Val by by apply send_size_spec.
  erewrite bind_Val by done.
  unfold on_13, focus. cbn [fst snd buf_write spec_socket].
  set (f := sent_frame opcode data) in *.
  assert (spec_write ((le_encode 1 (Z.lor 128 (Z.land opcode 15)) ++
      encode_size (sent_form (zlen data)) false (zlen data)) ++ data, w) =
    (Val tt, ([], Net (rx w) (tx w ++ encode_frame f)))) as ->; [|done].
  rewrite <- app_assoc. apply (spec_write_nonempty (encode_frame f)).
  pose proof (zlen_encode_frame f). lia.
Qed.

(** ** Messages: what a list of frames means

    A control frame has the high bit of its opcode set; a ping is answered with
    a pong of the same data and a close with a close; data frames are put
    together until one is final. [receive] answers the message or the error,
    the frames sent and the frames left; [None] when the frames end before. *)
Definition wire (fs : list frame) : bytes := concat (map encode_frame fs).

Definition receive1 (msg : WebsocketMessage) (f : frame)
    : out (WebsocketMessage + WebsocketMessage) * list frame :=
  let op := f_opcode f in
  if 8 <=? op then
    if op =? 10 then (Val (inl msg), [])
    else if op =? 9 then (Val (inl msg), [sent_frame 10 (f_data f)])
    else if op =? 8 then (Exn client_disconnected, [sent_frame 8 (f_data f)])
    else (Exn unrecognized_control, [])
  else if bool_decide (m_opcode msg = 0 <-> op = 0) then (Exn invalid_opcode, [])
  else
    let msg' := mkMessage (if op =? 0 then m_opcode msg else op) (m_data msg ++ f_data f) in
    (Val (if f_fin f then inr msg' else inl msg'), []).

Fixpoint receive (msg : WebsocketMessage) (fs : list frame)
    : option (out WebsocketMessage * list frame * list frame) :=
  match fs with
  | [] => None
  | f :: fs =>
    match receive1 msg f with
    | (Val (inl msg'), sent) =>
        match receive msg' fs with
        | Some (o, sent', unread) => Some (o, sent ++ sent', unread)
        | None => None
        end
    | (Val (inr msg'), sent) => Some (Val msg', sent, fs)
    | (Exn e, sent) => Some (Exn e, sent, fs)
    | (Undef, sent) => Some (Undef, sent, fs)
    | (NoFuel, sent) => Some (NoFuel, sent, fs)
    end
  end.

Lemma control_bit op : 0 <= op < 16 -> negb (Z.land op 8 =? 0) = (8 <=? op).
Proof.
  intros H. assert (forallb (fun n => Bool.eqb (negb (Z.land (Z.of_nat n) 8 =? 0)) (8 <=? Z.of_nat n))
    (seq 0 16) = true) as Hall by reflexivity.
  rewrite forallb_forall in Hall. specialize (Hall (Z.to_nat op)).
  rewrite Z2Nat.id in Hall by lia. apply eqb_prop, Hall, in_seq. lia.
Qed.

Lemma f_opcode_range f : 0 <= f_opcode f < 16.
Proof. unfold f_opcode. change 15 with (Z.ones 4). rewrite Z.land_ones by lia. by apply Z.mod_pos_bound. Qed.

Lemma opcode_clash a b : Bool.eqb (a =? 0) (b =? 0) = bool_decide (a = 0 <-> b = 0).
Proof.
  destruct (Z.eqb_spec a 0), (Z.eqb_spec b 0); symmetry; cbn [Bool.eqb];
    (apply bool_decide_true; tauto) || (apply bool_decide_false; tauto).
Qed.

Lemma read_step_spec msg f r t :
  frame_ok f ->
  @read_step spec_buffer net spec_socket msg ([], Net (encode_frame f ++ r) t) =
  (fst (receive1 msg f), ([], Net r (t ++ wire (snd (receive1 msg f))))).
Proof.
  intros Hf. unfold read_step. erewrite bind_Val by by apply read_frame_spec.
  cbv beta iota zeta. change (Z.land (f_byte f) 15) with (f_opcode f).
  rewrite control_bit, opcode_clash by apply f_opcode_range. unfold receive1. cbv zeta.
  assert (forall op, on_snd (@write_data spec_buffer net spec_socket (f_data f) op) ([] : bytes, Net r t) =
    (Val tt, ([], Net r (t ++ wire [sent_frame op (f_data f)])))) as Hw.
  { intros op. apply (on_snd_eq _ (@nil byte)). rewrite write_data_spec by (destruct Hf as (_ & _ & ? & _); lia).
    unfold wire. simpl. by rewrite app_nil_r. }
  destruct (8 <=? f_opcode f).
  - destruct (Z.eqb_spec (f_opcode f) 10); [simpl; by rewrite app_nil_r|].
    destruct (Z.eqb_spec (f_opcode f) 8) as [->|]; [by erewrite bind_Val by apply Hw|].
    destruct (Z.eqb_spec (f_opcode f) 9); [by erewrite bind_Val by apply Hw|].
    simpl. by rewrite app_nil_r.
  - destruct (bool_decide _); [simpl; by rewrite app_nil_r|]. fold (f_fin f).
    destruct (f_opcode f =? 0), (f_fin f); simpl; by rewrite app_nil_r.
Qed.

Lemma receive_read fs msg o sent unread r t :
  Forall frame_ok fs -> zlen (wire fs ++ r) < 2 ^ 63 -> receive msg fs = Some (o, sent, unread) ->
  loop (@read_step spec_buffer net spec_socket) read_fuel msg ([], Net (wire fs ++ r) t) =
  (o, ([], Net (wire unread ++ r) (t ++ wire sent))).
Proof.
  intros Hok Hlen Hrec.
  assert (forall x : out WebsocketMessage * (bytes * net),
    x.1 = o /\ x.2 = ([], Net (wire unread ++ r) (t ++ wire sent)) ->
    x = (o, ([], Net (wire unread ++ r) (t ++ wire sent)))) as Hpair
    by (intros [? ?] [? ?]; simpl in *; by subst).
  apply Hpair. apply (loop_rule _
    (fun m (s : bytes * net) => exists fs0 sent0 sent1, Forall frame_ok fs0 /\
       s = ([], Net (wire fs0 ++ r) (t ++ wire sent0)) /\ receive m fs0 = Some (o, sent1, unread) /\
       sent = sent0 ++ sent1)
    (fun _ s => length (rx s.2))
    (fun o' s => o' = o /\ s = ([], Net (wire unread ++ r) (t ++ wire sent)))).
  - clear. intros m s ([|f fs] & sent0 & sent1 & Hok & -> & Hrec & ->); [done|].
    unfold wire at 1. cbn [map concat]. fold (wire fs). rewrite <- app_assoc.
    rewrite read_step_spec by (by inversion Hok). cbn [receive] in Hrec.
    assert (forall a b, wire a ++ wire b = wire (a ++ b)) as Hwire
      by (intros; unfold wire; by rewrite map_app, concat_app).
    rewrite <- app_assoc, Hwire.
    destruct (receive1 m f) as [[[m'|m']|e| |] sent2]; cbn [fst snd];
      try (simplify_eq; done).
    destruct (receive m' fs) as [[[o' sent3] unread']|] eqn:Hr; simplify_eq. split.
    + exists fs, (sent0 ++ sent2), sent3. by rewrite app_assoc; inversion Hok.
    + cbn [rx snd]. unfold wire; cbn [map concat]; rewrite !length_app.
      pose proof (zlen_encode_frame f). unfold zlen in *. lia.
  - exists fs, [], sent. split_and!; [done|simpl; by rewrite app_nil_r|done|done].
  - unfold zlen in Hlen. cbn [rx snd]. unfold read_fuel. lia.
Qed.
End Frames.

(** ** Fragmented messages *)

Section Fragments.

Definition is_data (f : frame) : bool := f_opcode f <? 8.
Definition is_ping (f : frame) : bool := f_opcode f =? 9.
Definition is_pong (f : frame) : bool := f_opcode f =? 10.
Definition pong_for (f : frame) : frame := sent_frame 10 (f_data f).

(** The frames of a message: data frames of which the last one is final and only
    the first one names the message's opcode, with pings and pongs in between. *)
Definition fragments (op : Z) (fs : list frame) (final : frame) : Prop :=
  Forall (fun f => is_data f || is_ping f || is_pong f = true) fs /\
  Forall (fun f => is_data f = true -> f_fin f = false) fs /\
  is_data final = true /\ f_fin final = true /\
  exists n, map f_opcode (List.filter is_data (fs ++ [final])) = op :: repeat 0 n.

(** The opcode the next fragment of [msg] has, in a message of opcode [op]. *)
Definition next_opcode (msg : WebsocketMessage) (op : Z) : Z := if m_opcode msg =? 0 then op else 0.
Definition extend (msg : WebsocketMessage) (op : Z) (f : frame) : WebsocketMessage :=
  mkMessage op (m_data msg ++ f_data f).

Lemma receive1_data msg op f :
  0 < op -> is_data f = true -> m_opcode msg = 0 \/ m_opcode msg = op ->
  f_opcode f = next_opcode msg op ->
  receive1 msg f = (Val (if f_fin f then inr (extend msg op f) else inl (extend msg op f)), []).
Proof.
  unfold is_data, next_opcode, receive1, extend. intros Hop Hd%Z.ltb_lt Hm Hf. cbv zeta.
  destruct (Z.leb_spec 8 (f_opcode f)); [lia|].
  destruct (Z.eqb_spec (m_opcode msg) 0); rewrite bool_decide_false by lia;
    destruct (Z.eqb_spec (f_opcode f) 0); try lia; do 2 f_equal.
  - by rewrite Hf.
  - by destruct Hm as [?| ->].
Qed.

Lemma receive1_control msg f :
  is_data f = false -> is_ping f || is_pong f = true ->
  receive1 msg f = (Val (inl msg), map pong_for (List.filter is_ping [f])).
Proof.
  unfold is_data, is_ping, is_pong, receive1. intros Hd%Z.ltb_ge Hc. cbv zeta.
  destruct (Z.leb_spec 8 (f_opcode f)); [|lia]. cbn [List.filter]. unfold is_ping.
  destruct (Z.eqb_spec (f_opcode f) 10), (Z.eqb_spec (f_opcode f) 9); try lia; try done.
Qed.

Lemma receive_fragments op fs final unread : forall msg n,
  0 < op -> m_opcode msg = 0 \/ m_opcode msg = op ->
  Forall (fun f => is_data f || is_ping f || is_pong f = true) fs ->
  Forall (fun f => is_data f = true -> f_fin f = false) fs ->
  is_data final = true -> f_fin final = true ->
  map f_opcode (List.filter is_data (fs ++ [final])) = next_opcode msg op :: repeat 0 n ->
  receive msg (fs ++ final :: unread) =
  Some (Val (mkMessage op (m_data msg ++ concat (map f_data (List.filter is_data (fs ++ [final]))))),
        map pong_for (List.filter is_ping fs), unread).
Proof.
  induction fs as [|f fs IH]; intros msg n Hop Hm Hk Hfin Hd Hf Hc; cbn [app receive].
  - cbn [app List.filter] in *. rewrite Hd in *. cbn [map concat] in *. injection Hc as Hc _.
    rewrite (receive1_data _ op), Hf by done. by rewrite app_nil_r.
  - apply Forall_cons in Hk as [Hkf Hk]. apply Forall_cons in Hfin as [Hff Hfin].
    cbn [app List.filter] in Hc |- *. destruct (is_data f) eqn:Hdf.
    + cbn [map concat] in *. injection Hc as Hc Hrest.
      rewrite (receive1_data _ op), Hff by done.
      assert (is_ping f = false) as Hp by (unfold is_data, is_ping in *; lia).
      destruct n as [|n].
      { exfalso. rewrite List.filter_app in Hrest. cbn [List.filter] in Hrest. rewrite Hd in Hrest.
        by destruct (List.filter is_data fs). }
      rewrite (IH _ n); try done; [|by right|].
      * cbn [app extend m_data]. by rewrite Hp, <- app_assoc.
      * rewrite Hrest. unfold next_opcode. cbn [extend m_opcode].
        by destruct (Z.eqb_spec op 0); [lia|].
    + rewrite receive1_control by (by rewrite ?Hdf in Hkf).
      rewrite (IH _ n) by done. cbn [List.filter map].
      by destruct (is_ping f).
Qed.
End Fragments.

(** ** Properties: any lawful buffer and connection *)

Lemma sent_byte op : 0 <= op < 16 ->
  Z.lor 0x80 (Z.land op 0x0F) = 128 + op.
Proof.
  intros H. change 0x80 with (Z.shiftl 1 7). change 0x0F with (Z.ones 4).
  rewrite Z.land_ones, Z.mod_small by lia. rewrite lor_shiftl_add by lia. by vm_compute (Z.shiftl 1 7).
Qed.

Lemma sent_opcode op data : 0 <= op < 16 -> f_opcode (sent_frame op data) = op.
Proof.
  intros H. unfold f_opcode. cbn [f_byte sent_frame]. rewrite sent_byte by done.
  change 0x0F with (Z.ones 4). rewrite Z.land_ones by lia. change (2 ^ 4) with 16.
  Z.to_euclidean_division_equations. lia.
Qed.

Lemma sent_fin op data : 0 <= op < 16 -> f_fin (sent_frame op data) = true.
Proof.
  intros H. unfold f_fin. cbn [f_byte sent_frame]. rewrite sent_byte by done.
  by destruct (mark_size true op) as (_ & _ & ?); [lia|].
Qed.

Lemma sent_frame_ok op data : 0 <= op < 16 -> zlen data < 2 ^ 31 -> frame_ok (sent_frame op data).
Proof.
  intros H Hl. unfold frame_ok. cbn [f_byte f_form f_data f_mask sent_frame].
  rewrite sent_byte by done. split_and!; try lia; try done.
  unfold sent_form. destruct (Z.ltb_spec 0xFFFF (zlen data)); [done|].
  destruct (Z.ltb_spec 0x7D (zlen data)); simpl; lia.
Qed.

Lemma zlen_sent_frame op data : zlen (encode_frame (sent_frame op data)) <= 10 + zlen data.
Proof.
  unfold encode_frame. rewrite !zlen_app, encode_size_parts, zlen_app, !zlen_le_encode.
  cbn [sent_frame f_data f_form f_mask f_byte].
  assert (zlen (size_rest (sent_form (zlen data)) (zlen data)) <= 8); [|lia].
  destruct (sent_form _); simpl; rewrite ?zlen_be_encode; done.
Qed.

Section Properties.
Context {O : BufferOps} {L : BufferLaws O} {W : Type} {SO : SocketOps W}
  {R : W -> net -> Prop} {SL : SocketLaws SO R}.

Lemma receive_defined fs : forall msg o sent unread,
  receive msg fs = Some (o, sent, unread) -> o <> Undef.
Proof.
  induction fs as [|f fs IH]; intros msg o sent unread; cbn [receive]; [done|].
  destruct (receive1 msg f) as [[[m'|m']|e| |] sent2] eqn:H1; try (intros; by simplify_eq).
  - destruct (receive m' fs) as [[[o' sent3] u]|] eqn:Hr; intros; simplify_eq. by eapply IH.
  - exfalso. unfold receive1 in H1. cbv zeta in H1. by repeat case_match.
Qed.

Lemma read_delivers fs o sent unread r t w :
  Forall frame_ok fs -> zlen (wire fs ++ r) < 2 ^ 63 ->
  receive WebsocketMessage_new fs = Some (o, sent, unread) ->
  R w (Net (wire fs ++ r) t) ->
  delivers lib_failure (Rprod eq R) read ([], w) o ([], Net (wire unread ++ r) (t ++ wire sent)).
Proof.
  intros Hok Hl Hr HR.
  eapply refines_delivers with (s' := ([], Net (wire fs ++ r) t));
    [apply read_refines|by split|by apply receive_read|by eapply receive_defined].
Qed.

(** C32: on any frames, [read] does what [receive] says of them: it answers the
    message the data frames make up or the error of the first frame that does
    not fit, pongs every ping and echoes a close on the way, and leaves the
    connection at the frame behind, whatever the masks and size encodings. *)
Theorem websocket_read_refines fs o sent unread r t w :
  Forall frame_ok fs -> zlen (wire fs ++ r) < 2 ^ 63 ->
  receive WebsocketMessage_new fs = Some (o, sent, unread) ->
  R w (Net (wire fs ++ r) t) ->
  delivers lib_failure (Rprod eq R) read ([], w) o ([], Net (wire unread ++ r) (t ++ wire sent)).
Proof. apply read_delivers. Qed.

(** A message in fragments, with pings and pongs between them, is read as
    the concatenation of its fragments under the opcode of the first one, and
    every ping is answered with its own data, in order. *)
Theorem websocket_reassembles op fs final r t w :
  0 < op -> fragments op fs final -> Forall frame_ok (fs ++ [final]) ->
  zlen (wire (fs ++ [final]) ++ r) < 2 ^ 63 -> R w (Net (wire (fs ++ [final]) ++ r) t) ->
  delivers lib_failure (Rprod eq R) read ([], w)
    (Val (mkMessage op (concat (map f_data (List.filter is_data (fs ++ [final]))))))
    ([], Net r (t ++ wire (map pong_for (List.filter is_ping fs)))).
Proof.
  intros Hop (Hk & Hfin & Hd & Hf & n & Hn) Hok Hl HR.
  apply (read_delivers (fs ++ [final]) _ _ []); try done.
  apply (receive_fragments op _ _ _ WebsocketMessage_new n); try done. by left.
Qed.

(** C33: what [write] sends as a message is read at the other end as that
    message, in each of the three size encodings, and nothing is sent back. *)
Theorem websocket_round_trip data op v w r t w' :
  0 < op < 8 -> zlen data < 2 ^ 31 -> zlen r < 2 ^ 32 -> R w v ->
  let sent := encode_frame (sent_frame op data) in
  R w' (Net (sent ++ r) t) ->
  delivers lib_failure R (write_data data op) w (Val tt) (Net (rx v) (tx v ++ sent)) /\
  delivers lib_failure (Rprod eq R) read ([], w') (Val (mkMessage op data)) ([], Net r t).
Proof.
  intros Hop Hl Hr Hw sent Hw'. split.
  - eapply refines_delivers with (s' := v);
      [apply write_data_refines|done|apply write_data_spec; lia|done].
  - rewrite <- (app_nil_r t).
    apply (read_delivers [sent_frame op data] _ [] []); unfold wire; cbn [map concat].
    + constructor; [apply sent_frame_ok; lia|done].
    + rewrite app_nil_r. fold sent. rewrite zlen_app.
      pose proof (zlen_sent_frame op data). unfold sent. lia.
    + cbn [receive]. rewrite (receive1_data _ op); unfold is_data;
        rewrite ?sent_opcode, ?sent_fin by lia; [done|lia|lia|by left|done].
    + by rewrite app_nil_r.
Qed.

Lemma switching_protocols_size accept :
  zlen (c_str accept) < 2 ^ 30 -> 0 < zlen (switching_protocols accept) < 2 ^ 31.
Proof.
  intros H. pose proof (zlen_nonneg (c_str accept)). unfold switching_protocols. rewrite !zlen_app.
  assert (zlen crlf = 2) as -> by done.
  assert (zlen (str "HTTP/1.1 101 Switching Protocols") = 32) as -> by done.
  assert (zlen (str "Upgrade: websocket") = 18) as -> by done.
  assert (zlen (str "Connection: upgrade") = 19) as -> by done.
  assert (zlen (str "Sec-WebSocket-Accept: ") = 22) as -> by done. lia.
Qed.

(** The key of a request that asks for a websocket. *)
Definition accepts (is_get : bool) (find_header : string -> option bytes) : option bytes :=
  match is_get, find_header "Connection", find_header "Upgrade" with
  | true, Some c, Some u =>
      if strcaseeq c (str "upgrade") && strcaseeq u (str "websocket")
      then find_header "Sec-WebSocket-Key" else None
  | _, _, _ => None
  end.

Lemma enable_websockets_spec sha1 base64 is_get find_header v :
  (forall d, zlen (c_str (base64 (sha1 d))) < 2 ^ 30) ->
  @enable_websockets spec_buffer net spec_socket sha1 base64 is_get find_header v =
  (Val (bool_decide (is_Some (accepts is_get find_header))),
   match accepts is_get find_header with
   | Some key =>
       Net (rx v) (tx v ++ switching_protocols (base64 (sha1 (c_str key ++ websocket_guid))))
   | None => v
   end).
Proof.
  intros Hl.
  unfold enable_websockets, accepts.
  destruct is_get; [|done]. cbn [negb].
  destruct (find_header "Connection") as [c|]; [|done].
  destruct (find_header "Upgrade") as [u|]; [|by destruct (strcaseeq c _)].
  destruct (strcaseeq c _); [|done]. cbn [negb]. destruct (strcaseeq u _); [|done]. cbn [negb andb].
  destruct (find_header "Sec-WebSocket-Key") as [key|]; [|done]. cbv zeta.
  set (reply := switching_protocols _).
  assert (0 < zlen reply < 2 ^ 31) as Hreply by (apply switching_protocols_size, Hl).
  clearbody reply.
  erewrite bind_Val by done. erewrite bind_Val; [done|]. unfold with_local.
  erewrite bind_Val by (apply on_fst_eq, buf_add_printf_spec; lia).
  cbn [buf_write spec_socket]. rewrite app_nil_l. by rewrite spec_write_nonempty by lia.
Qed.

Lemma enable_websockets_delivers sha1 base64 is_get find_header v w :
  (forall d, zlen (c_str (base64 (sha1 d))) < 2 ^ 30) -> R w v ->
  delivers lib_failure R (enable_websockets sha1 base64 is_get find_header) w
    (Val (bool_decide (is_Some (accepts is_get find_header))))
    (match accepts is_get find_header with
     | Some key =>
         Net (rx v) (tx v ++ switching_protocols (base64 (sha1 (c_str key ++ websocket_guid))))
     | None => v
     end).
Proof.
  intros Hl HR. eapply refines_delivers with (s' := v);
    [apply enable_websockets_refines|done|by apply enable_websockets_spec|by destruct (bool_decide _)].
Qed.

(** [enable_websockets] answers a client exactly for a GET request that
    asks for a connection upgrade to "websocket" and carries a key, whatever
    the case of the headers, and then has sent the reply with the accept value
    that key calls for; otherwise it sends nothing. *)
Theorem enable_websockets_handshake sha1 base64 is_get find_header v w :
  (forall d, zlen (c_str (base64 (sha1 d))) < 2 ^ 30) -> R w v ->
  delivers lib_failure R (enable_websockets sha1 base64 is_get find_header) w
    (Val (bool_decide (is_Some (accepts is_get find_header))))
    (match accepts is_get find_header with
     | Some key =>
         Net (rx v) (tx v ++ switching_protocols (base64 (sha1 (c_str key ++ websocket_guid))))
     | None => v
     end).
Proof. apply enable_websockets_delivers. Qed.
End Properties.

(** ** Witnesses: a libevent that moves three bytes at a time *)

Abbreviation small := (@libevent_buffer (chunked 3)).
Abbreviation small_net := (@libevent_socket (chunked 3)).
Abbreviation here := (fun w v : net => w = v).

(** "he" and "llo" in two masked text fragments with a ping between them. *)
Definition sample_key : bytes := [Byte.x01; Byte.xff; Byte.x80; Byte.x42].
Definition sample_fragments : list frame :=
  [mkFrame 0x01 Short (Some sample_key) (str "he"); mkFrame 0x89 Medium None (str "?")].
Definition sample_final : frame := mkFrame 0x80 Long (Some sample_key) (str "llo").

Lemma sample_ok : Forall frame_ok (sample_fragments ++ [sample_final]).
Proof. repeat constructor; vm_compute; congruence. Qed.

Lemma websocket_read_refines_witness :
  let fs := [mkFrame 0x89 Medium None (str "?"); mkFrame 0x88 Short (Some sample_key) []; sample_final] in
  delivers lib_failure (Rprod eq here) (@read small _ small_net) ([], Net (wire fs) [])
    (Exn client_disconnected)
    ([], Net (wire [sample_final]) (wire [sent_frame 10 (str "?"); sent_frame 8 []])).
Proof.
  intros fs.
  apply (websocket_read_refines (O := small) (SO := small_net) (R := here) fs
    (Exn client_disconnected) [sent_frame 10 (str "?"); sent_frame 8 []] [sample_final] [] []
    (Net (wire fs) [])); [|reflexivity|vm_compute; reflexivity|vm_compute; reflexivity].
  repeat constructor; vm_compute; congruence.
Defined.

Lemma websocket_reassembles_witness :
  delivers lib_failure (Rprod eq here) (@read small _ small_net)
    ([], Net (wire (sample_fragments ++ [sample_final])) []) (Val (mkMessage 1 (str "hello")))
    ([], Net [] (wire [sent_frame 10 (str "?")])).
Proof.
  apply (websocket_reassembles (O := small) (SO := small_net) (R := here) 1 sample_fragments sample_final
    [] [] (Net (wire (sample_fragments ++ [sample_final])) [])).
  - lia.
  - split_and!; [..|by exists 1%nat]; repeat constructor; vm_compute; congruence.
  - apply sample_ok.
  - reflexivity.
  - vm_compute. reflexivity.
Defined.

Lemma websocket_round_trip_witness :
  delivers lib_failure here (@write_data small _ small_net (str "hello") 2) (Net [] []) (Val tt)
    (Net [] (encode_frame (sent_frame 2 (str "hello")))) /\
  delivers lib_failure (Rprod eq here) (@read small _ small_net)
    ([], Net (encode_frame (sent_frame 2 (str "hello")) ++ [Byte.x81]) [])
    (Val (mkMessage 2 (str "hello"))) ([], Net [Byte.x81] []).
Proof.
  apply (websocket_round_trip (O := small) (SO := small_net) (R := here) (str "hello") 2
    (Net [] []) (Net [] []) [Byte.x81] []); [lia|reflexivity|reflexivity|reflexivity|reflexivity].
Defined.

Definition sample_headers (name : string) : option bytes :=
  if String.eqb name "Connection" then Some (str "Upgrade")
  else if String.eqb name "Upgrade" then Some (str "WebSocket")
  else if String.eqb name "Sec-WebSocket-Key" then Some (str "dGhlIHNhbXBsZSBub25jZQ==")
  else None.

Lemma enable_websockets_handshake_witness :
  accepts true sample_headers = Some (str "dGhlIHNhbXBsZSBub25jZQ==") /\
  delivers lib_failure here
    (@enable_websockets small _ small_net (ztake 20) (ztake 28) true sample_headers) (Net [] [])
    (Val true) (Net [] (switching_protocols (str "dGhlIHNhbXBsZSBub25j"))).
Proof.
  split; [vm_compute; reflexivity|].
  apply (enable_websockets_handshake (O := small) (SO := small_net) (R := here) (ztake 20) (ztake 28)
    true sample_headers (Net [] []) (Net [] [])); [|reflexivity].
  intros d. pose proof (zlen_c_str (ztake 28 (ztake 20 d))) as H.
  rewrite zlen_ztake in H by done. apply (Z.le_lt_trans _ _ _ H).
  by apply (Z.le_lt_trans _ 28); [apply Z.le_min_l|].
Defined.
