(* ===== verification/Request.v ===== *)
(** * URL parameters of an HTTP request (src/src/Protocols/HTTP/Request.cc)

    [parse_url_params] splits a query at '&' and '=' and decodes every value in
    place: the bytes are written back into the string they are read from, so the
    string is the state and the two offsets are the variables of the loop. *)
From stdpp Require Import tactics base list numbers strings gmap.
From S2P Require Import Prelude Text.

Section Request.
(** phosg's [split(s, delim)] and [value_for_hex_char(ch)]. *)
Context (split : bytes -> byte -> list bytes) (value_for_hex_char : byte -> out Z).

(** [value[i]] of a [std::string]: a NUL at the end, undefined behind it. *)
Definition char_at (i : Z) : ST bytes byte := fun value =>
  (if i <? zlen value then
     match value !! Z.to_nat i with Some c => Val c | None => Undef end
   else if i =? zlen value then Val Byte.x00 else Undef, value).
Definition set_at (i : Z) (c : byte) : ST bytes unit := modify (fun value => <[Z.to_nat i := c]> value).

(** The condition and the body of the loop that decodes a value; [size() - 2]
    is a [size_t]. *)
Definition decode_step (offsets : Z * Z) : ST bytes (Z * Z + Z) :=
  let '(write_offset, read_offset) := offsets in
  let! size := gets zlen in
  if read_offset <? size then
    let! c := char_at read_offset in
    let! read_offset' :=
      (if bool_decide (c = Byte.x25) && (read_offset <? u64 (size - 2)) then
         let! c1 := char_at (read_offset + 1) in
         let! c2 := char_at (read_offset + 2) in
         let! high := of_out (value_for_hex_char c1) in
         let! low := of_out (value_for_hex_char c2) in
         set_at write_offset (byte_of (Z.lor (s8 (Z.shiftl high 4)) (s8 low))) ;;;
         ret (read_offset + 3)
       else
         let! d := char_at write_offset in
         set_at write_offset (if decide (d = Byte.x2b) then Byte.x20 else c) ;;;
         ret (read_offset + 1)) in
    ret (inl (write_offset + 1, read_offset'))
  else ret (inr write_offset).

Definition decode_fuel : positive := 2 ^ 64.

Definition decode_value : ST bytes unit :=
  let! write_offset := loop decode_step decode_fuel (0, 0) in
  modify (ztake write_offset).

(** [find(c)]: what is before and behind the first [c]. *)
Fixpoint find_char (c : byte) (s : bytes) : option (bytes * bytes) :=
  match s with
  | [] => None
  | d :: s =>
      if decide (d = c) then Some ([], s)
      else match find_char c s with Some (h, t) => Some (d :: h, t) | None => None end
  end.

Definition parse_param (it : bytes) : out (bytes * bytes) :=
  match find_char Byte.x3d it with
  | Some (name, value) =>
      match decode_value value with
      | (Val _, value) => Val (name, value)
      | (Exn e, _) => Exn e
      | (Undef, _) => Undef
      | (NoFuel, _) => NoFuel
      end
  | None => Val (it, [])
  end.

Fixpoint parse_params (pieces : list bytes) : out (list (bytes * bytes)) :=
  match pieces with
  | [] => Val []
  | it :: pieces =>
      match parse_param it with
      | Val p => match parse_params pieces with Val ps => Val (p :: ps) | o => o end
      | Exn e => Exn e
      | Undef => Undef
      | NoFuel => NoFuel
      end
  end.

(** The multimap in the order of its insertions; a null query, which libevent
    answers for an URL without one, is dereferenced. *)
Definition parse_url_params (query : option bytes) : out (list (bytes * bytes)) :=
  match query with
  | None => Undef
  | Some query => if decide (c_str query = []) then Val [] else parse_params (split (c_str query) Byte.x26)
  end.

(** [iterate] is the order in which the multimap is walked. *)
Definition parse_url_params_unique (iterate : list (bytes * bytes) -> list (bytes * bytes))
    (query : option bytes) : out (gmap bytes bytes) :=
  match parse_url_params query with
  | Val params =>
      Val (foldl (fun acc '(k, v) => emplace acc k v) ∅ (iterate params))
  | Exn e => Exn e
  | Undef => Undef
  | NoFuel => NoFuel
  end.
End Request.

(** ** Percent-encoding, the reference *)

Section Encoding.
Variable literal : byte -> bool.

Definition escape_byte (c : byte) : bytes :=
  if literal c then [c]
  else [Byte.x25; hex_digit (byte_val c / 16); hex_digit (byte_val c mod 16)].
Definition escape (s : bytes) : bytes := concat (map escape_byte s).
End Encoding.

(** The bytes that mean something else in a query may not be left as they are. *)
Definition literal_ok (literal : byte -> bool) : Prop :=
  literal Byte.x25 = false /\ literal Byte.x2b = false /\ literal Byte.x26 = false /\
  literal Byte.x00 = false.

Definition join_params (ps : list (bytes * bytes)) (literal : byte -> bool) : list bytes :=
  map (fun '(k, v) => k ++ Byte.x3d :: escape literal v) ps.
Fixpoint join (d : byte) (pieces : list bytes) : bytes :=
  match pieces with
  | [] => []
  | [p] => p
  | p :: pieces => p ++ d :: join d pieces
  end.

(** What phosg documents: the value of a hexadecimal digit, and that [split] is
    the inverse of joining pieces that do not contain the delimiter. *)
Definition hex_char_spec (value_for_hex_char : byte -> out Z) : Prop :=
  forall d, 0 <= d < 16 -> value_for_hex_char (hex_digit d) = Val d.
Definition split_spec (split : bytes -> byte -> list bytes) : Prop :=
  forall d pieces, pieces <> [] -> Forall (fun p => d ∉ p) pieces -> split (join d pieces) d = pieces.

Section Decoding.
Context (value_for_hex_char : byte -> out Z) (Hhex : hex_char_spec value_for_hex_char).
Context (literal : byte -> bool) (Hlit : literal_ok literal).
Abbreviation step := (decode_step value_for_hex_char).

Lemma char_at_app i a c b : i = zlen a -> char_at i (a ++ c :: b) = (Val c, a ++ c :: b).
Proof.
  intros ->. unfold char_at. rewrite zlen_app, zlen_cons. pose proof (zlen_nonneg b).
  destruct (Z.ltb_spec (zlen a) (zlen a + (1 + zlen b))); [|lia].
  unfold zlen. by rewrite Nat2Z.id, list_lookup_middle.
Qed.

Lemma char_at_eq i v a c b : v = a ++ c :: b -> i = zlen a -> char_at i v = (Val c, v).
Proof. intros -> ?. by apply char_at_app. Qed.

Lemma set_at_app i a c d b : i = zlen a -> set_at i d (a ++ c :: b) = (Val tt, a ++ d :: b).
Proof.
  intros ->. unfold set_at, modify, zlen. by rewrite Nat2Z.id, insert_app_r_alt, Nat.sub_diag by lia.
Qed.

Lemma hex_digit_range d : 0 <= d < 16 -> hex_digit d <> Byte.x2b /\ hex_digit d <> Byte.x26 /\ hex_digit d <> Byte.x00.
Proof.
  intros H. assert (forallb (fun n => let b := hex_digit (Z.of_nat n) in
    bool_decide (b <> Byte.x2b /\ b <> Byte.x26 /\ b <> Byte.x00)) (seq 0 16) = true) as Hall by (vm_compute; reflexivity).
  rewrite forallb_forall in Hall. specialize (Hall (Z.to_nat d)).
  rewrite Z2Nat.id in Hall by lia. specialize (Hall ltac:(apply in_seq; lia)). cbv zeta in Hall.
  by apply bool_decide_eq_true in Hall.
Qed.

Lemma hex_join c : byte_of (Z.lor (s8 (Z.shiftl (byte_val c / 16) 4)) (s8 (byte_val c mod 16))) = c.
Proof. destruct c; vm_compute; reflexivity. Qed.

Lemma escape_byte_no_plus c : Byte.x2b ∉ escape_byte literal c.
Proof.
  destruct Hlit as (_ & Hp & _). unfold escape_byte. pose proof (byte_val_range c).
  destruct (literal c) eqn:Hc; rewrite ?not_elem_of_cons; split_and!; try by apply not_elem_of_nil.
  - intros <-. congruence.
  - done.
  - apply not_eq_sym, hex_digit_range. Z.to_euclidean_division_equations. lia.
  - apply not_eq_sym, hex_digit_range. by apply Z.mod_pos_bound.
Qed.

(** A round of the loop on a literal byte and on an escaped one. *)
Lemma step_literal v v' w r c x :
  r < zlen v -> char_at r v = (Val c, v) -> char_at w v = (Val x, v) ->
  c <> Byte.x25 -> x <> Byte.x2b -> set_at w c v = (Val tt, v') ->
  step (w, r) v = (Val (inl (w + 1, r + 1)), v').
Proof.
  intros Hr Hc Hx Hc' Hx' Hset. unfold decode_step. erewrite bind_Val by done.
  destruct (Z.ltb_spec r (zlen v)); [|lia]. erewrite bind_Val by exact Hc.
  rewrite bool_decide_false by done. cbn [andb]. erewrite bind_Val; [done|].
  erewrite bind_Val by exact Hx. rewrite decide_False by done. by erewrite bind_Val by exact Hset.
Qed.

Lemma step_escape v v' w r c :
  0 <= r -> r + 3 <= zlen v < 2 ^ 63 -> char_at r v = (Val Byte.x25, v) ->
  char_at (r + 1) v = (Val (hex_digit (byte_val c / 16)), v) ->
  char_at (r + 2) v = (Val (hex_digit (byte_val c mod 16)), v) ->
  set_at w c v = (Val tt, v') ->
  step (w, r) v = (Val (inl (w + 1, r + 3)), v').
Proof.
  intros Hr0 Hr H0 H1 H2 Hset. unfold decode_step. erewrite bind_Val by done.
  destruct (Z.ltb_spec r (zlen v)); [|lia]. erewrite bind_Val by exact H0.
  rewrite bool_decide_true by done.
  assert ((r <? u64 (zlen v - 2)) = true) as -> by (unfold u64; rewrite Z.mod_small; lia).
  pose proof (byte_val_range c). cbn [andb]. erewrite bind_Val; [done|].
  erewrite bind_Val by exact H1. erewrite bind_Val by exact H2.
  erewrite bind_Val by (unfold of_out; rewrite Hhex by (Z.to_euclidean_division_equations; lia); done).
  erewrite bind_Val by (unfold of_out; rewrite Hhex by (by apply Z.mod_pos_bound); done).
  rewrite hex_join. by erewrite bind_Val by exact Hset.
Qed.

Lemma decode_step_spec done mid c s :
  Byte.x2b ∉ mid -> zlen (done ++ mid ++ escape literal (c :: s)) < 2 ^ 63 ->
  exists mid', (Byte.x2b ∉ mid') /\
  zlen ((done ++ [c]) ++ mid' ++ escape literal s) = zlen (done ++ mid ++ escape literal (c :: s)) /\
  step (zlen done, zlen done + zlen mid) (done ++ mid ++ escape literal (c :: s)) =
  (Val (inl (zlen (done ++ [c]), zlen (done ++ [c]) + zlen mid')),
   (done ++ [c]) ++ mid' ++ escape literal s).
Proof.
  intros Hmid Hlen. pose proof (escape_byte_no_plus c) as Hesc.
  change (escape literal (c :: s)) with (escape_byte literal c ++ escape literal s) in *.
  set (es := escape literal s) in *.
  assert (exists x mid', mid ++ escape_byte literal c = (x :: mid')) as (x & mid' & Hx).
  { destruct mid; [|by eexists _, _]. unfold escape_byte. destruct (literal c); by eexists _, _. }
  assert (Byte.x2b ∉ (x :: mid')) as [Hxp Hmid']%not_elem_of_cons
    by (rewrite <- Hx, elem_of_app; tauto).
  exists mid'. split; [done|]. split.
  { apply (f_equal zlen) in Hx. rewrite zlen_app, zlen_cons in Hx.
    rewrite !zlen_app. change (zlen [c]) with 1. lia. }
  remember (done ++ mid ++ escape_byte literal c ++ es) as v eqn:Hv.
  assert (v = done ++ x :: (mid' ++ es)) as Hw by (rewrite Hv; by rewrite (app_assoc mid), Hx).
  assert (set_at (zlen done) c v = (Val tt, (done ++ [c]) ++ mid' ++ es)) as Hset
    by (rewrite Hw, <- app_assoc; by apply set_at_app).
  assert (char_at (zlen done) v = (Val x, v)) as Hcw by by eapply char_at_eq.
  assert (zlen v = zlen done + zlen mid + zlen (escape_byte literal c) + zlen es) as Hsize
    by (rewrite Hv, !zlen_app; lia).
  apply (f_equal zlen) in Hx. rewrite zlen_app, zlen_cons in Hx.
  pose proof (zlen_nonneg es). pose proof (zlen_nonneg done). pose proof (zlen_nonneg mid).
  rewrite !(zlen_app done [c]). change (zlen [c]) with 1. destruct Hlit as (Hpc & _).
  unfold escape_byte in *. destruct (literal c) eqn:Hc.
  - change (zlen [c]) with 1 in *.
    assert (zlen done + 1 + zlen mid' = zlen done + zlen mid + 1) as -> by lia.
    apply (step_literal _ _ _ _ c x); [lia| |exact Hcw|intros ->; congruence|by apply not_eq_sym|exact Hset].
    apply (char_at_eq _ _ (done ++ mid) c es); [by rewrite Hv, <- app_assoc|by rewrite zlen_app].
  - set (h := hex_digit _) in *. set (l := hex_digit (byte_val c mod 16)) in *.
    change (zlen [Byte.x25; h; l]) with 3 in *.
    assert (zlen done + 1 + zlen mid' = zlen done + zlen mid + 3) as -> by lia.
    apply (step_escape _ _ _ _ c); [lia|lia|..|exact Hset].
    + apply (char_at_eq _ _ (done ++ mid) _ (h :: l :: es)); [by rewrite Hv, <- app_assoc|by rewrite zlen_app].
    + apply (char_at_eq _ _ (done ++ mid ++ [Byte.x25]) _ (l :: es));
        [by rewrite Hv, <- !app_assoc|rewrite !zlen_app; change (zlen [_]) with 1; lia].
    + apply (char_at_eq _ _ (done ++ mid ++ [Byte.x25; h]) _ es);
        [by rewrite Hv, <- !app_assoc|rewrite !zlen_app; change (zlen [_; _]) with 2; lia].
Qed.

Lemma decode_value_escape s :
  zlen (escape literal s) < 2 ^ 63 ->
  decode_value value_for_hex_char (escape literal s) = (Val tt, s).
Proof.
  intros Hlen. unfold decode_value.
  assert (exists v, loop step decode_fuel (0, 0) (escape literal s) = (Val (zlen s), s ++ v)) as [v Hv].
  2: { erewrite bind_Val by exact Hv. unfold modify. by rewrite ztake_app. }
  assert (forall x : out Z * bytes, x.1 = Val (zlen s) /\ (exists v, x.2 = s ++ v) ->
    exists v, x = (Val (zlen s), s ++ v)) as Hpair
    by (intros [? ?] [? [v ?]]; simpl in *; exists v; by subst).
  apply Hpair. apply (loop_rule step
    (fun o v => exists done mid s', (Byte.x2b ∉ mid) /\ v = done ++ mid ++ escape literal s' /\
       o = (zlen done, zlen done + zlen mid) /\ done ++ s' = s /\ zlen v < 2 ^ 63)
    (fun o v => Z.to_nat (2 ^ 63 - o.1)) (fun o v => o = Val (zlen s) /\ exists v', v = s ++ v')).
  - intros o v (done & mid & [|c s'] & Hmid & -> & -> & <- & Hl).
    + unfold decode_step. erewrite bind_Val by done. rewrite (app_nil_r done), !zlen_app.
      change (zlen (escape literal [])) with 0.
      destruct (Z.ltb_spec (zlen done + zlen mid) (zlen done + (zlen mid + 0))); [lia|].
      split; [done|]. by eexists.
    + destruct (decode_step_spec done mid c s' Hmid Hl) as (mid' & Hmid' & Hsize & ->). split.
      * exists (done ++ [c]), mid', s'. split_and!; try done; [by rewrite <- app_assoc|lia].
      * cbn [fst]. rewrite zlen_app. change (zlen [c]) with 1.
        rewrite !zlen_app in Hl. pose proof (zlen_nonneg mid).
        pose proof (zlen_nonneg (escape literal (c :: s'))). lia.
  - exists [], [], s. split_and!; try done. apply not_elem_of_nil.
  - unfold decode_fuel. simpl. lia.
Qed.
End Decoding.

(** ** Properties *)

Section Properties.
Context (split : bytes -> byte -> list bytes) (value_for_hex_char : byte -> out Z).
Context (Hsplit : split_spec split) (Hhex : hex_char_spec value_for_hex_char).

Lemma find_char_app c k v : c ∉ k -> find_char c (k ++ c :: v) = Some (k, v).
Proof.
  induction k as [|d k IH]; intros Hc; cbn [app find_char]; [by rewrite decide_True|].
  apply not_elem_of_cons in Hc as [Hd Hk]. by rewrite decide_False, IH by done.
Qed.

Lemma not_elem_of_join c d pieces :
  c <> d -> Forall (fun p => c ∉ p) pieces -> c ∉ join d pieces.
Proof.
  intros Hcd. induction 1 as [|p [|q pieces] Hp Hps IH]; cbn [join]; [apply not_elem_of_nil|done|].
  rewrite elem_of_app, elem_of_cons. tauto.
Qed.

Lemma escape_avoids literal c v :
  literal_ok literal -> c = Byte.x26 \/ c = Byte.x00 -> c ∉ escape literal v.
Proof.
  intros (_ & _ & Ha & H0) Hc. unfold escape. intros Hin.
  apply list_elem_of_In, in_concat in Hin as (l & Hl & Hin). apply in_map_iff in Hl as (d & <- & _).
  revert Hin. unfold escape_byte. pose proof (byte_val_range d).
  destruct (literal d) eqn:Hd; cbn [In].
  - intros [->|[]]. destruct Hc; congruence.
  - destruct (hex_digit_range (byte_val d / 16)) as (_ & H1 & H2);
      [Z.to_euclidean_division_equations; lia|].
    destruct (hex_digit_range (byte_val d mod 16)) as (_ & H3 & H4); [by apply Z.mod_pos_bound|].
    intros [?|[?|[?|[]]]]; destruct Hc; congruence.
Qed.

(** Parameters whose names need no escape. *)
Definition params_ok (literal : byte -> bool) (ps : list (bytes * bytes)) : Prop :=
  ps <> [] /\
  Forall (fun p => (Byte.x3d ∉ p.1) /\ (Byte.x26 ∉ p.1) /\ (Byte.x00 ∉ p.1) /\
                   zlen (escape literal p.2) < 2 ^ 63) ps.

Lemma parse_params_join literal ps :
  literal_ok literal -> params_ok literal ps ->
  parse_params value_for_hex_char (join_params ps literal) = Val ps.
Proof.
  intros Hlit [_ Hok]. induction Hok as [|[k v] ps (Hk & _ & _ & Hl) _ IH]; [done|].
  cbn [join_params map parse_params fst snd] in *. unfold parse_param. rewrite find_char_app by done.
  rewrite (decode_value_escape _ Hhex literal Hlit v Hl). fold (join_params ps literal). by rewrite IH.
Qed.

Lemma join_params_avoid literal ps c :
  literal_ok literal -> params_ok literal ps -> c = Byte.x26 \/ c = Byte.x00 ->
  Forall (fun p => c ∉ p) (join_params ps literal).
Proof.
  intros Hlit [_ Hok] Hc. unfold join_params. apply Forall_map.
  eapply Forall_impl; [exact Hok|]. intros [k v] (_ & H1 & H2 & _). cbn [fst snd] in *.
  rewrite elem_of_app, elem_of_cons. pose proof (escape_avoids literal c v Hlit Hc).
  destruct Hc as [->| ->]; intuition discriminate.
Qed.

(** C38: a query built from parameters by percent-encoding is parsed back into
    those parameters, whichever bytes the encoder leaves as they are: splitting
    at '&' and '=' and decoding every value in place gives back names and values
    in order. *)
Theorem url_params_round_trip literal ps :
  literal_ok literal -> params_ok literal ps ->
  parse_url_params split value_for_hex_char (Some (join Byte.x26 (join_params ps literal))) = Val ps.
Proof.
  intros Hlit Hok. unfold parse_url_params.
  rewrite c_str_no_nul by (apply not_elem_of_join; [done|by apply join_params_avoid; auto]).
  assert (join_params ps literal <> []) by (destruct Hok as [Hne _]; by destruct ps).
  rewrite decide_False.
  - rewrite Hsplit; [by apply parse_params_join|done|by apply join_params_avoid; auto].
  - destruct ps as [|[k v] [|q ps]]; [by destruct Hok| |]; cbn [join_params map join];
      by destruct k.
Qed.

Lemma hex_4 : value_for_hex_char Byte.x34 = Val 4.
Proof. by apply (Hhex 4). Qed.
Lemma hex_1 : value_for_hex_char Byte.x31 = Val 1.
Proof. by apply (Hhex 1). Qed.

(** The rounds of the loop on "%41++x". *)
Lemma plus_states o v :
  (o, v) ∈ [((0, 0), str "%41++x"); ((1, 3), str "A41++x"); ((2, 4), str "A+1++x");
            ((3, 5), str "A++++x"); ((4, 6), str "A++ +x")] ->
  match decode_step value_for_hex_char o v with
  | (Val (inl o'), v') =>
      (o', v') ∈ [((0, 0), str "%41++x"); ((1, 3), str "A41++x"); ((2, 4), str "A+1++x");
                  ((3, 5), str "A++++x"); ((4, 6), str "A++ +x")] /\
      (Z.to_nat (5 - o'.1) < Z.to_nat (5 - o.1))%nat
  | (Val (inr b), v') => Val b = Val 4 /\ v' = str "A++ +x"
  | (Exn e, v') => Exn e = Val 4 /\ v' = str "A++ +x"
  | (Undef, v') => Undef = Val 4 /\ v' = str "A++ +x"
  | (NoFuel, v') => NoFuel = Val 4 /\ v' = str "A++ +x"
  end.
Proof.
  rewrite !elem_of_cons, elem_of_nil. intros Hs.
  repeat (destruct Hs as [Hs|Hs]; [injection Hs as -> ->;
    unfold decode_step, bind, gets, char_at, of_out, set_at, modify; simpl;
    rewrite ?hex_4, ?hex_1; vm_compute; repeat first [split|left; reflexivity|right|lia] |]); done.
Qed.

(** After an escape the decoder tests for '+' at the offset it writes to,
    not at the one it reads from: a '+' is kept, and a byte further on is turned
    into a blank. "%41++x" decodes to "A++ " where "A  x" is meant. *)
Theorem plus_after_escape_misread :
  decode_value value_for_hex_char (str "%41++x") = (Val tt, str "A++ ").
Proof.
  unfold decode_value.
  assert (forall x : out Z * bytes, x.1 = Val 4 /\ x.2 = str "A++ +x" -> x = (Val 4, str "A++ +x")) as Hpair
    by (intros [? ?] [? ?]; simpl in *; by subst).
  erewrite bind_Val by (apply Hpair; apply (loop_rule (decode_step value_for_hex_char)
    (fun o v => (o, v) ∈ [((0, 0), str "%41++x"); ((1, 3), str "A41++x"); ((2, 4), str "A+1++x");
                          ((3, 5), str "A++++x"); ((4, 6), str "A++ +x")])
    (fun o _ => Z.to_nat (5 - o.1)) (fun o v => o = Val 4 /\ v = str "A++ +x"));
    [intros; by apply plus_states|apply list_elem_of_here|simpl; unfold decode_fuel; lia]).
  done.
Qed.

(** Two queries a client can send are undefined behaviour: none at all (an
    URL without '?'), whose null pointer is dereferenced, and a value that is a
    lone '%', where [size() - 2] wraps around. *)
Theorem url_params_undefined :
  parse_url_params split value_for_hex_char None = Undef /\
  parse_url_params split value_for_hex_char (Some (str "a=%")) = Undef.
Proof.
  split; [done|]. unfold parse_url_params. change (c_str (str "a=%")) with (join Byte.x26 [str "a=%"]).
  rewrite decide_False by done. rewrite Hsplit; [|done|].
  - cbn [parse_params]. unfold parse_param. change (find_char _ _) with (Some (str "a", str "%")).
    by vm_compute (decode_value value_for_hex_char (str "%")).
  - repeat constructor. by apply (bool_decide_unpack _).
Qed.

(** [parse_url_params_unique] keeps for every name the value the multimap
    yields first, in whatever order it is walked, and loses no name. *)
Theorem url_params_unique_first iterate query params :
  (forall l, Permutation (iterate l) l) ->
  parse_url_params split value_for_hex_char query = Val params ->
  exists m, parse_url_params_unique split value_for_hex_char iterate query = Val m /\
    m = list_to_map (iterate params) /\
    (forall k v, m !! k = Some v -> (k, v) ∈ params) /\
    (forall k, is_Some (m !! k) <-> k ∈ params.*1).
Proof.
  intros Hperm Hp. unfold parse_url_params_unique. rewrite Hp.
  exists (list_to_map (iterate params)). rewrite foldl_emplace, map_empty_union.
  split_and!; [done|done|..].
  - intros k v Hk%elem_of_list_to_map_2. by rewrite Hperm in Hk.
  - intros k. rewrite <- elem_of_dom, dom_list_to_map, elem_of_list_to_set. by rewrite (Hperm params).
Qed.
End Properties.

(** ** Witnesses *)

Fixpoint sample_split (s : bytes) (d : byte) : list bytes :=
  match s with
  | [] => [[]]
  | c :: s =>
      if decide (c = d) then [] :: sample_split s d
      else match sample_split s d with p :: ps => (c :: p) :: ps | [] => [[c]] end
  end.
Definition sample_hex (c : byte) : out Z :=
  if is_digit c then Val (byte_val c - 48) else Val (byte_val c - 55).

Lemma sample_split_last d p : d ∉ p -> sample_split p d = [p].
Proof.
  induction p as [|c p IH]; [done|]. intros [Hc Hp]%not_elem_of_cons. cbn [sample_split].
  by rewrite decide_False, IH by congruence.
Qed.

Lemma sample_split_app d p rest : d ∉ p -> sample_split (p ++ d :: rest) d = p :: sample_split rest d.
Proof.
  induction p as [|c p IH]; cbn [app sample_split]; [by rewrite decide_True|].
  intros [Hc Hp]%not_elem_of_cons. by rewrite decide_False, IH by congruence.
Qed.

Lemma sample_split_ok : split_spec sample_split.
Proof.
  intros d pieces Hne Hd. induction Hd as [|p pieces Hp Hps IH]; [done|].
  destruct pieces as [|q pieces]; [by apply sample_split_last|].
  change (join d (p :: q :: pieces)) with (p ++ d :: join d (q :: pieces)).
  rewrite sample_split_app by done. by rewrite IH.
Qed.

Lemma sample_hex_ok : hex_char_spec sample_hex.
Proof.
  intros d Hd. assert (forallb (fun n => match sample_hex (hex_digit (Z.of_nat n)) with
    Val z => z =? Z.of_nat n | _ => false end) (seq 0 16) = true) as Hall by (vm_compute; reflexivity).
  rewrite forallb_forall in Hall. specialize (Hall (Z.to_nat d) ltac:(apply in_seq; lia)).
  rewrite Z2Nat.id in Hall by lia. destruct (sample_hex _); try done.
  by apply Z.eqb_eq in Hall as ->.
Qed.

(** Letters and digits are left as they are. *)
Definition sample_literal (c : byte) : bool := is_digit c || (64 <? byte_val c) && (byte_val c <? 123).
Definition sample_params : list (bytes * bytes) := [(str "q", str "50% & more+"); (str "x", []); (str "q", str "=")].

Lemma url_params_round_trip_witness :
  join Byte.x26 (join_params sample_params sample_literal) =
    str "q=50%25%20%26%20more%2B&x=&q=%3D" /\
  parse_url_params sample_split sample_hex
    (Some (join Byte.x26 (join_params sample_params sample_literal))) = Val sample_params.
Proof.
  split; [reflexivity|].
  apply (url_params_round_trip sample_split sample_hex sample_split_ok sample_hex_ok sample_literal).
  - repeat split.
  - split; [done|]. repeat constructor; by apply (bool_decide_unpack _).
Defined.

Lemma plus_after_escape_misread_witness :
  decode_value sample_hex (str "%41++x") = (Val tt, str "A++ ").
Proof. apply (plus_after_escape_misread sample_hex sample_hex_ok). Defined.

Lemma url_params_undefined_witness :
  parse_url_params sample_split sample_hex None = Undef /\
  parse_url_params sample_split sample_hex (Some (str "a=%")) = Undef.
Proof. apply (url_params_undefined sample_split sample_hex sample_split_ok). Defined.

Lemma url_params_unique_first_witness :
  exists m, parse_url_params_unique sample_split sample_hex (@rev _) (Some (str "a=1&b=2&a=3")) = Val m /\
    m = list_to_map [(str "a", str "3"); (str "b", str "2"); (str "a", str "1")] /\
    (forall k v, m !! k = Some v -> (k, v) ∈ [(str "a", str "1"); (str "b", str "2"); (str "a", str "3")]) /\
    (forall k, is_Some (m !! k) <-> k ∈ [str "a"; str "b"; str "a"]).
Proof.
  apply (url_params_unique_first sample_split sample_hex (@rev _) (Some (str "a=1&b=2&a=3"))
    [(str "a", str "1"); (str "b", str "2"); (str "a", str "3")]).
  - intros l. symmetry. apply Permutation_rev.
  - vm_compute. reflexivity.
Defined.
