(* ===== verification/Dns.v ===== *)
(** * Name resolution (src/src/DNSBase.hh, DNSBase.cc)

    The awaiters of [DNSBase]: a request is started when the coroutine is
    suspended, and evdns calls back at most once with an answer. evdns is not part
    of the repository; whether it starts a request, and its answer, are arguments. *)
From stdpp Require Import tactics base list numbers strings.
From S2P Require Import Prelude.

(** The constants of event2/dns.h. *)
Definition DNS_ERR_NONE : Z := 0.
Definition DNS_IPv4_A : Z := 1.
Definition DNS_PTR : Z := 2.
Definition DNS_IPv6_AAAA : Z := 3.

(** The arguments of the callback; [addresses] is the array behind the pointer. *)
Record answer (Raw : Type) := mkAnswer {
  an_result : Z; an_type : Z; an_count : Z; an_ttl : Z; an_addresses : list Raw
}.
Arguments mkAnswer {Raw}.
Arguments an_result {Raw}.
Arguments an_type {Raw}.
Arguments an_count {Raw}.
Arguments an_ttl {Raw}.
Arguments an_addresses {Raw}.

(** Members that are not set are [None]. *)
Record LookupResult (A : Type) := mkResult {
  result_code : option Z; ttl : option Z; results : list A
}.
Arguments mkResult {A}.
Arguments result_code {A}.
Arguments ttl {A}.
Arguments results {A}.
Definition LookupResult_new {A} : LookupResult A := mkResult None None [].

(** An awaiter, with the coroutines it has resumed. *)
Record LookupAwaiter (A : Type) := mkAwaiter {
  aw_complete : bool; aw_coro : option nat; aw_result : LookupResult A; aw_resumed : list nat
}.
Arguments mkAwaiter {A}.
Arguments aw_complete {A}.
Arguments aw_coro {A}.
Arguments aw_result {A}.
Arguments aw_resumed {A}.
Definition LookupAwaiterBase {A} : LookupAwaiter A := mkAwaiter false None LookupResult_new [].

Definition update_result {A} (f : LookupResult A -> LookupResult A) : ST (LookupAwaiter A) unit :=
  modify (fun aw => mkAwaiter (aw_complete aw) (aw_coro aw) (f (aw_result aw)) (aw_resumed aw)).

(** [results.reserve(count)]: the count is converted to [size_t]. *)
Definition reserve {S} (count : Z) : ST S unit :=
  if count <? 0 then throw (length_error (str "vector::reserve")) else ret tt.

(** What the classes of awaiters differ in: the request, the record type they
    ask for, and how an element of the array becomes a result. *)
Record lookup_class (Raw A : Type) := mkClass {
  lc_type : Z; lc_wrong_type : exn; lc_start_failed : exn; lc_emplace : Raw -> out A
}.
Arguments mkClass {Raw A}.
Arguments lc_type {Raw A}.
Arguments lc_wrong_type {Raw A}.
Arguments lc_start_failed {Raw A}.
Arguments lc_emplace {Raw A}.

(** [std::string(const char* )]: a null pointer is undefined. *)
Definition string_of_ptr (p : option bytes) : out bytes :=
  match p with Some s => Val s | None => Undef end.

(** Addresses are 4 and 16 bytes; host names are pointers to strings. *)
Definition LookupIPv4Awaiter : lookup_class bytes bytes :=
  mkClass DNS_IPv4_A (logic_error (str "IPv4 lookup did not result in A record"))
    (runtime_error (str "evdns_base_resolve_ipv4 failed")) Val.
Definition LookupIPv6Awaiter : lookup_class bytes bytes :=
  mkClass DNS_IPv6_AAAA (logic_error (str "IPv6 lookup did not result in AAAA record"))
    (runtime_error (str "evdns_base_resolve_ipv6 failed")) Val.
Definition LookupReverseIPv4Awaiter : lookup_class (option bytes) bytes :=
  mkClass DNS_PTR (logic_error (str "reverse lookup did not result in PTR record"))
    (runtime_error (str "evdns_base_resolve_reverse failed")) string_of_ptr.
Definition LookupReverseIPv6Awaiter : lookup_class (option bytes) bytes :=
  mkClass DNS_PTR (logic_error (str "reverse lookup did not result in PTR record"))
    (runtime_error (str "evdns_base_resolve_reverse_ipv6 failed")) string_of_ptr.

Section Lookup.
Context {Raw A : Type} (cls : lookup_class Raw A).

(** The loop: [n] more elements from index [x] on. *)
Fixpoint emplace_results (addresses : list Raw) (x n : nat) : ST (LookupAwaiter A) unit :=
  match n with
  | O => ret tt
  | S n =>
      let! addr := of_out (match addresses !! x with Some r => lc_emplace cls r | None => Undef end) in
      update_result (fun r => mkResult (result_code r) (ttl r) (results r ++ [addr])) ;;;
      emplace_results addresses (S x) n
  end.

Definition on_request_complete (an : answer Raw) : ST (LookupAwaiter A) unit :=
  update_result (fun r => mkResult (Some (an_result an)) (ttl r) (results r)) ;;;
  if an_result an =? DNS_ERR_NONE then
    (if negb (an_type an =? lc_type cls) then throw (lc_wrong_type cls) else ret tt) ;;;
    update_result (fun r => mkResult (result_code r) (Some (an_ttl an)) (results r)) ;;;
    reserve (an_count an) ;;;
    emplace_results (an_addresses an) 0 (Z.to_nat (an_count an))
  else ret tt.

Definition dispatch_on_request_complete (an : answer Raw) : ST (LookupAwaiter A) unit :=
  on_request_complete an ;;;
  modify (fun aw => mkAwaiter true (aw_coro aw) (aw_result aw) (aw_resumed aw)) ;;;
  let! aw := get in
  match aw_coro aw with
  | Some coro =>
      put (mkAwaiter (aw_complete aw) (aw_coro aw) (aw_result aw) (aw_resumed aw ++ [coro]))
  | None => undef
  end.

Definition await_ready : ST (LookupAwaiter A) bool := gets aw_complete.
Definition start_request (started : bool) : ST (LookupAwaiter A) unit :=
  if started then ret tt else throw (lc_start_failed cls).
Definition await_suspend (coro : nat) (started : bool) : ST (LookupAwaiter A) unit :=
  modify (fun aw => mkAwaiter (aw_complete aw) (Some coro) (aw_result aw) (aw_resumed aw)) ;;;
  start_request started.
Definition await_resume : ST (LookupAwaiter A) (LookupResult A) := gets aw_result.

(** What becomes of the coroutine: it goes on with a result or with an exception, or
    it stays suspended: evdns has not called back, or did and the callback did not
    resume it, and has returned ([Waiting]) or thrown into libevent ([Escaped]). *)
Inductive lookup_outcome :=
| Answered (r : LookupResult A)
| Thrown (e : exn)
| Waiting
| Escaped (e : exn)
| Undefined.

(** After the callback: the coroutine goes on with [await_resume] if it has been
    resumed. To resume it again, while it is not suspended, is undefined. *)
Definition after_callback (coro : nat) (r : out unit * LookupAwaiter A) : lookup_outcome * LookupAwaiter A :=
  let '(o, aw) := r in
  (match o, filter (eq coro) (aw_resumed aw) with
   | Undef, _ | NoFuel, _ => Undefined
   | Val _, [] => Waiting
   | Exn e, [] => Escaped e
   | Val _, [_] => match await_resume aw with (Val r, _) => Answered r | _ => Undefined end
   | _, _ => Undefined
   end, aw).

(** [co_await aw] in the coroutine [coro]; [an] is what evdns calls back with, at
    most once. An exception out of [await_suspend] is thrown in the coroutine. *)
Definition co_await (aw : LookupAwaiter A) (coro : nat) (started : bool) (an : option (answer Raw))
    : lookup_outcome * LookupAwaiter A :=
  match await_ready aw with
  | (Val true, aw) =>
      match await_resume aw with (Val r, aw) => (Answered r, aw) | (_, aw) => (Undefined, aw) end
  | (_, aw) =>
      match await_suspend coro started aw with
      | (Exn e, aw) => (Thrown e, aw)
      | (Val _, aw) =>
          match an with
          | None => (Waiting, aw)
          | Some an => after_callback coro (dispatch_on_request_complete an aw)
          end
      | (_, aw) => (Undefined, aw)
      end
  end.

Definition co_await_lookup (coro : nat) (started : bool) (an : option (answer Raw)) : lookup_outcome :=
  fst (co_await LookupAwaiterBase coro started an).

(** ** Lemmas *)

Lemma emplace_results_spec addresses l aw : forall n x,
  mapM (fun r => match lc_emplace cls r with Val a => Some a | _ => None end)
    (take n (drop x addresses)) = Some l ->
  (x + n <= length addresses)%nat ->
  emplace_results addresses x n aw =
  (Val tt, mkAwaiter (aw_complete aw) (aw_coro aw)
    (mkResult (result_code (aw_result aw)) (ttl (aw_result aw)) (results (aw_result aw) ++ l))
    (aw_resumed aw)).
Proof.
  intros n. revert l aw. induction n as [|n IH]; intros l aw x Hl Hn.
  - destruct aw as [? ? [] ?]. rewrite take_0 in Hl. injection Hl as <-. simpl. by rewrite app_nil_r.
  - destruct (addresses !! x) as [r|] eqn:Hr; [|apply lookup_ge_None in Hr; lia].
    rewrite (drop_S _ _ _ Hr) in Hl. cbn [take mapM] in Hl.
    destruct (lc_emplace cls r) as [a|e| |] eqn:He; try done. simpl in Hl.
    destruct (mapM _ (take n (drop (S x) addresses))) as [l'|] eqn:Hl'; [|done]. injection Hl as <-.
    simpl. unfold bind. rewrite Hr. unfold of_out. rewrite He. simpl.
    rewrite (IH l' _ (S x) Hl' ltac:(lia)). simpl. by rewrite <- app_assoc.
Qed.
End Lookup.

(** The results an array stands for, if every element has one. *)
Definition answer_results {Raw A} (cls : lookup_class Raw A) (an : answer Raw) : option (list A) :=
  mapM (fun r => match lc_emplace cls r with Val a => Some a | _ => None end) (an_addresses an).

(** The awaiter at the end: whether it is complete, and whom it has resumed. *)
Definition ends_with {A} (r : @lookup_outcome A * LookupAwaiter A) (o : @lookup_outcome A)
    (complete : bool) (resumed : list nat) : Prop :=
  fst r = o /\ aw_complete (snd r) = complete /\ aw_resumed (snd r) = resumed.

Lemma lookup_answered {Raw A} (cls : lookup_class Raw A) coro (an : answer Raw) l :
  an_count an = zlen (an_addresses an) -> answer_results cls an = Some l ->
  let r := co_await cls LookupAwaiterBase coro true (Some an) in
  if negb (an_result an =? DNS_ERR_NONE) then
    ends_with r (Answered (mkResult (Some (an_result an)) None [])) true [coro]
  else if an_type an =? lc_type cls then
    ends_with r (Answered (mkResult (Some DNS_ERR_NONE) (Some (an_ttl an)) l)) true [coro]
  else ends_with r (Escaped (lc_wrong_type cls)) false [].
Proof.
  intros Hc Hl. unfold co_await. cbn [await_ready gets aw_complete LookupAwaiterBase]. cbn.
  assert (filter (eq coro) [coro] = [coro]) as Hf by by rewrite filter_cons_True.
  unfold dispatch_on_request_complete, on_request_complete, bind. simpl.
  destruct (Z.eqb_spec (an_result an) DNS_ERR_NONE) as [He|]; simpl; [|by rewrite Hf].
  destruct (an_type an =? lc_type cls); [|done]. simpl. rewrite Hc. unfold reserve.
  pose proof (zlen_nonneg (an_addresses an)). destruct (Z.ltb_spec (zlen (an_addresses an)) 0); [lia|].
  simpl. unfold zlen. rewrite Nat2Z.id.
  rewrite (emplace_results_spec cls (an_addresses an) l); [simpl; by rewrite Hf, He| |simpl; lia].
  rewrite drop_0, firstn_all. exact Hl.
Qed.

(** C40: a lookup that evdns starts and answers resumes the coroutine, exactly once
    and with the awaiter complete, and the coroutine gets the result code and, on
    success, the time to live and every address of the answer, in order; after an
    error there are no results, and the time to live is uninitialized. If the request
    cannot be started the coroutine gets the exception, and without an answer it
    waits. But an answer of the wrong type throws inside the callback: the exception
    goes into libevent, the awaiter is not complete, and the coroutine is not
    resumed, neither then nor later, since evdns calls back once. *)
Theorem lookup_outcomes {Raw A} (cls : lookup_class Raw A) coro (an : answer Raw) l :
  an_count an = zlen (an_addresses an) -> answer_results cls an = Some l ->
  let r := co_await cls LookupAwaiterBase coro true (Some an) in
  (if negb (an_result an =? DNS_ERR_NONE) then
     ends_with r (Answered (mkResult (Some (an_result an)) None [])) true [coro]
   else if an_type an =? lc_type cls then
     ends_with r (Answered (mkResult (Some DNS_ERR_NONE) (Some (an_ttl an)) l)) true [coro]
   else ends_with r (Escaped (lc_wrong_type cls)) false []) /\
  ends_with (co_await cls LookupAwaiterBase coro false (Some an)) (Thrown (lc_start_failed cls)) false [] /\
  ends_with (co_await cls LookupAwaiterBase coro true None) Waiting false [].
Proof. intros Hc Hl. split; [by apply lookup_answered|done]. Qed.

Lemma lookup_outcomes_witness :
  let an := mkAnswer 0 DNS_PTR 2 300 [Some (str "a.example"); Some (str "b.example")] in
  ends_with (co_await LookupReverseIPv4Awaiter LookupAwaiterBase 1 true (Some an))
    (Answered (mkResult (Some 0) (Some 300) [str "a.example"; str "b.example"])) true [1%nat] /\
  ends_with (co_await LookupReverseIPv4Awaiter LookupAwaiterBase 1 false (Some an))
    (Thrown (lc_start_failed LookupReverseIPv4Awaiter)) false [] /\
  ends_with (co_await LookupReverseIPv4Awaiter LookupAwaiterBase 1 true None) Waiting false [].
Proof.
  exact (lookup_outcomes LookupReverseIPv4Awaiter 1
    (mkAnswer 0 DNS_PTR 2 300 [Some (str "a.example"); Some (str "b.example")])
    [str "a.example"; str "b.example"] eq_refl eq_refl).
Defined.
