(* ===== verification/RangeDns.v ===== *)
(** * Looking up a range of addresses (src/src/Examples/RangeReverseDNS.cc)

    The addresses of a block, one lookup task for each of them under [all_limit],
    and what a lookup prints. The arithmetic of the mask is done in [int]. *)
From stdpp Require Import tactics base list numbers strings gmap sorting.
From S2P Require Import Prelude Text Dns Task.

(** ** The addresses *)

(** [1 << n] of an [int]: defined for 0 to 31, and negative for 31. *)
Definition shl_1 (n : Z) : out Z :=
  if (0 <=? n) && (n <=? 30) then Val (2 ^ n)
  else if n =? 31 then Val (- 2 ^ 31) else Undef.
(** Subtracting one from an [int]. *)
Definition int_pred (v : Z) : out Z := if v =? - 2 ^ 31 then Undef else Val (v - 1).

(** [scope_bits] is a [uint8_t]. *)
Definition range_base (s_addr_base scope_bits : Z) : out Z :=
  match shl_1 (32 - scope_bits) with
  | Val v =>
      match int_pred v with
      | Val p => Val (Z.land s_addr_base (u32 (Z.lnot p)))
      | _ => Undef
      end
  | _ => Undef
  end.
(** The addresses that the loop makes tasks for, in order. *)
Definition range_addresses (s_addr_base scope_bits : Z) : out (list Z) :=
  match range_base s_addr_base scope_bits, shl_1 (32 - scope_bits) with
  | Val base, Val v => Val (map (fun x => u32 (Z.lor base x)) (seqZ 0 (u64 v)))
  | _, _ => Undef
  end.

(** The tasks of the vector, by their index, in the heap of coroutines. *)
Definition lookup_tasks (addresses : list Z) : list nat := seq 0 (length addresses).
Definition lookup_heap (addresses : list Z) : gmap nat (task unit) :=
  list_to_map (map (fun i => (i, task_new tt)) (lookup_tasks addresses)).

(** ** What a lookup prints *)

Definition dotted (s_addr : Z) : bytes :=
  dec (Z.land (Z.shiftr s_addr 24) 0xFF) ++ str "." ++ dec (Z.land (Z.shiftr s_addr 16) 0xFF) ++
  str "." ++ dec (Z.land (Z.shiftr s_addr 8) 0xFF) ++ str "." ++ dec (Z.land s_addr 0xFF).

Fixpoint print_names (is_first : bool) (names : list bytes) : bytes :=
  match names with
  | [] => []
  | name :: names => (if is_first then [] else str ",") ++ name ++ print_names false names
  end.

(** [result_code] and [ttl] are printed as they are; reading one that was never
    set is undefined. *)
Definition print_result (s_addr : Z) (result : LookupResult bytes) : out bytes :=
  match result_code result with
  | None => Undef
  | Some code =>
      let head := dotted s_addr ++ str " => (" ++ dec_signed code ++ str ")" in
      if code =? 0 then
        match ttl result with
        | None => Undef
        | Some t =>
            Val (head ++ str " ttl=" ++ dec_signed t ++ str " [" ++
                 print_names true (results result) ++ str "]" ++ [Byte.x0a])
        end
      else Val (head ++ [Byte.x0a])
  end.

(** The outcome of the task of one address. *)
Definition print_reverse_lookup_result (s_addr : Z) (coro : nat) (started : bool)
    (an : option (answer (option bytes))) : @lookup_outcome bytes + out bytes :=
  match co_await_lookup LookupReverseIPv4Awaiter coro started an with
  | Answered r => inr (print_result s_addr r)
  | o => inl o
  end.

(** ** Lemmas *)

Lemma shl_1_small n : 0 <= n <= 30 -> shl_1 n = Val (2 ^ n).
Proof.
  intros. unfold shl_1. by rewrite (proj2 (Z.leb_le 0 n)), (proj2 (Z.leb_le n 30)) by lia.
Qed.

Lemma pow_30 n : 0 <= n <= 30 -> 1 <= 2 ^ n <= 2 ^ 30.
Proof.
  intros. pose proof (Z.pow_le_mono_r 2 n 30 ltac:(lia) ltac:(lia)).
  pose proof (Z.pow_pos_nonneg 2 n ltac:(lia) ltac:(lia)). lia.
Qed.

(** A block ends within the 32-bit addresses. *)
Lemma block_end base n :
  0 <= base < 2 ^ 32 -> 0 <= n <= 30 -> (base / 2 ^ n + 1) * 2 ^ n <= 2 ^ 32.
Proof.
  intros Hb Hn. pose proof (pow_30 n Hn).
  assert (base / 2 ^ n < 2 ^ (32 - n)) as Hq.
  { apply Z.div_lt_upper_bound; [lia|].
    rewrite <- Z.pow_add_r by lia. replace (n + (32 - n)) with 32 by lia. lia. }
  replace (2 ^ 32) with (2 ^ ((32 - n) + n)) by (f_equal; lia). rewrite Z.pow_add_r by lia. nia.
Qed.

Lemma range_base_spec s_addr_base n :
  0 <= s_addr_base < 2 ^ 32 -> 0 <= n <= 30 ->
  range_base s_addr_base (32 - n) = Val (Z.shiftl (Z.shiftr s_addr_base n) n).
Proof.
  intros Hb Hn. unfold range_base. replace (32 - (32 - n)) with n by lia.
  rewrite shl_1_small by done. unfold int_pred. pose proof (pow_30 n Hn).
  destruct (Z.eqb_spec (2 ^ n) (- 2 ^ 31)); [lia|].
  replace (2 ^ n - 1) with (Z.ones n) by (rewrite Z.ones_equiv; lia).
  unfold u32. rewrite <- Z.land_ones, Z.land_assoc by lia.
  rewrite <- Z.ldiff_land, Z.ldiff_ones_r by lia.
  rewrite Z.land_ones by lia. rewrite Z.mod_small; [done|].
  rewrite Z.shiftl_mul_pow2, Z.shiftr_div_pow2 by lia.
  pose proof (Z.mul_div_le s_addr_base (2 ^ n) ltac:(lia)).
  pose proof (Z.div_pos s_addr_base (2 ^ n) ltac:(lia) ltac:(lia)). nia.
Qed.

Lemma range_addresses_spec s_addr_base n :
  0 <= s_addr_base < 2 ^ 32 -> 0 <= n <= 30 ->
  range_addresses s_addr_base (32 - n) = Val (seqZ (s_addr_base / 2 ^ n * 2 ^ n) (2 ^ n)).
Proof.
  intros Hb Hn. unfold range_addresses. rewrite range_base_spec by done.
  replace (32 - (32 - n)) with n by lia. rewrite shl_1_small by done. pose proof (pow_30 n Hn).
  unfold u64. rewrite Z.mod_small by lia. f_equal.
  rewrite Z.shiftl_mul_pow2, Z.shiftr_div_pow2 by lia.
  pose proof (Z.mul_div_le s_addr_base (2 ^ n) ltac:(lia)).
  pose proof (Z.div_pos s_addr_base (2 ^ n) ltac:(lia) ltac:(lia)).
  set (q := s_addr_base / 2 ^ n) in *.
  transitivity (Z.add (q * 2 ^ n) <$> seqZ 0 (2 ^ n)); [|by rewrite fmap_add_seqZ, Z.add_0_r].
  apply list_fmap_ext. intros i x Hx. apply lookup_seqZ in Hx as [-> Hi].
  rewrite <- Z.shiftl_mul_pow2, lor_shiftl_add by lia. rewrite Z.shiftl_mul_pow2 by lia.
  unfold u32. rewrite Z.mod_small; [lia|].
  pose proof (block_end s_addr_base n Hb Hn) as He. fold q in He. nia.
Qed.

Lemma block_elements a base n :
  0 <= base < 2 ^ 32 -> 0 <= n <= 30 ->
  (base / 2 ^ n * 2 ^ n <= a < base / 2 ^ n * 2 ^ n + 2 ^ n <->
   0 <= a < 2 ^ 32 /\ a / 2 ^ n = base / 2 ^ n).
Proof.
  intros Hb Hn. pose proof (pow_30 n Hn). pose proof (Z.div_pos base (2 ^ n) ltac:(lia) ltac:(lia)).
  pose proof (block_end base n Hb Hn).
  split.
  - intros Ha. split; [nia|]. symmetry. apply Z.div_unique with (a - base / 2 ^ n * 2 ^ n); lia.
  - intros [Ha Hd]. pose proof (Z.div_mod a (2 ^ n) ltac:(lia)).
    pose proof (Z.mod_pos_bound a (2 ^ n) ltac:(lia)). rewrite <- Hd. lia.
Qed.

Lemma lookup_heap_fresh addresses : fresh_range (lookup_heap addresses) (lookup_tasks addresses).
Proof.
  unfold lookup_heap, lookup_tasks. set (l := seq 0 _).
  assert (NoDup l) as Hnd by (apply NoDup_ListNoDup, List.seq_NoDup).
  assert ((map (fun i => (i, task_new tt)) l).*1 = l) as Hfst.
  { rewrite <- list_fmap_compose. by rewrite list_fmap_id. }
  assert (forall i t, (list_to_map (map (fun i => (i, task_new tt)) l) : gmap nat (task unit)) !! i = Some t
            <-> i ∈ l /\ t = task_new tt) as Hl.
  { intros i t. rewrite <- elem_of_list_to_map by by rewrite Hfst.
    rewrite list_elem_of_fmap. split; [intros (? & [= -> ->] & ?); done|intros [? ->]; eauto]. }
  split; [done|]. split.
  - intros p. split; [intros H; exists (task_new tt); by apply Hl|intros [t [H _]%Hl]; done].
  - intros p t [_ ->]%Hl. done.
Qed.

(** ** Properties *)

(** C20: for a block of 2 to 32 bits the program looks up exactly the addresses that
    agree with the given one in these bits, each once; however the lookups end, at
    most [parallelism] of them run at a time, and when the program ends every one
    is done. For other numbers of bits, which the command line does not refuse,
    the arithmetic of the mask is undefined. *)
Theorem range_lookups s_addr_base scope_bits me parallelism :
  0 <= s_addr_base < 2 ^ 32 -> 0 <= scope_bits < 256 ->
  if (2 <=? scope_bits) && (scope_bits <=? 32) then
    exists l, range_addresses s_addr_base scope_bits = Val l /\ NoDup l /\
      (forall a, a ∈ l <-> 0 <= a < 2 ^ 32 /\
         a / 2 ^ (32 - scope_bits) = s_addr_base / 2 ^ (32 - scope_bits)) /\
      limit_reach me parallelism (lookup_heap l) (lookup_tasks l)
        (limit_new (lookup_heap l) (lookup_tasks l)) /\
      forall s, limit_reach me parallelism (lookup_heap l) (lookup_tasks l) s ->
        (forall running, NoDup running ->
           (forall p, p ∈ running -> exists t, ls_heap s !! p = Some t /\
              t_started t = true /\ t_done t = false) ->
           (length running <= parallelism)%nat) /\
        (ls_pc s = Finished -> forall i, (i < length l)%nat -> is_done (ls_heap s) i = true)
  else range_addresses s_addr_base scope_bits = Undef.
Proof.
  intros Hb Hs. destruct (Z.leb_spec 2 scope_bits), (Z.leb_spec scope_bits 32); simpl.
  - pose proof (range_addresses_spec s_addr_base (32 - scope_bits) Hb ltac:(lia)) as Hr.
    replace (32 - (32 - scope_bits)) with scope_bits in Hr by lia.
    pose proof (pow_30 (32 - scope_bits) ltac:(lia)) as Hp. eexists. split; [exact Hr|].
    split; [apply NoDup_seqZ|]. split; [|split].
    + intros a. rewrite elem_of_seqZ. apply block_elements; lia.
    + split; [apply lookup_heap_fresh|apply rtc_refl].
    + intros s Hl. split; [intros running; by apply (limit_reach_running _ _ _ _ _ _ Hl)|].
      intros He i Hi. apply (limit_reach_finished _ _ _ _ _ i Hl He).
      apply list_elem_of_In, List.in_seq. lia.
  - unfold range_addresses, range_base, shl_1.
    destruct (Z.leb_spec 0 (32 - scope_bits)); [lia|]. simpl.
    by destruct (Z.eqb_spec (32 - scope_bits) 31); [lia|].
  - unfold range_addresses, range_base, shl_1.
    destruct (Z.leb_spec 0 (32 - scope_bits)); [|lia].
    destruct (Z.leb_spec (32 - scope_bits) 30); [lia|]. simpl.
    by destruct (Z.eqb_spec (32 - scope_bits) 31).
  - lia.
Qed.

(** Lookups of 192.0.2.0/30. *)
Lemma range_lookups_witness :
  exists l, range_addresses 0xC0000203 30 = Val l /\ NoDup l /\
    (forall a, a ∈ l <-> 0 <= a < 2 ^ 32 /\ a / 2 ^ (32 - 30) = 0xC0000203 / 2 ^ (32 - 30)) /\
    limit_reach 9 2 (lookup_heap l) (lookup_tasks l) (limit_new (lookup_heap l) (lookup_tasks l)) /\
    forall s, limit_reach 9 2 (lookup_heap l) (lookup_tasks l) s ->
      (forall running, NoDup running ->
         (forall p, p ∈ running -> exists t, ls_heap s !! p = Some t /\
            t_started t = true /\ t_done t = false) ->
         (length running <= 2)%nat) /\
      (ls_pc s = Finished -> forall i, (i < length l)%nat -> is_done (ls_heap s) i = true).
Proof. apply (range_lookups 0xC0000203 30 9 2); lia. Defined.

(** What is printed for an answer with names: a line with the address, the code
    and, on success, the time to live and the names in order. A time to live that
    was never set is not read. *)
Lemma print_lookup_answer s_addr coro code life names :
  print_reverse_lookup_result s_addr coro true
    (Some (mkAnswer code DNS_PTR (zlen names) life (map Some names))) =
  inr (Val (dotted s_addr ++ str " => (" ++ dec_signed code ++ str ")" ++
    (if code =? 0 then str " ttl=" ++ dec_signed life ++ str " [" ++ print_names true names ++ str "]"
     else []) ++ [Byte.x0a])).
Proof.
  unfold print_reverse_lookup_result, co_await_lookup.
  pose proof (lookup_answered LookupReverseIPv4Awaiter coro
    (mkAnswer code DNS_PTR (zlen names) life (map Some names)) names) as H.
  cbv zeta in H. cbn [an_result an_type an_ttl an_count an_addresses] in H.
  ospecialize (H _ _).
  { unfold zlen. by rewrite length_map. }
  { clear H. unfold answer_results. cbn [an_addresses]. induction names as [|n names IH]; [done|].
    cbn [map mapM]. by rewrite IH. }
  change (DNS_PTR =? lc_type LookupReverseIPv4Awaiter) with true in H. change DNS_ERR_NONE with 0 in H.
  unfold print_result. destruct (Z.eqb_spec code 0) as [->|Hc]; destruct H as [-> _]; cbn [result_code ttl results Z.eqb];
    [|rewrite (proj2 (Z.eqb_neq code 0) Hc)]; by rewrite <- ?app_assoc.
Qed.
