(* ===== verification/Settings.v ===== *)
(** * Settings of libevent's objects

    The methods of Config.cc, Base.cc, Event.cc, DNSBase.cc, Protocols/HTTP/Connection.cc
    and Protocols/HTTP/Request.cc (src/src) that are one call of libevent each: what
    is passed on, and what the code makes of the answer. libevent is a parameter, as
    is phosg's [usecs_to_timeval]; a C string is the bytes before its NUL. *)
From stdpp Require Import tactics base list numbers strings.
From S2P Require Import Prelude Text.

(** libevent's functions on a configuration, a base, an event, an evdns base, a
    connection and a request. A function that may fail answers an [int] first. *)
Class LibeventSettings := {
  timeval : Type; usecs_to_timeval : Z -> timeval;
  config : Type; event_config_new : option config;
  event_config_avoid_method : bytes -> config -> Z * config;
  event_config_require_features : Z -> config -> Z * config;
  event_config_set_flag : Z -> config -> Z * config;
  event_config_set_num_cpus_hint : Z -> config -> Z * config;
  event_config_set_max_dispatch_interval : timeval -> Z -> Z -> config -> Z * config;
  event_base : Type; event_base_new : option event_base;
  event_base_new_with_config : config -> option event_base;
  event_base_dispatch : event_base -> Z * event_base;
  event_base_dump_events : event_base -> bytes;
  event_cb : Type;                                  (* a callback and its argument *)
  event_base_once : Z -> Z -> event_cb -> option timeval -> event_base -> Z * event_base;
  event : Type; event_get_fd : event -> Z; event_get_events : event -> Z;
  event_add : option timeval -> event -> Z * event;
  event_del : event -> Z * event;
  evdns_base : Type;
  evdns_base_resolv_conf_parse : Z -> bytes -> evdns_base -> Z * evdns_base;
  evdns_base_nameserver_sockaddr_add : bytes -> Z -> Z -> evdns_base -> Z * evdns_base;
  evdns_base_nameserver_ip_add : bytes -> evdns_base -> Z * evdns_base;
  evdns_base_load_hosts : bytes -> evdns_base -> Z * evdns_base;
  evdns_base_clear_nameservers_and_suspend : evdns_base -> Z * evdns_base;
  evdns_base_resume : evdns_base -> Z * evdns_base;
  evdns_base_search_clear : evdns_base -> evdns_base;
  evdns_base_search_add : bytes -> evdns_base -> evdns_base;
  evdns_base_search_ndots_set : Z -> evdns_base -> evdns_base;
  evdns_base_set_option : bytes -> bytes -> evdns_base -> Z * evdns_base;
  evdns_base_count_nameservers : evdns_base -> Z;
  (* the node, the service and the hints; the callback and its argument; null when
     the answer came at once *)
  evdns_getaddrinfo_request : Type; evutil_addrinfo : Type; getaddrinfo_cb : Type;
  evdns_getaddrinfo : option bytes -> option bytes -> option evutil_addrinfo -> getaddrinfo_cb ->
    evdns_base -> option evdns_getaddrinfo_request * evdns_base;
  evdns_getaddrinfo_cancel : evdns_getaddrinfo_request -> evdns_base -> evdns_base;
  evdns_err_to_string : Z -> bytes;
  evhttp_connection : Type;
  evhttp_connection_get_peer : evhttp_connection -> option bytes * Z;
  evhttp_connection_set_local_address : bytes -> evhttp_connection -> evhttp_connection;
  evhttp_connection_set_local_port : Z -> evhttp_connection -> evhttp_connection;
  evhttp_connection_set_max_body_size : Z -> evhttp_connection -> evhttp_connection;
  evhttp_connection_set_max_headers_size : Z -> evhttp_connection -> evhttp_connection;
  evhttp_connection_set_retries : Z -> evhttp_connection -> evhttp_connection;
  evhttp_connection_set_timeout : Z -> evhttp_connection -> evhttp_connection;
  evhttp_request : Type; evhttp_uri : Type; evkeyvalq : Type; evbuffer : Type;
  evhttp_request_get_command : evhttp_request -> Z;
  evhttp_request_get_connection : evhttp_request -> option evhttp_connection;
  evhttp_request_get_evhttp_uri : evhttp_request -> option evhttp_uri;
  evhttp_request_get_host : evhttp_request -> option bytes;
  evhttp_request_get_input_buffer : evhttp_request -> evbuffer;
  evhttp_request_get_output_buffer : evhttp_request -> evbuffer;
  evhttp_request_get_input_headers : evhttp_request -> evkeyvalq;
  evhttp_request_get_output_headers : evhttp_request -> evkeyvalq;
  evhttp_find_header : evkeyvalq -> bytes -> option bytes;
  evhttp_request_get_response_code : evhttp_request -> Z;
  evhttp_request_get_uri : evhttp_request -> option bytes
}.

Section Methods.
Context {L : LibeventSettings}.

(** ** Config *)

Definition Config_ctor : out config :=
  match event_config_new with Some c => Val c | None => Exn bad_alloc end.
Definition avoid_method (method : bytes) : ST config unit :=
  checked "event_config_avoid_method" (event_config_avoid_method method).
Definition require_features (features : Z) : ST config unit :=
  checked "event_config_require_features" (event_config_require_features features).
Definition set_flag (flag : Z) : ST config unit :=
  checked "event_config_set_flag" (event_config_set_flag flag).
Definition set_num_cpus_hint (cpus : Z) : ST config unit :=
  checked "event_config_set_num_cpus_hint" (event_config_set_num_cpus_hint cpus).
Definition set_max_dispatch_interval (max_interval : timeval) (max_callbacks min_priority : Z)
    : ST config unit :=
  checked "event_config_set_max_dispatch_interval"
    (event_config_set_max_dispatch_interval max_interval max_callbacks min_priority).
(** The overload that takes microseconds. *)
Definition set_max_dispatch_interval_usecs (max_interval max_callbacks min_priority : Z)
    : ST config unit :=
  let max_interval_tv := usecs_to_timeval max_interval in
  checked "event_config_set_max_dispatch_interval"
    (event_config_set_max_dispatch_interval max_interval_tv max_callbacks min_priority).

(** ** Base *)

Definition Base_ctor : out event_base :=
  match event_base_new with Some b => Val b | None => Exn bad_alloc end.
Definition Base_ctor_config (config : config) : out event_base :=
  match event_base_new_with_config config with
  | Some b => Val b
  | None => Exn (runtime_error (str "event_base_new_with_config failed"))
  end.
(** [event_base_dispatch] answers 1 when no event is pending: that is no failure. *)
Definition Base_run : ST event_base unit := fun b =>
  let '(rc, b') := event_base_dispatch b in
  if rc <? 0 then (Exn (runtime_error (str "event_base_dispatch failed")), b') else (Val tt, b').
(** [once] of a plain callback; the one of a [std::function] is in BufferRefs.v. *)
Definition Base_once_cb (fd what : Z) (cb : event_cb) (timeout_usecs : Z) : ST event_base unit :=
  let tv := usecs_to_timeval timeout_usecs in
  checked "event_base_once failed" (event_base_once fd what cb (Some tv)).
(** What is written to the stream. *)
Definition dump_events (b : event_base) : bytes := event_base_dump_events b.

(** ** Event: the pointer is null in an event that was default-constructed or moved
    from, and libevent's functions follow it *)

Definition on_event {A} (m : ST event A) : ST (option event) A := fun ev =>
  match ev with
  | Some e => let '(r, e') := m e in (r, Some e')
  | None => (Undef, None)
  end.
Definition Event_get_fd : ST (option event) Z := on_event (gets event_get_fd).
Definition Event_get_what : ST (option event) Z := on_event (gets event_get_events).
Definition Event_add_plain : ST (option event) unit :=
  on_event (checked "event_add failed" (event_add None)).
Definition Event_del : ST (option event) unit := on_event (checked "event_del failed" event_del).

(** What [event_new] is called with: the descriptor and the events. *)
Definition EV_TIMEOUT : Z := 0x01.
Definition EV_SIGNAL : Z := 0x08.
Definition EV_PERSIST : Z := 0x10.
Record TimeoutEvent := mkTimeoutEvent { te_ev : option event; te_timeout : Z }.
Definition TimeoutEvent_ctor (event_new : Z -> Z -> option event) (timeout : Z) : out TimeoutEvent :=
  match event_new (-1) EV_TIMEOUT with
  | Some ev => Val (mkTimeoutEvent (Some ev) timeout)
  | None => Exn bad_alloc
  end.
Definition TimeoutEvent_add : ST TimeoutEvent unit := fun t =>
  let tv := usecs_to_timeval (te_timeout t) in
  let '(r, ev) := on_event (checked "event_add failed" (event_add (Some tv))) (te_ev t) in
  (r, mkTimeoutEvent ev (te_timeout t)).
Definition SignalEvent_ctor (event_new : Z -> Z -> option event) (signum : Z) : out event :=
  match event_new signum (Z.lor EV_SIGNAL EV_PERSIST) with
  | Some ev => Val ev
  | None => Exn bad_alloc
  end.

(** ** DNSBase *)

Definition resolv_conf_parse (flags : Z) (filename : bytes) : ST evdns_base unit :=
  checked "evdns_base_resolv_conf_parse" (evdns_base_resolv_conf_parse flags filename).
Definition nameserver_sockaddr_add (sa : bytes) (len flags : Z) : ST evdns_base unit :=
  checked "evdns_base_nameserver_sockaddr_add" (evdns_base_nameserver_sockaddr_add sa len flags).
Definition nameserver_ip_add (ip_as_string : bytes) : ST evdns_base unit :=
  checked "evdns_base_nameserver_ip_add" (evdns_base_nameserver_ip_add ip_as_string).
Definition load_hosts (hosts_fname : bytes) : ST evdns_base unit :=
  checked "evdns_base_load_hosts" (evdns_base_load_hosts hosts_fname).
Definition clear_nameservers_and_suspend : ST evdns_base unit :=
  checked "evdns_base_clear_nameservers_and_suspend" evdns_base_clear_nameservers_and_suspend.
Definition resume : ST evdns_base unit := checked "evdns_base_resume" evdns_base_resume.
Definition search_clear : ST evdns_base unit := modify evdns_base_search_clear.
Definition search_add (domain : bytes) : ST evdns_base unit := modify (evdns_base_search_add domain).
Definition search_ndots_set (ndots : Z) : ST evdns_base unit := modify (evdns_base_search_ndots_set ndots).
Definition set_option (option val : bytes) : ST evdns_base unit :=
  checked "evdns_base_set_option" (evdns_base_set_option option val).
Definition count_nameservers : ST evdns_base Z := gets evdns_base_count_nameservers.
Definition getaddrinfo (nodename servname : option bytes) (hints_in : option evutil_addrinfo)
    (cb : getaddrinfo_cb) : ST evdns_base (option evdns_getaddrinfo_request) :=
  fun b => let '(req, b') := evdns_getaddrinfo nodename servname hints_in cb b in (Val req, b').
Definition getaddrinfo_cancel (req : evdns_getaddrinfo_request) : ST evdns_base unit :=
  modify (evdns_getaddrinfo_cancel req).
(** Declared as a static member of [DNSBase], and defined as a function of the
    namespace. *)
Definition err_to_string (err : Z) : bytes := evdns_err_to_string err.

(** ** HTTP connections and requests *)

(** The address is a null pointer when the connection has no peer. *)
Definition get_peer : ST evhttp_connection (bytes * Z) := fun c =>
  match evhttp_connection_get_peer c with
  | (Some address, port) => (Val (address, port), c)
  | (None, _) => (Exn (runtime_error (str "no peer on http connection")), c)
  end.
Definition set_local_address (addr : bytes) : ST evhttp_connection unit :=
  modify (evhttp_connection_set_local_address addr).
Definition set_local_port (port : Z) : ST evhttp_connection unit :=
  modify (evhttp_connection_set_local_port port).
Definition set_max_body_size (max_body_size : Z) : ST evhttp_connection unit :=
  modify (evhttp_connection_set_max_body_size max_body_size).
Definition set_max_headers_size (max_headers_size : Z) : ST evhttp_connection unit :=
  modify (evhttp_connection_set_max_headers_size max_headers_size).
Definition set_retries (retry_max : Z) : ST evhttp_connection unit :=
  modify (evhttp_connection_set_retries retry_max).
Definition set_timeout (timeout_secs : Z) : ST evhttp_connection unit :=
  modify (evhttp_connection_set_timeout timeout_secs).

Definition get_command (req : evhttp_request) : Z := evhttp_request_get_command req.
Definition get_connection (req : evhttp_request) : option evhttp_connection :=
  evhttp_request_get_connection req.
Definition get_evhttp_uri (req : evhttp_request) : option evhttp_uri := evhttp_request_get_evhttp_uri req.
Definition get_host (req : evhttp_request) : option bytes := evhttp_request_get_host req.
Definition get_input_buffer (req : evhttp_request) : evbuffer := evhttp_request_get_input_buffer req.
Definition get_output_buffer (req : evhttp_request) : evbuffer := evhttp_request_get_output_buffer req.
Definition get_input_headers (req : evhttp_request) : evkeyvalq := evhttp_request_get_input_headers req.
Definition get_output_headers (req : evhttp_request) : evkeyvalq := evhttp_request_get_output_headers req.
Definition get_input_header (req : evhttp_request) (header_name : bytes) : option bytes :=
  let in_headers := get_input_headers req in evhttp_find_header in_headers header_name.
Definition get_response_code (req : evhttp_request) : Z := evhttp_request_get_response_code req.
Definition get_uri (req : evhttp_request) : option bytes := evhttp_request_get_uri req.

End Methods.

(** ** OpenSSL contexts

    [Server::create_server_ssl_ctx] and [Connection::create_default_ssl_ctx]. The
    state is the contexts that exist, by the address of each; OpenSSL's answers are
    arguments. What [SSL_CTX_load_verify_locations], [SSL_CTX_set_cipher_list] and
    [SSL_CTX_set_min_proto_version] answer is ignored. *)

Record ssl_ctx := mkSslCtx {
  tls_min_version : option Z; tls_ciphers : option bytes; tls_ca_file : option bytes;
  tls_certificate : option bytes; tls_key : option bytes; tls_verify_peer : bool
}.
Definition ssl_ctx_new : ssl_ctx := mkSslCtx None None None None None false.
Definition TLS1_2_VERSION : Z := 0x0303.
Definition server_ciphers : bytes := str
  "ECDH+AESGCM:ECDH+CHACHA20:DH+AESGCM:ECDH+AES256:DH+AES256:ECDH+AES128:DH+AES:RSA+AESGCM:RSA+AES:!aNULL:!MD5:!DSS:!AESCCM:!RSA".

Definition ssl_ctxs : Type := list (Z * ssl_ctx).
Definition create_server_ssl_ctx (ssl_ctx_address : option Z) (certificate_rc key_rc : Z)
    (key_filename cert_filename ca_cert_filename : bytes) : ST ssl_ctxs Z :=
  match ssl_ctx_address with
  | None => throw bad_alloc
  | Some a =>
      let started := mkSslCtx (Some TLS1_2_VERSION) (Some server_ciphers) (Some (c_str ca_cert_filename)) None None false in
      if certificate_rc <=? 0 then
        modify (cons (a, started)) ;;;
        throw (runtime_error (str "cannot load SSL certificate file " ++ cert_filename))
      else
        let certified := mkSslCtx (Some TLS1_2_VERSION) (Some server_ciphers) (Some (c_str ca_cert_filename))
                           (Some (c_str cert_filename)) None false in
        if key_rc <=? 0 then
          modify (cons (a, certified)) ;;;
          throw (runtime_error (str "cannot load SSL private key " ++ key_filename))
        else
          modify (cons (a, mkSslCtx (Some TLS1_2_VERSION) (Some server_ciphers)
            (Some (c_str ca_cert_filename)) (Some (c_str cert_filename)) (Some (c_str key_filename)) false)) ;;;
          ret a
  end.
Definition create_default_ssl_ctx (ssl_ctx_address : option Z) (paths_rc : Z) : ST ssl_ctxs Z :=
  match ssl_ctx_address with
  | None => throw (runtime_error (str "SSL_CTX_new did not succeed"))
  | Some a =>
      if negb (paths_rc =? 1) then
        modify (cons (a, ssl_ctx_new)) ;;;
        throw (runtime_error (str "X509_STORE_set_default_paths did not succeed"))
      else
        modify (cons (a, mkSslCtx None None None None None true)) ;;;
        ret a
  end.

(** A context is given to the caller, who has to free it, or it is lost: one that
    was made before the exception is in no pointer any more. The client's contexts
    verify the server, the server's have its certificate and key. *)
Theorem ssl_contexts_lost ctx certificate_rc key_rc key_file cert_file ca_file paths_rc (s : ssl_ctxs) :
  (match create_server_ssl_ctx ctx certificate_rc key_rc key_file cert_file ca_file s with
   | (Val a, s') => exists c, s' = (a, c) :: s /\ tls_certificate c = Some (c_str cert_file) /\
       tls_key c = Some (c_str key_file) /\ tls_min_version c = Some TLS1_2_VERSION
   | (Exn _, s') => match ctx with Some a => exists c, s' = (a, c) :: s | None => s' = s end
   | _ => False
   end) /\
  (match create_default_ssl_ctx ctx paths_rc s with
   | (Val a, s') => exists c, s' = (a, c) :: s /\ tls_verify_peer c = true
   | (Exn _, s') => match ctx with Some a => exists c, s' = (a, c) :: s | None => s' = s end
   | _ => False
   end).
Proof.
  split.
  - unfold create_server_ssl_ctx. destruct ctx as [a|]; [|done].
    destruct (certificate_rc <=? 0); [by eexists|]. destruct (key_rc <=? 0); [by eexists|].
    cbn. eexists. by repeat split.
  - unfold create_default_ssl_ctx. destruct ctx as [a|]; [|done].
    destruct (negb _); [by eexists|]. cbn. eexists. by repeat split.
Qed.

Section Promises.
Context {L : LibeventSettings}.

(** ** What a method that checks the answer promises *)

(** It passes the object through exactly one call, and throws exactly when the
    answer is not zero; the object is what the call has made of it then, too. *)
Lemma checked_spec {S} name (f : S -> Z * S) s :
  snd (checked name f s) = snd (f s) /\
  fst (checked name f s) = (if decide (fst (f s) = 0) then Val tt else Exn (runtime_error (str name))).
Proof.
  unfold checked. destruct (f s) as [rc s']. cbn. destruct (decide (rc = 0)) as [->|].
  - by rewrite decide_False by (intros H; by apply H).
  - by rewrite decide_True.
Qed.

(** A timer that is armed asks for its timeout; arming it, or asking a plain event
    anything, is undefined once the event was moved from. *)
Lemma timeout_event_armed t ev :
  te_ev t = Some ev -> fst (event_add (Some (usecs_to_timeval (te_timeout t))) ev) = 0 ->
  TimeoutEvent_add t =
  (Val tt, mkTimeoutEvent (Some (snd (event_add (Some (usecs_to_timeval (te_timeout t))) ev))) (te_timeout t)).
Proof.
  intros Hev Hrc. unfold TimeoutEvent_add. rewrite Hev. unfold on_event, checked.
  destruct (event_add _ ev) as [rc ev']. simpl in Hrc. subst rc. by rewrite decide_False by (intros H; by apply H).
Qed.
Lemma moved_event_undefined (A : Type) (m : ST event A) t :
  on_event m None = (Undef, None) /\ (te_ev t = None -> fst (TimeoutEvent_add t) = Undef).
Proof. split; [done|]. intros H. unfold TimeoutEvent_add. by rewrite H. Qed.
End Promises.
