(* ===== verification/HttpServer.v ===== *)
(** * The HTTP server (src/src/Protocols/HTTP/Server.cc)

    Listening sockets, responses, and the life of a [WebsocketClient]: which
    connections its moves, [close] and destructor give back to libevent. evhttp
    is not part of the repository; the model records the calls made to it. *)
From stdpp Require Import tactics base list numbers strings gmap.
From S2P Require Import Prelude Text BufferApi Libevent Chunked Buffer Ownership.

(** ** Responses *)

Definition explanation_for_response_code : list (Z * string) :=
  [(100, "Continue");
   (101, "Switching Protocols");
   (102, "Processing");
   (200, "OK");
   (201, "Created");
   (202, "Accepted");
   (203, "Non-Authoritative Information");
   (204, "No Content");
   (205, "Reset Content");
   (206, "Partial Content");
   (207, "Multi-Status");
   (208, "Already Reported");
   (226, "IM Used");
   (300, "Multiple Choices");
   (301, "Moved Permanently");
   (302, "Found");
   (303, "See Other");
   (304, "Not Modified");
   (305, "Use Proxy");
   (307, "Temporary Redirect");
   (308, "Permanent Redirect");
   (400, "Bad Request");
   (401, "Unathorized");
   (402, "Payment Required");
   (403, "Forbidden");
   (404, "Not Found");
   (405, "Method Not Allowed");
   (406, "Not Acceptable");
   (407, "Proxy Authentication Required");
   (408, "Request Timeout");
   (409, "Conflict");
   (410, "Gone");
   (411, "Length Required");
   (412, "Precondition Failed");
   (413, "Request Entity Too Large");
   (414, "Request-URI Too Long");
   (415, "Unsupported Media Type");
   (416, "Requested Range Not Satisfiable");
   (417, "Expectation Failed");
   (418, "I'm a Teapot");
   (420, "Enhance Your Calm");
   (422, "Unprocessable Entity");
   (423, "Locked");
   (424, "Failed Dependency");
   (426, "Upgrade Required");
   (428, "Precondition Required");
   (429, "Too Many Requests");
   (431, "Request Header Fields Too Large");
   (444, "No Response");
   (449, "Retry With");
   (451, "Unavailable For Legal Reasons");
   (500, "Internal Server Error");
   (501, "Not Implemented");
   (502, "Bad Gateway");
   (503, "Service Unavailable");
   (504, "Gateway Timeout");
   (505, "HTTP Version Not Supported");
   (506, "Variant Also Negotiates");
   (507, "Insufficient Storage");
   (508, "Loop Detected");
   (509, "Bandwidth Limit Exceeded");
   (510, "Not Extended");
   (511, "Network Authentication Required");
   (598, "Network Read Timeout Error");
   (599, "Network Connect Timeout Error")].

(** [unordered_map::at]. *)
Definition no_explanation : exn := out_of_range (str "_Map_base::at").
Definition explanation_at (code : Z) : out bytes :=
  match find (fun p => fst p =? code) explanation_for_response_code with
  | Some (_, s) => Val (str s)
  | None => Exn no_explanation
  end.

(** A request as the server sees it: the headers added to its response and the
    calls of [evhttp_send_reply], each with code, reason, the headers at that
    moment and the body. *)
Record reply := mkReply {
  rp_code : Z; rp_reason : bytes; rp_headers : list (bytes * bytes); rp_body : option bytes
}.
Record request := mkRequest { rq_headers : list (bytes * bytes); rq_replies : list reply }.

(** [set_server_name]: the member is a [std::string], which a null pointer is not. *)
Definition set_server_name (new_server_name : option bytes) : ST bytes unit :=
  match new_server_name with Some name => put (c_str name) | None => undef end.

Section Responses.
Context {O : BufferOps}.
(** [evhttp_add_header] refuses some headers; the code does not look. *)
Context (evhttp_add_header : list (bytes * bytes) -> bytes -> bytes -> list (bytes * bytes)).
(** What [evhttp_send_reply] leaves in the buffer it takes the body from. *)
Context (evbuffer_after_reply : bytes -> bytes).
(** [Server::server_name], as [set_server_name] left it. *)
Context (server_name : bytes).

Definition add_output_header (header_name value : bytes) : ST request unit :=
  modify (fun r => mkRequest (evhttp_add_header (rq_headers r) header_name value) (rq_replies r)).

Definition evhttp_send_reply (code : Z) (reason : bytes) (body : option bytes) : ST request unit :=
  modify (fun r => mkRequest (rq_headers r)
    (rq_replies r ++ [mkReply code reason (rq_headers r) body])).

Definition add_server_header : ST request unit :=
  if decide (server_name = []) then ret tt else add_output_header (str "Server") server_name.

(** The overload that takes a [Buffer]. *)
Definition send_response_buffer (code : Z) (content_type : bytes) : ST (bytes * request) unit :=
  on_snd (add_output_header (str "Content-Type") content_type) ;;;
  on_snd add_server_header ;;;
  let! reason := of_out (explanation_at code) in
  let! body := on_fst get in
  on_snd (evhttp_send_reply code reason (Some body)) ;;;
  on_fst (modify evbuffer_after_reply).

(** The overloads that take data, a string, or a format, by its text. *)
Definition send_response_data (code : Z) (content_type data : bytes) : ST request unit :=
  let! buf := of_out buf_new in
  with_local buf (on_fst (buf_add data) ;;; send_response_buffer code content_type).
Definition send_response_string (code : Z) (content_type data : bytes) : ST request unit :=
  let! buf := of_out buf_new in
  with_local buf (on_fst (buf_add_reference data) ;;; send_response_buffer code content_type).

Definition send_response_printf (code : Z) (content_type text : bytes) : ST request unit :=
  let! buf := of_out buf_new in
  with_local buf (on_fst (buf_add_printf text) ;;; send_response_buffer code content_type).

(** The overload without a body. *)
Definition send_response_empty (code : Z) (content_type : option bytes) : ST request unit :=
  add_server_header ;;;
  match content_type with
  | Some t => add_output_header (str "Content-Type") t
  | None => ret tt
  end ;;;
  let! reason := of_out (explanation_at code) in
  evhttp_send_reply code reason None.
End Responses.

(** ** Listening sockets *)

(** An [evhttp]: its callbacks and the sockets it accepts on, in order of the calls. *)
Record evhttp := mkEvhttp { eh_bevcb : bool; eh_gencb : bool; eh_sockets : list Z }.
Record Server := mkServer { sv_http : option evhttp; sv_ssl_http : option evhttp }.

Definition Server_new : Server := mkServer None None.

Definition no_ssl_ctx : exn :=
  logic_error (str "cannot add SSL listening socket without SSL_CTX set").

Definition evhttp_accept_socket (fd : Z) (h : evhttp) : evhttp :=
  mkEvhttp (eh_bevcb h) (eh_gencb h) (eh_sockets h ++ [fd]).

(** [evhttp_new] may fail. *)
Definition add_socket (ssl_ctx evhttp_new_ok : bool) (fd : Z) (ssl : bool) : ST Server unit :=
  let! s := get in
  if ssl then
    let! h :=
      match sv_ssl_http s with
      | Some h => ret h
      | None =>
          if negb ssl_ctx then throw no_ssl_ctx
          else if negb evhttp_new_ok then throw bad_alloc
          else ret (mkEvhttp true true [])
      end in
    put (mkServer (sv_http s) (Some (evhttp_accept_socket fd h)))
  else
    let! h :=
      match sv_http s with
      | Some h => ret h
      | None => if negb evhttp_new_ok then throw bad_alloc else ret (mkEvhttp false true [])
      end in
    put (mkServer (Some (evhttp_accept_socket fd h)) (sv_ssl_http s)).

(** The evhttps that the destructor frees. *)
Definition Server_destroy (s : Server) : list evhttp :=
  option_list (sv_http s) ++ option_list (sv_ssl_http s).

(** ** The life of a WebsocketClient

    The objects by name; a connection by name, or none; a descriptor, or -1. What
    is released goes to the world: connections freed and descriptors closed. *)

Record WebsocketClient := mkClient { wc_conn : option nat; wc_bev : option nat; wc_fd : Z }.

Record clients := mkClients {
  cl_objects : gmap nat WebsocketClient;
  cl_freed : list nat;               (* evhttp_connection_free *)
  cl_closed : list Z                 (* ::close *)
}.
Definition clients_new : clients := mkClients ∅ [] [].

Definition on_objects (f : gmap nat WebsocketClient -> gmap nat WebsocketClient) : ST clients unit :=
  modify (fun s => mkClients (f (cl_objects s)) (cl_freed s) (cl_closed s)).
(** Using an object that is not there is undefined. *)
Definition object (x : nat) : ST clients WebsocketClient := fun s =>
  match cl_objects s !! x with Some c => (Val c, s) | None => (Undef, s) end.

Definition moved_from : WebsocketClient := mkClient None None (-1).

(** The constructor that [enable_websockets] calls, in a name not in use. *)
Definition WebsocketClient_new (x conn : nat) (fd : Z) : ST clients unit :=
  on_objects (insert x (mkClient (Some conn) (Some conn) fd)).

(** The move constructor and move assignment; the input buffer moves along. *)
Definition WebsocketClient_move (x other : nat) : ST clients unit :=
  let! o := object other in
  on_objects (fun m => <[other := moved_from]> (<[x := o]> m)).
Definition WebsocketClient_assign (x other : nat) : ST clients unit :=
  object x ;;;
  let! o := object other in
  on_objects (fun m => <[other := moved_from]> (<[x := o]> m)).

Definition WebsocketClient_close (x : nat) : ST clients unit :=
  let! c := object x in
  modify (fun s =>
    match wc_conn c with
    | Some conn => mkClients (cl_objects s) (cl_freed s ++ [conn]) (cl_closed s)
    | None =>
        if 0 <=? wc_fd c then mkClients (cl_objects s) (cl_freed s) (cl_closed s ++ [wc_fd c]) else s
    end) ;;;
  on_objects (insert x (mkClient None (wc_bev c) (-1))).

Definition WebsocketClient_destroy (x : nat) : ST clients unit :=
  WebsocketClient_close x ;;; on_objects (delete x).

Definition is_closed (c : WebsocketClient) : bool :=
  match wc_conn c with None => wc_fd c <? 0 | Some _ => false end.

(** A sequence of these calls; a name is used for one object at a time, and
    libevent makes a connection once. *)
Inductive client_op :=
| CNew (x conn : nat) (fd : Z)
| CMove (x other : nat)
| CAssign (x other : nat)
| CClose (x : nat)
| CDestroy (x : nat).

Definition client_step (op : client_op) : ST clients unit :=
  match op with
  | CNew x conn fd => WebsocketClient_new x conn fd
  | CMove x other => WebsocketClient_move x other
  | CAssign x other => WebsocketClient_assign x other
  | CClose x => WebsocketClient_close x
  | CDestroy x => WebsocketClient_destroy x
  end.
Fixpoint clients_run (ops : list client_op) : ST clients unit :=
  match ops with
  | [] => ret tt
  | op :: ops => client_step op ;;; clients_run ops
  end.

Definition fresh_name (op : client_op) (s : clients) : bool :=
  match op with
  | CNew x _ _ | CMove x _ => bool_decide (cl_objects s !! x = None)
  | _ => true
  end.
Fixpoint names_fresh (ops : list client_op) (s : clients) : bool :=
  match ops with
  | [] => true
  | op :: ops => fresh_name op s && names_fresh ops (snd (client_step op s))
  end.

Definition conn_list (c : WebsocketClient) : list nat :=
  match wc_conn c with Some conn => [conn] | None => [] end.
Definition object_conns : gmap nat WebsocketClient -> list nat := held_by conn_list.
(** The connections the clients were made for. *)
Definition created (ops : list client_op) : list nat :=
  ops ≫= fun op => match op with CNew _ conn _ => [conn] | _ => [] end.
(** The connection that an assignment overwrites. *)
Definition overwritten1 (op : client_op) (s : clients) : list nat :=
  match op with
  | CAssign x _ => match cl_objects s !! x with Some c => conn_list c | None => [] end
  | _ => []
  end.
Fixpoint overwritten (ops : list client_op) (s : clients) : list nat :=
  match ops with
  | [] => []
  | op :: ops => overwritten1 op s ++ overwritten ops (snd (client_step op s))
  end.

(** ** Lemmas on clients *)

(** Where the connections are after one step. *)
Lemma client_step_conns op s s' :
  fresh_name op s = true -> client_step op s = (Val tt, s') ->
  created [op] ++ cl_freed s ++ object_conns (cl_objects s) ≡ₚ
  cl_freed s' ++ object_conns (cl_objects s') ++ overwritten1 op s.
Proof.
  unfold created. intros Hn Hr. unfold object_conns. simpl. rewrite app_nil_r.
  destruct op as [x conn fd|x y|x y|x|x]; simpl in *;
    unfold WebsocketClient_new, WebsocketClient_move, WebsocketClient_assign, WebsocketClient_close, on_objects, modify, bind, object in Hr;
    try apply bool_decide_eq_true in Hn; rewrite ?app_nil_r.
  - injection Hr as <-. simpl. rewrite held_insert by done. simpl. solve_Permutation.
  - destruct (cl_objects s !! y) as [o|] eqn:Hy; simplify_eq/=.
    by rewrite (held_move_new conn_list _ x y o moved_from).
  - destruct (cl_objects s !! x) as [c|] eqn:Hx; [|done].
    destruct (cl_objects s !! y) as [o|] eqn:Hy; simplify_eq/=.
    by rewrite (held_move conn_list _ x y c o moved_from).
  - destruct (cl_objects s !! x) as [c|] eqn:Hx; simplify_eq/=.
    pose proof (held_update conn_list _ x c (mkClient None (wc_bev c) (-1)) Hx) as Hp.
    unfold conn_list in Hp. simpl in Hp. rewrite <- Hp.
    destruct (wc_conn c); [|destruct (0 <=? wc_fd c)]; simpl; solve_Permutation.
  - unfold WebsocketClient_destroy, WebsocketClient_close, on_objects, modify, bind, object in Hr.
    destruct (cl_objects s !! x) as [c|] eqn:Hx; simplify_eq/=.
    rewrite (held_delete conn_list _ x c Hx). unfold conn_list.
    destruct (wc_conn c); [|destruct (0 <=? wc_fd c)]; simpl;
      rewrite delete_insert_eq; solve_Permutation.
Qed.

(** A client without a connection has no descriptor either, so [::close] is
    never called. *)
Definition no_bare_fd (s : clients) : Prop :=
  map_Forall (fun _ c => wc_conn c = None -> wc_fd c < 0) (cl_objects s) /\ cl_closed s = [].

Lemma client_step_no_bare_fd op s s' :
  no_bare_fd s -> client_step op s = (Val tt, s') -> no_bare_fd s'.
Proof.
  unfold no_bare_fd. intros [Hm Hc] Hr.
  assert (forall x c, cl_objects s !! x = Some c -> wc_conn c = None -> (0 <=? wc_fd c) = false) as Hf.
  { intros x c Hx H. specialize (Hm x c Hx H). by apply Z.leb_gt. }
  destruct op as [x conn fd|x y|x y|x|x]; simpl in Hr;
    unfold WebsocketClient_new, WebsocketClient_move, WebsocketClient_assign, WebsocketClient_close, on_objects, modify, bind, object in Hr.
  - injection Hr as <-. split; [|done]. by apply map_Forall_insert_2.
  - destruct (cl_objects s !! y) as [o|] eqn:Hy; simplify_eq/=. split; [|done].
    apply map_Forall_insert_2; [done|]. apply map_Forall_insert_2; [by apply (Hm y)|done].
  - destruct (cl_objects s !! x) as [c|] eqn:Hx; [|done].
    destruct (cl_objects s !! y) as [o|] eqn:Hy; simplify_eq/=. split; [|done].
    apply map_Forall_insert_2; [done|]. apply map_Forall_insert_2; [by apply (Hm y)|done].
  - destruct (cl_objects s !! x) as [c|] eqn:Hx; simplify_eq/=. specialize (Hf x c Hx).
    destruct (wc_conn c); [|rewrite (Hf eq_refl)]; simpl; (split; [|done]); by apply map_Forall_insert_2.
  - unfold WebsocketClient_destroy, WebsocketClient_close, on_objects, modify, bind, object in Hr.
    destruct (cl_objects s !! x) as [c|] eqn:Hx; simplify_eq/=. specialize (Hf x c Hx).
    destruct (wc_conn c); [|rewrite (Hf eq_refl)]; simpl; (split; [|done]);
      rewrite delete_insert_eq; by apply map_Forall_delete.
Qed.

Lemma clients_run_conns ops : forall s s',
  names_fresh ops s = true -> no_bare_fd s -> clients_run ops s = (Val tt, s') ->
  created ops ++ cl_freed s ++ object_conns (cl_objects s) ≡ₚ
  cl_freed s' ++ object_conns (cl_objects s') ++ overwritten ops s /\ no_bare_fd s'.
Proof.
  induction ops as [|op ops IH]; intros s s' Hn Hb Hr; cbn [names_fresh clients_run overwritten] in *.
  - injection Hr as <-. by rewrite app_nil_r.
  - apply andb_prop in Hn as [Hn1 Hn2]. unfold bind in Hr.
    destruct (client_step op s) as [[[]| | |] s1] eqn:Hs; try done. cbn [snd] in *.
    pose proof (client_step_conns op s s1 Hn1 Hs) as Hp.
    destruct (IH s1 s' Hn2 (client_step_no_bare_fd op s s1 Hb Hs) Hr) as [Hq Hb'].
    split; [|done].
    assert (created (op :: ops) = created [op] ++ created ops) as ->
      by (unfold created; simpl; by rewrite app_nil_r).
    transitivity (created ops ++ (created [op] ++ cl_freed s ++ object_conns (cl_objects s)));
      [solve_Permutation|]. rewrite Hp.
    transitivity (overwritten1 op s ++ (created ops ++ cl_freed s1 ++ object_conns (cl_objects s1)));
      [solve_Permutation|]. rewrite Hq. solve_Permutation.
Qed.

(** C36: every connection that a websocket client was made for is accounted for
    after any sequence of moves, assignments, [close] and destruction: it was
    given back to libevent, or one client holds it, or it is lost because a move
    assignment overwrote a client that still held it. So none is freed twice, a
    client never holds a freed one, and [::close] is never called. *)
Theorem connections_accounted ops s :
  names_fresh ops clients_new = true -> clients_run ops clients_new = (Val tt, s) ->
  created ops ≡ₚ cl_freed s ++ object_conns (cl_objects s) ++ overwritten ops clients_new /\
  (NoDup (created ops) -> NoDup (cl_freed s ++ object_conns (cl_objects s))) /\
  cl_closed s = [].
Proof.
  intros Hn Hr.
  destruct (clients_run_conns ops clients_new s Hn) as [Hp [_ Hc]]; [|done|].
  { split; [apply map_Forall_empty|done]. }
  simpl in Hp. change (object_conns ∅) with (@nil nat) in Hp. rewrite app_nil_r in Hp.
  split_and!; [done| |done]. intros Hd. rewrite Hp, app_assoc in Hd.
  by apply NoDup_app in Hd as [? _].
Qed.

(** The second connection is freed, the first is lost. *)
Lemma connections_accounted_witness :
  let ops := [CNew 0 7 3; CNew 1 8 4; CAssign 0 1; CDestroy 0; CDestroy 1] in
  created ops ≡ₚ [8%nat] ++ [] ++ [7%nat].
Proof.
  exact (proj1 (connections_accounted [CNew 0 7 3; CNew 1 8 4; CAssign 0 1; CDestroy 0; CDestroy 1]
    (mkClients ∅ [8%nat] []) eq_refl eq_refl)).
Defined.

(** ** Responses: what is sent *)

(** The outcome of sending [body] with a code: the headers are added in any
    case, and the reply follows when the code has an explanation. *)
Definition response (code : Z) (headers : list (bytes * bytes)) (body : option bytes)
    (replies : list reply) : out unit * request :=
  match explanation_at code with
  | Val reason => (Val tt, mkRequest headers (replies ++ [mkReply code reason headers body]))
  | _ => (Exn no_explanation, mkRequest headers replies)
  end.

Lemma explanation_at_cases code :
  (exists s, explanation_at code = Val s) \/ explanation_at code = Exn no_explanation.
Proof. unfold explanation_at. destruct (find _ _) as [[]|]; eauto. Qed.

Section ResponseLaws.
Context {O : BufferOps} {L : BufferLaws O}.
Context (add_header : list (bytes * bytes) -> bytes -> bytes -> list (bytes * bytes))
  (after : bytes -> bytes) (server_name : bytes).

(** The headers of a response, as the overloads with a body add them. *)
Definition with_server (headers : list (bytes * bytes)) : list (bytes * bytes) :=
  if decide (server_name = []) then headers else add_header headers (str "Server") server_name.

Lemma add_server_header_spec r :
  add_server_header add_header server_name r =
  (Val tt, mkRequest (with_server (rq_headers r)) (rq_replies r)).
Proof. unfold add_server_header, with_server. case_decide; [by destruct r|done]. Qed.

Lemma send_response_buffer_spec code t b r :
  send_response_buffer add_header after server_name code t (b, r) =
  let '(o, r') := response code (with_server (add_header (rq_headers r) (str "Content-Type") t))
                    (Some b) (rq_replies r) in
  (o, (match o with Val _ => after b | _ => b end, r')).
Proof.
  unfold send_response_buffer. erewrite bind_Val by by apply on_snd_eq.
  erewrite bind_Val by by (apply on_snd_eq; apply add_server_header_spec). unfold response. simpl.
  destruct (explanation_at_cases code) as [[s ->]| ->]; [|done].
  erewrite bind_Val by done. erewrite bind_Val by by apply on_fst_eq. done.
Qed.

Lemma send_response_refines code t b :
  refines lib_failure (Rprod eq eq) (send_response_buffer add_header after server_name code t)
    (send_response_buffer add_header after server_name code t) /\
  refines lib_failure eq (send_response_data (O := O) add_header after server_name code t b)
    (send_response_data (O := spec_buffer) add_header after server_name code t b) /\
  refines lib_failure eq (send_response_string (O := O) add_header after server_name code t b)
    (send_response_string (O := spec_buffer) add_header after server_name code t b) /\
  refines lib_failure eq (send_response_printf (O := O) add_header after server_name code t b)
    (send_response_printf (O := spec_buffer) add_header after server_name code t b).
Proof.
  assert (refines lib_failure (Rprod eq eq) (send_response_buffer add_header after server_name code t)
    (send_response_buffer add_header after server_name code t)) as H.
  { apply refines_eq_prod. by intros ? ? ->; right; right. }
  split_and!; [done| | |]; unfold send_response_data, send_response_string, send_response_printf.
  all: refine_step; [apply buf_new_refines|refine_auto].
Qed.
End ResponseLaws.

(** Over the abstract buffer. *)
Lemma send_response_spec add_header after server_name code t data r :
  zlen data < 2 ^ 31 ->
  let headers := with_server add_header server_name (add_header (rq_headers r) (str "Content-Type") t) in
  let '(o, r') := response code headers (Some data) (rq_replies r) in
  send_response_data (O := spec_buffer) add_header after server_name code t data r = (o, r') /\
  send_response_string (O := spec_buffer) add_header after server_name code t data r = (o, r') /\
  send_response_printf (O := spec_buffer) add_header after server_name code t data r = (o, r').
Proof.
  intros Hl headers. destruct (response _ _ _ _) as [o r'] eqn:Er.
  unfold send_response_data, send_response_string, send_response_printf.
  split_and!; (erewrite bind_Val by done); unfold with_local.
  3: erewrite bind_Val by (apply on_fst_eq; by apply buf_add_printf_spec).
  1, 2: erewrite bind_Val by by apply on_fst_eq.
  all: rewrite app_nil_l, send_response_buffer_spec; fold headers; by rewrite Er.
Qed.

Lemma response_defined code headers body replies :
  (response code headers body replies).1 <> Undef.
Proof. unfold response. by destruct (explanation_at_cases code) as [[s ->]| ->]. Qed.

Lemma send_response_delivers {O : BufferOps} {L : BufferLaws O} add_header after server_name
    code t data r :
  zlen data < 2 ^ 31 ->
  let headers := with_server add_header server_name (add_header (rq_headers r) (str "Content-Type") t) in
  let '(o, r') := response code headers (Some data) (rq_replies r) in
  delivers lib_failure eq (send_response_data add_header after server_name code t data) r o r' /\
  delivers lib_failure eq (send_response_string add_header after server_name code t data) r o r' /\
  delivers lib_failure eq (send_response_printf add_header after server_name code t data) r o r'.
Proof.
  intros Hl headers. pose proof (send_response_spec add_header after server_name code t data r Hl) as Hs.
  cbv zeta in Hs. fold headers in Hs.
  pose proof (response_defined code headers (Some data) (rq_replies r)) as Ho.
  destruct (response _ _ _ _) as [o r']. simpl in Ho. destruct Hs as (Hs1 & Hs2 & Hs3).
  destruct (send_response_refines add_header after server_name code t data) as (_ & Hd & Hst & Hp).
  split_and!; (eapply refines_delivers with (s' := r); [eassumption|done|eassumption|done]).
Qed.

(** [send_response] adds the content type, and the name of the server if it
    has one, to the headers; it then sends one reply with the code, the text that
    belongs to it, these headers and exactly the body it was given, as data, as a
    string or as formatted text. For a code without a text it throws
    "out_of_range" and sends nothing. *)
Theorem send_response_answers {O : BufferOps} {L : BufferLaws O} add_header after server_name
    code t data r :
  zlen data < 2 ^ 31 ->
  let headers := with_server add_header server_name (add_header (rq_headers r) (str "Content-Type") t) in
  let '(o, r') := response code headers (Some data) (rq_replies r) in
  delivers lib_failure eq (send_response_data add_header after server_name code t data) r o r' /\
  delivers lib_failure eq (send_response_string add_header after server_name code t data) r o r' /\
  delivers lib_failure eq (send_response_printf add_header after server_name code t data) r o r'.
Proof. apply send_response_delivers. Qed.

Lemma send_response_answers_witness :
  let r := mkRequest [] [] in
  let body := str "no such page" in
  let headers := [(str "Content-Type", str "text/plain"); (str "Server", str "ea")] in
  let add l k v := l ++ [(k, v)] in
  let sent := mkRequest headers [mkReply 404 (str "Not Found") headers (Some body)] in
  delivers lib_failure eq
    (send_response_data (O := @libevent_buffer (chunked 3)) add (fun _ => []) (str "ea") 404
       (str "text/plain") body) r (Val tt) sent /\
  delivers lib_failure eq
    (send_response_string (O := @libevent_buffer (chunked 3)) add (fun _ => []) (str "ea") 404
       (str "text/plain") body) r (Val tt) sent /\
  delivers lib_failure eq
    (send_response_printf (O := @libevent_buffer (chunked 3)) add (fun _ => []) (str "ea") 404
       (str "text/plain") body) r (Val tt) sent.
Proof.
  exact (send_response_answers (L := libevent_buffer_laws (LS := chunked_spec 3))
    (fun l k v => l ++ [(k, v)]) (fun _ => []) (str "ea") 404 (str "text/plain")
    (str "no such page") (mkRequest [] []) eq_refl).
Defined.

(** ** Listening sockets *)

(** The [evhttp] for the connections of one kind, and the sockets it accepts on. *)
Definition listener (ssl : bool) (s : Server) : option evhttp :=
  if ssl then sv_ssl_http s else sv_http s.
Definition sockets (ssl : bool) (s : Server) : list Z :=
  match listener ssl s with Some h => eh_sockets h | None => [] end.
(** Every [evhttp] answers requests, and exactly the one for SSL wraps its connections. *)
Definition server_ready (s : Server) : Prop :=
  forall ssl h, listener ssl s = Some h -> eh_gencb h = true /\ eh_bevcb h = ssl.

(** A call puts the socket at the end of the list it belongs to, and leaves the
    other list alone; it fails, and changes nothing, only when the first socket of
    a kind comes without what its [evhttp] needs. *)
Lemma add_socket_spec ssl_ctx ok fd ssl s :
  server_ready s ->
  let '(o, s') := add_socket ssl_ctx ok fd ssl s in
  server_ready s' /\ sockets (negb ssl) s' = sockets (negb ssl) s /\
  match o with
  | Val _ => sockets ssl s' = sockets ssl s ++ [fd]
  | Exn e => s' = s /\ listener ssl s = None /\
      e = (if ssl && negb ssl_ctx then no_ssl_ctx else bad_alloc) /\ (ssl && negb ssl_ctx || negb ok) = true
  | _ => False
  end.
Proof.
  intros Hr. destruct s as [h hs]. pose proof (Hr true) as Hr1. pose proof (Hr false) as Hr2.
  unfold add_socket, bind, sockets, listener. simpl in *.
  destruct ssl; [destruct hs as [x|]; [|destruct ssl_ctx]|destruct h as [x|]];
    try destruct ok; simpl; (split; [|split; [done|try done; split_and!; done]]); try exact Hr;
    intros [] y Hy; simpl in *; simplify_eq/=; eauto.
Qed.
