(* ===== verification/WebsocketExample.v ===== *)
(** * An HTTP and websocket server (src/src/Examples/HTTPWebsocketServer.cc)

    A subclass of [Server]: its [handle_request] serves files of one directory
    and a websocket that answers every message with its rot13. The composition of
    the responses of HttpServer.v with the websockets of Websocket.v. *)
From stdpp Require Import tactics base list numbers strings.
From S2P Require Import Prelude BufferApi Libevent Chunked Buffer Text ProtocolBuffer Websocket HttpServer.

(** ** handle_request *)

Section Handler.
Context {O : BufferOps} {W : Type} {SO : SocketOps W}.
(** evhttp and the name of the server, as in HttpServer.v. *)
Context (evhttp_add_header : list (bytes * bytes) -> bytes -> bytes -> list (bytes * bytes))
  (evbuffer_after_reply : bytes -> bytes) (server_name : bytes).
(** The request, phosg's hashes and encodings, as in Websocket.v. *)
Context (sha1 base64_encode : bytes -> bytes) (is_get : bool) (find_header : string -> option bytes).
(** phosg: the two tests on strings, [rot13], and [load_file], which answers the
    contents or the [what()] of its exception. *)
Context (starts_with ends_with : bytes -> bytes -> bool) (rot13 : bytes -> bytes)
  (load_file : bytes -> bytes + bytes).

(** The state: the request, the files that were opened, the connection. *)
Definition handler_state : Type := request * (list bytes * W).

Definition respond (code : Z) (content_type text : string) : ST handler_state unit :=
  on_fst (send_response_printf evhttp_add_header evbuffer_after_reply server_name code
            (str content_type) (str text)).

Definition open_file (filename : bytes) : ST handler_state (bytes + bytes) :=
  on_snd (on_fst (modify (fun files => files ++ [filename]))) ;;; ret (load_file filename).

Definition static_prefix : bytes := str "/static/".
Definition static_directory : bytes := str "HTTPWebsocketServer-Static/".

Definition handle_static (path : bytes) : ST handler_state unit :=
  let filename := static_directory ++ zdrop 8 path in
  match find_sub (str "..") filename with
  | Some _ => respond 400 "text/plain" "Invalid static file"
  | None =>
      let! data := open_file filename in
      match data with
      | inr what =>
          on_fst (send_response_printf evhttp_add_header evbuffer_after_reply server_name 500
                    (str "text/plain") (str "Could not read file: " ++ c_str what))
      | inl data =>
          let content_type :=
            if ends_with filename (str ".js") then str "text/javascript" else str "text/html" in
          on_fst (send_response_string evhttp_add_header evbuffer_after_reply server_name 200
                    content_type data)
      end
  end.

(** A round of the loop over the messages; the client's input buffer is local. *)
Definition stream_round (_ : unit) : ST (bytes * W) (unit + unit) :=
  let! msg := read in
  let response := rot13 (m_data msg) in
  on_snd (write_data response 0x01) ;;;
  if decide (m_data msg = str "quit") then ret (inr tt) else ret (inl tt).

Definition handle_stream (fuel : positive) : ST handler_state unit :=
  let! c := on_snd (on_snd (enable_websockets sha1 base64_encode is_get find_header)) in
  if negb c then respond 400 "text/plain" "Could not enable websockets for request"
  else on_snd (on_snd (with_local [] (loop stream_round fuel tt))).

Definition handle_request (fuel : positive) (uri : bytes) : ST handler_state unit :=
  let path := if decide (uri = str "/") then str "/static/index.html" else uri in
  if starts_with path static_prefix then handle_static path
  else if starts_with path (str "/stream") then handle_stream fuel
  else
    on_fst (send_response_printf evhttp_add_header evbuffer_after_reply server_name 404
              (str "text/plain") (str "Incorrect path: " ++ c_str path)).
End Handler.

(** [main], up to [base.run()]: the server has no SSL context, and one socket. *)
Definition no_static_directory : exn :=
  runtime_error (str ("There must be an HTTPWebsocketServer-Static directory in the current directory " ++
    "for this program to work properly. Run it from within the Examples directory.")).
Definition main (isdir evhttp_new_ok : bool) (fd : Z) : ST Server unit :=
  if negb isdir then throw no_static_directory else add_socket false evhttp_new_ok fd false.

(** ** Any lawful buffer and connection refine the abstract ones *)

Section Refinement.
Context {O : BufferOps} {L : BufferLaws O} {W : Type} {SO : SocketOps W}
  {R : W -> net -> Prop} {SL : SocketLaws SO R}.
Context (add_header : list (bytes * bytes) -> bytes -> bytes -> list (bytes * bytes))
  (after : bytes -> bytes) (server_name : bytes).
Context (sha1 base64 : bytes -> bytes) (is_get : bool) (find_header : string -> option bytes).
Context (starts_with ends_with : bytes -> bytes -> bool) (rot13 : bytes -> bytes)
  (load_file : bytes -> bytes + bytes).

Definition handler_rel : handler_state (W := W) -> handler_state (W := net) -> Prop :=
  Rprod eq (Rprod eq R).

Lemma send_printf_refines code t d :
  refines lib_failure eq (send_response_printf (O := O) add_header after server_name code t d)
    (send_response_printf (O := spec_buffer) add_header after server_name code t d).
Proof. by apply send_response_refines. Qed.

Lemma send_string_refines code t d :
  refines lib_failure eq (send_response_string (O := O) add_header after server_name code t d)
    (send_response_string (O := spec_buffer) add_header after server_name code t d).
Proof. by apply send_response_refines. Qed.

#[local] Hint Resolve send_printf_refines send_string_refines read_refines write_data_refines
  enable_websockets_refines : refine.

Lemma stream_round_refines a :
  refines lib_failure (Rprod eq R) (@stream_round O W SO rot13 a)
    (@stream_round spec_buffer net spec_socket rot13 a).
Proof. unfold stream_round. cbv zeta. refine_auto. Qed.
#[local] Hint Resolve stream_round_refines : refine.

Lemma handle_request_refines fuel uri :
  refines lib_failure handler_rel
    (@handle_request O W SO add_header after server_name sha1 base64 is_get find_header
       starts_with ends_with rot13 load_file fuel uri)
    (@handle_request spec_buffer net spec_socket add_header after server_name sha1 base64 is_get
       find_header starts_with ends_with rot13 load_file fuel uri).
Proof.
  unfold handle_request, handle_static, handle_stream, respond, open_file, handler_rel. cbv zeta.
  refine_auto.
Qed.
End Refinement.

(** ** A stream that breaks off

    The client is gone after some frames and a part of one more, or none of it. *)
Section CutShort.

Lemma wire_app a b : wire (a ++ b) = wire a ++ wire b.
Proof. unfold wire. by rewrite map_app, concat_app. Qed.

Definition cut_short (r : bytes) : Prop :=
  exists f rest, frame_ok f /\ encode_frame f = r ++ rest /\ rest <> [].

(** A computation that finds the end of the stream: whatever is in its buffer, the
    connection has nothing left. *)
Definition finds_end {A} (m : ST (bytes * net) A) (r t : bytes) : Prop :=
  exists b, m ([], Net r t) = (Exn end_of_stream, (b, Net [] t)).

Lemma finds_end_bind {A B} (m : ST (bytes * net) A) (k : A -> ST (bytes * net) B) r t :
  finds_end m r t -> finds_end (bind m k) r t.
Proof. intros [b H]. exists b. by apply bind_Exn. Qed.

Lemma finds_end_step {A B} (m : ST (bytes * net) A) (k : A -> ST (bytes * net) B) a r r' t :
  m ([], Net r t) = (Val a, ([], Net r' t)) -> finds_end (k a) r' t -> finds_end (bind m k) r t.
Proof. intros Hm [b H]. exists b. by rewrite (bind_Val _ _ _ _ _ Hm). Qed.

Lemma read_to_finds_end n r t : zlen r < n -> n < 2 ^ 31 -> finds_end (spec_read_to n) r t.
Proof.
  intros Hr Hn. pose proof (zlen_nonneg r). exists r. unfold spec_read_to, spec_read. change (zlen (@nil byte)) with 0. rewrite Z.sub_0_r.
  cbn [rx tx]. destruct (Z.ltb_spec n 0); [lia|]. rewrite Z.max_r by lia.
  destruct (Z.ltb_spec n 0); [lia|]. destruct (Z.eqb_spec n 0); [lia|].
  destruct (Z.leb_spec (2 ^ 31) n); [lia|]. by destruct (Z.leb_spec n (zlen r)); [lia|].
Qed.

(** Where the stream breaks off: inside a piece, or behind it. *)
Lemma cut_cases (a x r rest : bytes) :
  a ++ x = r ++ rest -> zlen r < zlen a \/ exists r', r = a ++ r' /\ x = r' ++ rest.
Proof.
  intros E. destruct (Z.lt_ge_cases (zlen r) (zlen a)) as [|Hge]; [by left|right].
  exists (drop (length a) r). unfold zlen in Hge.
  pose proof (f_equal (take (length a)) E) as E1. pose proof (f_equal (drop (length a)) E) as E2.
  rewrite take_app_length in E1. rewrite drop_app_length in E2.
  rewrite take_app_le in E1 by lia. rewrite drop_app_le in E2 by lia.
  split; [|done]. rewrite E1 at 1. by rewrite take_drop.
Qed.

Lemma read_frame_finds_end r t :
  cut_short r -> finds_end (@read_frame spec_buffer net spec_socket) r t.
Proof.
  intros (f & rest & (Hb & Hform & Hl & Hm) & He & Hne). pose proof (zlen_nonneg (f_data f)).
  set (masked := bool_decide (is_Some (f_mask f))). set (n := zlen (f_data f)) in *.
  assert (0 <= size_mark (f_form f) n < 128) as Hs by (destruct (f_form f); simpl in *; lia).
  destruct (mark_size masked _ Hs) as (Hb2 & Hland & Hmask).
  set (b2 := (if masked then 0x80 else 0) + size_mark (f_form f) n) in *.
  assert ((le_encode 1 (f_byte f) ++ le_encode 1 b2) ++ size_rest (f_form f) n ++
    default [] (f_mask f) ++ wire_payload (f_mask f) (f_data f) = r ++ rest) as E.
  { rewrite <- He. unfold encode_frame. rewrite encode_size_parts, <- !app_assoc. fold n masked b2.
    by destruct (f_mask f). }
  unfold read_frame. apply cut_cases in E as [Hr|(r1 & -> & E)].
  { apply finds_end_bind, read_to_finds_end; [|lia]. by rewrite zlen_app, !zlen_le_encode in Hr. }
  unfold finds_end. erewrite bind_Val by (apply (spec_read_to_app 2 []); [done|lia]). rewrite app_nil_l.
  erewrite bind_Val by (apply on_fst_eq; by apply remove_u8_spec).
  erewrite bind_Val by (apply on_fst_eq; rewrite <- (app_nil_r (le_encode 1 b2)); by apply remove_u8_spec).
  cbv zeta. rewrite Hland, Hmask.
  match goal with |- exists b, ?m _ = _ => change (finds_end m r1 t) end.
  apply cut_cases in E as [Hr|(r2 & -> & E)].
  { apply finds_end_bind. destruct (f_form f); cbn [size_mark size_rest] in *.
    - rewrite zlen_nil in Hr. pose proof (zlen_nonneg r1). lia.
    - apply finds_end_bind, read_to_finds_end; [|lia]. by rewrite zlen_be_encode in Hr.
    - apply finds_end_bind, read_to_finds_end; [|lia]. by rewrite zlen_be_encode in Hr. }
  eapply finds_end_step; [apply read_size_spec; [lia|done]|]. cbv beta.
  unfold masked in *. destruct (f_mask f) as [key|]; cbn [default wire_payload id] in *.
  - rewrite bool_decide_true by eauto. apply cut_cases in E as [Hr|(r3 & -> & E)].
    { do 2 apply finds_end_bind. apply read_to_finds_end; lia. }
    eapply finds_end_step; [apply fetch_last; [exact Hm|lia|by apply spec_remove_all]|]. cbv beta.
    apply finds_end_bind, read_to_finds_end; [|lia]. unfold n. rewrite <- (zlen_apply_mask key (f_data f)), E, zlen_app.
    pose proof (zlen_nonneg rest). destruct (decide (zlen rest = 0)) as [?%zlen_0|]; [done|lia].
  - rewrite bool_decide_false by (by intros [? ?]). rewrite app_nil_l in E.
    eapply finds_end_step; [done|]. cbv beta.
    apply finds_end_bind, read_to_finds_end; [|lia]. unfold n. rewrite E, zlen_app.
    pose proof (zlen_nonneg rest). destruct (decide (zlen rest = 0)) as [?%zlen_0|]; [done|lia].
Qed.
(** What is sent while frames are read that do not complete a message. *)
Fixpoint answered (msg : WebsocketMessage) (fs : list frame) : list frame :=
  match fs with
  | [] => []
  | f :: fs =>
      match receive1 msg f with
      | (Val (inl msg'), sent) => sent ++ answered msg' fs
      | (_, sent) => sent
      end
  end.

(** A message that the client does not complete before it is gone. *)
Lemma read_cut_short fs msg r t :
  Forall frame_ok fs -> zlen (wire fs ++ r) < 2 ^ 63 -> receive msg fs = None -> cut_short r ->
  exists b, loop (@read_step spec_buffer net spec_socket) read_fuel msg ([], Net (wire fs ++ r) t) =
    (Exn end_of_stream, (b, Net [] (t ++ wire (answered msg fs)))).
Proof.
  intros Hok Hlen Hrec Hcut.
  enough (let x := loop (@read_step spec_buffer net spec_socket) read_fuel msg ([], Net (wire fs ++ r) t) in
    fst x = Exn end_of_stream /\ snd (snd x) = Net [] (t ++ wire (answered msg fs))) as [H1 H2].
  { destruct (loop _ _ _ _) as [o [b v]]. cbn in H1, H2. subst. by exists b. }
  apply (loop_rule _
    (fun m (s : bytes * net) => exists fs0 sent0, Forall frame_ok fs0 /\
       s = ([], Net (wire fs0 ++ r) (t ++ wire sent0)) /\ receive m fs0 = None /\
       answered msg fs = sent0 ++ answered m fs0)
    (fun _ s => length (rx s.2))
    (fun o' s => o' = Exn end_of_stream /\ snd s = Net [] (t ++ wire (answered msg fs)))).
  - clear Hok Hlen Hrec. intros m s ([|f fs0] & sent0 & Hok & -> & Hrec & ->).
    { destruct (read_frame_finds_end r (t ++ wire sent0) Hcut) as [b Hb].
      unfold read_step. change (wire []) with (@nil byte). rewrite app_nil_l, (bind_Exn _ _ _ _ _ Hb).
      cbn [answered]. by rewrite app_nil_r. }
    unfold wire at 1. cbn [map concat]. fold (wire fs0). rewrite <- app_assoc.
    rewrite read_step_spec by (by inversion Hok). cbn [receive answered] in Hrec |- *.
    rewrite <- app_assoc, <- (wire_app sent0).
    destruct (receive1 m f) as [[[m'|m']|e| |] sent2]; cbn [fst snd]; try done.
    destruct (receive m' fs0) as [[[o' sent3] unread']|] eqn:Hr; [done|]. split.
    + exists fs0, (sent0 ++ sent2). by rewrite app_assoc; inversion Hok.
    + cbn [rx snd]. unfold wire; cbn [map concat]; rewrite !length_app.
      pose proof (zlen_encode_frame f). unfold zlen in *. lia.
  - exists fs, []. split_and!; [done|simpl; by rewrite app_nil_r|done|done].
  - unfold zlen in Hlen. cbn [rx snd]. unfold read_fuel. lia.
Qed.
End CutShort.



(** ** The messages of a stream

    What the frames a client sends make the server do: every message is answered
    with its rot13 in a text frame, after the answers to the control frames
    within it; "quit" ends the stream, and so does the first error. If the client
    is gone before that, wherever in a message or a frame it is, that is an error
    too: the end of the stream. *)
Section Stream.
Context (rot13 : bytes -> bytes).
Hypothesis rot13_length : forall d, zlen (rot13 d) = zlen d.

Definition reply_to (msg : WebsocketMessage) : frame := sent_frame 1 (rot13 (m_data msg)).

(** How the handler ends, the frames sent, and the frames not read; [None] if the
    stream has ended. *)
Fixpoint serve (msg : WebsocketMessage) (fs : list frame) : out unit * list frame * option (list frame) :=
  match fs with
  | [] => (Exn end_of_stream, [], None)
  | f :: fs =>
      match receive1 msg f with
      | (Val (inl msg'), sent) =>
          let '(o, sent', unread) := serve msg' fs in (o, sent ++ sent', unread)
      | (Val (inr msg'), sent) =>
          if decide (m_data msg' = str "quit") then (Val tt, sent ++ [reply_to msg'], Some fs)
          else
            let '(o, sent', unread) := serve WebsocketMessage_new fs in
            (o, sent ++ reply_to msg' :: sent', unread)
      | (Exn e, sent) => (Exn e, sent, Some fs)
      | (_, sent) => (Undef, sent, Some fs)
      end
  end.

(** The same, a message at a time. *)
Lemma serve_receive fs : forall msg,
  serve msg fs =
  match receive msg fs with
  | Some (Val m, sent, rest) =>
      if decide (m_data m = str "quit") then (Val tt, sent ++ [reply_to m], Some rest)
      else let '(o, sent', unread) := serve WebsocketMessage_new rest in (o, sent ++ reply_to m :: sent', unread)
  | Some (Exn e, sent, rest) => (Exn e, sent, Some rest)
  | Some (_, sent, rest) => (Undef, sent, Some rest)
  | None => (Exn end_of_stream, answered msg fs, None)
  end.
Proof.
  induction fs as [|f fs IH]; intros msg; cbn [serve receive answered]; [done|].
  destruct (receive1 msg f) as [[[m'|m']|e| |] sent]; try done. rewrite IH.
  destruct (receive m' fs) as [[[[m|e| |] sent'] rest]|]; [|done..].
  destruct (decide _); [by rewrite app_assoc|].
  destruct (serve WebsocketMessage_new rest) as [[o sent2] unread]. by rewrite <- app_assoc.
Qed.

Lemma serve_defined fs : forall msg, fst (fst (serve msg fs)) <> Undef.
Proof.
  induction fs as [|f fs IH]; intros msg; cbn [serve]; [done|].
  destruct (receive1 msg f) as [[[m'|m']|e| |] sent] eqn:E; try done.
  - specialize (IH m'). by destruct (serve m' fs) as [[o sent'] unread].
  - destruct (decide _); [done|]. specialize (IH WebsocketMessage_new).
    by destruct (serve WebsocketMessage_new fs) as [[o sent'] unread].
  - unfold receive1 in E. cbv zeta in E. by repeat case_match.
  - unfold receive1 in E. cbv zeta in E. by repeat case_match.
Qed.

Lemma zlen_frame_data f : zlen (f_data f) <= zlen (encode_frame f).
Proof.
  unfold encode_frame. rewrite !zlen_app. pose proof (zlen_nonneg (le_encode 1 (f_byte f))).
  match goal with |- context [encode_size ?a ?b ?c] => pose proof (zlen_nonneg (encode_size a b c)) end.
  destruct (f_mask f) as [key|]; [|lia]. rewrite zlen_app, zlen_apply_mask. pose proof (zlen_nonneg key). lia.
Qed.

(** A message takes a frame at least, and has no more bytes than its frames. *)
Lemma receive_suffix fs : forall msg o sent unread,
  receive msg fs = Some (o, sent, unread) ->
  exists f fs1, fs = (f :: fs1) ++ unread /\
    forall m, o = Val m -> zlen (m_data m) <= zlen (m_data msg) + zlen (wire (f :: fs1)).
Proof.
  induction fs as [|f fs IH]; intros msg o sent unread; cbn [receive]; [done|].
  assert (forall m x, receive1 msg f = (Val x, m) ->
    match x with inl m' | inr m' => zlen (m_data m') <= zlen (m_data msg) + zlen (encode_frame f) end) as H1.
  { intros m x. pose proof (zlen_frame_data f). pose proof (zlen_nonneg (encode_frame f)).
    unfold receive1. cbv zeta. repeat case_match; intros; simplify_eq/=; try rewrite zlen_app; lia. }
  assert (forall fs1, zlen (wire (f :: fs1)) = zlen (encode_frame f) + zlen (wire fs1)) as Hw
    by (intros; unfold wire; cbn [map concat]; by rewrite zlen_app).
  destruct (receive1 msg f) as [[[m'|m']|e| |] s] eqn:E; try (intros; simplify_eq; by exists f, []).
  - destruct (receive m' fs) as [[[o' s'] u]|] eqn:Er; intros; simplify_eq.
    destruct (IH _ _ _ _ Er) as (f' & fs1 & -> & Hm). exists f, (f' :: fs1). split; [done|].
    intros m Ho. specialize (Hm m Ho). specialize (H1 _ _ eq_refl). rewrite Hw. simpl in H1. lia.
  - intros; simplify_eq. exists f, []. split; [done|]. intros m ?; simplify_eq.
    specialize (H1 _ _ eq_refl). rewrite Hw. unfold wire. cbn [map concat]. rewrite zlen_nil. simpl in H1. lia.
Qed.

(** The loop over the messages with unary fuel. *)
Abbreviation spec_round := (@stream_round spec_buffer net spec_socket rot13).

Lemma round_message fs msg sent unread r t :
  Forall frame_ok fs -> zlen (wire fs ++ r) < 2 ^ 62 ->
  receive WebsocketMessage_new fs = Some (Val msg, sent, unread) ->
  spec_round tt ([], Net (wire fs ++ r) t) =
  (Val (if decide (m_data msg = str "quit") then inr tt else inl tt),
   ([], Net (wire unread ++ r) (t ++ wire (sent ++ [reply_to msg])))).
Proof.
  intros Hok Hl Hr. unfold stream_round. rewrite zlen_app in Hl. pose proof (zlen_nonneg r).
  erewrite bind_Val by (eapply receive_read; [done|rewrite zlen_app; lia|done]). cbv zeta.
  destruct (receive_suffix _ _ _ _ _ Hr) as (f & fs1 & -> & Hm). specialize (Hm msg eq_refl).
  rewrite wire_app, zlen_app in Hl. pose proof (zlen_nonneg (wire unread)).
  change (zlen (m_data WebsocketMessage_new)) with 0 in Hm.
  erewrite bind_Val by (apply (on_snd_eq _ (@nil byte)); apply write_data_spec; rewrite rot13_length; lia).
  cbn [rx tx]. rewrite wire_app, <- app_assoc.
  assert (wire [reply_to msg] = encode_frame (reply_to msg)) as ->
    by (unfold wire; cbn [map concat]; by rewrite app_nil_r).
  by case_decide.
Qed.

Lemma round_error fs e sent unread r t :
  Forall frame_ok fs -> zlen (wire fs ++ r) < 2 ^ 62 ->
  receive WebsocketMessage_new fs = Some (Exn e, sent, unread) ->
  spec_round tt ([], Net (wire fs ++ r) t) = (Exn e, ([], Net (wire unread ++ r) (t ++ wire sent))).
Proof.
  intros Hok Hl Hr. unfold stream_round.
  erewrite bind_Exn by (eapply receive_read; [done|lia|done]). done.
Qed.

Lemma round_cut_short fs r t :
  Forall frame_ok fs -> zlen (wire fs ++ r) < 2 ^ 62 ->
  receive WebsocketMessage_new fs = None -> cut_short r ->
  exists b, spec_round tt ([], Net (wire fs ++ r) t) =
    (Exn end_of_stream, (b, Net [] (t ++ wire (answered WebsocketMessage_new fs)))).
Proof.
  intros Hok Hl Hr Hcut. destruct (read_cut_short fs WebsocketMessage_new r t) as [b Hb]; [done|lia|done|done|].
  exists b. unfold stream_round, read. by rewrite (bind_Exn _ _ _ _ _ Hb).
Qed.

(** The bytes not read. *)
Definition left_over (unread : option (list frame)) (r : bytes) : bytes :=
  match unread with Some fs => wire fs ++ r | None => [] end.

Lemma loop_serves n : forall fs r t o sent unread,
  serve WebsocketMessage_new fs = (o, sent, unread) ->
  (unread = None -> cut_short r) -> Forall frame_ok fs -> zlen (wire fs ++ r) < 2 ^ 62 -> (length fs < n)%nat ->
  exists b, (let! x := iter_nat spec_round n tt in match x with inr b => ret b | inl _ => nofuel end)
    ([], Net (wire fs ++ r) t) = (o, (b, Net (left_over unread r) (t ++ wire sent))).
Proof.
  induction n as [|n IH]; intros fs r t o sent unread Hs Hcut Hok Hl Hn; [lia|]. cbn [iter_nat].
  rewrite serve_receive in Hs. unfold bind in IH |- *.
  destruct (receive WebsocketMessage_new fs) as [[[o1 sent1] rest]|] eqn:Hr.
  2: { simplify_eq. destruct (round_cut_short fs r t Hok Hl Hr (Hcut eq_refl)) as [b ->]. by exists b. }
  pose proof (receive_defined _ _ _ _ _ Hr) as Hdef.
  destruct o1 as [msg|e| |]; [|simplify_eq; exists []; by rewrite (round_error _ _ _ _ r t Hok Hl Hr)|done|].
  - rewrite (round_message _ _ _ _ r t Hok Hl Hr). destruct (decide _); [simplify_eq; by exists []|].
    destruct (serve WebsocketMessage_new rest) as [[o2 sent2] unread2] eqn:Hs2. simplify_eq.
    destruct (receive_suffix _ _ _ _ _ Hr) as (f & fs1 & -> & _).
    apply Forall_app in Hok as [_ Hok]. rewrite length_app in Hn. cbn [length] in Hn.
    assert (zlen (wire rest ++ r) < 2 ^ 62) as Hl'.
    { rewrite wire_app, <- app_assoc, zlen_app in Hl. pose proof (zlen_nonneg (wire (f :: fs1))). lia. }
    destruct (IH rest r (t ++ wire (sent1 ++ [reply_to msg])) _ _ _ Hs2 Hcut Hok Hl' ltac:(lia)) as [b ->].
    exists b. rewrite <- app_assoc, <- wire_app, <- app_assoc. done.
  - exfalso. clear -Hr. revert Hr. generalize WebsocketMessage_new as m. revert sent1.
    induction fs as [|f fs IH]; intros sent1 m; cbn [receive]; [done|].
    destruct (receive1 m f) as [[[m'|m']|e| |] s] eqn:E; try (intros; by simplify_eq).
    + destruct (receive m' fs) as [[[o' s'] u]|] eqn:Er; intros; simplify_eq. by eapply IH.
    + unfold receive1 in E. cbv zeta in E. by repeat case_match.
Qed.
End Stream.

(** ** What the server answers *)

Section Answers.
Context {O : BufferOps} {L : BufferLaws O} {W : Type} {SO : SocketOps W}
  {R : W -> net -> Prop} {SL : SocketLaws SO R}.
Context (add_header : list (bytes * bytes) -> bytes -> bytes -> list (bytes * bytes))
  (after : bytes -> bytes) (server_name : bytes).
Context (sha1 base64 : bytes -> bytes) (is_get : bool) (find_header : string -> option bytes).
Context (starts_with ends_with : bytes -> bytes -> bool) (rot13 : bytes -> bytes)
  (load_file : bytes -> bytes + bytes).
Hypothesis starts_with_prefix : forall s p, starts_with s p = bool_decide (p `prefix_of` s).

Abbreviation handle := (@handle_request O W SO add_header after server_name sha1 base64 is_get
  find_header starts_with ends_with rot13 load_file).
Abbreviation spec_handle := (@handle_request spec_buffer net spec_socket add_header after server_name
  sha1 base64 is_get find_header starts_with ends_with rot13 load_file).

(** The files opened for a request that is no stream, and code, type and body of
    its reply. *)
Definition request_path (uri : bytes) : bytes :=
  if decide (uri = str "/") then str "/static/index.html" else uri.
Definition file_of (path : bytes) : bytes := static_directory ++ zdrop 8 path.
Definition file_type (filename : bytes) : bytes :=
  if ends_with filename (str ".js") then str "text/javascript" else str "text/html".
Definition answer (uri : bytes) : list bytes * (Z * bytes * bytes) :=
  let path := request_path uri in
  if decide (static_prefix `prefix_of` path) then
    match find_sub (str "..") (file_of path) with
    | Some _ => ([], (400, str "text/plain", str "Invalid static file"))
    | None =>
        ([file_of path],
         match load_file (file_of path) with
         | inl data => (200, file_type (file_of path), data)
         | inr what => (500, str "text/plain", str "Could not read file: " ++ c_str what)
         end)
    end
  else ([], (404, str "text/plain", str "Incorrect path: " ++ c_str path)).

(** The request once a reply has been sent. *)
Definition replied (code : Z) (content_type body : bytes) (rq : request) : request :=
  snd (response code
         (with_server add_header server_name (add_header (rq_headers rq) (str "Content-Type") content_type))
         (Some body) (rq_replies rq)).

Lemma spec_reply code t body rq :
  zlen body < 2 ^ 31 -> is_Some (find (fun p => fst p =? code) explanation_for_response_code) ->
  send_response_string (O := spec_buffer) add_header after server_name code t body rq =
    (Val tt, replied code t body rq) /\
  send_response_printf (O := spec_buffer) add_header after server_name code t body rq =
    (Val tt, replied code t body rq).
Proof.
  intros Hl [[c s] Hc].
  pose proof (send_response_spec add_header after server_name code t body rq Hl) as Hs. cbv zeta in Hs.
  unfold replied, response, explanation_at in *. rewrite Hc in *. simpl in *. tauto.
Qed.

Lemma stream_not_static uri : str "/stream" `prefix_of` uri ->
  request_path uri = uri /\ ~ static_prefix `prefix_of` uri.
Proof.
  intros [k ->]. unfold request_path. rewrite decide_False by done. split; [done|]. by intros [k' ?].
Qed.

Lemma spec_handle_answer fuel uri rq files v :
  ~ str "/stream" `prefix_of` uri -> zlen (snd (snd (answer uri))) < 2 ^ 31 ->
  let '(opened, (code, t, body)) := answer uri in
  spec_handle fuel uri (rq, (files, v)) = (Val tt, (replied code t body rq, (files ++ opened, v))).
Proof.
  intros Hns Hl. unfold handle_request. fold (request_path uri). cbv zeta.
  rewrite !starts_with_prefix. unfold answer in *. cbv zeta in *.
  assert (forall code t body, zlen body < 2 ^ 31 ->
    is_Some (find (fun p => fst p =? code) explanation_for_response_code) ->
    forall fs : list bytes, on_fst (send_response_printf (O := spec_buffer) add_header after server_name code t body)
      (rq, (fs, v)) = (Val tt, (replied code t body rq, (fs, v)))) as Hp
    by (intros; apply on_fst_eq; by apply spec_reply).
  destruct (decide (static_prefix `prefix_of` request_path uri)).
  - rewrite bool_decide_true by done. unfold handle_static, respond. cbv zeta.
    fold (file_of (request_path uri)). set (f := file_of (request_path uri)) in *.
    destruct (find_sub (str "..") f); [rewrite app_nil_r; apply Hp; [done|by eexists]|].
    unfold open_file. unfold bind, on_snd at 1, focus, on_fst at 1, focus, modify, ret at 1.
    cbn [fst snd]. destruct (load_file f) as [d|what]; [|apply Hp; [done|by eexists]].
    apply on_fst_eq. by apply spec_reply; [|eexists].
  - rewrite bool_decide_false by done. rewrite bool_decide_false.
    + rewrite app_nil_r. apply Hp; [done|by eexists].
    + unfold request_path. case_decide; [by intros [? ?]|done].
Qed.

Lemma spec_handle_stream fuel uri rq files v o fs sent unread r t key :
  (forall d, zlen (rot13 d) = zlen d) -> (forall d, zlen (c_str (base64 (sha1 d))) < 2 ^ 30) ->
  str "/stream" `prefix_of` uri -> accepts is_get find_header = Some key ->
  v = Net (wire fs ++ r) t -> Forall frame_ok fs -> zlen (wire fs ++ r) < 2 ^ 62 ->
  serve rot13 WebsocketMessage_new fs = (o, sent, unread) -> (unread = None -> cut_short r) ->
  (length fs < Pos.to_nat fuel)%nat ->
  spec_handle fuel uri (rq, (files, v)) =
  (o, (rq, (files, Net (left_over unread r)
    (t ++ switching_protocols (base64 (sha1 (c_str key ++ websocket_guid))) ++ wire sent)))).
Proof.
  intros Hrot Hb Hu Hacc -> Hok Hl Hs Hcut Hf. destruct (stream_not_static uri Hu) as [Hpath Hns].
  unfold handle_request. fold (request_path uri). cbv zeta. rewrite !starts_with_prefix, Hpath.
  rewrite bool_decide_false, bool_decide_true by done. unfold handle_stream.
  erewrite bind_Val by (do 2 apply on_snd_eq; by apply enable_websockets_spec).
  rewrite Hacc. rewrite bool_decide_true by eauto. cbn [negb rx tx].
  do 2 apply on_snd_eq. unfold with_local, loop.
  destruct (loop_serves rot13 Hrot _ fs r
    (t ++ switching_protocols (base64 (sha1 (c_str key ++ websocket_guid)))) _ _ _ Hs Hcut Hok Hl Hf) as [b Hloop].
  unfold bind in Hloop |- *. rewrite iter_pos_nat. rewrite Hloop. by rewrite <- app_assoc.
Qed.
End Answers.

(** ** Properties *)

Section Properties.
Context {O : BufferOps} {L : BufferLaws O} {W : Type} {SO : SocketOps W}
  {R : W -> net -> Prop} {SL : SocketLaws SO R}.
Context (add_header : list (bytes * bytes) -> bytes -> bytes -> list (bytes * bytes))
  (after : bytes -> bytes) (server_name : bytes).
Context (sha1 base64 : bytes -> bytes) (is_get : bool) (find_header : string -> option bytes).
Context (starts_with ends_with : bytes -> bytes -> bool) (rot13 : bytes -> bytes)
  (load_file : bytes -> bytes + bytes).

(** C35: every request but one for the stream gets exactly one reply, a file of the
    directory, or the error that fits; and the only file opened for it, if any, has
    the directory's name in front and no ".." in its name. The connection is not
    touched. *)
Theorem files_confined fuel uri rq files w v :
  (forall s p, starts_with s p = bool_decide (p `prefix_of` s)) ->
  ~ str "/stream" `prefix_of` uri ->
  zlen (snd (snd (answer ends_with load_file uri))) < 2 ^ 31 -> R w v ->
  let '(opened, (code, t, body)) := answer ends_with load_file uri in
  delivers lib_failure (handler_rel (R := R))
    (handle_request add_header after server_name sha1 base64 is_get find_header
       starts_with ends_with rot13 load_file fuel uri) (rq, (files, w)) (Val tt)
    (replied add_header server_name code t body rq, (files ++ opened, v)) /\
  length (rq_replies (replied add_header server_name code t body rq)) = S (length (rq_replies rq)) /\
  Forall (fun f => static_directory `prefix_of` f /\ ~ exists l1 l2, f = l1 ++ str ".." ++ l2) opened.
Proof.
  intros Hsw Hns Hl HR.
  pose proof (spec_handle_answer add_header after server_name sha1 base64 is_get find_header
    starts_with ends_with rot13 load_file Hsw fuel uri rq files v Hns Hl) as Hs.
  destruct (answer ends_with load_file uri) as [opened [[code t] body]] eqn:Ea.
  split_and!.
  - eapply refines_delivers with (s' := (rq, (files, v))); [by apply handle_request_refines| |exact Hs|done].
    by split; [|split].
  - unfold answer in Ea. cbv zeta in Ea.
    assert (exists s, explanation_at code = Val s) as [s Hc]
      by (repeat case_match; simplify_eq; by eexists).
    unfold replied, response. rewrite Hc. simpl. rewrite length_app. simpl. lia.
  - unfold answer in Ea. cbv zeta in Ea. destruct (decide _); [|by simplify_eq; constructor].
    destruct (find_sub _ _) eqn:Ef; [by simplify_eq; constructor|]. simplify_eq.
    constructor; [|constructor]. split; [by eexists|]. by apply find_sub_None.
Qed.

(** C34: a client that asks "/stream" for a websocket and then sends any frames gets,
    behind the handshake, what [serve] says: the rot13 of each message in order, the
    answers to its control frames between them, until it has sent "quit" or something
    that is an error. Only after "quit" the handler returns: an error ends it with an
    exception, and so does a client that is gone before, at any byte: between two
    messages, after a control frame, inside a fragmented message or in the middle of
    a frame. *)
Theorem stream_served fuel uri rq files w fs r t key :
  (forall s p, starts_with s p = bool_decide (p `prefix_of` s)) ->
  (forall d, zlen (rot13 d) = zlen d) -> (forall d, zlen (c_str (base64 (sha1 d))) < 2 ^ 30) ->
  str "/stream" `prefix_of` uri -> accepts is_get find_header = Some key ->
  Forall frame_ok fs -> zlen (wire fs ++ r) < 2 ^ 62 -> R w (Net (wire fs ++ r) t) ->
  let '(o, sent, unread) := serve rot13 WebsocketMessage_new fs in
  (unread = None -> cut_short r) -> (length fs < Pos.to_nat fuel)%nat ->
  delivers lib_failure (handler_rel (R := R))
    (handle_request add_header after server_name sha1 base64 is_get find_header
       starts_with ends_with rot13 load_file fuel uri) (rq, (files, w)) o
    (rq, (files, Net (left_over unread r)
       (t ++ switching_protocols (base64 (sha1 (c_str key ++ websocket_guid))) ++ wire sent))).
Proof.
  intros Hsw Hrot Hb Hu Hacc Hok Hl HR.
  destruct (serve rot13 WebsocketMessage_new fs) as [[o sent] unread] eqn:Hs. intros Hcut Hf.
  eapply refines_delivers with (s' := (rq, (files, Net (wire fs ++ r) t)));
    [by apply handle_request_refines|by split; [|split]|by eapply spec_handle_stream|].
  pose proof (serve_defined rot13 fs WebsocketMessage_new) as Hd. by rewrite Hs in Hd.
Qed.
End Properties.

(** ** Witnesses *)

Definition sample_rot13 : bytes -> bytes := map (fun b =>
  let v := byte_val b in
  if (97 <=? v) && (v <=? 122) then byte_of (97 + (v - 97 + 13) mod 26) else b).
Definition sample_starts (s p : bytes) : bool := bool_decide (p `prefix_of` s).
Definition sample_ends (s p : bytes) : bool := bool_decide (p `suffix_of` s).
Definition sample_load (f : bytes) : bytes + bytes :=
  if decide (f = str "HTTPWebsocketServer-Static/a.js") then inl (str "hi()") else inr (str "no such file").
Definition sample_add (l : list (bytes * bytes)) (k v : bytes) := l ++ [(k, v)].

Lemma files_confined_witness :
  let headers := [(str "Content-Type", str "text/javascript")] in
  delivers lib_failure (handler_rel (R := fun w v : net => w = v))
    (@handle_request (@libevent_buffer (chunked 3)) net (@libevent_socket (chunked 3)) sample_add
       (fun _ => []) [] (ztake 20) (ztake 28) true sample_headers sample_starts sample_ends sample_rot13
       sample_load 1 (str "/static/a.js")) (mkRequest [] [], ([], Net [] [])) (Val tt)
    (mkRequest headers [mkReply 200 (str "OK") headers (Some (str "hi()"))],
     ([str "HTTPWebsocketServer-Static/a.js"], Net [] [])).
Proof.
  exact (proj1 (files_confined (O := @libevent_buffer (chunked 3)) (SO := @libevent_socket (chunked 3))
    (L := libevent_buffer_laws (LS := chunked_spec 3)) (SL := libevent_socket_laws (LS := chunked_spec 3))
    sample_add (fun _ => []) [] (ztake 20) (ztake 28) true sample_headers
    sample_starts sample_ends sample_rot13 sample_load 1 (str "/static/a.js")
    (mkRequest [] []) [] (Net [] []) (Net [] []) (fun _ _ => eq_refl)
    ltac:(by intros [? ?]) eq_refl eq_refl)).
Defined.

(** A message in a masked frame, a ping, the first fragment of a message, and two
    bytes of the next frame. *)
Definition sample_stream : list frame :=
  [mkFrame 0x81 Short (Some sample_key) (str "hello"); mkFrame 0x89 Short None (str "?");
   mkFrame 0x01 Short (Some sample_key) (str "qu")].
Definition sample_rest : bytes := [Byte.x80; Byte.x82].

Lemma stream_served_witness :
  delivers lib_failure (handler_rel (R := fun w v : net => w = v))
    (@handle_request (@libevent_buffer (chunked 3)) net (@libevent_socket (chunked 3)) sample_add
       (fun _ => []) [] (ztake 20) (ztake 28) true sample_headers sample_starts sample_ends sample_rot13
       sample_load 9 (str "/stream")) (mkRequest [] [], ([], Net (wire sample_stream ++ sample_rest) []))
    (Exn end_of_stream)
    (mkRequest [] [], ([], Net []
      (switching_protocols (str "dGhlIHNhbXBsZSBub25j") ++
       wire [sent_frame 1 (str "uryyb"); sent_frame 10 (str "?")]))).
Proof.
  apply (stream_served (O := @libevent_buffer (chunked 3)) (SO := @libevent_socket (chunked 3))
    (L := libevent_buffer_laws (LS := chunked_spec 3)) (SL := libevent_socket_laws (LS := chunked_spec 3))
    sample_add (fun _ => []) [] (ztake 20) (ztake 28) true sample_headers
    sample_starts sample_ends sample_rot13 sample_load 9 (str "/stream")
    (mkRequest [] []) [] (Net (wire sample_stream ++ sample_rest) []) sample_stream sample_rest []
    (str "dGhlIHNhbXBsZSBub25jZQ==")); try done.
  - intros d. unfold sample_rot13, zlen. by rewrite length_map.
  - intros d. pose proof (zlen_c_str (ztake 28 (ztake 20 d))) as H.
    rewrite zlen_ztake in H by done. apply (Z.le_lt_trans _ _ _ H).
    by apply (Z.le_lt_trans _ 28); [apply Z.le_min_l|].
  - repeat constructor; vm_compute; congruence.
  - intros _. exists (mkFrame 0x80 Short (Some sample_key) (str "it")), (drop 2 (encode_frame (mkFrame 0x80 Short (Some sample_key) (str "it")))).
    split_and!; [|vm_compute; reflexivity|discriminate]. unfold frame_ok. cbn.
    split_and!; vm_compute; congruence.
  - vm_compute. lia.
Defined.
