(* ===== verification/HttpClient.v ===== *)
(** * The HTTP client (src/src/Protocols/HTTP/Connection.cc, Request.cc)

    A request on its way: the [Request] object, the [evhttp_request] behind it,
    the awaiter that [send_request] returns and the callback that brings the
    response; and what a [Connection] holds while it is constructed. evhttp and
    OpenSSL are not part of the repository: whether their calls succeed is an
    argument. *)
From stdpp Require Import tactics base list numbers strings gmap.
From S2P Require Import Prelude.

(** ** Requests and awaiters

    Objects go by names. A member that a constructor leaves uninitialized is
    [None]; reading it is undefined, and so is using an object that is gone. *)

Record Request := mkRequest {
  rq_req : nat;
  rq_owned : bool;
  rq_is_complete : option bool;
  rq_awaiter : option (option nat)
}.
(** [Connection::Awaiter]: the request object and the coroutine. *)
Record Awaiter := mkAwaiter { ca_req : nat; ca_coro : option nat }.

Record client := mkClient {
  objects : gmap nat Request;
  awaiters : gmap nat Awaiter;
  contexts : gmap nat nat;      (* the callback argument of each evhttp_request there is *)
  kept : list nat;              (* evhttp_request_own *)
  freed : list nat;             (* evhttp_request_free by a Request *)
  resumed : list nat            (* coroutines, in order *)
}.
Definition client_new : client := mkClient ∅ ∅ ∅ [] [] [].

Definition on_objects (f : gmap nat Request -> gmap nat Request) : ST client unit :=
  modify (fun s => mkClient (f (objects s)) (awaiters s) (contexts s) (kept s) (freed s) (resumed s)).
Definition on_awaiters (f : gmap nat Awaiter -> gmap nat Awaiter) : ST client unit :=
  modify (fun s => mkClient (objects s) (f (awaiters s)) (contexts s) (kept s) (freed s) (resumed s)).
Definition object (x : nat) : ST client Request := fun s =>
  match objects s !! x with Some r => (Val r, s) | None => (Undef, s) end.
Definition awaiter (a : nat) : ST client Awaiter := fun s =>
  match awaiters s !! a with Some w => (Val w, s) | None => (Undef, s) end.
Definition initialized {A} (m : option A) : ST client A :=
  match m with Some a => ret a | None => undef end.

(** [Request(Base&)]: [evhttp_request_new] answers a request, or null. *)
Definition Request_new (x : nat) (new : option nat) : ST client unit :=
  match new with
  | None => throw bad_alloc
  | Some q =>
      modify (fun s => mkClient (objects s) (awaiters s) (<[q := x]> (contexts s))
                         (kept s) (freed s) (resumed s)) ;;;
      on_objects (insert x (mkRequest q false (Some false) (Some None)))
  end.
(** The constructor for a request that came in. *)
Definition Request_of (x q : nat) : ST client unit :=
  on_objects (insert x (mkRequest q false None None)).
Definition Request_move (x other : nat) : ST client unit :=
  let! o := object other in
  on_objects (fun m =>
    <[x := mkRequest (rq_req o) (rq_owned o) None None]>
    (<[other := mkRequest (rq_req o) false (rq_is_complete o) (rq_awaiter o)]> m)).
Definition Request_destroy (x : nat) : ST client unit :=
  let! r := object x in
  modify (fun s => mkClient (objects s) (awaiters s) (contexts s) (kept s)
    (if rq_owned r then freed s ++ [rq_req r] else freed s) (resumed s)) ;;;
  on_objects (delete x).

Definition already_complete : exn := logic_error (str "attempted to re-send completed request").
Definition failed_to_send : exn := runtime_error (str "failed to send http request").

(** [evhttp_make_request] frees the request when it fails. *)
Definition evhttp_make_request (q : nat) (made : bool) : ST client bool :=
  let! ctx := gets (fun s => contexts s !! q) in
  let! _ := initialized ctx in
  (if made then ret tt
   else modify (fun s => mkClient (objects s) (awaiters s) (delete q (contexts s)) (kept s)
                           (freed s) (resumed s))) ;;;
  ret made.

(** [send_request], with the name of the awaiter it returns. *)
Definition send_request (x a : nat) (made : bool) : ST client unit :=
  let! r := object x in
  let! is_complete := initialized (rq_is_complete r) in
  if (is_complete : bool) then throw already_complete
  else
    let! made := evhttp_make_request (rq_req r) made in
    if (made : bool) then on_awaiters (insert a (mkAwaiter x None)) else throw failed_to_send.

Definition Awaiter_await_ready (a : nat) : ST client bool :=
  let! w := awaiter a in
  let! r := object (ca_req w) in
  initialized (rq_is_complete r).
Definition Awaiter_await_suspend (a coro : nat) : ST client unit :=
  let! w := awaiter a in
  let! r := object (ca_req w) in
  on_objects (insert (ca_req w)
    (mkRequest (rq_req r) (rq_owned r) (rq_is_complete r) (Some (Some a)))) ;;;
  on_awaiters (insert a (mkAwaiter (ca_req w) (Some coro))).
(** The awaiter is a temporary: it is gone once the coroutine goes on. *)
Definition Awaiter_on_response (a : nat) : ST client unit :=
  let! w := awaiter a in
  match ca_coro w with
  | None => undef
  | Some coro =>
      modify (fun s => mkClient (objects s) (awaiters s) (contexts s) (kept s) (freed s)
                         (resumed s ++ [coro])) ;;;
      on_awaiters (delete a)
  end.
(** [co_await]: whether the coroutine goes on at once. *)
Definition co_await_response (a coro : nat) : ST client bool :=
  let! ready := Awaiter_await_ready a in
  if (ready : bool) then on_awaiters (delete a) ;;; ret true
  else Awaiter_await_suspend a coro ;;; ret false.

(** [Request::on_response], the callback of the [evhttp_request] [q]. *)
Definition Request_on_response (q : nat) : ST client unit :=
  let! ctx := gets (fun s => contexts s !! q) in
  let! x := initialized ctx in
  let! r := object x in
  modify (fun s => mkClient (objects s) (awaiters s) (contexts s) (kept s ++ [rq_req r])
                     (freed s) (resumed s)) ;;;
  on_objects (insert x (mkRequest (rq_req r) (rq_owned r) (Some true) (rq_awaiter r))) ;;;
  let! aw := initialized (rq_awaiter r) in
  match aw with None => ret tt | Some a => Awaiter_on_response a end.

(** ** Sequences of operations *)

Inductive op :=
| ONew (x : nat) (q : option nat)
| OOf (x q : nat)
| OMove (x other : nat)
| ODestroy (x : nat)
| OSend (x a : nat) (made : bool)
| OAwait (a coro : nat)
| ORespond (q : nat).

(** Whether a coroutine went on without being suspended. *)
Definition step (o : op) : ST client bool :=
  match o with
  | ONew x q => Request_new x q ;;; ret false
  | OOf x q => Request_of x q ;;; ret false
  | OMove x other => Request_move x other ;;; ret false
  | ODestroy x => Request_destroy x ;;; ret false
  | OSend x a made => send_request x a made ;;; ret false
  | OAwait a coro => co_await_response a coro
  | ORespond q => Request_on_response q ;;; ret false
  end.
(** An exception goes to the caller of that operation, who goes on. *)
Fixpoint run (ops : list op) : ST client (list (out bool)) :=
  match ops with
  | [] => ret []
  | o :: ops => fun s =>
      match step o s with
      | (Undef, s') => (Undef, s')
      | (r, s') => (let! rs := run ops in ret (r :: rs)) s'
      end
  end.

(** ** What a Connection holds while it is constructed *)

Inductive resource := RSsl | RBufferevent | RConnection.

Definition ssl_failed : exn := runtime_error (str "failed to create connection-specific ssl context").
Definition hostname_failed : exn := runtime_error (str "failed to set expected hostname").
Definition bufferevent_failed : exn := runtime_error (str "failed to create ssl bufferevent").
Definition connection_failed : exn := runtime_error (str "failed to create http connection").

Record library := mkLibrary {
  ssl_new : bool; set1_host : bool; bufferevent_new : bool; connection_new : bool
}.

(** The state is what has been made and neither freed nor handed over: the
    bufferevent takes the SSL, the connection takes the bufferevent. *)
Definition Connection_new (ssl : bool) (lib : library) : ST (list resource) unit :=
  if ssl then
    (if negb (ssl_new lib) then throw ssl_failed else put [RSsl]) ;;;
    (if negb (set1_host lib) then put [] ;;; throw hostname_failed else ret tt) ;;;
    (if negb (bufferevent_new lib) then put [] ;;; throw bufferevent_failed else put [RBufferevent]) ;;;
    (if negb (connection_new lib) then put [] ;;; throw connection_failed else put [RConnection])
  else if negb (connection_new lib) then throw connection_failed else put [RConnection].

(** The [conn] members of the objects, and the connections freed. *)
Definition connections : Type := gmap nat nat * list nat.
Definition Connection_conn (x : nat) : ST connections nat := fun s =>
  match fst s !! x with Some c => (Val c, s) | None => (Undef, s) end.
Definition Connection_move (x other : nat) : ST connections unit :=
  let! c := Connection_conn other in
  on_fst (modify (insert x c)).
Definition Connection_destroy (x : nat) : ST connections unit :=
  let! c := Connection_conn x in
  on_snd (modify (fun freed => freed ++ [c])) ;;; on_fst (modify (delete x)).

(** ** The abstract exchange

    A request is made, sent, and answered; its coroutine waits, or finds the
    response already there. The [evhttp_request] and the awaiter of a request go
    by the name of its object here. *)
Inductive status := Fresh | Failed | Sent | Waiting (coro : nat) | Answered | Done (waited : bool).

(** The outcome, the coroutine that is resumed, and the next state; [None] for a
    use of the library that evhttp does not allow: two requests of one name, a
    request sent while it is under way or after a failure, awaited twice, or
    answered unasked. *)
Definition exchange_step (o : op) (m : gmap nat status) :
    option (out bool * list nat * gmap nat status) :=
  match o with
  | ONew x (Some q) =>
      if decide (q = x /\ m !! x = None) then Some (Val false, [], <[x := Fresh]> m) else None
  | ONew _ None => Some (Exn bad_alloc, [], m)
  | OSend x a made =>
      if negb (a =? x)%nat then None else
      match m !! x with
      | Some Fresh =>
          if made then Some (Val false, [], <[x := Sent]> m) else Some (Exn failed_to_send, [], <[x := Failed]> m)
      | Some Answered | Some (Done _) => Some (Exn already_complete, [], m)
      | _ => None
      end
  | OAwait x coro =>
      match m !! x with
      | Some Sent => Some (Val false, [], <[x := Waiting coro]> m)
      | Some Answered => Some (Val true, [], <[x := Done false]> m)
      | _ => None
      end
  | ORespond x =>
      match m !! x with
      | Some Sent => Some (Val false, [], <[x := Answered]> m)
      | Some (Waiting coro) => Some (Val false, [coro], <[x := Done true]> m)
      | _ => None
      end
  | _ => None
  end.
Fixpoint exchange (ops : list op) (m : gmap nat status) :
    option (list (out bool) * list nat * gmap nat status) :=
  match ops with
  | [] => Some ([], [], m)
  | o :: ops =>
      match exchange_step o m with
      | Some (r, l, m') =>
          match exchange ops m' with
          | Some (rs, l', m'') => Some (r :: rs, l ++ l', m'')
          | None => None
          end
      | None => None
      end
  end.

(** What the objects of a request look like in each state. *)
Definition outbound (x : nat) (complete : bool) (aw : option nat) : option Request :=
  Some (mkRequest x false (Some complete) (Some aw)).
Definition image (x : nat) (st : option status) : option Request * option nat * option Awaiter :=
  match st with
  | None => (None, None, None)
  | Some Fresh => (outbound x false None, Some x, None)
  | Some Failed => (outbound x false None, None, None)
  | Some Sent => (outbound x false None, Some x, Some (mkAwaiter x None))
  | Some (Waiting coro) => (outbound x false (Some x), Some x, Some (mkAwaiter x (Some coro)))
  | Some Answered => (outbound x true None, Some x, Some (mkAwaiter x None))
  | Some (Done waited) => (outbound x true (if waited then Some x else None), Some x, None)
  end.
Definition represents (m : gmap nat status) (s : client) : Prop :=
  forall x, (objects s !! x, contexts s !! x, awaiters s !! x) = image x (m !! x).

(** Changing the entries of one request keeps the others. *)
Lemma represents_update m s x st s' :
  represents m s ->
  (forall y, y <> x -> objects s' !! y = objects s !! y /\ contexts s' !! y = contexts s !! y /\
                       awaiters s' !! y = awaiters s !! y) ->
  (objects s' !! x, contexts s' !! x, awaiters s' !! x) = image x (Some st) ->
  represents (<[x := st]> m) s'.
Proof.
  intros HR Hne Hx y. destruct (decide (y = x)) as [->|Hy].
  - by rewrite lookup_insert_eq.
  - rewrite lookup_insert_ne by done. destruct (Hne y Hy) as (-> & -> & ->). apply HR.
Qed.

Ltac update_one :=
  eapply represents_update; [eassumption|
    intros ? ?; simpl; rewrite ?lookup_insert_ne, ?lookup_delete_ne by done; done|
    simpl; rewrite ?lookup_insert_eq, ?lookup_delete_eq].

Lemma represents_at m s x st :
  represents m s -> m !! x = st ->
  objects s !! x = fst (fst (image x st)) /\ contexts s !! x = snd (fst (image x st)) /\
  awaiters s !! x = snd (image x st).
Proof. intros HR <-. by rewrite <- (HR x). Qed.

Ltac at_request HR Hx Ho Hc Ha :=
  destruct (represents_at _ _ _ _ HR Hx) as (Ho & Hc & Ha); simpl in Ho, Hc, Ha.
Ltac stepped := eexists; (split; [done|]); (split; [|simpl; rewrite ?app_nil_r; done]).

Lemma exchange_step_spec o m s r l m' :
  represents m s -> exchange_step o m = Some (r, l, m') ->
  exists s', step o s = (r, s') /\ represents m' s' /\ resumed s' = resumed s ++ l.
Proof.
  intros HR. unfold exchange_step.
  destruct o as [x [q|]| | | |x a made|x coro|x]; intros H; try done.
  - case_decide as Hd; [|done]. destruct Hd as [-> Hx]. simplify_eq.
    at_request HR Hx Ho Hc Ha. stepped. update_one. by rewrite Ha.
  - simplify_eq. by stepped.
  - destruct (Nat.eqb_spec a x) as [->|]; [|done]. simpl in H.
    unfold step, send_request, evhttp_make_request, bind, object.
    destruct (m !! x) as [[| | |c| |w]|] eqn:Hx; simplify_eq/=; at_request HR Hx Ho Hc Ha;
      rewrite Ho; simpl; try by stepped.
    rewrite Hc. destruct made; simplify_eq; stepped; update_one; by rewrite Ho, ?Hc, ?Ha.
  - unfold step, co_await_response, Awaiter_await_ready, Awaiter_await_suspend, bind, object, awaiter.
    destruct (m !! x) as [[| | |c| |w]|] eqn:Hx; simplify_eq/=; at_request HR Hx Ho Hc Ha;
      rewrite Ha; simpl; rewrite Ho; simpl; rewrite ?Ha; simpl; rewrite ?Ho; stepped;
      update_one; by rewrite ?Ho, Hc.
  - unfold step, Request_on_response, bind, gets, object.
    destruct (m !! x) as [[| | |c| |w]|] eqn:Hx; simplify_eq/=; at_request HR Hx Ho Hc Ha;
      rewrite Hc; simpl; rewrite Ho; simpl; unfold Awaiter_on_response, awaiter, bind; simpl;
      rewrite ?Ha; stepped; update_one; by rewrite Hc, ?Ha.
Qed.

Lemma exchange_run ops : forall m s rs l m',
  represents m s -> exchange ops m = Some (rs, l, m') ->
  exists s', run ops s = (Val rs, s') /\ represents m' s' /\ resumed s' = resumed s ++ l.
Proof.
  induction ops as [|o ops IH]; intros m s rs l m' HR H; simpl in H.
  - simplify_eq. eexists. by rewrite app_nil_r.
  - destruct (exchange_step o m) as [[[r l1] m1]|] eqn:Hs; [|done].
    destruct (exchange ops m1) as [[[rs' l'] m'']|] eqn:He; simplify_eq.
    destruct (exchange_step_spec o m s r l1 m1 HR Hs) as (s1 & H1 & HR1 & Hr1).
    destruct (IH m1 s1 rs' l' m' HR1 He) as (s2 & H2 & HR2 & Hr2).
    exists s2. split; [|split; [done|by rewrite Hr2, Hr1, app_assoc]].
    simpl. rewrite H1. assert (r <> Undef) as Hu.
    { clear -Hs. unfold exchange_step in Hs. intros ->.
      repeat (case_match; try done). }
    destruct r; try done; by rewrite (bind_Val _ _ _ _ _ H2).
Qed.

(** ** Properties *)

(** C37: whatever the order in which any number of requests are made, sent,
    awaited and answered, each goes through its own life: a coroutine that awaits
    a response on its way is resumed when it comes, once and in the order of the
    responses; one that comes late goes on at once; a request that cannot be sent,
    or is sent again once it is complete, throws. The objects and
    callbacks never reach anything that is gone. *)
Theorem http_exchange ops rs l m :
  exchange ops ∅ = Some (rs, l, m) ->
  exists s, run ops client_new = (Val rs, s) /\ represents m s /\ resumed s = l.
Proof.
  intros H. apply (exchange_run ops ∅ client_new); [|exact H]. intros x. simpl.
  by rewrite !lookup_empty.
Qed.

Lemma http_exchange_witness :
  let ops := [ONew 0 (Some 0); OSend 0 0 true; ONew 2 (Some 2); OSend 2 2 false; ONew 1 (Some 1); OSend 1 1 true;
              OAwait 0 7; ORespond 1; OAwait 1 8; ORespond 0; OSend 1 1 true]%nat in
  exists s, run ops client_new =
    (Val [Val false; Val false; Val false; Exn failed_to_send; Val false; Val false;
          Val false; Val false; Val true; Val false; Exn already_complete], s) /\
    represents {[ 0%nat := Done true; 1%nat := Done false; 2%nat := Failed ]} s /\ resumed s = [7%nat].
Proof. apply http_exchange. vm_compute. reflexivity. Defined.

(** No constructor sets [owned], so no destructor frees a request. *)
Definition unowned (s : client) : Prop :=
  map_Forall (fun _ r => rq_owned r = false) (objects s) /\ freed s = [].

Lemma unowned_insert x r s c k t f aw :
  rq_owned r = false -> unowned s -> f = [] ->
  unowned (mkClient (<[x := r]> (objects s)) aw c k f t).
Proof. intros Hr [Hm _] ->. split; [by apply map_Forall_insert_2|done]. Qed.

Lemma step_unowned o s : unowned s -> unowned (snd (step o s)).
Proof.
  intros Hu. pose proof Hu as [Hm Hf].
  assert (forall x r, objects s !! x = Some r -> rq_owned r = false) as Ho by (intros; by eapply Hm).
  destruct o as [x [q|]|x q|x y|x|x a made|a coro|q]; unfold step, Request_new, Request_of, Request_move,
    Request_destroy, send_request, evhttp_make_request, co_await_response, Awaiter_await_ready, Awaiter_await_suspend,
    Request_on_response, Awaiter_on_response, bind, object, awaiter, gets, initialized;
    simpl; try done.
  - by apply unowned_insert.
  - by apply unowned_insert.
  - destruct (objects s !! y) as [r|] eqn:Hy; [|done]. split; [|done]. simpl.
    apply map_Forall_insert_2; [simpl; by eauto|]. by apply map_Forall_insert_2.
  - destruct (objects s !! x) as [r|] eqn:Hx; [|done]. simpl. rewrite (Ho x r Hx).
    split; [by apply map_Forall_delete|done].
  - destruct (objects s !! x) as [r|]; [|done]. simpl.
    destruct (rq_is_complete r) as [[]|]; [done| |done]. simpl.
    destruct (contexts s !! rq_req r); [|done]. by destruct made.
  - destruct (awaiters s !! a) as [w|] eqn:Hw; [|done]. simpl.
    destruct (objects s !! ca_req w) as [r|] eqn:Hr; [|done]. simpl.
    destruct (rq_is_complete r) as [[]|]; [done| |done]. simpl. rewrite Hw. simpl. rewrite Hr.
    apply unowned_insert; [simpl; by eauto|done|done].
  - destruct (contexts s !! q) as [x|]; [|done]. simpl.
    destruct (objects s !! x) as [r|] eqn:Hr; [|done]. simpl.
    destruct (rq_awaiter r) as [[a|]|]; simpl; [destruct (awaiters s !! a) as [[? [c|]]|]| |];
      apply unowned_insert; (simpl; by eauto) || done.
Qed.

(** No sequence of operations on requests -- made, received, moved, sent,
    awaited, answered, destroyed -- ever frees an [evhttp_request]: [owned] is
    never true. A response is kept with [evhttp_request_own], after which libevent
    does not free it either, so every request that is answered is lost. *)
Theorem requests_never_freed ops : freed (snd (run ops client_new)) = [].
Proof.
  assert (forall s, unowned s -> unowned (snd (run ops s))) as H.
  { induction ops as [|o ops IH]; intros s Hs; [done|]. simpl. pose proof (step_unowned o s Hs) as H1.
    destruct (step o s) as [[] s1]; simpl in *; try done;
      unfold bind; specialize (IH s1 H1); destruct (run ops s1) as [[] ?]; done. }
  apply H. split; [apply map_Forall_empty|done].
Qed.

(** Constructing a [Connection] is exception-safe: when any step of it fails,
    everything made so far has been released, the SSL and the bufferevent through
    whoever owns them at that point; when it succeeds only the connection is left. *)
Theorem connection_new_releases ssl lib :
  match Connection_new ssl lib [] with
  | (Val _, held) => held = [RConnection]
  | (Exn _, held) => held = []
  | _ => False
  end.
Proof. destruct ssl, lib as [[] [] [] []]; done. Qed.

(** Moving a [Connection] leaves the pointer in both objects, and each frees it. *)
Lemma connection_moved_freed_twice c :
  (Connection_move 1 0 ;;; Connection_destroy 0 ;;; Connection_destroy 1) ({[ 0%nat := c ]}, []) =
  (Val tt, (∅, [c; c])).
Proof. reflexivity. Qed.
