(* ===== verification/HttpExamples.v ===== *)
(** * The two HTTP examples (src/src/Examples/HTTPServer.cc, HTTPClient.cc)

    A server that answers every request with its path, over the responses of
    HttpServer.v; and a client that makes one request, the composition of the TLS
    contexts of Settings.v with the connection and the request of HttpClient.v. *)
From stdpp Require Import tactics base list numbers strings gmap.
From S2P Require Import Prelude BufferApi Libevent Chunked Buffer Text Settings HttpServer.
From S2P Require HttpClient.

(** ** The server *)

Section ExampleServer.
Context {O : BufferOps}.
Context (evhttp_add_header : list (bytes * bytes) -> bytes -> bytes -> list (bytes * bytes))
  (evbuffer_after_reply : bytes -> bytes) (server_name : bytes).

Definition example_body (path : bytes) : bytes :=
  str "Looks like it works!" ++ [Byte.x0a] ++ str "You requested: " ++ c_str path.
(** [ExampleHTTPServer::handle_request], by the path of the URI. *)
Definition handle_request (path : bytes) : ST request unit :=
  send_response_printf evhttp_add_header evbuffer_after_reply server_name 200 (str "text/plain")
    (example_body path).
End ExampleServer.

(** [main], up to [base.run()]. *)
Definition server_main (evhttp_new_ok : bool) (fd : Z) : ST Server unit :=
  add_socket false evhttp_new_ok fd false.

(** ** The client *)

(** The TLS contexts there are, what the connection holds, the request and its
    headers. *)
Record exchange := mkExchange {
  x_contexts : ssl_ctxs; x_connection : list HttpClient.resource;
  x_client : HttpClient.client; x_headers : list (bytes * bytes)
}.
Definition on_contexts {A} (m : ST ssl_ctxs A) : ST exchange A :=
  focus x_contexts (fun c x => mkExchange c (x_connection x) (x_client x) (x_headers x)) m.
Definition on_connection {A} (m : ST (list HttpClient.resource) A) : ST exchange A :=
  focus x_connection (fun c x => mkExchange (x_contexts x) c (x_client x) (x_headers x)) m.
Definition on_client {A} (m : ST HttpClient.client A) : ST exchange A :=
  focus x_client (fun c x => mkExchange (x_contexts x) (x_connection x) c (x_headers x)) m.
Definition on_headers {A} (m : ST (list (bytes * bytes)) A) : ST exchange A :=
  focus x_headers (fun h x => mkExchange (x_contexts x) (x_connection x) (x_client x) h) m.

(** The answers of OpenSSL and evhttp. *)
Record answers := mkAnswers {
  an_ctx : option Z; an_paths : Z; an_library : HttpClient.library;
  an_request : option nat; an_made : bool
}.

Section ExampleClient.
Context (evhttp_add_header : list (bytes * bytes) -> bytes -> bytes -> list (bytes * bytes)).
Context (print_data : bytes -> bytes).

(** [make_request] until it waits: the address of its TLS context, if it has one,
    and whether it goes on at once. The request is object 0, its awaiter 0; its
    coroutine is [coro]. The host goes to the connection, the escaped path to
    evhttp, both unchanged. *)
Definition make_request (port : Z) (an : answers) (coro : nat) : ST exchange (option Z * bool) :=
  let! ctx :=
    (if port =? 443 then
       let! a := on_contexts (create_default_ssl_ctx (an_ctx an) (an_paths an)) in ret (Some a)
     else ret None) in
  on_connection (HttpClient.Connection_new (bool_decide (is_Some ctx)) (an_library an)) ;;;
  on_client (HttpClient.Request_new 0 (an_request an)) ;;;
  on_headers (modify (fun h => evhttp_add_header h (str "Connection") (str "close"))) ;;;
  on_client (HttpClient.send_request 0 0 (an_made an)) ;;;
  let! ready := on_client (HttpClient.co_await_response 0 coro) in
  ret (ctx, ready).

(** What it prints to stderr once it is resumed; the body is that of the input
    buffer, which [debug_print_contents] leaves out when it is empty. *)
Definition print_response (code : Z) (body : bytes) : bytes :=
  str "Response code: " ++ dec_signed code ++ [Byte.x0a] ++ str "Data:" ++ [Byte.x0a] ++
  (if decide (body = []) then [] else print_data body).

(** The end of the coroutine: the request, the connection and the TLS context are
    destroyed in this order. *)
Definition make_request_end (ctx : option Z) : ST exchange unit :=
  on_client (HttpClient.Request_destroy 0) ;;;
  on_connection (put []) ;;;
  on_contexts (modify (filter (fun p => Some (fst p) <> ctx))).
End ExampleClient.

(** ** What they do *)

(** Every request is answered once, with the text and the path. *)
Theorem example_server_answers {O : BufferOps} {L : BufferLaws O} add_header after server_name path r :
  zlen path < 2 ^ 30 ->
  let headers := with_server add_header server_name
    (add_header (rq_headers r) (str "Content-Type") (str "text/plain")) in
  delivers lib_failure eq (handle_request add_header after server_name path) r (Val tt)
    (mkRequest headers (rq_replies r ++ [mkReply 200 (str "OK") headers (Some (example_body path))])).
Proof.
  intros Hl headers.
  assert (zlen (example_body path) < 2 ^ 31) as Hb.
  { unfold example_body. rewrite !zlen_app. pose proof (zlen_c_str path).
    change (zlen (str "Looks like it works!")) with 20. change (zlen [Byte.x0a]) with 1.
    change (zlen (str "You requested: ")) with 15. lia. }
  destruct (send_response_delivers add_header after server_name 200 (str "text/plain")
    (example_body path) r Hb) as (_ & _ & H). exact H.
Qed.

(** The client's side of an exchange, until it waits and to its end. *)
Definition client_waits (coro : nat) : HttpClient.client :=
  snd ((HttpClient.Request_new 0 (Some 0%nat) ;;; HttpClient.send_request 0 0 true ;;;
        HttpClient.co_await_response 0 coro) HttpClient.client_new).
Definition client_ends (coro : nat) : HttpClient.client :=
  snd ((HttpClient.Request_on_response 0 ;;; HttpClient.Request_destroy 0) (client_waits coro)).

Lemma make_request_end_spec ctx coro contexts connection headers :
  (on_client (HttpClient.Request_on_response 0) ;;; make_request_end ctx)
    (mkExchange contexts connection (client_waits coro) headers) =
  (Val tt, mkExchange (filter (fun p => Some (fst p) <> ctx) contexts) [] (client_ends coro) headers).
Proof. vm_compute. reflexivity. Qed.

(** The client, when every call of OpenSSL and evhttp succeeds: its coroutine is
    resumed once, by the response; afterwards the TLS context and the connection
    are gone, but the [evhttp_request], which the callback kept from evhttp, has
    not been freed. *)
Theorem example_client_loses_request add_header port a coro contexts :
  Forall (fun p => fst p <> a) contexts ->
  let an := mkAnswers (Some a) 1 (HttpClient.mkLibrary true true true true) (Some 0%nat) true in
  exists s1 ctx s2,
    make_request add_header port an coro (mkExchange contexts [] HttpClient.client_new []) =
      (Val (ctx, false), s1) /\
    x_connection s1 = [HttpClient.RConnection] /\
    length (x_contexts s1) = (length contexts + if (port =? 443)%Z then 1 else 0)%nat /\
    (on_client (HttpClient.Request_on_response 0) ;;; make_request_end ctx) s1 = (Val tt, s2) /\
    x_contexts s2 = contexts /\ x_connection s2 = [] /\ HttpClient.resumed (x_client s2) = [coro] /\
    HttpClient.kept (x_client s2) = [0%nat] /\ HttpClient.freed (x_client s2) = [].
Proof.
  intros Hfresh an.
  assert (forall ctx, ctx = Some a \/ ctx = None ->
    filter (fun p : Z * ssl_ctx => Some (fst p) <> ctx) contexts = contexts) as Hold.
  { intros ctx Hctx. induction Hfresh as [|p l Hp Hl IH]; [done|].
    rewrite filter_cons_True by (destruct Hctx; subst ctx; congruence). by rewrite IH. }
  set (headers := add_header [] (str "Connection") (str "close")).
  unfold make_request. destruct (port =? 443).
  - exists (mkExchange ((a, mkSslCtx None None None None None true) :: contexts) [HttpClient.RConnection]
      (client_waits coro) headers), (Some a), (mkExchange contexts [] (client_ends coro) headers).
    split; [vm_compute; reflexivity|]. split; [done|]. split; [cbn; lia|].
    split; [|by vm_compute]. rewrite make_request_end_spec.
    rewrite (filter_cons_False (fun p : Z * ssl_ctx => Some (fst p) <> Some a)) by (cbn; congruence).
    by rewrite Hold by auto.
  - exists (mkExchange contexts [HttpClient.RConnection] (client_waits coro) headers), None,
      (mkExchange contexts [] (client_ends coro) headers).
    split; [vm_compute; reflexivity|]. split; [done|]. split; [cbn; lia|].
    split; [|by vm_compute]. by rewrite make_request_end_spec, Hold by auto.
Qed.

Lemma example_client_loses_request_witness :
  exists s1 ctx s2,
    make_request (fun h k v => h ++ [(k, v)]) 443
      (mkAnswers (Some 7) 1 (HttpClient.mkLibrary true true true true) (Some 0%nat) true) 5
      (mkExchange [] [] HttpClient.client_new []) = (Val (ctx, false), s1) /\
    x_connection s1 = [HttpClient.RConnection] /\ length (x_contexts s1) = 1%nat /\
    (on_client (HttpClient.Request_on_response 0) ;;; make_request_end ctx) s1 = (Val tt, s2) /\
    x_contexts s2 = [] /\ x_connection s2 = [] /\ HttpClient.resumed (x_client s2) = [5%nat] /\
    HttpClient.kept (x_client s2) = [0%nat] /\ HttpClient.freed (x_client s2) = [].
Proof. exact (example_client_loses_request (fun h k v => h ++ [(k, v)]) 443 7 5 [] (List.Forall_nil _)). Defined.
