(* ===== verification/RequestDispatch.v ===== *)
(** * How a request reaches its handler (src/src/Protocols/HTTP/Server.cc)

    The callbacks that evhttp calls: [dispatch_handle_request], which makes a
    [Request] on its own stack frame and passes it by reference to the coroutine
    [handle_request], and [dispatch_on_ssl_connection]. A handler is a computation
    cut at its suspensions; the [Request] lives until the first of them, for then
    the dispatch function returns. *)
From stdpp Require Import tactics base list numbers strings.
From S2P Require Import Prelude BufferApi Libevent Chunked Buffer Text Websocket HttpServer HttpExamples WebsocketExample.

(** ** Handlers *)

(** What a coroutine does with the request, what it does without it, and where it
    is suspended; an exception of a computation leaves the coroutine. *)
Inductive handler (S : Type) : Type :=
| Return
| Touch {A : Type} (m : ST S A) (k : A -> handler S)
| Other {A : Type} (m : ST S A) (k : A -> handler S)
| Suspend (h : handler S).
Arguments Return {S}.
Arguments Touch {S A} m k.
Arguments Other {S A} m k.
Arguments Suspend {S} h.

Section Dispatch.
Context {S : Type}.

(** From one resumption to the next suspension; [alive] says whether the object
    behind the reference still exists. *)
Fixpoint resume_handler (alive : bool) (h : handler S) : ST S (option (handler S)) :=
  match h with
  | Return => ret None
  | Suspend h => ret (Some h)
  | Touch m k => if alive then let! a := m in resume_handler alive (k a) else undef
  | Other m k => let! a := m in resume_handler alive (k a)
  end.

(** The [Request] is destroyed when the function returns; it does not own the
    request of evhttp, so that stays. *)
Definition dispatch_handle_request (h : handler S) : ST S (option (handler S)) :=
  resume_handler true h.

(** The event loop resumes the coroutine whenever what it awaits is there. *)
Fixpoint resume_later (h : handler S) : ST S unit :=
  match h with
  | Return => ret tt
  | Suspend h => resume_later h
  | Touch _ _ => undef
  | Other m k => let! a := m in resume_later (k a)
  end.

(** A request from the callback of evhttp to the end of its coroutine. *)
Definition handled (h : handler S) : ST S unit :=
  let! h := dispatch_handle_request h in
  match h with Some h => resume_later h | None => ret tt end.

(** What the coroutine is meant to do: the same with a [Request] that lives as long
    as it does. *)
Fixpoint intended (h : handler S) : ST S unit :=
  match h with
  | Return => ret tt
  | Suspend h => intended h
  | Touch m k => let! a := m in intended (k a)
  | Other m k => let! a := m in intended (k a)
  end.

(** Whether it uses the request after a suspension. *)
Fixpoint touches_late (suspended : bool) (h : handler S) (s : S) : bool :=
  match h with
  | Return => false
  | Suspend h => touches_late true h s
  | Touch m k =>
      suspended || match m s with (Val a, s') => touches_late suspended (k a) s' | _ => false end
  | Other m k => match m s with (Val a, s') => touches_late suspended (k a) s' | _ => false end
  end.
End Dispatch.

(** [Request] and the SSL of a new connection: [SSL_new] may answer null, which is
    passed on. *)
Definition BUFFEREVENT_SSL_ACCEPTING : Z := 2.
Definition BEV_OPT_CLOSE_ON_FREE : Z := 1.
Definition dispatch_on_ssl_connection {C SSL BEV : Type} (SSL_new : C -> option SSL)
    (bufferevent_openssl_socket_new : Z -> option SSL -> Z -> Z -> BEV) (ctx : C) : BEV :=
  let ssl := SSL_new ctx in
  bufferevent_openssl_socket_new (-1) ssl BUFFEREVENT_SSL_ACCEPTING BEV_OPT_CLOSE_ON_FREE.

(** ** The handlers of the examples *)

Section Handlers.
Context {O : BufferOps} {W : Type} {SO : SocketOps W}.
Context (evhttp_add_header : list (bytes * bytes) -> bytes -> bytes -> list (bytes * bytes))
  (evbuffer_after_reply : bytes -> bytes) (server_name : bytes).
Context (sha1 base64_encode : bytes -> bytes) (is_get : bool) (find_header : string -> option bytes).
Context (starts_with ends_with : bytes -> bytes -> bool) (rot13 : bytes -> bytes)
  (load_file : bytes -> bytes + bytes).

(** [ExampleHTTPServer::handle_request] never waits. *)
Definition example_handler (path : bytes) : handler request :=
  Touch (HttpExamples.handle_request evhttp_add_header evbuffer_after_reply server_name path)
    (fun _ => Return).

(** The handshake of [enable_websockets], which the coroutine waits for; the
    connection was taken from the request before. *)
Definition send_handshake (sec_websocket_key : bytes) : ST W unit :=
  let sec_websocket_accept := base64_encode (sha1 (c_str sec_websocket_key ++ websocket_guid)) in
  let! buf := of_out buf_new in
  with_local buf (on_fst (buf_add_printf (switching_protocols sec_websocket_accept)) ;;; buf_write).

(** [ExampleHTTPWebsocketServer::handle_request]: the stream is served over the
    connection. *)
Definition websocket_handler (fuel : positive) (uri : bytes) : handler (@handler_state W) :=
  let path := if decide (uri = str "/") then str "/static/index.html" else uri in
  let respond := respond evhttp_add_header evbuffer_after_reply server_name in
  if starts_with path static_prefix then
    Touch (handle_static evhttp_add_header evbuffer_after_reply server_name ends_with load_file path)
      (fun _ => Return)
  else if starts_with path (str "/stream") then
    Touch (ret (accepts is_get find_header)) (fun key =>
      match key with
      | None => Touch (respond 400 "text/plain"%string "Could not enable websockets for request"%string)
                  (fun _ => Return)
      | Some key =>
          Suspend (Other (on_snd (on_snd (send_handshake key))) (fun _ =>
          Suspend (Other (on_snd (on_snd (with_local [] (loop (stream_round rot13) fuel tt))))
            (fun _ => Return))))
      end)
  else
    Touch (on_fst (send_response_printf evhttp_add_header evbuffer_after_reply server_name 404
              (str "text/plain") (str "Incorrect path: " ++ c_str path))) (fun _ => Return).
End Handlers.

(** ** Properties *)

Section Dispatched.
Context {S : Type}.

Lemma resume_later_spec (h : handler S) s :
  if touches_late true h s then fst (resume_later h s) = Undef else resume_later h s = intended h s.
Proof.
  revert s. induction h as [|A m k IH|A m k IH|h IH]; intros s; simpl; [done|done| |apply IH].
  unfold bind. destruct (m s) as [[a|e| |] s']; try done. apply IH.
Qed.

Lemma handled_spec (h : handler S) s :
  if touches_late false h s then fst (handled h s) = Undef else handled h s = intended h s.
Proof.
  unfold handled, dispatch_handle_request. revert s.
  induction h as [|A m k IH|A m k IH|h IH]; intros s; simpl; [done| | |apply resume_later_spec];
    unfold bind; destruct (m s) as [[a|e| |] s']; try done; apply IH.
Qed.
End Dispatched.

(** A handler behaves as it is meant to exactly as long as it does not use its
    request after it has been suspended; from then on it uses an object that was
    destroyed when the callback of evhttp returned, whatever the handler does. *)
Theorem dispatch_outcome {S} (h : handler S) s :
  if touches_late false h s then fst (handled h s) = Undef else handled h s = intended h s.
Proof. apply handled_spec. Qed.

(** A handler that waits for anything before it answers is undefined. *)
Theorem answer_after_await_undefined {S} (wait respond : ST S unit) s a s' :
  wait s = (Val a, s') ->
  fst (handled (Suspend (Other wait (fun _ => Touch respond (fun _ => Return)))) s) = Undef.
Proof.
  intros Hw. pose proof (handled_spec (Suspend (Other wait (fun _ => Touch respond (fun _ => Return)))) s) as H.
  simpl in H. by rewrite Hw in H.
Qed.

Lemma answer_after_await_undefined_witness :
  fst (handled (Suspend (Other (modify S) (fun _ => Touch (modify S) (fun _ => Return)))) 0%nat) = Undef.
Proof. exact (answer_after_await_undefined (modify S) (modify S) 0%nat tt 1%nat eq_refl). Defined.

(** A handler that uses its request once, before it waits for anything. *)
Lemma touches_once {S A} (m : ST S A) s : touches_late false (Touch m (fun _ => Return)) s = false.
Proof. simpl. by destruct (m s) as [[a|e| |] s']. Qed.

Lemma bind_ret_tt {S} (m : ST S unit) s : (m ;;; ret tt) s = m s.
Proof. unfold bind. by destruct (m s) as [[[]|e| |] s']. Qed.

Lemma handled_once {S} (m : ST S unit) s : handled (Touch m (fun _ => Return)) s = m s.
Proof.
  pose proof (handled_spec (Touch m (fun _ => Return)) s) as H. rewrite touches_once in H.
  rewrite H. apply bind_ret_tt.
Qed.

Lemma handled_twice {S} (m n : ST S unit) s :
  handled (Suspend (Other m (fun _ => Suspend (Other n (fun _ => Return))))) s = (m ;;; n) s.
Proof.
  unfold handled, dispatch_handle_request, bind. simpl. unfold bind.
  destruct (m s) as [[a|e| |] s']; try done. by destruct (n s') as [[[]|e| |] s''].
Qed.

Lemma handled_touch_ret {S A} (a : A) k (s : S) : handled (Touch (ret a) k) s = handled (k a) s.
Proof. done. Qed.

Section Examples.
Context {O : BufferOps} {W : Type} {SO : SocketOps W}.
Context (add_header : list (bytes * bytes) -> bytes -> bytes -> list (bytes * bytes))
  (after : bytes -> bytes) (server_name : bytes).
Context (sha1 base64 : bytes -> bytes) (is_get : bool) (find_header : string -> option bytes).
Context (starts_with ends_with : bytes -> bytes -> bool) (rot13 : bytes -> bytes)
  (load_file : bytes -> bytes + bytes).

(** A computation on the connection only. *)
Lemma on_connection {A} (m : ST W A) (rq : HttpServer.request) (files : list bytes) w :
  on_snd (on_snd m) (rq, (files, w)) = (fst (m w), (rq, (files, snd (m w)))).
Proof. unfold on_snd, focus. simpl. by destruct (m w). Qed.

(** The handshake is sent exactly for a request that is accepted. *)
Lemma enable_websockets_parts w :
  enable_websockets sha1 base64 is_get find_header w =
  match accepts is_get find_header with
  | None => (Val false, w)
  | Some key => (send_handshake sha1 base64 key ;;; ret true) w
  end.
Proof.
  unfold enable_websockets, accepts, send_handshake. destruct is_get; [|done]. cbn [negb].
  destruct (find_header "Connection") as [c|]; [|done].
  destruct (find_header "Upgrade") as [u|]; [|by destruct (strcaseeq c _)].
  destruct (strcaseeq c _); [|done]. cbn [negb]. destruct (strcaseeq u _); [|done]. cbn [negb andb].
  destruct (find_header "Sec-WebSocket-Key") as [key|]; [|done]. cbv zeta.
  unfold bind. by destruct (of_out buf_new w) as [[b|e| |] w'].
Qed.

(** The handlers of both example servers are defined: neither uses its request
    after a suspension, so each does for every request what its coroutine says. *)
Theorem example_handlers_defined fuel uri path st r :
  handled (websocket_handler add_header after server_name sha1 base64 is_get find_header
    starts_with ends_with rot13 load_file fuel uri) st =
  WebsocketExample.handle_request add_header after server_name sha1 base64 is_get find_header
    starts_with ends_with rot13 load_file fuel uri st /\
  handled (example_handler add_header after server_name path) r =
  HttpExamples.handle_request add_header after server_name path r.
Proof.
  split; [|apply handled_once]. unfold websocket_handler, WebsocketExample.handle_request. cbv zeta.
  destruct (starts_with _ static_prefix); [apply handled_once|].
  destruct (starts_with _ (str "/stream")); [|apply handled_once].
  rewrite handled_touch_ret. unfold handle_stream. destruct st as [rq [files w]].
  unfold bind at 1. rewrite on_connection, enable_websockets_parts.
  destruct (accepts is_get find_header) as [key|]; [|by rewrite handled_once].
  rewrite handled_twice. unfold bind at 1. rewrite on_connection.
  destruct (send_handshake sha1 base64 key w) as [[[]|e| |] w1] eqn:E.
  - by rewrite (bind_Val _ _ _ _ _ E).
  - by rewrite (bind_Exn _ _ _ _ _ E).
  - unfold bind. by rewrite E.
  - unfold bind. by rewrite E.
Qed.
End Examples.
