(* ===== verification/CommandLines.v ===== *)
(** * The command lines of the examples

    The [main] functions of src/src/Examples up to the coroutine they start: what
    they make of their arguments, over the C library's [atoi] and [strtoull]. The
    arguments are those behind the program's name. *)
From stdpp Require Import tactics base list numbers strings gmap.
From S2P Require Import Prelude Text.

(** ** atoi and strtoull *)

Definition scan_sign (l : bytes) : bool * bytes :=
  match l with
  | Byte.x2d :: l => (true, l)
  | Byte.x2b :: l => (false, l)
  | _ => (false, l)
  end.
(** A value outside the range of [int] is undefined behaviour. *)
Definition atoi (s : bytes) : out Z :=
  let '(neg, l) := scan_sign (skip_spaces s) in
  let v := fst (scan_digits l 0) in
  let v := if (neg : bool) then - v else v in
  if (- 2 ^ 31 <=? v) && (v <? 2 ^ 31) then Val v else Undef.

Definition digit_value (b : byte) : option Z :=
  if is_digit b then Some (byte_val b - 48)
  else
    let v := byte_val (tolower b) in
    if (97 <=? v) && (v <=? 122) then Some (v - 87) else None.
Fixpoint scan_base (base : Z) (l : bytes) (acc : Z) : Z :=
  match l with
  | b :: l =>
      match digit_value b with
      | Some d => if d <? base then scan_base base l (base * acc + d) else acc
      | None => acc
      end
  | [] => acc
  end.
Definition starts_hex (l : bytes) : bool :=
  match l with
  | b :: _ => match digit_value b with Some d => d <? 16 | None => false end
  | [] => false
  end.
(** A number in hexadecimal, octal or decimal, by how it starts. *)
Definition scan_any (l : bytes) : Z :=
  match l with
  | Byte.x30 :: (Byte.x78 | Byte.x58) :: l' => if starts_hex l' then scan_base 16 l' 0 else 0
  | Byte.x30 :: l' => scan_base 8 l' 0
  | _ => fst (scan_digits l 0)
  end.
(** [strtoull(s, nullptr, 0)] *)
Definition strtoull0 (s : bytes) : Z :=
  let '(neg, l) := scan_sign (skip_spaces s) in
  let v := scan_any l in
  if 2 ^ 64 <=? v then 2 ^ 64 - 1 else if (neg : bool) then u64 (- v) else v.

(** ** The binlog statistics *)

Record Options := mkOptions {
  o_host : bytes; o_port : Z; o_username : bytes; o_password : bytes;
  o_start_filename : option bytes;      (* the pointer may be null *)
  o_start_position : Z;
  o_stats_host : bytes; o_stats_port : Z;
  o_constant_tags : gmap bytes bytes
}.
Definition Options_new : Options :=
  mkOptions (str "127.0.0.1") 3306 (str "root") (str "root") None 0 [] 8125 ∅.

(** [!strncmp(arg, prefix, strlen(prefix))]: what is behind the prefix. *)
Fixpoint after_prefix (prefix arg : bytes) : option bytes :=
  match prefix, arg with
  | [], _ => Some arg
  | a :: prefix, b :: arg => if decide (a = b) then after_prefix prefix arg else None
  | _ :: _, [] => None
  end.

Section Stats.
Context (getenv : bytes -> option bytes).

Definition parse_tag (tag : bytes) (tags : gmap bytes bytes) : gmap bytes bytes :=
  match find_sub (str "=") tag with
  | Some equals_pos => emplace tags (ztake equals_pos tag) (zdrop (equals_pos + 1) tag)
  | None => emplace tags tag []
  end.

Definition parse_option (o : Options) (arg : bytes) : out Options :=
  let '(mkOptions host port username password filename position stats_host stats_port tags) := o in
  match after_prefix (str "--host=") arg with
  | Some v => Val (mkOptions v port username password filename position stats_host stats_port tags)
  | None =>
  match after_prefix (str "--port=") arg with
  | Some v =>
      match atoi v with
      | Val n => Val (mkOptions host (u16 n) username password filename position stats_host stats_port tags)
      | _ => Undef
      end
  | None =>
  match after_prefix (str "--username=") arg with
  | Some v => Val (mkOptions host port v password filename position stats_host stats_port tags)
  | None =>
  match after_prefix (str "--password=") arg with
  | Some v => Val (mkOptions host port username v filename position stats_host stats_port tags)
  | None =>
  match after_prefix (str "--password-env=") arg with
  | Some name =>
      match getenv name with
      | Some v => Val (mkOptions host port username v filename position stats_host stats_port tags)
      | None => Exn (invalid_argument (str "environment variable specified by --password-env is not set"))
      end
  | None =>
  match after_prefix (str "--filename=") arg with
  | Some v => Val (mkOptions host port username password (Some v) position stats_host stats_port tags)
  | None =>
  match after_prefix (str "--position=") arg with
  | Some v =>
      Val (mkOptions host port username password filename (strtoull0 v) stats_host stats_port tags)
  | None =>
  match after_prefix (str "--tag=") arg with
  | Some tag =>
      Val (mkOptions host port username password filename position stats_host stats_port (parse_tag tag tags))
  | None => Exn (invalid_argument (str "unknown option"))
  end end end end end end end end.

Fixpoint parse_options (o : Options) (args : list bytes) : out Options :=
  match args with
  | [] => Val o
  | arg :: args =>
      match parse_option o arg with
      | Val o => parse_options o args
      | r => r
      end
  end.
Definition stats_main (args : list bytes) : out Options :=
  match args with
  | [] => Exn (invalid_argument (str "no arguments given"))
  | _ => parse_options Options_new args
  end.
End Stats.

(** ** The others *)

Definition out_map {A B} (f : A -> B) (o : out A) : out B :=
  match o with Val a => Val (f a) | Exn e => Exn e | Undef => Undef | NoFuel => NoFuel end.

(** The functional test of the memcache client: the port. *)
Definition memcache_test_main (args : list bytes) : out Z :=
  match args with
  | [] => Val 11211
  | [port] => out_map u16 (atoi port)
  | _ => Exn (invalid_argument (str "Usage: FunctionalTest [port]"))
  end.

(** The binlog reader: host, port, user name, password, file name and position. *)
Definition reader_main (args : list bytes) : out (bytes * Z * bytes * bytes * option bytes * Z) :=
  let start filename position host port username password :=
    out_map (fun n => (host, u16 n, username, password, filename, position)) (atoi port) in
  match args with
  | [host; port; username; password] => start None 0 host port username password
  | [host; port; username; password; filename] => start (Some filename) 0 host port username password
  | [host; port; username; password; filename; position] =>
      start (Some filename) (strtoull0 position) host port username password
  | _ => Exn (invalid_argument
           (str "Usage: BinlogReader hostname port username password [filename start_position]" ++ [Byte.x0a]))
  end.

(** The HTTP client: host, port and path. *)
Definition http_client_main (args : list bytes) : out (bytes * Z * bytes) :=
  match args with
  | [host; port; path] => out_map (fun n => (host, u16 n, path)) (atoi port)
  | _ => Exn (invalid_argument (str "Usage: HTTPClientExample hostname port request_path"))
  end.

(** The range of lookups: base address, scope bits, delay and parallelism. *)
Section Range.
Context (inet_addr : bytes -> Z) (bswap32 : Z -> Z).
Definition parse_block (arg : bytes) : out (Z * Z) :=
  match find_sub (str "/") arg with
  | Some slash_pos =>
      let addr_str := ztake slash_pos arg in
      out_map (fun n => (bswap32 (inet_addr addr_str), u8 n)) (atoi (zdrop (slash_pos + 1) arg))
  | None => Val (bswap32 (inet_addr arg), 32)
  end.
Definition range_main (args : list bytes) : out (Z * Z * Z * Z) :=
  let start block delay_usecs parallelism :=
    out_map (fun b => (fst b, snd b, delay_usecs, parallelism)) (parse_block block) in
  match args with
  | [block] => start block 1000000 1
  | [block; delay] => start block (strtoull0 delay) 1
  | [block; delay; parallelism] => start block (strtoull0 delay) (strtoull0 parallelism)
  | _ => Exn (invalid_argument
           (str "Usage: RangeReverseDNS <ip-addr>/<scope-bits> [delay-usecs [parallelism]]" ++ [Byte.x0a]))
  end.
End Range.

(** ** Numbers that are printed are read back *)

Lemma skip_spaces_digit d l : 0 <= d < 10 -> skip_spaces (digit d :: l) = digit d :: l.
Proof.
  intros Hd. cbn [skip_spaces].
  assert (d = 0 \/ d = 1 \/ d = 2 \/ d = 3 \/ d = 4 \/ d = 5 \/ d = 6 \/ d = 7 \/ d = 8 \/ d = 9) as Hc by lia.
  by destruct Hc as [->|[->|[->|[->|[->|[->|[->|[->|[->| ->]]]]]]]]].
Qed.

Lemma scan_sign_digit d l : 0 <= d < 10 -> scan_sign (digit d :: l) = (false, digit d :: l).
Proof.
  intros Hd.
  assert (d = 0 \/ d = 1 \/ d = 2 \/ d = 3 \/ d = 4 \/ d = 5 \/ d = 6 \/ d = 7 \/ d = 8 \/ d = 9) as Hc by lia.
  by destruct Hc as [->|[->|[->|[->|[->|[->|[->|[->|[->| ->]]]]]]]]].
Qed.

Lemma dec_scan n : 0 <= n -> scan_digits (dec n) 0 = (n, []).
Proof.
  intros Hn. change (dec n) with (dec0 0 n). rewrite <- (app_nil_r (dec0 0 n)). by apply scan_dec0.
Qed.

(** The first digit of a printed number is 0 for 0 only. *)
Lemma dec_first n : 0 < n -> exists d l, dec n = digit d :: l /\ 0 < d < 10.
Proof.
  intros Hn.
  assert (forall fuel n acc, 0 < n < 2 ^ Z.of_nat fuel -> (0 < fuel)%nat ->
    exists d l, dec_aux fuel n acc = digit d :: l /\ 0 < d < 10) as H.
  { clear. induction fuel as [|fuel IH]; intros n acc Hn Hf; [lia|]. cbn [dec_aux].
    pose proof (Z.mod_pos_bound n 10 ltac:(lia)). destruct (Z.ltb_spec n 10).
    - exists (n mod 10), acc. rewrite Z.mod_small by lia. split; [done|lia].
    - rewrite Nat2Z.inj_succ, Z.pow_succ_r in Hn by lia.
      destruct fuel as [|fuel']; [change (2 ^ Z.of_nat 0) with 1 in Hn; lia|].
      apply IH; [|lia]. split; [apply Z.div_str_pos; lia|apply Z.div_lt_upper_bound; lia]. }
  apply H; [|lia]. pose proof (dec_fuel n). lia.
Qed.

Lemma atoi_dec n : 0 <= n < 2 ^ 31 -> atoi (dec n) = Val n.
Proof.
  intros Hn. unfold atoi. pose proof (dec_scan n ltac:(lia)) as Hs.
  destruct (dec0_head 0 n ltac:(lia)) as (d & l & Hd & Hr). change (dec0 0 n) with (dec n) in Hd.
  rewrite Hd in *. rewrite skip_spaces_digit, scan_sign_digit, Hs by done. cbn [fst].
  destruct (Z.leb_spec (- 2 ^ 31) n); [|lia]. by destruct (Z.ltb_spec n (2 ^ 31)); [|lia].
Qed.

Lemma strtoull0_dec n : 0 <= n < 2 ^ 64 -> strtoull0 (dec n) = n.
Proof.
  intros Hn. destruct (Z.eq_dec n 0) as [->|]; [done|]. unfold strtoull0.
  pose proof (dec_scan n ltac:(lia)) as Hs. destruct (dec_first n ltac:(lia)) as (d & l & Hd & Hr).
  rewrite Hd in *. rewrite skip_spaces_digit, scan_sign_digit by lia.
  assert (scan_any (digit d :: l) = n) as ->.
  { assert (d = 1 \/ d = 2 \/ d = 3 \/ d = 4 \/ d = 5 \/ d = 6 \/ d = 7 \/ d = 8 \/ d = 9) as Hc by lia.
    transitivity (fst (scan_digits (digit d :: l) 0)); [|by rewrite Hs].
    by destruct Hc as [->|[->|[->|[->|[->|[->|[->|[->| ->]]]]]]]]. }
  by destruct (Z.leb_spec (2 ^ 64) n); [lia|].
Qed.

(** ** The options of the binlog statistics *)

Lemma after_prefix_app prefix v : after_prefix prefix (prefix ++ v) = Some v.
Proof. induction prefix as [|a prefix IH]; [done|]. cbn. by rewrite decide_True. Qed.

(** Two prefixes of which neither is one of the other. *)
Fixpoint clash (p q : bytes) : bool :=
  match p, q with
  | a :: p, b :: q => if decide (a = b) then clash p q else true
  | _, _ => false
  end.
Lemma after_prefix_clash p q v : clash p q = true -> after_prefix p (q ++ v) = None.
Proof.
  revert q. induction p as [|a p IH]; intros [|b q]; cbn; try done. destruct (decide (a = b)); [apply IH|done].
Qed.

(** The arguments that stand for options; the address for the metrics has none. *)
Definition option_args (o : Options) (tags : list (bytes * bytes)) : list bytes :=
  [str "--host=" ++ o_host o; str "--port=" ++ dec (o_port o);
   str "--username=" ++ o_username o; str "--password=" ++ o_password o;
   str "--filename=" ++ default [] (o_start_filename o);
   str "--position=" ++ dec (o_start_position o)] ++
  map (fun '(k, v) => str "--tag=" ++ k ++ str "=" ++ v) tags.
Definition options_ok (o : Options) : Prop :=
  0 <= o_port o < 2 ^ 16 /\ o_start_filename o <> None /\ 0 <= o_start_position o < 2 ^ 64 /\
  o_stats_host o = [] /\ o_stats_port o = 8125.

Lemma parse_tag_app k v tags : (Byte.x3d ∉ k) -> parse_tag (k ++ str "=" ++ v) tags = emplace tags k v.
Proof.
  intros Hk. unfold parse_tag.
  assert (find_sub (str "=") (k ++ str "=" ++ v) = Some (zlen k)) as ->.
  { induction k as [|b k IH]; [done|]. rewrite not_elem_of_cons in Hk. destruct Hk as [Hb Hk].
    cbn [app find_sub]. rewrite decide_False.
    - rewrite IH by done. cbn. by rewrite zlen_cons.
    - change (str "=") with [Byte.x3d]. intros [? H]. by injection H. }
  pose proof (zlen_nonneg k). rewrite ztake_app by done. f_equal.
  rewrite app_assoc. rewrite zdrop_app; [done|]. rewrite zlen_app. done.
Qed.

(** Which option an argument is. *)
Ltac option_prefix :=
  rewrite ?after_prefix_app;
  repeat match goal with
  | |- context [after_prefix (str ?p) (str ?q ++ ?v)] =>
      rewrite (after_prefix_clash (str p) (str q) v) by reflexivity
  end.

Section RoundTrip.
Context (getenv : bytes -> option bytes).

Lemma parse_options_app o args1 args2 o1 :
  parse_options getenv o args1 = Val o1 ->
  parse_options getenv o (args1 ++ args2) = parse_options getenv o1 args2.
Proof.
  revert o. induction args1 as [|arg args1 IH]; intros o; cbn [app parse_options].
  - by intros [= <-].
  - by destruct (parse_option getenv o arg); [apply IH|..].
Qed.

Lemma parse_options_cons o arg args o1 :
  parse_option getenv o arg = Val o1 -> parse_options getenv o (arg :: args) = parse_options getenv o1 args.
Proof. intros H. cbn [parse_options]. by rewrite H. Qed.

Ltac parse_one := unfold parse_option; option_prefix.

Lemma parse_tags host port username password filename position stats_host stats_port tags m :
  Forall (fun kv => Byte.x3d ∉ fst kv) tags ->
  parse_options getenv (mkOptions host port username password filename position stats_host stats_port m)
    (map (fun '(k, v) => str "--tag=" ++ k ++ str "=" ++ v) tags) =
  Val (mkOptions host port username password filename position stats_host stats_port (m ∪ list_to_map tags)).
Proof.
  intros Hok. revert m. induction Hok as [|[k v] tags Hk Hok IH]; intros m.
  - cbn. by rewrite right_id_L by apply _.
  - cbn [map]. erewrite parse_options_cons by (parse_one; rewrite parse_tag_app by done; done).
    by rewrite IH, emplace_union.
Qed.

(** The arguments that print options are read back as these options, in whatever
    order the tags come: the decimal numbers are not taken for octal ones, and a
    value may contain further equality signs. *)
Theorem options_round_trip o tags :
  options_ok o -> tags ≡ₚ map_to_list (o_constant_tags o) ->
  map_Forall (fun k _ => Byte.x3d ∉ k) (o_constant_tags o) ->
  stats_main getenv (option_args o tags) = Val o.
Proof.
  intros (Hport & Hf & Hpos & Hsh & Hsp) Htags Hk.
  destruct o as [host port username password [filename|] position stats_host stats_port m]; [|done].
  cbn in Hport, Hpos, Hsh, Hsp, Htags, Hk. subst stats_host stats_port.
  change (parse_options getenv Options_new (option_args (mkOptions host port username password
    (Some filename) position [] 8125 m) tags) = Val (mkOptions host port username password
    (Some filename) position [] 8125 m)). unfold option_args.
  rewrite (parse_options_app _ _ _ (mkOptions host port username password (Some filename) position [] 8125 ∅)).
  - rewrite parse_tags.
    + f_equal. f_equal. rewrite (left_id_L ∅ (∪)), <- (list_to_map_to_list m).
      apply list_to_map_proper; [|done]. rewrite Htags. apply NoDup_fst_map_to_list.
    + apply Forall_forall. intros [k v] Hin. rewrite Htags in Hin.
      apply elem_of_map_to_list in Hin. by apply (Hk k v).
  - cbn [o_host o_port o_username o_password o_start_filename o_start_position default].
    unfold Options_new. do 6 (erewrite parse_options_cons; [|parse_one; by rewrite ?atoi_dec by lia]).
    cbn [parse_options]. unfold u16. rewrite Z.mod_small by lia. by rewrite strtoull0_dec.
Qed.

(** The options that the usage text lists for the address of the metrics are
    unknown to the parser, wherever they come. *)
Theorem stats_address_rejected o args1 o1 v args2 :
  parse_options getenv o args1 = Val o1 ->
  parse_options getenv o (args1 ++ (str "--stats-" ++ v) :: args2) =
  Exn (invalid_argument (str "unknown option")).
Proof.
  intros H. rewrite (parse_options_app _ _ _ _ H). destruct o1. cbn [parse_options]. parse_one. done.
Qed.
End RoundTrip.

(** ** Witness *)

Definition sample_options : Options :=
  mkOptions (str "db1") 3307 (str "me") (str "a=b") (Some (str "bin.7")) 157 [] 8125
    {[str "role" := str "x=y"; str "dc" := []]}.

Lemma options_round_trip_witness :
  stats_main (fun _ => None)
    [str "--host=db1"; str "--port=3307"; str "--username=me"; str "--password=a=b"; str "--filename=bin.7";
     str "--position=157"; str "--tag=dc="; str "--tag=role=x=y"] = Val sample_options.
Proof.
  apply (options_round_trip (fun _ => None) sample_options [(str "dc", []); (str "role", str "x=y")]).
  - by repeat split.
  - vm_compute. first [reflexivity | apply perm_swap].
  - intros k v Hk. cbn [o_constant_tags sample_options] in Hk. apply lookup_insert_Some in Hk as [[<- _]|[_ Hk]];
      [|apply lookup_singleton_Some in Hk as [<- _]];
      vm_compute; intros Hin; repeat (apply elem_of_cons in Hin as [Hin|Hin]; [discriminate Hin|]);
      by apply elem_of_nil in Hin.
Defined.

(** Decimal, octal and hexadecimal positions. *)
Example positions : map strtoull0 [str "157"; str "0157"; str "0x9d"; str "-1"; str "x"] =
  [157; 111; 157; 2 ^ 64 - 1; 0].
Proof. reflexivity. Qed.
